(* ===== verification/_CoqProject ===== *)
-Q . S2P
Prelude.v
GoError.v
WireErrors.v
GoMonad.v
GoStrings.v
GoNet.v
WireHeader.v
WireCotp.v
WireReadWrite.v
WireSpec.v
WireSetup.v
WireSzl.v
WireBlocks.v
ModelCodec.v
ModelTypes.v
WireInspect.v
Transport.v
Sample.v
ClientTypes.v
ClientCore.v
ClientReadWrite.v
ClientConnect.v
ClientSzl.v
Identify.v
ClientBlocks.v
RangeScan.v
Traffic.v
Pool.v
Compare.v
Probe.v
Workers.v
Discover.v
