(* ===== verification/Prelude.v ===== *)
(** * Verification of the S7 protocol client

    The repository is a client library for Siemens S7 controllers in Go: it connects over
    TCP, TPKT and COTP, negotiates an S7 session, reads and writes memory areas, queries
    status lists, lists and uploads program blocks, and searches targets for the rack and
    slot they answer at.  This development models the library as pure functions and
    step relations and proves what each part promises.

    ** Parts, and where they are

    The program is layered, and so are the files.  A file requires the files of the
    layers below it.

    - Go itself.  [Prelude]: machine integers as [Z] with their wrap-around, slices as
      lists with the bounds checks of indexing and slicing, big-endian integers, strings
      and the formatting verbs.  [GoError]: the error values, [errors.Is], [errors.As] and
      the three ways a call can end ([Ok], [Err], [Panic]).  [GoMonad]: calls that thread a
      state through these, with the reasoning principles [preserves] (a relation every step
      respects), [safe] (no panic where an invariant holds) and [grows] (a bound on
      effects).  [GoStrings], [GoNet]: what is used of [strings], [time] and [net].
    - Telegrams (src/wire).  [WireErrors] (errors.go, param_error.go), [WireHeader] (s7.go),
      [WireCotp] (cotp.go), [WireReadWrite] (pdu_rw.go), [WireSetup] (pdu_setup.go),
      [WireSzl] (pdu_szl.go), [WireBlocks] (pdu_blocks.go), [WireInspect] (inspect.go).
      [WireSpec] has the encodings of the other side of the protocol, as specifications.
    - Values (src/model).  [ModelCodec] (codec/codec.go, types.go), [ModelTypes].
    - Transport (src/transport/conn.go).  [Transport]: the outside as a history of events
      and an environment that decides each outcome, contexts, and the connection objects
      on a heap.
    - Client (src/client).  [ClientTypes] (options.go, result.go, validation.go),
      [ClientCore] (client.go, handshake.go), [ClientReadWrite] (readwrite.go), [ClientSzl]
      and [Identify] (szl.go), [ClientBlocks] (blocks.go), [RangeScan] (rangescan.go).
      [ClientConnect] connects a client to a peer that accepts; [Traffic] puts the operations
      together and says what they send.
    - Searches with goroutines (src/client).  [Pool] is the pattern of a loop that starts
      one goroutine per job under a semaphore, [Compare] (compare.go) and [Probe]
      (probe.go) run on it; [Workers] is the pattern of a producer and workers joined by
      channels, [Discover] (discover.go) runs on it.

    [Sample] is a concrete peer, at which the theorems are instantiated.

    A definition has the name of the Go function or type it models, with a prefix where Go
    uses a name twice; loops, closures and parts of long functions have names of their own
    and say in a comment what they are.  A method of [*Client] is a computation over [Sys],
    the outside and the client; a method of [*transport.Conn] one over [World].

    ** What is proved

    - Telegrams: parsers accept exactly the encodings of their specification and never
      panic ([ParseS7Header_iff], [ParseReadVarResponse_iff], [ParseSZLResponse_iff]);
      encoders produce what the other side decodes to the same data
      ([EncodeReadVarRequest_decodes], [EncodeWriteVarRequest_decodes], [BuildTSAP_decode],
      [SetupComm_roundtrip], the codec's round trips).
    - Session: whatever the network, the peer, the clock and the context do, a client has
      one open connection or none ([session_invariant]), connecting either succeeds or
      changes nothing and leaks nothing ([Connect_atomic]), it does succeed with a peer that
      accepts ([Connect_serves]), a request is sent in at most one frame of the negotiated
      size and only its own response is accepted ([sendReceive_frame], [job_response_iff]),
      and rejections are classified as such ([job_response_classified]); whatever the
      operations and their order, only well-formed telegrams leave ([session_traffic],
      [client_traffic]).
    - Operations: each ends without a panic in one of its documented outcomes
      ([ReadArea_outcome], [UploadBlock_outcome], [ProbeReadableRanges_outcome],
      [ListAllBlocks_best_effort], [Identify_outcome]), and with a peer that serves its
      memory, blocks or lists it returns exactly what the peer holds ([ReadArea_serves],
      [WriteArea_serves], [UploadBlock_serves], [SZL_queries_serve], [Identify_serves],
      [ProbeReadableRanges_serves]).
    - Searches: for every interleaving, each result is that of its own job, in order, and
      gaps are explained ([CompareRead_outcome], [ProbeRackSlots_outcome],
      [Discover_outcome]); every execution is bounded, none deadlocks, and the parallelism
      is respected ([CompareRead_ends], [ProbeRackSlots_ends], [Discover_ends]).
    - Enumerations in closed form: the chunks of a transfer ([planReadChunks_spec]), the
      spans of a scan ([ConsolidateSpans_partition]), the addresses of a network
      ([streamCIDR_hosts], [streamCIDR_expandCIDR]).

    Several theorems state behaviour that the code does not mean to have, such as
    [WriteArea_odd_pdu], [block_info_index_ambiguous] and [Identify_short_record]; panics for
    the largest parameters are outcomes ([Discover_panic], [ProbeRackSlots_panic]).  Reads and
    writes are correct for addresses that the wire format can carry ([address_in_range],
    [write_in_range]); a write is read off the frames that were sent, as the peer decodes
    them ([write_frame]).

    ** Conventions

    - Integers have the width of the code: [u8], [u16], [u32] and [int] are the conversions,
      and sums that can leave [int] are wrapped.  Memory is unbounded: no length reaches
      [2 ^ 63], and [make] fails for a negative size only, not for one that no machine has
      room for, such as the buffer of [ReadArea] for an absurd size.
    - A Go type of texts with named constants is the type [string], or an inductive type with
      one more constructor for every other text ([ReadStatus]).
    - The nil slice is the empty list; where the code tells them apart the type is an
      [option].  The upper bound of a slice expression is checked against the length, which
      is what Go does when the capacity is the length and is stricter otherwise.  Lemmas show
      that the bound holds wherever it is taken, so the capacity does not matter; the one
      exception, in [Identify], has what the buffer holds beyond the slice as the parameter
      [Buffer].
    - Code outside the repository is a parameter: go-cotp is the class [Cotp] with
      [CotpLaws], go-tpkt and TCP the class [Env] with [EnvLaws], the parser of
      [InspectFrame] the class [Tpkt]; the random generator is [Rng], the [unicode] tables
      outside ASCII are [Unicode].  A theorem has the laws it uses as hypotheses.
    - A context is its polls: they depend on the history, so that it can end between any two
      steps.  What a theorem needs of it is a hypothesis ([live], [sticky]).
    - A mutex that an operation holds throughout makes it a single step of its client.
      Goroutines that share nothing but channels, a semaphore and a context are the steps of
      [pool_step] or [workers_step]; what one of them computes is what its function gives in
      some environment, since the others are part of the environment it sees.

    ** Fuel and bounds

    Loops that Go bounds by a counter recurse on the counter: an upload on 4096 chunks and 3
    attempts per chunk, a stream of addresses on their number, the pairs of a probe, whose
    ranges are validated, on their list.  The others have a fuel that every round uses up: [plan_loop] the bytes left to
    transfer, [read_items] the items announced, [diag_loop] and the text functions the bytes
    left, [probe_offsets] the addresses left; lemmas show that the loop ends before the fuel
    does.  The fuel of [expandCIDR] is an argument: its loop has no end for the network of
    all addresses, and 2^20 rounds are enough for those that discovery accepts.  So is that
    of [probeS7]: its loops over racks and slots wrap, [probe_rounds] rounds are enough for
    the ranges of [discover_in_range] ([probeS7_ends]), and none are for the largest slot
    there is ([probeS7_endless]).

    ** Not modelled

    - [isPortOpen] (discover.go), which only tests call, the [Logger] implementations and the
      contents of traces: a logger and a tracer are whether there is one.
    - The delays of the probe's loop, which only take time, and the numbers drawn for them
      (that a draw can panic is modelled); those of reads, writes and discovery are waits that
      the context can end.
    - doc.go and the examples, which are comments and programs that call the library. *)

From Stdlib Require Export ZArith Lia Bool.
From stdpp Require Export base decidable list list_numbers numbers strings pretty tactics.

Open Scope Z_scope.

(** [lia] with quotients and remainders by literals. *)
Ltac Zify.zify_post_hook ::= Z.to_euclidean_division_equations.

(** ** Machine integers

    A Go integer is a [Z] inside the range of its type; a conversion is written
    out with one of the functions below.  [int] is the 64-bit [int] of Go. *)

Definition u8 (z : Z) : Z := z mod 2 ^ 8.
Definition u16 (z : Z) : Z := z mod 2 ^ 16.
Definition u32 (z : Z) : Z := z mod 2 ^ 32.
Definition swrap (w z : Z) : Z := (z + 2 ^ (w - 1)) mod 2 ^ w - 2 ^ (w - 1).
Definition i16 (z : Z) : Z := swrap 16 z.
Definition i32 (z : Z) : Z := swrap 32 z.
Definition int (z : Z) : Z := swrap 64 z.

Abbreviation int_range z := (- 2 ^ 63 <= z < 2 ^ 63).

(** ** Bytes *)

Abbreviation bytes := (list Z).

Definition is_byte (b : Z) : Prop := 0 <= b < 256.
#[export] Instance is_byte_dec b : Decision (is_byte b).
Proof. unfold is_byte. apply _. Defined.

Abbreviation bytes_ok l := (Forall is_byte l).

(** The built-in [len] of a slice, as a Go [int]. *)
Definition len {A} (l : list A) : Z := Z.of_nat (length l).

(** [l[i]]: [None] is the run-time panic of an index out of range. *)
Definition go_index {A} (l : list A) (i : Z) : option A :=
  if 0 <=? i then l !! Z.to_nat i else None.

(** [l[a:b]]: [None] is the run-time panic of slice bounds out of range.  The
    upper bound is checked against the length, which is what Go checks for a
    slice whose capacity is its length and is stricter otherwise. *)
Definition go_slice {A} (l : list A) (a b : Z) : option (list A) :=
  if (0 <=? a) && (a <=? b) && (b <=? len l)
  then Some (take (Z.to_nat (b - a)) (drop (Z.to_nat a) l))
  else None.

(** [make([]byte, n)] *)
Definition go_make (n : Z) : bytes := replicate (Z.to_nat n) 0.

(** [binary.BigEndian] *)
Definition put_u16 (v : Z) : bytes := [u8 (Z.shiftr v 8); u8 v].
Definition get_u16 (b0 b1 : Z) : Z := Z.lor (Z.shiftl b0 8) b1.
Definition put_u32 (v : Z) : bytes :=
  [u8 (Z.shiftr v 24); u8 (Z.shiftr v 16); u8 (Z.shiftr v 8); u8 v].
Definition get_u32 (b0 b1 b2 b3 : Z) : Z :=
  Z.lor (Z.lor (Z.shiftl b0 24) (Z.shiftl b1 16)) (Z.lor (Z.shiftl b2 8) b3).

(** ** Strings

    A Go string is a sequence of bytes; [String.string] is one too. *)

Definition ascii_of_byte (b : Z) : Ascii.ascii := Ascii.ascii_of_N (Z.to_N b).
Definition byte_of_ascii (a : Ascii.ascii) : Z := Z.of_N (Ascii.N_of_ascii a).

Fixpoint string_of_bytes (l : bytes) : string :=
  match l with
  | [] => EmptyString
  | b :: l => String (ascii_of_byte b) (string_of_bytes l)
  end.

Fixpoint bytes_of_string (s : string) : bytes :=
  match s with
  | EmptyString => []
  | String a s => byte_of_ascii a :: bytes_of_string s
  end.

Definition slen (s : string) : Z := Z.of_nat (String.length s).

(** [fmt]'s [%d], [%02X] (of a byte) and [%04X] (of a [uint16]). *)
Definition dec (z : Z) : string := pretty z.
Definition hex_digit (z : Z) : string :=
  default EmptyString (go_index
    ["0"; "1"; "2"; "3"; "4"; "5"; "6"; "7"; "8"; "9"; "A"; "B"; "C"; "D"; "E"; "F"]%string z).
Definition hex02 (z : Z) : string := (hex_digit (Z.shiftr z 4) +:+ hex_digit (Z.land z 15))%string.
Definition hex04 (z : Z) : string := (hex02 (Z.shiftr z 8) +:+ hex02 (Z.land z 255))%string.

(** A Go map literal from integer codes to names, and its [m[k]] lookup. *)
Fixpoint table_lookup (t : list (Z * string)) (k : Z) : option string :=
  match t with
  | [] => None
  | (k', s) :: t => if k =? k' then Some s else table_lookup t k
  end.

#[global] Arguments u8 : simpl never.
#[global] Arguments u16 : simpl never.
#[global] Arguments u32 : simpl never.
#[global] Arguments int : simpl never.
#[global] Arguments len : simpl never.
#[global] Arguments go_slice : simpl never.
#[global] Arguments go_index : simpl never.
#[global] Arguments get_u16 : simpl never.
#[global] Arguments put_u16 : simpl never.
#[global] Arguments put_u32 : simpl never.
#[global] Arguments get_u32 : simpl never.
#[global] Arguments dec : simpl never.
#[global] Arguments hex02 : simpl never.
#[global] Arguments hex04 : simpl never.

(** ** Lemmas on machine integers *)

Lemma u8_small z : 0 <= z < 256 -> u8 z = z.
Proof. apply Z.mod_small. Qed.
Lemma u16_small z : 0 <= z < 65536 -> u16 z = z.
Proof. apply Z.mod_small. Qed.
Lemma u8_range z : 0 <= u8 z < 256.
Proof. by apply Z.mod_pos_bound. Qed.
Lemma u16_range z : 0 <= u16 z < 65536.
Proof. by apply Z.mod_pos_bound. Qed.
Lemma u32_range z : 0 <= u32 z < 4294967296.
Proof. by apply Z.mod_pos_bound. Qed.
Lemma u16_u32 z : u16 (u32 z) = u16 z.
Proof.
  unfold u16, u32. change (2 ^ 32) with (2 ^ 16 * 2 ^ 16).
  rewrite Z.rem_mul_r, Z.mul_comm, Z.mod_add by lia. by apply Z.mod_mod.
Qed.
Lemma int_small z : int_range z -> int z = z.
Proof. intros ?. unfold int, swrap. rewrite Z.mod_small; lia. Qed.

(** [int] agrees with its argument modulo every power of two up to [2 ^ 64],
    so a value that is only used through its low bits may wrap freely. *)
Lemma int_mod z k : 0 <= k <= 64 -> int z mod 2 ^ k = z mod 2 ^ k.
Proof.
  intros Hk. unfold int, swrap.
  assert (Hd : 2 ^ 64 = 2 ^ k * 2 ^ (64 - k)) by (rewrite <- Z.pow_add_r; [f_equal|..]; lia).
  rewrite Zminus_mod, Hd, Z.rem_mul_r by lia.
  rewrite (Z.mul_comm (2 ^ k)), Z.mod_add by lia.
  rewrite Z.mod_mod by lia. rewrite <- Zminus_mod. f_equal; lia.
Qed.


(** [a lor b] is [a + b] when [b] fits below the trailing zeros of [a]. *)
Lemma lor_add a b k : 0 <= k -> 0 <= b < 2 ^ k -> Z.lor (a * 2 ^ k) b = a * 2 ^ k + b.
Proof.
  intros Hk Hb.
  assert (Z.land (a * 2 ^ k) b = 0) as H0.
  { apply Z.bits_inj'. intros n Hn. rewrite Z.land_spec, Z.bits_0.
    destruct (decide (n < k)).
    - by rewrite Z.mul_pow2_bits_low by lia.
    - rewrite <- (Z.mod_small b (2 ^ k)) by lia.
      rewrite Z.mod_pow2_bits_high by lia. apply andb_false_r. }
  rewrite <- Z.lxor_lor by done. symmetry. by apply Z.add_nocarry_lxor.
Qed.

Lemma get_u16_eq b0 b1 : is_byte b1 -> get_u16 b0 b1 = b0 * 256 + b1.
Proof.
  unfold is_byte, get_u16. intros H1. rewrite Z.shiftl_mul_pow2 by lia.
  by apply (lor_add b0 b1 8).
Qed.

Lemma put_u16_eq v : put_u16 v = [v / 256 mod 256; v mod 256].
Proof. unfold put_u16, u8. by rewrite Z.shiftr_div_pow2. Qed.

Lemma get_put_u16 v : get_u16 (u8 (Z.shiftr v 8)) (u8 v) = u16 v.
Proof.
  rewrite get_u16_eq by apply u8_range. unfold u8, u16.
  rewrite Z.shiftr_div_pow2 by lia.
  change (2 ^ 16) with (2 ^ 8 * 2 ^ 8). rewrite Z.rem_mul_r by lia. lia.
Qed.

Lemma put_get_u16 b0 b1 : is_byte b0 -> is_byte b1 -> put_u16 (get_u16 b0 b1) = [b0; b1].
Proof.
  unfold is_byte. intros H0 H1. rewrite get_u16_eq, put_u16_eq by done.
  f_equal; [|f_equal]; lia.
Qed.

Lemma u8_hi_get_u16 b0 b1 : is_byte b0 -> is_byte b1 -> u8 (Z.shiftr (get_u16 b0 b1) 8) = b0.
Proof. intros. by pose proof (put_get_u16 b0 b1 ltac:(done) ltac:(done)) as [=]. Qed.
Lemma u8_lo_get_u16 b0 b1 : is_byte b0 -> is_byte b1 -> u8 (get_u16 b0 b1) = b1.
Proof. intros. by pose proof (put_get_u16 b0 b1 ltac:(done) ltac:(done)) as [=]. Qed.

Lemma get_u16_range b0 b1 : is_byte b0 -> is_byte b1 -> 0 <= get_u16 b0 b1 < 65536.
Proof. unfold is_byte. intros ??. rewrite get_u16_eq by done. lia. Qed.

Lemma get_u32_eq b0 b1 b2 b3 : is_byte b1 -> is_byte b2 -> is_byte b3 ->
  get_u32 b0 b1 b2 b3 = get_u16 b0 b1 * 65536 + get_u16 b2 b3.
Proof.
  intros H1 H2 H3. pose proof (get_u16_range b2 b3 H2 H3).
  unfold get_u32. fold (get_u16 b2 b3).
  change 65536 with (2 ^ 16). rewrite <- (lor_add _ (get_u16 b2 b3) 16) by lia. f_equal.
  unfold get_u16. rewrite <- Z.shiftl_mul_pow2, Z.shiftl_lor by lia.
  by rewrite Z.shiftl_shiftl by lia.
Qed.

Lemma get_put_u32 v :
  get_u32 (u8 (Z.shiftr v 24)) (u8 (Z.shiftr v 16)) (u8 (Z.shiftr v 8)) (u8 v) = u32 v.
Proof.
  rewrite get_u32_eq by apply u8_range. rewrite get_put_u16.
  replace (Z.shiftr v 24) with (Z.shiftr (Z.shiftr v 16) 8) by (by rewrite Z.shiftr_shiftr).
  rewrite get_put_u16. unfold u16, u32. rewrite Z.shiftr_div_pow2 by lia.
  change (2 ^ 32) with (2 ^ 16 * 2 ^ 16). rewrite Z.rem_mul_r by lia. lia.
Qed.

Lemma put_get_u32 b0 b1 b2 b3 : bytes_ok [b0; b1; b2; b3] ->
  put_u32 (get_u32 b0 b1 b2 b3) = [b0; b1; b2; b3].
Proof.
  intros H. repeat (apply Forall_cons_1 in H as [? H]).
  rewrite get_u32_eq, !get_u16_eq by done. clear H. unfold is_byte in *.
  unfold put_u32, u8. rewrite !Z.shiftr_div_pow2 by lia.
  repeat f_equal; lia.
Qed.

Lemma bytes_ok_put_u16 v : bytes_ok (put_u16 v).
Proof. repeat constructor; apply u8_range. Qed.
Lemma bytes_ok_put_u32 v : bytes_ok (put_u32 v).
Proof. repeat constructor; apply u8_range. Qed.

(** [int16]/[uint16] and [int32]/[uint32] conversions are mutually inverse. *)
Lemma swrap_range w z : 0 < w -> - 2 ^ (w - 1) <= swrap w z < 2 ^ (w - 1).
Proof.
  intros Hw. unfold swrap.
  assert (2 ^ w = 2 * 2 ^ (w - 1)) by (rewrite <- Z.pow_succ_r by lia; f_equal; lia).
  assert (0 < 2 ^ (w - 1)) by (apply Z.pow_pos_nonneg; lia).
  pose proof (Z.mod_pos_bound (z + 2 ^ (w - 1)) (2 ^ w) ltac:(lia)). lia.
Qed.

Lemma swrap_mod w z : 0 < w -> - 2 ^ (w - 1) <= z < 2 ^ (w - 1) -> swrap w (z mod 2 ^ w) = z.
Proof.
  intros Hw Hz. unfold swrap.
  assert (2 ^ w = 2 * 2 ^ (w - 1)) by (rewrite <- Z.pow_succ_r by lia; f_equal; lia).
  rewrite Zplus_mod_idemp_l. rewrite Z.mod_small; lia.
Qed.

(** ** Lemmas on lengths, indexing and slicing *)

Section Slices.
Context {A : Type}.
Implicit Types l : list A.

Lemma len_nonneg l : 0 <= len l.
Proof. unfold len. lia. Qed.
Lemma len_nil : len (@nil A) = 0.
Proof. done. Qed.
Lemma len_cons x l : len (x :: l) = 1 + len l.
Proof. unfold len. cbn. lia. Qed.
Lemma len_app l1 l2 : len (l1 ++ l2) = len l1 + len l2.
Proof. unfold len. rewrite length_app. lia. Qed.
Lemma len_take n l : len (take n l) = Z.min (Z.of_nat n) (len l).
Proof. unfold len. rewrite length_take. lia. Qed.
Lemma len_drop n l : len (drop n l) = Z.max 0 (len l - Z.of_nat n).
Proof. unfold len. rewrite length_drop. lia. Qed.
Lemma len_replicate n (x : A) : len (replicate n x) = Z.of_nat n.
Proof. unfold len. by rewrite length_replicate. Qed.
Lemma len_reverse l : len (reverse l) = len l.
Proof. unfold len. by rewrite length_reverse. Qed.
Lemma len_option_list_Some (x : A) : len (option_list (Some x)) = 1.
Proof. done. Qed.
Lemma len_option_list_None : len (option_list (@None A)) = 0.
Proof. done. Qed.
Lemma len_0_nil l : len l = 0 -> l = [].
Proof. destruct l; [done|]. rewrite len_cons. pose proof (len_nonneg l). lia. Qed.

Lemma go_index_lookup l i : 0 <= i -> go_index l i = l !! Z.to_nat i.
Proof. intros. unfold go_index. by rewrite (proj2 (Z.leb_le 0 i)). Qed.
Lemma go_index_neg l i : i < 0 -> go_index l i = None.
Proof. intros. unfold go_index. by rewrite (proj2 (Z.leb_gt 0 i)). Qed.
Lemma go_index_nil i : go_index (@nil A) i = None.
Proof. unfold go_index. by destruct (0 <=? i). Qed.
Lemma go_index_Some l i : 0 <= i < len l -> is_Some (go_index l i).
Proof.
  unfold len. intros Hi. rewrite go_index_lookup by lia. apply lookup_lt_is_Some. lia.
Qed.
Lemma go_index_inv l i x : go_index l i = Some x -> 0 <= i < len l /\ l !! Z.to_nat i = Some x.
Proof.
  intros H. destruct (decide (0 <= i)); [|by rewrite go_index_neg in H by lia].
  rewrite go_index_lookup in H by done. split; [|done].
  apply lookup_lt_Some in H. unfold len. lia.
Qed.
Lemma go_index_app_r l1 l2 i : len l1 <= i -> go_index (l1 ++ l2) i = go_index l2 (i - len l1).
Proof.
  unfold len. intros Hi. rewrite !go_index_lookup by lia.
  rewrite lookup_app_r by lia. f_equal. lia.
Qed.

Lemma go_index_app_plus l1 l2 i k : i = len l1 + k -> 0 <= k ->
  go_index (l1 ++ l2) i = go_index l2 k.
Proof. intros -> Hk. rewrite go_index_app_r by lia. f_equal. lia. Qed.
Lemma go_slice_app_plus l1 l2 a b k m : a = len l1 + k -> b = len l1 + m -> 0 <= k ->
  go_slice (l1 ++ l2) a b = go_slice l2 k m.
Proof.
  intros -> -> Hk. unfold go_slice. pose proof (len_nonneg l1). rewrite len_app.
  rewrite (proj2 (Z.leb_le 0 (len l1 + k))), (proj2 (Z.leb_le 0 k)) by lia.
  replace (len l1 + k <=? len l1 + m) with (k <=? m) by (apply eq_bool_prop_intro; rewrite !Is_true_true, !Z.leb_le; lia).
  replace (len l1 + m <=? len l1 + len l2) with (m <=? len l2) by (apply eq_bool_prop_intro; rewrite !Is_true_true, !Z.leb_le; lia).
  destruct ((true && (k <=? m)) && (m <=? len l2)); [|done]. do 2 f_equal; [lia|].
  rewrite drop_app_ge by (unfold len; lia). f_equal. unfold len. lia.
Qed.

Lemma go_slice_in l a b : 0 <= a -> a <= b -> b <= len l ->
  go_slice l a b = Some (take (Z.to_nat (b - a)) (drop (Z.to_nat a) l)).
Proof.
  intros Ha Hb Hc. unfold go_slice.
  by rewrite (proj2 (Z.leb_le 0 a)), (proj2 (Z.leb_le a b)), (proj2 (Z.leb_le b _)).
Qed.
Lemma go_slice_from l a : 0 <= a <= len l -> go_slice l a (len l) = Some (drop (Z.to_nat a) l).
Proof.
  intros Ha. rewrite go_slice_in by lia. f_equal. apply take_ge.
  rewrite length_drop. unfold len in *. lia.
Qed.
Lemma go_slice_full l : go_slice l 0 (len l) = Some l.
Proof.
  rewrite go_slice_in by (pose proof (len_nonneg l); lia). f_equal.
  rewrite drop_0. apply take_ge. unfold len. lia.
Qed.
Lemma go_slice_Some l a b l' : go_slice l a b = Some l' ->
  0 <= a <= b /\ b <= len l /\ l' = take (Z.to_nat (b - a)) (drop (Z.to_nat a) l)
  /\ len l' = b - a.
Proof.
  unfold go_slice. intros H.
  destruct ((0 <=? a) && (a <=? b) && (b <=? len l)) eqn:E; [|done].
  rewrite !andb_true_iff, !Z.leb_le in E. destruct E as [[??]?]. injection H as <-.
  repeat split; try lia. rewrite len_take, len_drop. lia.
Qed.
(** The middle part of an append, selected by its offsets. *)
Lemma go_slice_mid l1 l2 l3 a b : a = len l1 -> b = len l1 + len l2 ->
  go_slice (l1 ++ l2 ++ l3) a b = Some l2.
Proof.
  intros -> ->. pose proof (len_nonneg l1). pose proof (len_nonneg l2).
  pose proof (len_nonneg l3).
  rewrite go_slice_in by (rewrite ?len_app; lia). f_equal.
  rewrite drop_app_length' by (unfold len; lia).
  rewrite take_app_length' by (unfold len; lia). done.
Qed.
Lemma go_slice_tail l1 l2 a b : a = len l1 -> b = len l1 + len l2 ->
  go_slice (l1 ++ l2) a b = Some l2.
Proof. intros. rewrite <- (app_nil_r l2) at 1. by apply go_slice_mid. Qed.
Lemma go_slice_head l1 l2 b : b = len l1 -> go_slice (l1 ++ l2) 0 b = Some l1.
Proof. intros. by apply (go_slice_mid [] l1 l2). Qed.
End Slices.

Lemma map_seqZ_succ {B} (f : Z -> B) a n :
  map f (seqZ (Z.succ a) n) = map (fun k => f (k + 1)) (seqZ a n).
Proof.
  replace (Z.succ a) with (1 + a) by lia. rewrite <- (fmap_add_seqZ 1).
  change (map f) with (fmap (M:=list) f). rewrite <- list_fmap_compose.
  apply list_fmap_ext. intros. cbn. f_equal. lia.
Qed.

Lemma alter_insert {A} (f : A -> A) (l : list A) i x :
  l !! i = Some x -> alter f i l = <[i := f x]> l.
Proof.
  intros Hx. rewrite list_insert_alter. apply list_alter_ext; [|done].
  intros y Hy. rewrite Hx in Hy. by injection Hy as ->.
Qed.

Lemma split_at {A} (l : list A) off : 0 <= off <= len l ->
  exists pre tl, l = pre ++ tl /\ off = len pre.
Proof.
  intros H. exists (take (Z.to_nat off) l), (drop (Z.to_nat off) l).
  split; [by rewrite take_drop|]. rewrite len_take. lia.
Qed.

Lemma len_put_u16 v : len (put_u16 v) = 2.
Proof. done. Qed.
Lemma len_put_u32 v : len (put_u32 v) = 4.
Proof. done. Qed.
Lemma len_go_make n : 0 <= n -> len (go_make n) = n.
Proof. intros. unfold go_make. rewrite len_replicate. lia. Qed.
Lemma len_map {A B} (f : A -> B) l : len (map f l) = len l.
Proof. unfold len. by rewrite length_map. Qed.

Lemma bytes_ok_app (l1 l2 : bytes) : bytes_ok (l1 ++ l2) <-> bytes_ok l1 /\ bytes_ok l2.
Proof. apply Forall_app. Qed.
Lemma bytes_ok_slice (l l' : bytes) a b : bytes_ok l -> go_slice l a b = Some l' -> bytes_ok l'.
Proof. intros Hl (_ & _ & -> & _)%go_slice_Some. by apply Forall_take, Forall_drop. Qed.
Lemma bytes_ok_index (l : bytes) i b : bytes_ok l -> go_index l i = Some b -> is_byte b.
Proof.
  intros Hl [_ H]%go_index_inv. by eapply Forall_lookup_1.
Qed.

(** ** Lemmas on strings *)

Lemma byte_of_ascii_of_byte b : is_byte b -> byte_of_ascii (ascii_of_byte b) = b.
Proof.
  unfold is_byte, byte_of_ascii, ascii_of_byte. intros H.
  rewrite Ascii.N_ascii_embedding by lia. lia.
Qed.
Lemma ascii_of_byte_of_ascii a : ascii_of_byte (byte_of_ascii a) = a.
Proof. unfold byte_of_ascii, ascii_of_byte. rewrite N2Z.id. apply Ascii.ascii_N_embedding. Qed.

Lemma bytes_of_string_of_bytes l : bytes_ok l -> bytes_of_string (string_of_bytes l) = l.
Proof.
  induction 1 as [|b l Hb Hl IH]; cbn; [done|]. by rewrite byte_of_ascii_of_byte, IH.
Qed.
Lemma string_of_bytes_of_string s : string_of_bytes (bytes_of_string s) = s.
Proof. induction s as [|a s IH]; cbn; [done|]. by rewrite ascii_of_byte_of_ascii, IH. Qed.
Lemma bytes_of_string_ok s : bytes_ok (bytes_of_string s).
Proof.
  induction s as [|a s IH]; constructor; [|done].
  unfold is_byte, byte_of_ascii. pose proof (Ascii.N_ascii_bounded a). lia.
Qed.
Lemma len_bytes_of_string s : len (bytes_of_string s) = slen s.
Proof. unfold slen. induction s as [|a s IH]; cbn -[Z.of_nat]; [done|]. rewrite len_cons. lia. Qed.

(** ** Automation

    [len] normalises lengths and closes the arithmetic that is left; [slices]
    resolves the slice expressions that are within bounds. *)

Create Rewrite HintDb len.
#[export] Hint Rewrite @len_nil @len_cons @len_app @len_take @len_drop @len_replicate
  @len_reverse @len_map @len_option_list_Some @len_option_list_None len_put_u16 len_put_u32 : len.

Ltac len_nonneg_all :=
  repeat match goal with
  | |- context [len ?l] => lazymatch goal with
      | _ : 0 <= len l |- _ => fail | _ => pose proof (len_nonneg l) end
  | _ : context [len ?l] |- _ => lazymatch goal with
      | _ : 0 <= len l |- _ => fail | _ => pose proof (len_nonneg l) end
  end.
Ltac len := autorewrite with len in *; len_nonneg_all; try lia.

(** Evaluate [Z.to_nat] at closed arguments. *)
Ltac znat :=
  repeat match goal with
  | |- context [Z.to_nat ?c] =>
      let c' := eval cbv in c in
      lazymatch isZcst c' with
      | true => let n := eval cbv in (Z.to_nat c') in change (Z.to_nat c) with n
      end
  end.
(** Evaluate the indexing of explicit lists at literal positions. *)
Ltac indices := cbv [go_index]; cbn [Z.leb Z.compare]; znat; cbn.
Ltac slices :=
  repeat first [rewrite go_slice_from by len | rewrite go_slice_in by len];
  znat; cbn [take drop]; rewrite ?drop_0, ?take_0.

(** Name the first [n] elements of a list that is long enough. *)
Ltac peel l n :=
  lazymatch n with
  | O => idtac
  | S ?n => destruct l as [|? l]; [exfalso; len|peel l n]
  end.

Create HintDb bytes.
#[export] Hint Resolve u8_range u16_range bytes_ok_put_u16 bytes_ok_put_u32
  bytes_ok_slice bytes_ok_index bytes_of_string_ok Forall_nil_2 Forall_cons_2 : bytes.
#[export] Hint Extern 1 (is_byte _) => (apply u8_range) : bytes.
#[export] Hint Extern 2 (is_byte _) => (unfold is_byte; lia) : bytes.
#[export] Hint Extern 3 (is_byte ?b) => (is_const b; unfold b, is_byte; lia) : bytes.
#[export] Hint Extern 1 (Forall is_byte (_ ++ _)) => (apply bytes_ok_app; split) : bytes.

(** Case analysis on the boolean comparison at the head of the goal, with the
    comparison turned into the corresponding fact on [Z]. *)
Ltac zify_bool :=
  repeat match goal with
  | H : (_ =? _) = true |- _ => apply Z.eqb_eq in H
  | H : (_ =? _) = false |- _ => apply Z.eqb_neq in H
  | H : (_ <? _) = true |- _ => apply Z.ltb_lt in H
  | H : (_ <? _) = false |- _ => apply Z.ltb_ge in H
  | H : (_ <=? _) = true |- _ => apply Z.leb_le in H
  | H : (_ <=? _) = false |- _ => apply Z.leb_gt in H
  | H : (_ && _) = true |- _ => apply andb_true_iff in H; destruct H
  | H : (_ || _) = false |- _ => apply orb_false_iff in H; destruct H
  | H : negb _ = true |- _ => apply negb_true_iff in H
  | H : negb _ = false |- _ => apply negb_false_iff in H
  end.
Ltac case_if :=
  match goal with
  | |- context [if ?b then _ else _] => destruct b eqn:?; zify_bool
  | _ : context [if ?b then _ else _] |- _ => destruct b eqn:?; zify_bool
  end.
