(* ===== verification/GoError.v ===== *)
(** * Go errors and results

    The error values the program builds, with [Error()], [errors.Is] and
    [errors.As] as functions on them, and the three ways a Go call can end:
    with a value, with a non-nil error, or with a run-time panic. *)

From S2P Require Import Prelude.

(** ** Error values *)

(** Package-level [errors.New] variables (compared by identity), with the two
    [context] errors of the standard library. *)
Inductive sentinel :=
  | ErrShortS7Header
  | ErrInvalidS7ProtocolID
  | ErrShortS7AckHeader
  | ErrS7PayloadLength
  | ErrTruncatedItemHeader
  | ErrTruncatedItemPayload
  | ErrInvalidParamLength
  | ErrInvalidDataLength
  | ErrNotConnected
  | ErrProtocolFailure
  | ErrRequestExceedsPDU
  | ErrNilReadResult
  | ErrConnectionNotEstablished
  | DeadlineExceeded
  | Canceled.

#[export] Instance sentinel_eq_dec : EqDecision sentinel.
Proof. solve_decision. Defined.

Definition sentinel_text (s : sentinel) : string :=
  match s with
  | ErrShortS7Header => "data too short for S7 header"
  | ErrInvalidS7ProtocolID => "invalid S7 protocol ID"
  | ErrShortS7AckHeader => "data too short for S7 ack header"
  | ErrS7PayloadLength => "S7 payload shorter than parameter/data lengths"
  | ErrTruncatedItemHeader => "read response item header truncated"
  | ErrTruncatedItemPayload => "read response item payload truncated or overrun"
  | ErrInvalidParamLength => "invalid parameter section length"
  | ErrInvalidDataLength => "invalid data section length"
  | ErrNotConnected => "not connected"
  | ErrProtocolFailure => "protocol failure"
  | ErrRequestExceedsPDU => "request exceeds negotiated PDU size"
  | ErrNilReadResult => "read result is nil"
  | ErrConnectionNotEstablished => "connection not established"
  | DeadlineExceeded => "context deadline exceeded"
  | Canceled => "context canceled"
  end.

(** [*wire.S7Error] *)
Record S7Error := { S7Error_Class : Z; S7Error_Code : Z; S7Error_Message : string }.

Inductive error :=
  | ESentinel (s : sentinel)
  | EMsg (msg : string)                    (* fmt.Errorf without %w *)
  | EWrap (pre : string) (e : error) (post : string)   (* fmt.Errorf with one %w *)
  | EJoin (es : list error)                (* errors.Join *)
  | ES7 (e : S7Error)                      (* *wire.S7Error *)
  | EUnsupportedSyntax (raw : Z)           (* *wire.UnsupportedSyntaxError *)
  | EValidation (msg : string)             (* *client.ValidationError *)
  | EPDURefMismatch (expected got : Z)     (* *client.PDURefMismatchError *)
  | EReadOutcome (msg : string) (cause : option error) (* *client.ReadOutcomeError *)
  (* an error made outside the module: its text, its Timeout() when it is a
     net.Error, and what it wraps *)
  | EExt (msg : string) (timeout : option bool) (inner : list error).

(** [hexByte] of the wire package. *)
Definition hexByte (b : Z) : string := hex02 b.

(** [Error] of [S7Error]. *)
Definition S7Error_Error (e : S7Error) : string :=
  if bool_decide (S7Error_Message e ≠ "")
  then S7Error_Message e
  else "S7 error: class=0x" +:+ hex02 (S7Error_Class e) +:+ ", code=0x" +:+ hex02 (S7Error_Code e).

Definition newline : string := String (ascii_of_byte 10) EmptyString.

Fixpoint join_lines (l : list string) : string :=
  match l with
  | [] => ""
  | [s] => s
  | s :: l => s +:+ newline +:+ join_lines l
  end.

(** [err.Error()] *)
Fixpoint error_text (e : error) : string :=
  match e with
  | ESentinel s => sentinel_text s
  | EMsg msg => msg
  | EWrap pre e post => pre +:+ error_text e +:+ post
  | EJoin es => join_lines (map error_text es)
  | ES7 e => S7Error_Error e
  | EUnsupportedSyntax raw => "unsupported syntax ID 0x" +:+ hexByte raw
  | EValidation msg => msg
  | EPDURefMismatch expected got =>
      "S7 response PDU ref mismatch: expected " +:+ dec expected +:+ ", got " +:+ dec got
  | EReadOutcome msg _ => msg
  | EExt msg _ _ => msg
  end.

(** [errors.Is(err, target)] for a sentinel target: a depth-first search of the
    tree of wrapped errors. *)
Fixpoint errors_Is (e : error) (target : sentinel) : bool :=
  match e with
  | ESentinel s => bool_decide (s = target)
  | EWrap _ e _ => errors_Is e target
  | EJoin es => existsb (fun e => errors_Is e target) es
  | EReadOutcome _ (Some e) => errors_Is e target
  | EExt _ _ es => existsb (fun e => errors_Is e target) es
  | _ => false
  end.

(** First match of a depth-first search, the traversal of [errors.As]. *)
Definition first_some {A B} (f : A -> option B) : list A -> option B :=
  fix go l := match l with
  | [] => None
  | x :: l => match f x with Some b => Some b | None => go l end
  end.

(** [errors.As(err, &s7Err)] with [s7Err] a [*wire.S7Error]. *)
Fixpoint errors_As_S7 (e : error) : option S7Error :=
  match e with
  | ES7 e => Some e
  | EWrap _ e _ => errors_As_S7 e
  | EJoin es => first_some errors_As_S7 es
  | EReadOutcome _ (Some e) => errors_As_S7 e
  | EExt _ _ es => first_some errors_As_S7 es
  | _ => None
  end.

(** [errors.As(err, &netErr)] followed by [netErr.Timeout()].
    [context.DeadlineExceeded] is itself a [net.Error] that reports a timeout. *)
Fixpoint errors_As_net (e : error) : option bool :=
  match e with
  | ESentinel DeadlineExceeded => Some true
  | EWrap _ e _ => errors_As_net e
  | EJoin es => first_some errors_As_net es
  | EReadOutcome _ (Some e) => errors_As_net e
  | EExt _ (Some t) _ => Some t
  | EExt _ None es => first_some errors_As_net es
  | _ => None
  end.

(** [errors.As(err, &v)] with [v] a [*ValidationError]. *)
Fixpoint errors_As_Validation (e : error) : bool :=
  match e with
  | EValidation _ => true
  | EWrap _ e _ => errors_As_Validation e
  | EJoin es => existsb errors_As_Validation es
  | EReadOutcome _ (Some e) => errors_As_Validation e
  | EExt _ _ es => existsb errors_As_Validation es
  | _ => false
  end.

(** ** Results *)

Inductive res (A : Type) :=
  | Ok (a : A)
  | Err (e : error)
  | Panic.
Arguments Ok {A} a.
Arguments Err {A} e.
Arguments Panic {A}.

Definition res_bind {A B} (m : res A) (k : A -> res B) : res B :=
  match m with Ok a => k a | Err e => Err e | Panic => Panic end.

(** [if err != nil { return ..., f(err) }] *)
Definition map_err {A} (f : error -> error) (m : res A) : res A :=
  match m with Err e => Err (f e) | _ => m end.

(** A run-time check: [None] panics. *)
Definition checked {A} (o : option A) : res A :=
  match o with Some a => Ok a | None => Panic end.

(** The result of a call outside the module. *)
Definition of_ext {A} (r : error + A) : res A :=
  match r with inl e => Err e | inr a => Ok a end.

(** A call that panics on no input. *)
Definition no_panic {A} (m : res A) : bool :=
  match m with Panic => false | _ => true end.
Definition is_ok {A} (m : res A) : bool :=
  match m with Ok _ => true | _ => false end.

Declare Scope res_scope.
Delimit Scope res_scope with res.
Notation "'let?' x := m 'in' k" := (res_bind m (fun x => k))
  (at level 10, x name, m at level 100, k at level 200) : res_scope.
Notation "'let?' ' p := m 'in' k" := (res_bind m (fun x => match x with p => k end))
  (at level 10, p pattern, m at level 100, k at level 200) : res_scope.
Notation "'let!' x := o 'in' k" := (res_bind (checked o) (fun x => k))
  (at level 10, x name, o at level 100, k at level 200) : res_scope.

Open Scope res_scope.

(** ** Lemmas *)

Lemma res_bind_Ok {A B} (m : res A) (k : A -> res B) b :
  res_bind m k = Ok b <-> exists a, m = Ok a /\ k a = Ok b.
Proof. destruct m; cbn; naive_solver. Qed.

Lemma no_panic_bind {A B} (m : res A) (k : A -> res B) :
  no_panic m = true -> (forall a, m = Ok a -> no_panic (k a) = true) ->
  no_panic (res_bind m k) = true.
Proof. destruct m; cbn; naive_solver. Qed.

Lemma checked_Ok {A} (o : option A) a : checked o = Ok a <-> o = Some a.
Proof. destruct o; cbn; naive_solver. Qed.

Lemma map_err_Ok {A} f (m : res A) a : map_err f m = Ok a <-> m = Ok a.
Proof. destruct m; cbn; naive_solver. Qed.

Lemma of_ext_Ok {A} (r : error + A) a : of_ext r = Ok a <-> r = inr a.
Proof. destruct r; cbn; naive_solver. Qed.
Lemma of_ext_no_panic {A} (r : error + A) : no_panic (of_ext r) = true.
Proof. by destruct r. Qed.
Lemma map_err_no_panic {A} f (m : res A) : no_panic (map_err f m) = no_panic m.
Proof. by destruct m. Qed.

Create HintDb go.
#[export] Hint Resolve no_panic_bind : go.

(** Invert the binds and run-time checks of a computation that returned. *)
Ltac inv_ok :=
  repeat match goal with
  | H : res_bind _ _ = Ok _ |- _ =>
      let a := fresh "a" in apply res_bind_Ok in H as (a & ? & H)
  | H : checked _ = Ok _ |- _ => apply checked_Ok in H
  | H : map_err _ _ = Ok _ |- _ => apply map_err_Ok in H
  | H : Ok _ = Ok _ |- _ => injection H as H
  | H : Err _ = Ok _ |- _ => discriminate H
  | H : Panic = Ok _ |- _ => discriminate H
  end.
