(* ===== verification/WireErrors.v ===== *)
(** * wire/errors.go and wire/param_error.go

    S7 error classes, item return codes and the 16-bit parameter error code,
    and the [S7Error] values built from them. *)

From S2P Require Import Prelude GoError.

(** ** S7 error classes *)

Definition ErrClassNoError := 0x00.
Definition ErrClassApp := 0x81.
Definition ErrClassObject := 0x82.
Definition ErrClassResource := 0x83.
Definition ErrClassService := 0x84.
Definition ErrClassSupplies := 0x85.
Definition ErrClassAccess := 0x87.

(** [errClassNames] *)
Definition errClassNames : list (Z * string) :=
  [ (ErrClassNoError, "No error");
    (ErrClassApp, "Application relationship");
    (ErrClassObject, "Object definition");
    (ErrClassResource, "No resources available");
    (ErrClassService, "Error on service processing");
    (ErrClassSupplies, "Error on supplies");
    (ErrClassAccess, "Access error") ].

Definition ErrClassString (class : Z) : string :=
  match table_lookup errClassNames class with
  | Some s => s
  | None => "class 0x" +:+ hex02 class
  end.

(** ** Return codes of read and write items *)

Definition RetCodeSuccess := 0xFF.
Definition RetCodeHWFault := 0x01.
Definition RetCodeAccessFault := 0x03.
Definition RetCodeAddressFault := 0x05.
Definition RetCodeDataTypeFault := 0x06.
Definition RetCodeDataSizeFault := 0x07.
Definition RetCodeBusy := 0x09.
Definition RetCodeNotAvailable := 0x0A.

Definition HeaderErrorString (class code : Z) : string :=
  if class =? ErrClassNoError then
    if code =? 0 then ""
    else "header error class=0x" +:+ hex02 class +:+ " code=0x" +:+ hex02 code
  else if class =? ErrClassAccess then
    if code =? 0x00 then "no access rights"
    else if code =? 0x01 then "invalid address"
    else if code =? 0x04 then "invalid data type"
    else "access error code=0x" +:+ hex02 code
  else if class =? ErrClassObject then "object does not exist"
  else if class =? ErrClassResource then "resource busy"
  else "S7 error class=0x" +:+ hex02 class +:+ " code=0x" +:+ hex02 code.

Definition ItemReturnCodeString (code : Z) : string :=
  if code =? RetCodeSuccess then "success"
  else if code =? RetCodeHWFault then "hardware fault"
  else if code =? RetCodeAccessFault then "access denied"
  else if code =? RetCodeAddressFault then "invalid address"
  else if code =? RetCodeDataTypeFault then "data type not supported"
  else if code =? RetCodeDataSizeFault then "data size mismatch"
  else if code =? RetCodeBusy then "object busy"
  else if code =? RetCodeNotAvailable then "object not available"
  else "return code 0x" +:+ hex02 code.

(** An [S7Error] with only a message, the [&S7Error{Message: ...}] literal. *)
Definition S7Msg (msg : string) : error :=
  ES7 {| S7Error_Class := 0; S7Error_Code := 0; S7Error_Message := msg |}.

Definition NewS7Error (class code : Z) : S7Error :=
  {| S7Error_Class := class; S7Error_Code := code;
     S7Error_Message := HeaderErrorString class code |}.

Definition ReturnCodeError (code : Z) : res unit :=
  if code =? RetCodeSuccess then Ok tt
  else Err (ES7 {| S7Error_Class := 0; S7Error_Code := code;
                   S7Error_Message := ItemReturnCodeString code |}).

(** ** The parameter error code *)

Definition ParamErrorFromParam (param : bytes) : res (Z * bool) :=
  if len param <? 4 then Ok (0, false) else
  let! b2 := go_index param 2 in
  let! b3 := go_index param 3 in
  Ok (get_u16 b2 b3, true).

(** [paramErrorCodeNames] *)
Definition paramErrorCodeNames : list (Z * string) :=
  [ (0x0000, "no error");
    (0x0110, "invalid block number");
    (0x0111, "invalid request length");
    (0x0112, "invalid parameter");
    (0x0113, "invalid block type");
    (0x0114, "block not found");
    (0x0115, "block already exists");
    (0x0116, "block is write-protected");
    (0x0117, "block/OS update too large");
    (0x0118, "invalid block number");
    (0x0119, "incorrect password");
    (0x011A, "PG resource error");
    (0x011B, "PLC resource error");
    (0x011C, "protocol error");
    (0x011D, "too many blocks (module restriction)");
    (0x011E, "no connection to database or invalid S7DOS handle");
    (0x011F, "result buffer too small");
    (0x0120, "end of block list");
    (0x0140, "insufficient memory");
    (0x0141, "job cannot be processed (lack of resources)");
    (0x8001, "service cannot be performed while block is in current status");
    (0x8003, "S7 protocol error: error while transferring block");
    (0x8100, "application error: service unknown to remote module");
    (0x8104, "service not implemented or frame error");
    (0x8204, "type specification for object inconsistent");
    (0x8205, "copied block already exists and is not linked");
    (0x8301, "insufficient memory or storage medium not accessible");
    (0x8302, "too few resources or processor resources not available");
    (0x8304, "no further parallel upload possible (resource bottleneck)");
    (0x8305, "function not available");
    (0x8306, "insufficient work memory");
    (0x8307, "not enough retentive work memory");
    (0x8401, "S7 protocol error: invalid service sequence");
    (0x8402, "service cannot execute (status of addressed object)");
    (0x8404, "S7 protocol: function cannot be performed");
    (0x8405, "remote block in DISABLE state (CFB)");
    (0x8500, "S7 protocol error: wrong frames");
    (0x8503, "alarm from module: service canceled prematurely");
    (0x8701, "error addressing object (e.g. area length error)");
    (0x8702, "requested service not supported by module");
    (0x8703, "access to object refused");
    (0x8704, "access error: object damaged");
    (0xD001, "protocol error: illegal job number");
    (0xD002, "parameter error: illegal job variant");
    (0xD003, "parameter error: debugging function not supported by module");
    (0xD004, "parameter error: illegal job status");
    (0xD005, "parameter error: illegal job termination");
    (0xD006, "parameter error: illegal link disconnection ID");
    (0xD007, "parameter error: illegal number of buffer elements");
    (0xD008, "parameter error: illegal scan rate");
    (0xD009, "parameter error: illegal number of executions");
    (0xD00A, "parameter error: illegal trigger event");
    (0xD00B, "parameter error: illegal trigger condition");
    (0xD011, "parameter error: block does not exist");
    (0xD012, "parameter error: wrong address in block");
    (0xD014, "parameter error: block being deleted/overwritten");
    (0xD015, "parameter error: illegal tag address");
    (0xD016, "parameter error: test jobs not possible (errors in user program)");
    (0xD017, "parameter error: illegal trigger number");
    (0xD025, "parameter error: invalid path");
    (0xD031, "internal protocol error");
    (0xD032, "parameter error: wrong result buffer length");
    (0xD033, "protocol error: wrong job length");
    (0xD03F, "coding error in parameter section");
    (0xD041, "data error: illegal status list ID");
    (0xD042, "data error: illegal tag address");
    (0xD043, "data error: referenced job not found");
    (0xD044, "data error: illegal tag value");
    (0xD045, "data error: exiting ODIS control not allowed in HOLD");
    (0xD046, "data error: illegal measuring stage (run-time measurement)");
    (0xD047, "data error: illegal hierarchy in Read job list");
    (0xD048, "data error: illegal deletion ID in Delete job");
    (0xD049, "invalid substitute ID in Replace job");
    (0xD04A, "error executing program status");
    (0xD05F, "coding error in data section");
    (0xD061, "resource error: no memory space for job");
    (0xD062, "resource error: job list full");
    (0xD063, "resource error: trigger event occupied");
    (0xD081, "function not permitted in current mode");
    (0xD082, "mode error: cannot exit HOLD mode");
    (0xD0A1, "function not permitted in current protection level");
    (0xD0A2, "function not possible (function modifying memory running)");
    (0xD0A3, "too many modify tag jobs active on I/O");
    (0xD0A4, "forcing has already been established");
    (0xD0A5, "referenced job not found");
    (0xD0A6, "job cannot be disabled/enabled");
    (0xD0A7, "job cannot be deleted (e.g. currently being read)");
    (0xD0A8, "job cannot be replaced (e.g. being read or deleted)");
    (0xD0A9, "job cannot be read (e.g. currently being deleted)");
    (0xD0AA, "time limit exceeded in processing operation");
    (0xD0AB, "invalid job parameters in process operation");
    (0xD0AC, "invalid job data in process operation");
    (0xD0AD, "operating mode already set");
    (0xD0AE, "job set up over different connection");
    (0xD0C1, "at least one error while accessing tag(s)");
    (0xD0C2, "change to STOP/HOLD mode");
    (0xD201, "syntax error in block name");
    (0xD202, "syntax error in function parameters");
    (0xD209, "one of the given blocks not found on module");
    (0xD20E, "no (further) block available");
    (0xD210, "invalid block number");
    (0xD216, "invalid user program - reset module");
    (0xD231, "loaded OB cannot be copied (priority class does not exist)");
    (0xD232, "block number of loaded block illegal");
    (0xD234, "block exists twice");
    (0xD235, "block contains incorrect checksum");
    (0xD241, "function not permitted in current protection level");
    (0xD250, "update and module ID or version do not match");
    (0xD251, "incorrect sequence of operating system components");
    (0xD252, "checksum error");
    (0xD2A1, "another block function or trigger on block active");
    (0xD2A2, "trigger active on block; complete debugging first");
    (0xD2A3, "block not active (linked), occupied, or marked for deletion");
    (0xD2A4, "block already being processed by another block function");
    (0xD401, "information function unavailable");
    (0xD402, "information function unavailable");
    (0xD601, "syntax error in function parameter");
    (0xD602, "incorrect password entered");
    (0xD801, "at least one tag address invalid");
    (0xD802, "specified job does not exist");
    (0xDC01, "date and/or time invalid") ].

Definition ParamErrorCodeString (code : Z) : string :=
  match table_lookup paramErrorCodeNames code with
  | Some s => s
  | None => "parameter error 0x" +:+ hex04 code
  end.

Definition NewS7ErrorWithParam (class code : Z) (param : bytes) : res S7Error :=
  let e := NewS7Error class code in
  let? ' (paramCode, ok) := ParamErrorFromParam param in
  if ok && negb (paramCode =? 0)
  then Ok {| S7Error_Class := S7Error_Class e; S7Error_Code := S7Error_Code e;
             S7Error_Message := ParamErrorCodeString paramCode |}
  else Ok e.

(** ** Properties *)

Lemma ReturnCodeError_Ok code : ReturnCodeError code = Ok tt <-> code = 0xFF.
Proof. unfold ReturnCodeError, RetCodeSuccess. case_if; naive_solver. Qed.

Lemma ReturnCodeError_no_panic code : no_panic (ReturnCodeError code) = true.
Proof. unfold ReturnCodeError. by case_if. Qed.

Lemma ParamErrorFromParam_cons b0 b1 b2 b3 l :
  ParamErrorFromParam (b0 :: b1 :: b2 :: b3 :: l) = Ok (get_u16 b2 b3, true).
Proof. unfold ParamErrorFromParam. case_if; [len|]. done. Qed.

Lemma ParamErrorFromParam_short l : len l < 4 -> ParamErrorFromParam l = Ok (0, false).
Proof. intros. unfold ParamErrorFromParam. case_if; [done|lia]. Qed.

Lemma table_lookup_In t k s : table_lookup t k = Some s -> In (k, s) t.
Proof.
  induction t as [|[k' s'] t IH]; cbn; [done|].
  destruct (Z.eqb_spec k k') as [->|]; naive_solver.
Qed.

Lemma ParamErrorCodeString_nonempty code : ParamErrorCodeString code <> "".
Proof.
  unfold ParamErrorCodeString. destruct table_lookup as [s|] eqn:E; [|done].
  apply table_lookup_In in E.
  assert (Forall (fun p => p.2 <> "") paramErrorCodeNames) as H
    by (repeat constructor; done).
  rewrite List.Forall_forall in H. by apply (H (code, s)).
Qed.

Lemma HeaderErrorString_nonempty class code :
  HeaderErrorString class code = "" <-> class = 0 /\ code = 0.
Proof.
  unfold HeaderErrorString, ErrClassNoError.
  repeat case_if; subst; split; intros; try done; try tauto.
Qed.

Lemma NewS7ErrorWithParam_no_Err class code param e :
  NewS7ErrorWithParam class code param <> Err e.
Proof.
  unfold NewS7ErrorWithParam.
  destruct param as [|b0 [|b1 [|b2 [|b3 l]]]];
    try (by rewrite ParamErrorFromParam_short by len).
  rewrite ParamErrorFromParam_cons. cbn. by case_if.
Qed.

Lemma NewS7ErrorWithParam_no_panic class code param :
  no_panic (NewS7ErrorWithParam class code param) = true.
Proof.
  unfold NewS7ErrorWithParam.
  destruct param as [|b0 [|b1 [|b2 [|b3 l]]]];
    try (by rewrite ParamErrorFromParam_short by len).
  rewrite ParamErrorFromParam_cons. cbn. by case_if.
Qed.

(** The parameter error code of a response, [0] when it carries none. *)
Definition param_code (param : bytes) : Z :=
  match param with _ :: _ :: b2 :: b3 :: _ => get_u16 b2 b3 | _ => 0 end.

(** C20: A response whose header reports an error is turned into an [S7Error] that
    keeps the raw class and code and whose message is never empty: the text of the
    parameter error code when there is one, the text of the class and code
    otherwise.  Short parameter sections are accepted. *)
Theorem NewS7ErrorWithParam_spec class code param :
  class <> 0 \/ code <> 0 ->
  exists e, NewS7ErrorWithParam class code param = Ok e
    /\ S7Error_Class e = class /\ S7Error_Code e = code /\ S7Error_Message e <> ""
    /\ S7Error_Message e = (if param_code param =? 0 then HeaderErrorString class code
                           else ParamErrorCodeString (param_code param)).
Proof.
  intros Hc. unfold NewS7ErrorWithParam.
  assert (HeaderErrorString class code <> "") by (rewrite HeaderErrorString_nonempty; lia).
  destruct param as [|b0 [|b1 [|b2 [|b3 l]]]];
    try (rewrite ParamErrorFromParam_short by len; cbn; eauto 10; done).
  rewrite ParamErrorFromParam_cons. cbn.
  destruct (get_u16 b2 b3 =? 0); cbn;
    eexists; (split; [done|]); cbn; auto using ParamErrorCodeString_nonempty.
Qed.

Lemma NewS7ErrorWithParam_spec_witness :
  exists e, NewS7ErrorWithParam 0x81 0x04 [0; 0; 0xD2; 0x09] = Ok e
    /\ S7Error_Class e = 0x81 /\ S7Error_Code e = 0x04 /\ S7Error_Message e <> ""
    /\ S7Error_Message e
       = (if param_code [0; 0; 0xD2; 0x09] =? 0 then HeaderErrorString 0x81 0x04
          else ParamErrorCodeString (param_code [0; 0; 0xD2; 0x09])).
Proof. apply NewS7ErrorWithParam_spec. left. done. Defined.
