(* ===== verification/GoMonad.v ===== *)
(** * Stateful Go code

    A computation over a state [S] that ends in a value, an error or a panic: the
    state it leaves behind is kept in every case, since a Go function that returns
    an error keeps the effects it had before.  Deferred calls are written at the
    points of return they run at. *)

From S2P Require Import Prelude GoError.

Definition M (S A : Type) : Type := S -> S * res A.

Section Monad.
Context {S : Type}.

Definition ret {A} (a : A) : M S A := fun s => (s, Ok a).
Definition fail {A} (e : error) : M S A := fun s => (s, Err e).
Definition lift {A} (r : res A) : M S A := fun s => (s, r).
Definition gets {A} (f : S -> A) : M S A := fun s => (s, Ok (f s)).
Definition modify (f : S -> S) : M S unit := fun s => (f s, Ok tt).

Definition bind {A B} (m : M S A) (k : A -> M S B) : M S B := fun s =>
  match m s with
  | (s, Ok a) => k a s
  | (s, Err e) => (s, Err e)
  | (s, Panic) => (s, Panic)
  end.

(** [v, err := m()] with the error inspected by the caller. *)
Definition attempt {A} (m : M S A) : M S (A + error) := fun s =>
  match m s with
  | (s, Ok a) => (s, Ok (inl a))
  | (s, Err e) => (s, Ok (inr e))
  | (s, Panic) => (s, Panic)
  end.

(** [v, err := m(); if err != nil { return h(err) }], then [k]. *)
Definition catch {A B} (m : M S A) (h : error -> M S B) (k : A -> M S B) : M S B :=
  bind (attempt m) (fun x => match x with inl a => k a | inr e => h e end).

(** [if err := m(); err != nil { return f(err) }] *)
Definition wrap_err {A} (f : error -> error) (m : M S A) : M S A := fun s =>
  let (s, r) := m s in (s, map_err f r).
End Monad.

(** Run a computation on a part of the state. *)
Definition zoom {S T A} (get : S -> T) (set : T -> S -> S) (m : M T A) : M S A := fun s =>
  let (t, r) := m (get s) in (set t s, r).

Declare Scope go_scope.
Delimit Scope go_scope with go.
Notation "'let*' x := m 'in' k" := (bind m (fun x => k))
  (at level 10, x name, m at level 100, k at level 200) : go_scope.
Notation "'let*' ' p := m 'in' k" := (bind m (fun x => match x with p => k end))
  (at level 10, p pattern, m at level 100, k at level 200) : go_scope.
Open Scope go_scope.

(** ** Inversion *)

Section Lemmas.
Context {S : Type}.

Lemma bind_Ok {A B} (m : M S A) (k : A -> M S B) s s' b :
  bind m k s = (s', Ok b) -> exists s1 a, m s = (s1, Ok a) /\ k a s1 = (s', Ok b).
Proof. unfold bind. destruct (m s) as [s1 [a| |]]; naive_solver. Qed.

Lemma bind_inv {A B} (m : M S A) (k : A -> M S B) s s' r :
  bind m k s = (s', r) ->
  (exists s1 a, m s = (s1, Ok a) /\ k a s1 = (s', r)) \/
  (exists e, m s = (s', Err e) /\ r = Err e) \/ (m s = (s', Panic) /\ r = Panic).
Proof. unfold bind. destruct (m s) as [s1 [a| |]]; naive_solver. Qed.

Lemma catch_inv {A B} (m : M S A) h (k : A -> M S B) s s' r :
  catch m h k s = (s', r) ->
  (exists s1 a, m s = (s1, Ok a) /\ k a s1 = (s', r)) \/
  (exists s1 e, m s = (s1, Err e) /\ h e s1 = (s', r)) \/ (m s = (s', Panic) /\ r = Panic).
Proof.
  unfold catch, bind, attempt. destruct (m s) as [s1 [a|e|]] eqn:E; intros H; eauto 10.
  injection H as <- <-. auto.
Qed.
Lemma catch_Ok {A B} (m : M S A) h (k : A -> M S B) s s1 a :
  m s = (s1, Ok a) -> catch m h k s = k a s1.
Proof. unfold catch, bind, attempt. by intros ->. Qed.
Lemma catch_Err {A B} (m : M S A) h (k : A -> M S B) s s1 e :
  m s = (s1, Err e) -> catch m h k s = h e s1.
Proof. unfold catch, bind, attempt. by intros ->. Qed.
Lemma catch_lift_Ok {A B} h (k : A -> M S B) s a : catch (lift (Ok a)) h k s = k a s.
Proof. done. Qed.
Lemma bind_lift_Ok {A B} (k : A -> M S B) s a : bind (lift (Ok a)) k s = k a s.
Proof. done. Qed.
Lemma bind_step {A B} (m : M S A) (k : A -> M S B) s s1 a :
  m s = (s1, Ok a) -> bind m k s = k a s1.
Proof. unfold bind. by intros ->. Qed.

Lemma bind_step_Err {A B} (m : M S A) (k : A -> M S B) s s1 e :
  m s = (s1, Err e) -> bind m k s = (s1, Err e).
Proof. unfold bind. by intros ->. Qed.

(** A relation between the state before and after that every step respects. *)
Definition preserves (R : S -> S -> Prop) {A} (m : M S A) : Prop :=
  forall s s' r, m s = (s', r) -> R s s'.

Section Preserves.
Context (R : S -> S -> Prop) {HR : PreOrder R}.

Lemma preserves_ret {A} (a : A) : preserves R (ret a).
Proof. intros s s' r [= <- _]. reflexivity. Qed.
Lemma preserves_fail {A} e : preserves R (@fail S A e).
Proof. intros s s' r [= <- _]. reflexivity. Qed.
Lemma preserves_lift {A} (x : res A) : preserves R (lift x).
Proof. intros s s' r [= <- _]. reflexivity. Qed.
Lemma preserves_gets {A} (f : S -> A) : preserves R (gets f).
Proof. intros s s' r [= <- _]. reflexivity. Qed.
Lemma preserves_bind {A B} (m : M S A) (k : A -> M S B) :
  preserves R m -> (forall a, preserves R (k a)) -> preserves R (bind m k).
Proof.
  intros Hm Hk s s' r [(s1 & a & H1 & H2)|[(e & H1 & _)|[H1 _]]]%bind_inv; eauto.
  transitivity s1; eauto. by eapply Hk.
Qed.
(** The same with what is known of the value. *)
Lemma preserves_bind_post {A B} (Q : A -> Prop) (m : M S A) (k : A -> M S B) :
  preserves R m -> (forall s s' a, m s = (s', Ok a) -> Q a) ->
  (forall a, Q a -> preserves R (k a)) -> preserves R (bind m k).
Proof.
  intros Hm HQ Hk s s' r [(s1 & a & H1 & H2)|[(e & H1 & _)|[H1 _]]]%bind_inv; eauto.
  transitivity s1; eauto. eapply Hk; eauto.
Qed.
Lemma preserves_attempt {A} (m : M S A) : preserves R m -> preserves R (attempt m).
Proof.
  intros Hm s s' r. unfold attempt.
  destruct (m s) as [s1 [a| |]] eqn:E; intros [= <- _]; eauto.
Qed.
Lemma preserves_wrap_err {A} f (m : M S A) : preserves R m -> preserves R (wrap_err f m).
Proof. intros Hm s s' r. unfold wrap_err. destruct (m s) eqn:E. intros [= <- _]. eauto. Qed.
Lemma preserves_catch {A B} (m : M S A) h (k : A -> M S B) :
  preserves R m -> (forall e, preserves R (h e)) -> (forall a, preserves R (k a)) ->
  preserves R (catch m h k).
Proof.
  intros Hm Hh Hk. apply preserves_bind; [by apply preserves_attempt|]. by intros [a|e].
Qed.
Lemma preserves_if {A} (b : bool) (m1 m2 : M S A) :
  preserves R m1 -> preserves R m2 -> preserves R (if b then m1 else m2).
Proof. by destruct b. Qed.
End Preserves.

(** A computation that keeps [P] and does not panic where [P] holds. *)
Definition safe (P : S -> Prop) {A} (m : M S A) : Prop :=
  forall s s' r, P s -> m s = (s', r) -> P s' /\ r <> Panic.

Section Safe.
Context (P : S -> Prop).

Lemma safe_ret {A} (a : A) : safe P (ret a).
Proof. intros s s' r Hs [= <- <-]. done. Qed.
Lemma safe_fail {A} e : safe P (@fail S A e).
Proof. intros s s' r Hs [= <- <-]. done. Qed.
Lemma safe_lift {A} (x : res A) : no_panic x = true -> safe P (lift x).
Proof. intros Hx s s' r Hs [= <- <-]. split; [done|]. by intros ->. Qed.
Lemma safe_gets {A} (f : S -> A) : safe P (gets f).
Proof. intros s s' r Hs [= <- <-]. done. Qed.
Lemma safe_bind {A B} (m : M S A) (k : A -> M S B) :
  safe P m -> (forall a, safe P (k a)) -> safe P (bind m k).
Proof.
  intros Hm Hk s s' r Hs [(s1 & a & H1 & H2)|[(e & H1 & ->)|[H1 ->]]]%bind_inv.
  - apply Hm in H1 as [Hs1 _]; [|done]. by eapply Hk.
  - by apply Hm in H1 as [Hs1 _].
  - by apply Hm in H1 as [_ []].
Qed.
Lemma safe_attempt {A} (m : M S A) : safe P m -> safe P (attempt m).
Proof.
  intros Hm s s' r Hs. unfold attempt.
  destruct (m s) as [s1 [a|e|]] eqn:E; intros [= <- <-]; apply Hm in E as [??]; done.
Qed.
Lemma safe_catch {A B} (m : M S A) h (k : A -> M S B) :
  safe P m -> (forall e, safe P (h e)) -> (forall a, safe P (k a)) -> safe P (catch m h k).
Proof. intros Hm Hh Hk. apply safe_bind; [by apply safe_attempt|]. by intros [a|e]. Qed.
(** The same with what is known of the value. *)
Lemma safe_catch_post {A B} (Q : A -> Prop) (m : M S A) h (k : A -> M S B) :
  safe P m -> (forall s s' a, P s -> m s = (s', Ok a) -> Q a) ->
  (forall e, safe P (h e)) -> (forall a, Q a -> safe P (k a)) -> safe P (catch m h k).
Proof.
  intros Hm HQ Hh Hk s s' r Hs [(s1 & a & H1 & H2)|[(s1 & e & H1 & H2)|[H1 ->]]]%catch_inv.
  - pose proof (HQ _ _ _ Hs H1). apply Hm in H1 as [Hs1 _]; [|done]. by eapply Hk.
  - apply Hm in H1 as [Hs1 _]; [|done]. by eapply Hh.
  - by apply Hm in H1 as [_ []].
Qed.
Lemma safe_wrap_err {A} f (m : M S A) : safe P m -> safe P (wrap_err f m).
Proof.
  intros Hm s s' r Hs. unfold wrap_err. destruct (m s) as [s1 r1] eqn:E.
  intros [= <- <-]. apply Hm in E as [? Hr]; [|done]. split; [done|]. by destruct r1.
Qed.
End Safe.
End Lemmas.

(** ** Counting effects

    [grows obs n m]: [m] adds at most [n] entries to the log that [obs] reads off the
    state, whatever happens. *)

Section Grows.
Context {S B : Type} (obs : S -> list B).

Definition grows (n : Z) {A} (m : M S A) : Prop := forall s s' r, m s = (s', r) ->
  exists l, obs s' = l ++ obs s /\ len l <= n.

Lemma grows_weaken n n' {A} (m : M S A) : grows n m -> n <= n' -> grows n' m.
Proof. intros Hm Hn s s' r H. destruct (Hm _ _ _ H) as (l & Hl & ?). exists l. split; [done|lia]. Qed.

Lemma grows_same {A} (m : M S A) : preserves (fun s s' => obs s' = obs s) m -> grows 0 m.
Proof. intros Hm s s' r H. exists []. split; [by apply Hm in H|done]. Qed.

Lemma grows_bind n1 n2 {A A'} (m : M S A) (k : A -> M S A') :
  0 <= n2 -> grows n1 m -> (forall a, grows n2 (k a)) -> grows (n1 + n2) (bind m k).
Proof.
  intros H0 Hm Hk s s' r [(s1 & a & H1 & H2)|[(e & H1 & ->)|[H1 ->]]]%bind_inv;
    destruct (Hm _ _ _ H1) as (l & Hl & ?); [|exists l; split; [done|lia]..].
  destruct (Hk _ _ _ _ H2) as (l2 & Hl2 & ?). exists (l2 ++ l).
  split; [by rewrite Hl2, Hl, app_assoc|len].
Qed.

Lemma grows_attempt n {A} (m : M S A) : grows n m -> grows n (attempt m).
Proof.
  intros Hm s s' r. unfold attempt. destruct (m s) as [s1 [a|e|]] eqn:E; intros [= <- _]; eauto.
Qed.

Lemma grows_catch n1 n2 {A A'} (m : M S A) h (k : A -> M S A') :
  0 <= n2 -> grows n1 m -> (forall e, grows n2 (h e)) -> (forall a, grows n2 (k a)) ->
  grows (n1 + n2) (catch m h k).
Proof.
  intros H0 Hm Hh Hk. apply grows_bind; [done|by apply grows_attempt|]. by intros [a|e].
Qed.
End Grows.

#[export] Hint Resolve safe_ret safe_fail safe_lift safe_gets safe_bind safe_attempt
  safe_wrap_err : go.
#[export] Hint Resolve preserves_ret preserves_fail preserves_lift preserves_gets
  preserves_bind preserves_attempt preserves_wrap_err preserves_if : go.
