(* ===== verification/GoStrings.v ===== *)
(** * The [strings], [time] and [net] text functions the program uses

    [strings.TrimSpace] works on the UTF-8 text of its argument.  A byte sequence
    decodes to a white-space rune exactly when it is one of the encodings listed
    here, from either end, so trimming is the repeated removal of these. *)

From S2P Require Import Prelude GoError.

(** U+0009..U+000D, U+0020, U+0085, U+00A0, U+1680, U+2000..U+200A, U+2028, U+2029,
    U+202F, U+205F and U+3000: the runes of [unicode.IsSpace]. *)
Definition space_encodings : list bytes :=
  [[9]; [10]; [11]; [12]; [13]; [32]; [0xC2; 0x85]; [0xC2; 0xA0]; [0xE1; 0x9A; 0x80]]
  ++ map (fun b => [0xE2; 0x80; b])
       [0x80; 0x81; 0x82; 0x83; 0x84; 0x85; 0x86; 0x87; 0x88; 0x89; 0x8A; 0xA8; 0xA9; 0xAF]
  ++ [[0xE2; 0x81; 0x9F]; [0xE3; 0x80; 0x80]].

Fixpoint strip_prefix (p l : bytes) : option bytes :=
  match p, l with
  | [], _ => Some l
  | a :: p, b :: l => if a =? b then strip_prefix p l else None
  | _ :: _, [] => None
  end.

(** Remove members of [seps] from the front for as long as one is there; each
    removal shortens the list, so [length l] rounds are enough. *)
Fixpoint trim_front (seps : list bytes) (fuel : nat) (l : bytes) : bytes :=
  match fuel with
  | O => l
  | S fuel =>
      match first_some (fun p => strip_prefix p l) seps with
      | Some l' => trim_front seps fuel l'
      | None => l
      end
  end.

Definition trim_space_bytes (l : bytes) : bytes :=
  let l := trim_front space_encodings (length l) l in
  reverse (trim_front (map reverse space_encodings) (length l) (reverse l)).

Definition TrimSpace (s : string) : string :=
  string_of_bytes (trim_space_bytes (bytes_of_string s)).

(** ** [time.Duration.String]

    The [%v] of a duration.  [fmtFrac] prints the fraction of [v] over [10 ^ prec]
    without its trailing zeros, and nothing when it is zero. *)

Fixpoint fmtFrac (prec : nat) (v : Z) (print : bool) (acc : string) : string * Z :=
  match prec with
  | O => (if print then "." +:+ acc else acc, v)
  | S prec =>
      let digit := v mod 10 in
      let print := print || negb (digit =? 0) in
      fmtFrac prec (v / 10) print (if print then dec digit +:+ acc else acc)
  end.

Definition micro_sign : string := string_of_bytes [0xC2; 0xB5].

Definition Duration_String (d : Z) : string :=
  let u := Z.abs d in
  let body :=
    if u =? 0 then "0s"
    else if u <? 1000 then dec u +:+ "ns"
    else if u <? 1000000 then
      let (frac, u) := fmtFrac 3 u false "" in dec u +:+ frac +:+ micro_sign +:+ "s"
    else if u <? 1000000000 then
      let (frac, u) := fmtFrac 6 u false "" in dec u +:+ frac +:+ "ms"
    else
      let (frac, u) := fmtFrac 9 u false "" in
      let secs := dec (u mod 60) +:+ frac +:+ "s" in
      let m := u / 60 in
      if 0 <? m then
        let mins := dec (m mod 60) +:+ "m" +:+ secs in
        let h := m / 60 in
        if 0 <? h then dec h +:+ "h" +:+ mins else mins
      else secs in
  if d <? 0 then "-" +:+ body else body.

Example Duration_String_ex1 : Duration_String (-1500000000) = "-1.5s".
Proof. reflexivity. Qed.
Example Duration_String_ex2 : Duration_String 3723000000000 = "1h2m3s".
Proof. reflexivity. Qed.
Example Duration_String_ex3 : Duration_String 2050000 = "2.05ms".
Proof. reflexivity. Qed.

(** ** [net.JoinHostPort] *)

Fixpoint has_colon (s : string) : bool :=
  match s with
  | EmptyString => false
  | String a s => bool_decide (a = ascii_of_byte 58) || has_colon s
  end.

Definition JoinHostPort (host port : string) : string :=
  if has_colon host then "[" +:+ host +:+ "]:" +:+ port else host +:+ ":" +:+ port.

(** ** Lemmas *)

Lemma strip_prefix_Some p l l' : strip_prefix p l = Some l' <-> l = p ++ l'.
Proof.
  revert l. induction p as [|a p IH]; intros l; cbn; [naive_solver|].
  destruct l as [|b l]; [naive_solver|].
  destruct (Z.eqb_spec a b) as [->|]; [rewrite IH|]; naive_solver.
Qed.

Lemma first_some_None {A B} (f : A -> option B) l :
  first_some f l = None <-> Forall (fun x => f x = None) l.
Proof.
  induction l as [|x l IH]; cbn; [by split|].
  rewrite Forall_cons_iff, <- IH. destruct (f x); naive_solver.
Qed.

Lemma first_some_Some {A B} (f : A -> option B) l b :
  first_some f l = Some b -> exists x, x ∈ l /\ f x = Some b.
Proof.
  induction l as [|x l IH]; cbn; [done|]. destruct (f x) eqn:E.
  - intros [= <-]. exists x. by split; [left|].
  - intros (y & ? & ?)%IH. exists y. by split; [right|].
Qed.

Lemma trim_front_suffix seps fuel l : exists p, l = p ++ trim_front seps fuel l.
Proof.
  revert l. induction fuel as [|fuel IH]; intros l; cbn; [by exists []|].
  destruct first_some as [l'|] eqn:E; [|by exists []].
  apply first_some_Some in E as (p & _ & ->%strip_prefix_Some).
  destruct (IH l') as [p' Hp]. exists (p ++ p'). by rewrite <- app_assoc, <- Hp.
Qed.

(** Nothing is trimmed from text without a separator at its front. *)
Lemma trim_front_id seps fuel l :
  Forall (fun p => strip_prefix p l = None) seps -> trim_front seps fuel l = l.
Proof. intros H%first_some_None. destruct fuel; cbn; [done|]. by rewrite H. Qed.

(** With as much fuel as bytes, trimming is complete. *)
Lemma trim_front_done seps fuel l :
  Forall (fun p => p <> []) seps -> (length l <= fuel)%nat ->
  Forall (fun p => strip_prefix p (trim_front seps fuel l) = None) seps.
Proof.
  intros Hne. revert l. induction fuel as [|fuel IH]; intros l Hl; cbn.
  - destruct l; [|cbn in Hl; lia]. eapply Forall_impl; [|exact Hne]. by intros [|??].
  - destruct first_some as [l'|] eqn:E; [|by apply first_some_None].
    apply first_some_Some in E as (p & Hp & ->%strip_prefix_Some). apply IH.
    rewrite list.Forall_forall in Hne. apply Hne in Hp. destruct p; [done|].
    rewrite length_app in Hl. cbn in Hl. lia.
Qed.

Lemma trim_space_bytes_ok l : bytes_ok l -> bytes_ok (trim_space_bytes l).
Proof.
  intros Hl. unfold trim_space_bytes.
  destruct (trim_front_suffix space_encodings (length l) l) as [p Hp].
  assert (bytes_ok (trim_front space_encodings (length l) l)) as Hok.
  { rewrite Hp in Hl. by apply bytes_ok_app in Hl as [_ Hl]. }
  revert Hok. generalize (trim_front space_encodings (length l) l). intros m Hm.
  destruct (trim_front_suffix (map reverse space_encodings) (length m) (reverse m)) as [q Hq].
  apply Forall_reverse in Hm. rewrite Hq in Hm. apply bytes_ok_app in Hm as [_ Hm].
  by apply Forall_reverse.
Qed.

(** Text of printable ASCII characters other than the space is kept as it is. *)
Lemma trim_space_bytes_id l : Forall (fun b => 32 < b < 127) l -> trim_space_bytes l = l.
Proof.
  intros Hl.
  assert (forall m, Forall (fun b => 32 < b < 127) m ->
    Forall (fun p => strip_prefix p m = None) space_encodings /\
    Forall (fun p => strip_prefix p m = None) (map reverse space_encodings)) as H.
  { intros m Hm.
    assert (forall p, In p (space_encodings ++ map reverse space_encodings) ->
      strip_prefix p m = None) as Hp.
    { destruct m as [|b m]; [intros p Hp; vm_compute in Hp; intuition (by subst)|].
      apply Forall_cons_1 in Hm as [Hb _]. intros p Hp. vm_compute in Hp.
      intuition (subst; cbn [strip_prefix]; match goal with |- (if ?a =? b then _ else _) = _ =>
        by destruct (Z.eqb_spec a b); [lia|] end). }
    split; apply List.Forall_forall; intros p ?; apply Hp, in_or_app; auto. }
  unfold trim_space_bytes. rewrite (trim_front_id space_encodings) by (by apply H).
  rewrite trim_front_id by (apply H; by apply Forall_reverse). apply reverse_involutive.
Qed.
