(* ===== verification/GoNet.v ===== *)
(** * The part of the [net] package that discovery uses

    [net.ParseCIDR] (with [netip.ParseAddr] below it), [IP.To4], [IP.Mask],
    [IPMask.Size], [IPNet.Contains] and the text of an IPv4 address.  An address is its
    bytes: 4, or 16 for one that was parsed from IPv6 text. *)

From S2P Require Import Prelude GoError GoStrings.

(** [strings.Split(s, sep)] for a separator of one byte. *)
Fixpoint split_on (sep : Z) (l : bytes) : list bytes :=
  match l with
  | [] => [[]]
  | c :: l =>
      if c =? sep then [] :: split_on sep l
      else match split_on sep l with [] => [[c]] | f :: fs => (c :: f) :: fs end
  end.

(** The value of decimal digits after [acc]; [None] at anything else. *)
Fixpoint decimal (acc : Z) (l : bytes) : option Z :=
  match l with
  | [] => Some acc
  | c :: l => if (48 <=? c) && (c <=? 57) then decimal (acc * 10 + (c - 48)) l else None
  end.

(** ** Parsing addresses *)

(** A field of an IPv4 address: digits without a leading zero, at most 255. *)
Definition parse_octet (l : bytes) : option Z :=
  match l with
  | [] => None
  | c :: tl =>
      if (c =? 48) && (0 <? len tl) then None
      else match decimal 0 l with
           | Some v => if v <=? 255 then Some v else None
           | None => None
           end
  end.

Definition parse_ipv4 (l : bytes) : option bytes :=
  match map parse_octet (split_on 46 l) with
  | [Some a; Some b; Some c; Some d] => Some [a; b; c; d]
  | _ => None
  end.

Definition hex_value (c : Z) : option Z :=
  if (48 <=? c) && (c <=? 57) then Some (c - 48)
  else if (97 <=? c) && (c <=? 102) then Some (c - 97 + 10)
  else if (65 <=? c) && (c <=? 70) then Some (c - 65 + 10)
  else None.

(** The hexadecimal digits at the front of a text: their number, their value, and what
    follows them. *)
Fixpoint hex_span (n acc : Z) (l : bytes) : Z * Z * bytes :=
  match l with
  | [] => (n, acc, [])
  | c :: tl =>
      match hex_value c with
      | Some d => hex_span (n + 1) (acc * 16 + d) tl
      | None => (n, acc, l)
      end
  end.

(** The loop of [parseIPv6]: the bytes so far, the place of the ellipsis, the text left.
    Every round adds two bytes, so eight are enough. *)
Fixpoint ipv6_fields (fuel : nat) (ip : bytes) (ellipsis : option Z) (s : bytes)
    : option (bytes * option Z * bytes) :=
  match fuel with
  | O => Some (ip, ellipsis, s)
  | S fuel =>
      let '(n, acc, rest) := hex_span 0 0 s in
      if (n =? 0) || (4 <? n) then None else
      match rest with
      | [] => Some (ip ++ put_u16 acc, ellipsis, [])
      | c :: rest =>
          if c =? 46 then
            if (bool_decide (ellipsis = None) && negb (len ip =? 12)) || (16 <? len ip + 4)
            then None
            else match parse_ipv4 s with
                 | Some v4 => Some (ip ++ v4, ellipsis, [])
                 | None => None
                 end
          else
          let ip := ip ++ put_u16 acc in
          if negb (c =? 58) then None else
          match rest with
          | [] => None
          | c2 :: rest2 =>
              if c2 =? 58 then
                if bool_decide (ellipsis <> None) then None
                else match rest2 with
                     | [] => Some (ip, Some (len ip), [])
                     | _ => ipv6_fields fuel ip (Some (len ip)) rest2
                     end
              else ipv6_fields fuel ip ellipsis rest
          end
      end
  end.

(** The ellipsis stands for the bytes that are missing, two at least. *)
Definition ipv6_expand (r : bytes * option Z * bytes) : option bytes :=
  let '(ip, ellipsis, rest) := r in
  if 0 <? len rest then None else
  match ellipsis with
  | Some e =>
      if len ip <? 16 then
        Some (take (Z.to_nat e) ip ++ go_make (16 - len ip) ++ drop (Z.to_nat e) ip)
      else None
  | None => if len ip <? 16 then None else Some ip
  end.

Definition parse_ipv6 (s : bytes) : option bytes :=
  match strip_prefix [58; 58] s with
  | Some [] => Some (go_make 16)
  | Some s => match ipv6_fields 8 [] (Some 0) s with Some r => ipv6_expand r | None => None end
  | None => match ipv6_fields 8 [] None s with Some r => ipv6_expand r | None => None end
  end.

(** [netip.ParseAddr], for the text of [ParseCIDR]: an address with a zone, for which
    that fails, is no address here.  The first [.] or [:] decides. *)
Definition ParseAddr (s : bytes) : option bytes :=
  match List.find (fun c => (c =? 46) || (c =? 58)) s with
  | Some c => if c =? 46 then parse_ipv4 s else parse_ipv6 s
  | None => None
  end.

(** ** Masks *)

(** [CIDRMask(ones, 8 * l)] *)
Fixpoint CIDRMask (l : nat) (ones : Z) : bytes :=
  match l with
  | O => []
  | S l =>
      if 8 <=? ones then 0xFF :: CIDRMask l (ones - 8)
      else u8 (Z.lnot (Z.shiftr 0xFF ones)) :: CIDRMask l 0
  end.

(** The ones at the front of a byte, and the byte shifted past them. *)
Fixpoint byte_ones (fuel : nat) (v : Z) : Z * Z :=
  match fuel with
  | O => (0, v)
  | S fuel =>
      if Z.land v 0x80 =? 0 then (0, v)
      else let (n, v) := byte_ones fuel (u8 (Z.shiftl v 1)) in (n + 1, v)
  end.

(** [simpleMaskLength]: [None] is its -1. *)
Fixpoint simpleMaskLength (mask : bytes) : option Z :=
  match mask with
  | [] => Some 0
  | v :: mask =>
      if v =? 0xFF then option_map (Z.add 8) (simpleMaskLength mask)
      else let (n, v) := byte_ones 8 v in
           if (v =? 0) && forallb (Z.eqb 0) mask then Some n else None
  end.

(** [IPMask.Size] *)
Definition Mask_Size (mask : bytes) : Z * Z :=
  match simpleMaskLength mask with Some n => (n, len mask * 8) | None => (0, 0) end.

(** ** Addresses *)

Definition v4InV6Prefix : bytes := go_make 10 ++ [0xFF; 0xFF].

(** [nil] is [None]. *)
Definition To4 (ip : bytes) : option bytes :=
  if len ip =? 4 then Some ip
  else if (len ip =? 16) && bool_decide (take 12 ip = v4InV6Prefix) then Some (drop 12 ip)
  else None.

Definition and_bytes (a b : bytes) : bytes := zip_with Z.land a b.

(** [ip.Mask(mask)] *)
Definition IP_Mask (ip mask : bytes) : option bytes :=
  let mask := if (len mask =? 16) && (len ip =? 4)
                 && bool_decide (take 12 mask = replicate 12 0xFF)
              then drop 12 mask else mask in
  let ip := if (len mask =? 4) && (len ip =? 16) && bool_decide (take 12 ip = v4InV6Prefix)
            then drop 12 ip else ip in
  if len ip =? len mask then Some (and_bytes ip mask) else None.

Record IPNet := { Net_IP : bytes; Net_Mask : bytes }.

(** [networkNumberAndMask] *)
Definition networkNumberAndMask (n : IPNet) : option (bytes * bytes) :=
  let ip := match To4 (Net_IP n) with Some ip => ip | None => Net_IP n end in
  if negb (len ip =? 4) && negb (len ip =? 16) then None
  else if len (Net_Mask n) =? 4 then
    if len ip =? 4 then Some (ip, Net_Mask n) else None
  else if len (Net_Mask n) =? 16 then
    Some (ip, if len ip =? 4 then drop 12 (Net_Mask n) else Net_Mask n)
  else None.

(** [n.Contains(ip)] *)
Definition Contains (n : IPNet) (ip : bytes) : bool :=
  match networkNumberAndMask n with
  | None => false
  | Some (nn, m) =>
      let x := match To4 ip with Some x => x | None => ip end in
      (len x =? len nn) && bool_decide (and_bytes nn m = and_bytes x m)
  end.

(** [ip.String()] of an address that has a 4-byte form. *)
Definition dotted (ip4 : bytes) : string :=
  match map dec ip4 with
  | [] => ""
  | f :: fs => fold_left (fun acc f => acc +:+ "." +:+ f) fs f
  end.

(** [net.ParseCIDR]; [None] is its error, whose text depends on [s] only. *)
Definition ParseCIDR (s : string) : option IPNet :=
  match split_on 47 (bytes_of_string s) with
  | addr :: (m :: ms) =>
      match ParseAddr addr with
      | None => None
      | Some ip =>
          let bits := len ip * 8 in
          match ms, decimal 0 m with
          | [], Some n =>
              if (len m =? 0) || (0xFFFFFF <=? n) || (bits <? n) then None
              else
                let mask := CIDRMask (length ip) n in
                let addr16 := if len ip =? 4 then v4InV6Prefix ++ ip else ip in
                match IP_Mask addr16 mask with
                | Some nn => Some {| Net_IP := nn; Net_Mask := mask |}
                | None => None
                end
          | _, _ => None
          end
      end
  | _ => None
  end.

Definition ParseError (s : string) : string := "invalid CIDR address: " +:+ s.

Example ParseCIDR_ex1 :
  ParseCIDR "192.168.7.77/24" = Some {| Net_IP := [192; 168; 7; 0]; Net_Mask := [255; 255; 255; 0] |}.
Proof. vm_compute. reflexivity. Qed.
Example ParseCIDR_ex2 : map ParseCIDR ["10.0.0.0"; "10.0.0/8"; "10.0.0.256/8"; "10.0.0.01/8";
  "10.0.0.0/33"; "10.0.0.0/"; "::1%eth0/64"; "1::2::3/9"; "12345::/9"] = replicate 9 None.
Proof. vm_compute. reflexivity. Qed.
Example ParseCIDR_ex3 :
  ParseCIDR "2001:db8::ffff:1.2.3.4/33" = Some {|
    Net_IP := [0x20; 1; 0x0d; 0xb8] ++ go_make 12;
    Net_Mask := [255; 255; 255; 255; 128] ++ go_make 11 |}.
Proof. vm_compute. reflexivity. Qed.

(** ** Addresses as numbers *)

Fixpoint ip_num (ip : bytes) : Z :=
  match ip with [] => 0 | b :: ip => b * 2 ^ (8 * len ip) + ip_num ip end.

Lemma ip_num_bound ip : bytes_ok ip -> 0 <= ip_num ip < 2 ^ (8 * len ip).
Proof.
  induction 1 as [|b ip Hb Hip IH]; cbn [ip_num]; [done|]. unfold is_byte in Hb.
  rewrite len_cons. pose proof (len_nonneg ip).
  replace (8 * (1 + len ip)) with (8 + 8 * len ip) by lia. rewrite Z.pow_add_r by lia.
  generalize dependent (2 ^ (8 * len ip)). intros. nia.
Qed.

Lemma ip_num_app l1 l2 : ip_num (l1 ++ l2) = ip_num l1 * 2 ^ (8 * len l2) + ip_num l2.
Proof.
  induction l1 as [|b l1 IH]; cbn [ip_num app]; [done|]. rewrite IH, len_app.
  pose proof (len_nonneg l1). pose proof (len_nonneg l2).
  rewrite Z.mul_add_distr_l, Z.pow_add_r by lia. ring.
Qed.

Lemma ip_num_inj a b :
  bytes_ok a -> bytes_ok b -> len a = len b -> ip_num a = ip_num b -> a = b.
Proof.
  intros Ha. revert b. induction Ha as [|x a Hx Ha IH]; intros [|y b] Hb Hl Hn; try done; [len..|].
  apply Forall_cons_1 in Hb as [Hy Hb]. cbn [ip_num] in Hn.
  rewrite !len_cons in Hl. assert (len a = len b) as Hl' by lia. rewrite <- Hl' in Hn.
  pose proof (ip_num_bound a Ha). pose proof (ip_num_bound b Hb) as Hbb. rewrite <- Hl' in Hbb.
  assert (x = y) as -> by (generalize dependent (2 ^ (8 * len a)); intros; nia).
  f_equal. apply IH; [done..|lia].
Qed.

(** A conjunction splits at any power of two. *)
Lemma land_split k a b x y : 0 <= k -> 0 <= x < 2 ^ k -> 0 <= y < 2 ^ k ->
  Z.land (a * 2 ^ k + x) (b * 2 ^ k + y) = Z.land a b * 2 ^ k + Z.land x y.
Proof.
  intros Hk Hx Hy. set (u := a * 2 ^ k + x). set (v := b * 2 ^ k + y).
  rewrite (Z_div_mod_eq_full (Z.land u v) (2 ^ k)), Z.mul_comm. f_equal; [f_equal|].
  - rewrite <- !Z.shiftr_div_pow2, Z.shiftr_land, !Z.shiftr_div_pow2 by done. unfold u, v.
    rewrite !Z.div_add_l, !Z.div_small by lia. f_equal; lia.
  - rewrite <- Z.land_ones by done.
    replace (Z.ones k) with (Z.land (Z.ones k) (Z.ones k)) by apply Z.land_diag.
    rewrite Z.land_assoc, <- (Z.land_assoc u v), (Z.land_comm v), Z.land_assoc,
      <- (Z.land_assoc (Z.land u (Z.ones k))).
    rewrite !Z.land_ones by done. unfold u, v.
    rewrite !(Z.add_comm (_ * 2 ^ k)), !Z_mod_plus_full, !Z.mod_small; lia.
Qed.

Lemma land_byte a b : is_byte a -> is_byte b -> is_byte (Z.land a b).
Proof.
  unfold is_byte. intros Ha Hb. rewrite <- (Z.mod_small a (2 ^ 8)), <- (Z.land_ones a 8) by lia.
  rewrite <- Z.land_assoc, (Z.land_comm (Z.ones 8)), Z.land_assoc, Z.land_ones by lia. lia.
Qed.

Lemma len_and_bytes a b : len a = len b -> len (and_bytes a b) = len a.
Proof. unfold len, and_bytes. intros H. rewrite length_zip_with. lia. Qed.

Lemma and_bytes_ok a b : bytes_ok a -> bytes_ok b -> bytes_ok (and_bytes a b).
Proof.
  intros Ha. revert b. induction Ha as [|x a Hx Ha IH]; intros [|y b] Hb; [constructor..|].
  apply Forall_cons_1 in Hb as [Hy Hb]. constructor; [by apply land_byte|by apply IH].
Qed.

Lemma ip_num_and a b : bytes_ok a -> bytes_ok b -> len a = len b ->
  ip_num (and_bytes a b) = Z.land (ip_num a) (ip_num b).
Proof.
  intros Ha. revert b. induction Ha as [|x a Hx Ha IH]; intros [|y b] Hb Hl; try done.
  apply Forall_cons_1 in Hb as [Hy Hb]. rewrite !len_cons in Hl. assert (len a = len b) as Hl' by lia.
  change (and_bytes (x :: a) (y :: b)) with (Z.land x y :: and_bytes a b). cbn [ip_num].
  rewrite len_and_bytes, IH by done. pose proof (ip_num_bound a Ha).
  pose proof (ip_num_bound b Hb) as Hbb. rewrite <- Hl' in Hbb |- *. pose proof (len_nonneg a).
  rewrite land_split; lia.
Qed.

Lemma ip_num_put_u32 x : ip_num (put_u32 x) = u32 x.
Proof.
  rewrite <- (get_put_u32 x), get_u32_eq, !get_u16_eq by apply u8_range.
  unfold put_u32. cbn [ip_num]. rewrite !len_cons, len_nil. cbn -[Z.mul Z.add]. lia.
Qed.

(** A four-byte address is its number. *)
Lemma put_u32_ip_num ip : bytes_ok ip -> len ip = 4 -> put_u32 (ip_num ip) = ip.
Proof.
  intros Hok Hl. pose proof (ip_num_bound ip Hok) as Hb. rewrite Hl in Hb.
  apply ip_num_inj; [apply bytes_ok_put_u32|done|done|]. rewrite ip_num_put_u32.
  by apply Z.mod_small.
Qed.

(** The mask that keeps [32 - h] bits rounds down to a multiple of [2 ^ h]. *)
Lemma land_high x h : 0 <= h <= 32 -> 0 <= x < 2 ^ 32 ->
  Z.land x (2 ^ 32 - 2 ^ h) = x / 2 ^ h * 2 ^ h.
Proof.
  intros Hh Hx. assert (2 ^ 32 - 2 ^ h = Z.ones (32 - h) * 2 ^ h) as ->.
  { rewrite Z.ones_equiv, <- Z.sub_1_r, Z.mul_sub_distr_r, <- Z.pow_add_r by lia.
    f_equal; [f_equal|]; lia. }
  apply Z.bits_inj'. intros i Hi. rewrite Z.land_spec. destruct (Z.lt_ge_cases i h) as [Hlt|Hge].
  - by rewrite !Z.mul_pow2_bits_low, andb_false_r.
  - rewrite !Z.mul_pow2_bits by lia. rewrite Z.testbit_ones_nonneg by lia.
    rewrite <- Z.shiftr_div_pow2, Z.shiftr_spec by lia. rewrite Z.sub_add.
    destruct (Z.ltb_spec (i - h) (32 - h)) as [Hlt|Hge']; [apply andb_true_r|].
    rewrite andb_false_r. symmetry. rewrite <- (Z.mod_small x (2 ^ 32)) by done.
    apply Z.mod_pow2_bits_high. lia.
Qed.

(** ** What [ParseCIDR] returns *)

Lemma CIDRMask_length l n : length (CIDRMask l n) = l.
Proof. revert n. induction l as [|l IH]; intros n; cbn; [done|]. destruct (8 <=? n); cbn; by rewrite IH. Qed.
Lemma len_CIDRMask l n : len (CIDRMask l n) = Z.of_nat l.
Proof. unfold len. by rewrite CIDRMask_length. Qed.
Lemma CIDRMask_ok l n : bytes_ok (CIDRMask l n).
Proof.
  revert n. induction l as [|l IH]; intros n; cbn; [constructor|].
  destruct (8 <=? n); constructor; auto with bytes.
Qed.

(** Check a statement on the numbers of an interval by computation. *)
Lemma forall_below (P : Z -> Prop) `{forall k, Decision (P k)} a n k :
  forallb (fun k => bool_decide (P k)) (seqZ a n) = true -> a <= k < a + n -> P k.
Proof.
  intros Hall Hk. rewrite forallb_forall in Hall.
  eapply bool_decide_eq_true_1, Hall, list_elem_of_In, elem_of_seqZ. lia.
Qed.

Lemma Mask_Size_CIDR l n : l = 4%nat \/ l = 16%nat -> 0 <= n <= 8 * Z.of_nat l ->
  Mask_Size (CIDRMask l n) = (n, 8 * Z.of_nat l).
Proof.
  intros Hl Hn.
  apply (forall_below (fun n => Mask_Size (CIDRMask l n) = (n, 8 * Z.of_nat l)) 0
           (8 * Z.of_nat l + 1)); [|lia].
  destruct Hl as [-> | ->]; vm_compute; reflexivity.
Qed.

Lemma ip_num_CIDRMask n : 0 <= n <= 32 -> ip_num (CIDRMask 4 n) = 2 ^ 32 - 2 ^ (32 - n).
Proof.
  intros Hn.
  apply (forall_below (fun n => ip_num (CIDRMask 4 n) = 2 ^ 32 - 2 ^ (32 - n)) 0 33);
    [vm_compute; reflexivity|lia].
Qed.

Lemma decimal_nonneg acc l v : 0 <= acc -> decimal acc l = Some v -> 0 <= v.
Proof.
  revert acc. induction l as [|c l IH]; cbn; intros acc Ha H; [injection H; lia|].
  destruct ((48 <=? c) && (c <=? 57)) eqn:Hc; [|done]. zify_bool. apply IH in H; lia.
Qed.

Lemma parse_octet_byte l v : parse_octet l = Some v -> is_byte v.
Proof.
  unfold parse_octet. destruct l as [|c l]; [done|]. case_if; [done|].
  destruct (decimal 0 (c :: l)) as [u|] eqn:Hd; [|done]. case_if; [|done]. intros [= <-].
  apply decimal_nonneg in Hd; [|done]. unfold is_byte. lia.
Qed.

Lemma parse_ipv4_ok l ip : parse_ipv4 l = Some ip -> bytes_ok ip /\ len ip = 4.
Proof.
  unfold parse_ipv4. destruct (split_on 46 l) as [|f1 [|f2 [|f3 [|f4 [|??]]]]]; cbn [map];
    repeat match goal with
    | |- context [match parse_octet ?f with _ => _ end] =>
        let Hf := fresh in destruct (parse_octet f) eqn:Hf; [apply parse_octet_byte in Hf|done]
    end; try done. intros [= <-]. split; [|done]. auto with bytes.
Qed.

Definition ipv6_state_ok (r : bytes * option Z * bytes) : Prop :=
  let '(ip, e, _) := r in
  bytes_ok ip /\ len ip <= 16 /\ match e with Some e => 0 <= e <= len ip | None => True end.

Lemma ipv6_fields_ok fuel ip e s r :
  ipv6_state_ok (ip, e, s) -> len ip + 2 * Z.of_nat fuel <= 16 ->
  ipv6_fields fuel ip e s = Some r -> ipv6_state_ok r.
Proof.
  revert ip e s. induction fuel as [|fuel IH]; intros ip e s (Hok & Hl & He) Hf.
  { intros [= <-]. done. }
  cbn [ipv6_fields]. destruct (hex_span 0 0 s) as [[n acc] rest]. case_if; [done|].
  assert (ipv6_state_ok (ip ++ put_u16 acc, e, rest)) as Hs.
  { split; [auto with bytes|]. split; [len|]. destruct e; [len|done]. }
  destruct rest as [|c rest]; [by intros [= <-]|].
  destruct (c =? 46).
  - case_if; [done|]. destruct (parse_ipv4 s) as [v4|] eqn:H4; [|done]. intros [= <-].
    apply parse_ipv4_ok in H4 as [? ?]. zify_bool. split; [auto with bytes|].
    split; [len|]. destruct e; [len|done].
  - destruct (negb (c =? 58)); [done|]. destruct rest as [|c2 rest]; [done|].
    destruct (c2 =? 58).
    + case_if; [done|]. destruct rest as [|c3 rest].
      * intros [= <-]. destruct Hs as (? & ? & _). split; [done|]. split; [done|]. len.
      * apply IH; [|len]. destruct Hs as (? & ? & _). split; [done|]. split; [done|]. len.
    + apply IH; [done|len].
Qed.

Lemma ipv6_expand_ok r ip : ipv6_state_ok r -> ipv6_expand r = Some ip ->
  bytes_ok ip /\ len ip = 16.
Proof.
  destruct r as [[l e] rest]. intros (Hok & Hl & He). unfold ipv6_expand. case_if; [done|].
  destruct e as [e|]; case_if; try done; intros [= <-].
  - split; [|unfold go_make; len].
    repeat (apply bytes_ok_app; split);
      [by apply Forall_take|by apply Forall_replicate|by apply Forall_drop].
  - split; [done|lia].
Qed.

Lemma parse_ipv6_ok s ip : parse_ipv6 s = Some ip -> bytes_ok ip /\ len ip = 16.
Proof.
  assert (forall e s, e = None \/ e = Some 0 -> match ipv6_fields 8 [] e s with
    | Some r => ipv6_expand r | None => None end = Some ip -> bytes_ok ip /\ len ip = 16) as H.
  { intros e s' He H. destruct (ipv6_fields 8 [] e s') as [r|] eqn:Hr; [|done].
    eapply ipv6_expand_ok; [|exact H]. eapply ipv6_fields_ok; [| |exact Hr]; [|done].
    split; [constructor|]. split; [done|]. by destruct He as [-> | ->]. }
  unfold parse_ipv6. destruct (strip_prefix [58; 58] s) as [[|c s']|]; [|by apply H; auto..].
  intros [= <-]. split; [apply (bool_decide_unpack _); vm_compute; exact I|done].
Qed.

Lemma ParseAddr_ok s ip : ParseAddr s = Some ip -> bytes_ok ip /\ (len ip = 4 \/ len ip = 16).
Proof.
  unfold ParseAddr. destruct (List.find _ s) as [c|]; [|done]. case_if; intros H.
  - apply parse_ipv4_ok in H as [? ?]. auto.
  - apply parse_ipv6_ok in H as [? ?]. auto.
Qed.

Lemma IP_Mask_same ip mask : len ip = len mask -> IP_Mask ip mask = Some (and_bytes ip mask).
Proof.
  intros Hl. unfold IP_Mask. rewrite Hl.
  assert (forall b, (len mask =? 16) && (len mask =? 4) && b = false) as ->.
  { intros b. destruct (Z.eqb_spec (len mask) 16) as [->|]; done. }
  assert (forall b, (len mask =? 4) && (len mask =? 16) && b = false) as ->.
  { intros b. destruct (Z.eqb_spec (len mask) 4) as [->|]; done. }
  by rewrite Hl, Z.eqb_refl.
Qed.

(** The network of an address of 4 or 16 bytes with a prefix of [n] bits. *)
Definition net_of (ip : bytes) (n : Z) : IPNet :=
  {| Net_IP := and_bytes ip (CIDRMask (length ip) n); Net_Mask := CIDRMask (length ip) n |}.

Lemma IP_Mask_net ip n : len ip = 4 \/ len ip = 16 ->
  IP_Mask (if len ip =? 4 then v4InV6Prefix ++ ip else ip) (CIDRMask (length ip) n)
  = Some (and_bytes ip (CIDRMask (length ip) n)).
Proof.
  assert (len (CIDRMask (length ip) n) = len ip) as Hm by apply len_CIDRMask.
  intros [Hl|Hl]; rewrite Hl; cbn [Z.eqb Pos.eqb].
  - rewrite <- (IP_Mask_same ip) by done. revert Hm.
    generalize (CIDRMask (length ip) n). intros m Hm. rewrite Hl in Hm.
    assert (len (v4InV6Prefix ++ ip) = 16) as H16 by (rewrite len_app, Hl; done).
    unfold IP_Mask. rewrite H16, Hm, Hl. cbn [Z.eqb Pos.eqb andb]. rewrite Hm.
    rewrite take_app_length', bool_decide_true by done. cbn [Z.eqb Pos.eqb andb].
    by rewrite drop_app_length' by done.
  - by apply IP_Mask_same.
Qed.

Lemma ParseCIDR_inv s net : ParseCIDR s = Some net ->
  exists ip n, net = net_of ip n /\ bytes_ok ip /\ (len ip = 4 \/ len ip = 16) /\
    0 <= n <= 8 * len ip.
Proof.
  unfold ParseCIDR. destruct (split_on 47 _) as [|addr [|m ms]]; try done.
  destruct (ParseAddr addr) as [ip|] eqn:Ha; [|done]. apply ParseAddr_ok in Ha as [Hok Hl].
  destruct ms; [|done]. destruct (decimal 0 m) as [n|] eqn:Hn; [|done].
  apply decimal_nonneg in Hn; [|done]. case_if; [done|]. rewrite IP_Mask_net by done.
  intros [= <-]. exists ip, n. repeat split; [done..|lia].
Qed.

(** ** IPv4 networks *)

Section Net4.
Context (ip : bytes) (n : Z).
Context (Hok : bytes_ok ip) (Hlen : len ip = 4) (Hn : 0 <= n <= 32).

Lemma mask4_len : len (CIDRMask (length ip) n) = 4.
Proof. rewrite len_CIDRMask. exact Hlen. Qed.

Lemma net4_len : len (Net_IP (net_of ip n)) = 4.
Proof. cbn [Net_IP net_of]. by rewrite len_and_bytes by (by rewrite mask4_len). Qed.

Lemma net4_ok : bytes_ok (Net_IP (net_of ip n)).
Proof. apply and_bytes_ok; [done|apply CIDRMask_ok]. Qed.

Lemma mask4_num x : bytes_ok x -> len x = 4 ->
  ip_num (and_bytes x (CIDRMask (length ip) n)) = ip_num x / 2 ^ (32 - n) * 2 ^ (32 - n).
Proof.
  intros Hx Hl. rewrite ip_num_and by (try apply CIDRMask_ok; try done; by rewrite mask4_len).
  replace (length ip) with 4%nat by (unfold len in Hlen; lia). rewrite ip_num_CIDRMask by done.
  pose proof (ip_num_bound x Hx) as Hb. rewrite Hl in Hb. apply land_high; [lia|done].
Qed.

(** The first address of the network. *)
Lemma net4_num : ip_num (Net_IP (net_of ip n)) = ip_num ip / 2 ^ (32 - n) * 2 ^ (32 - n).
Proof. by apply mask4_num. Qed.

Lemma net4_aligned : ip_num (Net_IP (net_of ip n)) mod 2 ^ (32 - n) = 0.
Proof. rewrite net4_num. apply Z_mod_mult. Qed.

Lemma net4_fits : ip_num (Net_IP (net_of ip n)) + 2 ^ (32 - n) <= 2 ^ 32.
Proof.
  rewrite net4_num. pose proof (ip_num_bound ip Hok) as Hb. rewrite Hlen in Hb.
  assert (0 < 2 ^ (32 - n)) by (apply Z.pow_pos_nonneg; lia).
  assert (2 ^ 32 = 2 ^ n * 2 ^ (32 - n)) as H32 by (rewrite <- Z.pow_add_r by lia; f_equal; lia).
  assert (ip_num ip / 2 ^ (32 - n) < 2 ^ n) by (apply Z.div_lt_upper_bound; lia). nia.
Qed.

Lemma net4_mask_again : IP_Mask (Net_IP (net_of ip n)) (Net_Mask (net_of ip n))
  = Some (Net_IP (net_of ip n)).
Proof.
  rewrite IP_Mask_same by (cbn [Net_Mask net_of]; by rewrite net4_len, mask4_len).
  f_equal. apply ip_num_inj; [apply and_bytes_ok; [apply net4_ok|apply CIDRMask_ok]|apply net4_ok|..].
  { rewrite len_and_bytes; [done|]. cbn [Net_Mask net_of]. by rewrite net4_len, mask4_len. }
  cbn [Net_Mask net_of]. change (and_bytes ip (CIDRMask (length ip) n)) with (Net_IP (net_of ip n)).
  rewrite mask4_num by (apply net4_ok || apply net4_len).
  assert (2 ^ (32 - n) <> 0) by (apply Z.pow_nonzero; lia).
  by rewrite net4_num, Z.div_mul.
Qed.

Lemma To4_4 x : len x = 4 -> To4 x = Some x.
Proof. intros Hx. unfold To4. by rewrite Hx. Qed.

Lemma Contains_net4 x : bytes_ok x -> len x = 4 ->
  Contains (net_of ip n) x = bool_decide (ip_num x / 2 ^ (32 - n) = ip_num ip / 2 ^ (32 - n)).
Proof.
  intros Hx Hl. unfold Contains, networkNumberAndMask. rewrite (To4_4 x) by done.
  rewrite (To4_4 (Net_IP _)), net4_len by apply net4_len. cbn [Net_Mask net_of Z.eqb Pos.eqb negb andb].
  rewrite mask4_len. cbn [Z.eqb Pos.eqb]. rewrite Hl, net4_len. cbn [Z.eqb Pos.eqb andb].
  assert (2 ^ (32 - n) <> 0) by (apply Z.pow_nonzero; lia).
  change {| Net_IP := _; Net_Mask := _ |} with (net_of ip n). apply bool_decide_ext. split.
  - intros He%(f_equal ip_num). rewrite !mask4_num, net4_num, Z.div_mul in He
      by (done || apply net4_ok || apply net4_len). nia.
  - intros He. apply ip_num_inj; [apply and_bytes_ok; [apply net4_ok|apply CIDRMask_ok]|
      apply and_bytes_ok; [done|apply CIDRMask_ok]|..].
    + rewrite !len_and_bytes; rewrite ?Hl, ?net4_len, ?mask4_len; done.
    + rewrite !mask4_num, net4_num, Z.div_mul by (done || apply net4_ok || apply net4_len). lia.
Qed.
End Net4.

(** ** Dotted text *)

Lemma split_on_none sep l : Forall (fun c => c <> sep) l -> split_on sep l = [l].
Proof.
  induction 1 as [|c l Hc Hl IH]; cbn; [done|]. by rewrite (proj2 (Z.eqb_neq c sep)), IH.
Qed.

Lemma split_on_app sep l1 l2 : Forall (fun c => c <> sep) l1 ->
  split_on sep (l1 ++ sep :: l2) = l1 :: split_on sep l2.
Proof.
  induction 1 as [|c l Hc Hl IH]; cbn; [by rewrite Z.eqb_refl|].
  by rewrite (proj2 (Z.eqb_neq c sep)), IH.
Qed.

Lemma bytes_of_string_app s1 s2 :
  bytes_of_string (s1 +:+ s2) = bytes_of_string s1 ++ bytes_of_string s2.
Proof. induction s1 as [|a s1 IH]; cbn; [done|]. by rewrite <- IH. Qed.

(** The text of a byte: digits that parse back to it. *)
Definition octet_text (b : Z) : bytes := bytes_of_string (dec b).

Lemma octet_text_spec b : is_byte b ->
  parse_octet (octet_text b) = Some b /\ decimal 0 (octet_text b) = Some b /\
  len (octet_text b) <> 0 /\ Forall (fun c => 48 <= c <= 57) (octet_text b).
Proof.
  intros Hb.
  apply (forall_below (fun b => parse_octet (octet_text b) = Some b /\
    decimal 0 (octet_text b) = Some b /\ len (octet_text b) <> 0 /\
    Forall (fun c => 48 <= c <= 57) (octet_text b)) 0 256); [vm_compute; reflexivity|].
  unfold is_byte in Hb. lia.
Qed.

Lemma octet_text_ne b c : is_byte b -> c < 48 -> Forall (fun d => d <> c) (octet_text b).
Proof.
  intros Hb Hc. apply octet_text_spec in Hb as (_ & _ & _ & H).
  revert H. apply Forall_impl. intros d Hd. lia.
Qed.

Lemma dotted_bytes a b c d : bytes_of_string (dotted [a; b; c; d])
  = octet_text a ++ 46 :: octet_text b ++ 46 :: octet_text c ++ 46 :: octet_text d.
Proof.
  unfold dotted. cbn [map fold_left]. rewrite !bytes_of_string_app, <- !app_assoc. done.
Qed.

Lemma four_bytes (ip : bytes) : len ip = 4 -> exists a b c d, ip = [a; b; c; d].
Proof.
  intros Hl. peel ip 4%nat. destruct ip; [by eexists _, _, _, _|]. exfalso. len.
Qed.

Lemma parse_ipv4_dotted ip : bytes_ok ip -> len ip = 4 ->
  parse_ipv4 (bytes_of_string (dotted ip)) = Some ip.
Proof.
  intros Hok Hl. destruct (four_bytes ip Hl) as (a & b & c & d & ->).
  do 4 (apply Forall_cons_1 in Hok as [? Hok]). rewrite dotted_bytes. unfold parse_ipv4.
  rewrite !split_on_app, split_on_none by (by apply octet_text_ne). cbn [map].
  by rewrite !(fun b H => proj1 (octet_text_spec b H)) by done.
Qed.

(** The text of a network parses as the network. *)
Lemma ParseCIDR_dotted ip n : bytes_ok ip -> len ip = 4 -> 0 <= n <= 32 ->
  ParseCIDR (dotted ip +:+ "/" +:+ dec n) = Some (net_of ip n).
Proof.
  intros Hok Hl Hn. unfold ParseCIDR. rewrite !bytes_of_string_app. cbn [bytes_of_string app].
  change (byte_of_ascii _) with 47. fold (octet_text n).
  assert (is_byte n) as Hnb by (unfold is_byte; lia).
  assert (Forall (fun c => c <> 47) (bytes_of_string (dotted ip))) as H47.
  { destruct (four_bytes ip Hl) as (a & b & c & d & ->).
    do 4 (apply Forall_cons_1 in Hok as [? Hok]). rewrite dotted_bytes.
    repeat (apply Forall_app; split; [by apply octet_text_ne|]; constructor; [done|]).
    by apply octet_text_ne. }
  rewrite split_on_app, split_on_none by (done || by apply octet_text_ne).
  assert (ParseAddr (bytes_of_string (dotted ip)) = Some ip) as ->.
  { unfold ParseAddr. replace (List.find _ _) with (Some 46); [by apply parse_ipv4_dotted|].
    destruct (four_bytes ip Hl) as (a & b & c & d & ->).
    apply Forall_cons_1 in Hok as [Ha Hok]. rewrite dotted_bytes.
    apply octet_text_spec in Ha as (_ & _ & _ & Ha). clear -Ha.
    induction Ha as [|x l Hx Hl IH]; cbn; [done|].
    replace (x =? 46) with false by lia. replace (x =? 58) with false by lia. done. }
  destruct (octet_text_spec n Hnb) as (_ & -> & Hne & _).
  rewrite (proj2 (Z.eqb_neq _ 0)) by done. rewrite Hl.
  replace (0xFFFFFF <=? n) with false by lia. replace (4 * 8 <? n) with false by lia.
  cbn [orb]. pose proof (IP_Mask_net ip n (or_introl Hl)) as Hm. rewrite Hl in Hm.
  cbn [Z.eqb Pos.eqb] in *. by rewrite Hm.
Qed.
