(* ===== verification/WireHeader.v ===== *)
(** * wire/s7.go

    The S7 header: its encoder, its parser and what the parser guarantees. *)

From S2P Require Import Prelude GoError.

(** ** ROSCTR and function codes *)

(** [type ROSCTR byte] *)
Definition ROSCTR := Z.
Definition ROSCTRJob : ROSCTR := 0x01.
Definition ROSCTRAck : ROSCTR := 0x02.
Definition ROSCTRAckData : ROSCTR := 0x03.
Definition ROSCTRUserdata : ROSCTR := 0x07.

Definition IsAck (r : ROSCTR) : bool := r =? ROSCTRAck.
Definition IsAckData (r : ROSCTR) : bool := r =? ROSCTRAckData.
Definition IsJob (r : ROSCTR) : bool := r =? ROSCTRJob.
Definition IsUserdata (r : ROSCTR) : bool := r =? ROSCTRUserdata.

Definition FuncSetupComm := 0xF0.
Definition FuncReadVar := 0x04.
Definition FuncWriteVar := 0x05.
Definition FuncDownloadStart := 0x1A.
Definition FuncDownload := 0x1B.
Definition FuncDownloadEnd := 0x1C.
Definition FuncUploadStart := 0x1D.
Definition FuncUpload := 0x1E.
Definition FuncUploadEnd := 0x1F.
Definition FuncPIService := 0x28.
Definition FuncPLCStop := 0x29.
Definition FuncPLCControl := 0x28.

(** [functionCodeNames] *)
Definition functionCodeNames : list (Z * string) :=
  [ (0x00, "CPU services");
    (0x01, "Mode transition");
    (FuncSetupComm, "Setup communication");
    (FuncReadVar, "Read Var");
    (FuncWriteVar, "Write Var");
    (FuncDownloadStart, "Request download");
    (FuncDownload, "Download block");
    (FuncDownloadEnd, "Download ended");
    (FuncUploadStart, "Start upload");
    (FuncUpload, "Upload");
    (FuncUploadEnd, "End upload");
    (FuncPIService, "PI-Service");
    (FuncPLCStop, "PLC Stop") ].

Definition FunctionCodeString (code : Z) : string :=
  match table_lookup functionCodeNames code with
  | Some s => s
  | None => "0x" +:+ hex02 code
  end.

(** ** The header *)

Record S7Header := {
  ProtocolID : Z;
  Header_ROSCTR : ROSCTR;
  RedundancyID : Z;
  PDURef : Z;
  ParamLength : Z;
  DataLength : Z;
  ErrorClass : Z;
  ErrorCode : Z }.

Definition S7HeaderSize := 10.

Definition EncodeS7Header (rosctr : ROSCTR) (pduRef paramLen dataLen : Z) : bytes :=
  [0x32; u8 rosctr] ++ put_u16 0 ++ put_u16 pduRef
    ++ put_u16 (u16 paramLen) ++ put_u16 (u16 dataLen).

Definition ParseS7Header (data : bytes) : res (S7Header * bytes) :=
  if len data <? S7HeaderSize then Err (ESentinel ErrShortS7Header) else
  let! b0 := go_index data 0 in
  if negb (b0 =? 0x32)
  then Err (EWrap "" (ESentinel ErrInvalidS7ProtocolID) (": got 0x" +:+ hex02 b0)) else
  let! b1 := go_index data 1 in
  let! b2 := go_index data 2 in
  let! b3 := go_index data 3 in
  let! b4 := go_index data 4 in
  let! b5 := go_index data 5 in
  let! b6 := go_index data 6 in
  let! b7 := go_index data 7 in
  let! b8 := go_index data 8 in
  let! b9 := go_index data 9 in
  let hdr errClass errCode :=
    {| ProtocolID := b0; Header_ROSCTR := b1; RedundancyID := get_u16 b2 b3;
       PDURef := get_u16 b4 b5; ParamLength := get_u16 b6 b7;
       DataLength := get_u16 b8 b9; ErrorClass := errClass; ErrorCode := errCode |} in
  let? ' (h, offset) :=
    if IsAckData b1 || IsAck b1 then
      if len data <? S7HeaderSize + 2 then Err (ESentinel ErrShortS7AckHeader) else
      let! b10 := go_index data 10 in
      let! b11 := go_index data 11 in
      Ok (hdr b10 b11, 12)
    else Ok (hdr 0 0, S7HeaderSize) in
  let need := ParamLength h + DataLength h in
  let! rest := go_slice data offset (len data) in
  if len rest <? need
  then Err (EWrap "" (ESentinel ErrS7PayloadLength)
              (": need " +:+ dec need +:+ ", got " +:+ dec (len rest)))
  else Ok (h, rest).

(** ** A reference codec

    The header as a peer writes it: ten bytes, and for acknowledgements the error
    class and code after them. *)

Definition has_error_field (r : ROSCTR) : bool := IsAckData r || IsAck r.

Definition encode_header_ref (h : S7Header) : bytes :=
  [ProtocolID h; Header_ROSCTR h] ++ put_u16 (RedundancyID h) ++ put_u16 (PDURef h)
    ++ put_u16 (ParamLength h) ++ put_u16 (DataLength h)
    ++ (if has_error_field (Header_ROSCTR h) then [ErrorClass h; ErrorCode h] else []).

(** The fields of a header fit their Go types and the identifier is right; a
    header without an error field carries no error. *)
Record header_wf (h : S7Header) : Prop := {
  hwf_id : ProtocolID h = 0x32;
  hwf_rosctr : is_byte (Header_ROSCTR h);
  hwf_red : 0 <= RedundancyID h < 65536;
  hwf_ref : 0 <= PDURef h < 65536;
  hwf_param : 0 <= ParamLength h < 65536;
  hwf_data : 0 <= DataLength h < 65536;
  hwf_class : is_byte (ErrorClass h);
  hwf_code : is_byte (ErrorCode h);
  hwf_noerr : has_error_field (Header_ROSCTR h) = false -> ErrorClass h = 0 /\ ErrorCode h = 0 }.

(** ** Lemmas *)

Lemma len_EncodeS7Header r ref p d : len (EncodeS7Header r ref p d) = 10.
Proof. done. Qed.
#[export] Hint Rewrite len_EncodeS7Header : len.

Lemma bytes_ok_EncodeS7Header r ref p d : bytes_ok (EncodeS7Header r ref p d).
Proof. unfold EncodeS7Header. auto 20 with bytes. Qed.
#[export] Hint Resolve bytes_ok_EncodeS7Header : bytes.

Lemma EncodeS7Header_ref r ref p d :
  has_error_field (u8 r) = false ->
  EncodeS7Header r ref p d = encode_header_ref
    {| ProtocolID := 0x32; Header_ROSCTR := u8 r; RedundancyID := 0; PDURef := ref;
       ParamLength := u16 p; DataLength := u16 d; ErrorClass := 0; ErrorCode := 0 |}.
Proof. intros H. unfold encode_header_ref, EncodeS7Header. cbn [Header_ROSCTR]. by rewrite H. Qed.


Lemma ParseS7Header_no_panic data : no_panic (ParseS7Header data) = true.
Proof.
  unfold ParseS7Header, S7HeaderSize. case_if; [done|]. peel data 10%nat. indices.
  case_if; [done|]. case_if.
  - case_if; [done|]. peel data 2%nat. indices. slices. cbn. by case_if.
  - cbn. slices. cbn. by case_if.
Qed.

(** The parser inverts the reference encoder on every well-formed header whose
    declared lengths the payload covers; bytes after the payload are kept. *)
Lemma ParseS7Header_ref h payload :
  header_wf h -> ParamLength h + DataLength h <= len payload ->
  ParseS7Header (encode_header_ref h ++ payload) = Ok (h, payload).
Proof.
  intros [Hid Hr Hred Href Hp Hd Hc Hcode Hne] Hlen.
  destruct h as [id r red ref p d c code]. cbn in *. subst id.
  unfold ParseS7Header, S7HeaderSize, encode_header_ref. unfold put_u16; cbn [app]. indices.
  case_if; [len|]. fold (has_error_field r) in *.
  rewrite !get_put_u16, !u16_small by done.
  destruct (has_error_field r) eqn:Hef; cbn.
  - case_if; [len|]. cbn. slices. cbn. case_if; [lia|]. done.
  - slices. cbn. destruct (Hne eq_refl) as [-> ->]. case_if; [lia|]. done.
Qed.

(** Conversely, what the parser accepts is a well-formed header followed by the
    payload it returns. *)
Lemma ParseS7Header_sound data h payload :
  bytes_ok data -> ParseS7Header data = Ok (h, payload) ->
  data = encode_header_ref h ++ payload /\ header_wf h /\
  ParamLength h + DataLength h <= len payload.
Proof.
  unfold ParseS7Header, S7HeaderSize. intros Hok H. revert H.
  case_if; [done|]. peel data 10%nat. indices.
  repeat (apply Forall_cons_1 in Hok as [? Hok]).
  case_if; [done|]. subst. fold (has_error_field z0).
  destruct (has_error_field z0) eqn:Hef.
  - case_if; [done|]. peel data 2%nat. indices. slices. cbn. case_if; [done|].
    intros [= <- <-]. repeat (apply Forall_cons_1 in Hok as [? Hok]).
    split; [|split; [|done]].
    + unfold encode_header_ref. cbn.
      by rewrite Hef, !put_get_u16 by done.
    + constructor; cbn; try apply get_u16_range; auto; congruence.
  - cbn. slices. cbn. case_if; [done|]. intros [= <- <-].
    split; [|split; [|done]].
    + unfold encode_header_ref. cbn.
      by rewrite Hef, !put_get_u16 by done.
    + constructor; cbn; try apply get_u16_range; auto; unfold is_byte; try lia; done.
Qed.

(** Every rejection is one of the four header sentinels, possibly with a detail. *)
Definition header_sentinels : list sentinel :=
  [ErrShortS7Header; ErrInvalidS7ProtocolID; ErrShortS7AckHeader; ErrS7PayloadLength].

Lemma ParseS7Header_Err data e : ParseS7Header data = Err e ->
  exists s, In s header_sentinels /\ (e = ESentinel s \/ exists post, e = EWrap "" (ESentinel s) post).
Proof.
  unfold ParseS7Header, S7HeaderSize.
  case_if; [intros [= <-]; eexists; split; [|by left]; cbn; tauto|].
  peel data 10%nat. indices.
  case_if; [intros [= <-]; eexists; split; [|right; by eexists]; cbn; tauto|]. case_if.
  - case_if; [intros [= <-]; eexists; split; [|by left]; cbn; tauto|].
    peel data 2%nat. indices. slices. cbn.
    case_if; [|done]. intros [= <-]. eexists. split; [|right; by eexists]. cbn; tauto.
  - cbn. slices. cbn. case_if; [|done].
    intros [= <-]. eexists. split; [|right; by eexists]. cbn; tauto.
Qed.

(** Messages framed by [EncodeS7Header] with the true lengths of their sections
    are accepted, and the declared lengths cut the payload back into them. *)
Lemma ParseS7Header_frame r ref param data :
  is_byte r -> has_error_field r = false -> 0 <= ref < 65536 ->
  len param < 65536 -> len data < 65536 ->
  ParseS7Header (EncodeS7Header r ref (len param) (len data) ++ param ++ data)
  = Ok ({| ProtocolID := 0x32; Header_ROSCTR := r; RedundancyID := 0; PDURef := ref;
           ParamLength := len param; DataLength := len data;
           ErrorClass := 0; ErrorCode := 0 |}, param ++ data).
Proof.
  intros Hr Hef Href Hp Hd. unfold is_byte in *.
  assert (u8 r = r) as Hu by (by apply u8_small).
  rewrite EncodeS7Header_ref by (by rewrite Hu). rewrite Hu, !u16_small by len.
  rewrite ParseS7Header_ref; [done|constructor; cbn; unfold is_byte; try lia; len; auto|cbn; len].
Qed.

(** The jobs without a data section. *)
Lemma ParseS7Header_job ref param :
  0 <= ref < 65536 -> len param < 65536 ->
  ParseS7Header (EncodeS7Header ROSCTRJob ref (len param) 0 ++ param)
  = Ok ({| ProtocolID := 0x32; Header_ROSCTR := ROSCTRJob; RedundancyID := 0; PDURef := ref;
           ParamLength := len param; DataLength := 0; ErrorClass := 0; ErrorCode := 0 |}, param).
Proof.
  intros Href Hp. pose proof (ParseS7Header_frame ROSCTRJob ref param []) as H.
  rewrite app_nil_r in H. by apply H.
Qed.

(** C14: The header parser accepts exactly the telegrams a peer can form: a well-formed
    header in the reference encoding, followed by a payload that covers both lengths it
    declares.  It returns that header and the whole payload. *)
Theorem ParseS7Header_iff data h payload :
  bytes_ok data ->
  ParseS7Header data = Ok (h, payload) <->
  data = encode_header_ref h ++ payload /\ header_wf h /\
  ParamLength h + DataLength h <= len payload.
Proof.
  intros Hok. split; [by apply ParseS7Header_sound|].
  intros (-> & Hwf & Hl). by apply ParseS7Header_ref.
Qed.

Lemma ParseS7Header_iff_witness :
  let h := {| ProtocolID := 0x32; Header_ROSCTR := ROSCTRAckData; RedundancyID := 0;
              PDURef := 258; ParamLength := 2; DataLength := 1; ErrorClass := 0;
              ErrorCode := 0 |} in
  ParseS7Header [0x32; 3; 0; 0; 1; 2; 0; 2; 0; 1; 0; 0; 4; 1; 0xFF] = Ok (h, [4; 1; 0xFF]).
Proof.
  cbv zeta. apply ParseS7Header_iff.
  - apply (bool_decide_unpack _). vm_compute. exact I.
  - split; [reflexivity|]. split; [|vm_compute; discriminate].
    constructor; cbn; unfold is_byte; try lia; done.
Defined.
