(* ===== verification/WireCotp.v ===== *)
(** * wire/cotp.go

    TSAP construction from rack and slot, and the COTP units around an S7
    payload.  go-cotp is outside the repository: its [MarshalBinary], [Decode]
    and the printing of its PDU types are the operations of the class [Cotp]. *)

From S2P Require Import Prelude GoError.

(** ** TSAPs *)

Definition EncodeRackSlotTSAP (rack slot : Z) : Z :=
  Z.lor (u8 (Z.shiftl (Z.land rack 0x07) 5)) (Z.land slot 0x1F).

(** The errors of [ValidateRackSlot] are not sentinels: [fmt.Errorf] texts. *)
Definition ValidateRackSlot (rack slot : Z) : res unit :=
  if (rack <? 0) || (7 <? rack) then Err (EMsg ("rack must be 0..7, got " +:+ dec rack))
  else if (slot <? 0) || (31 <? slot) then Err (EMsg ("slot must be 0..31, got " +:+ dec slot))
  else Ok tt.

Definition BuildTSAP (connType rack slot : Z) : res Z :=
  let? _ := ValidateRackSlot rack slot in
  let low := EncodeRackSlotTSAP (u8 rack) (u8 slot) in
  Ok (Z.lor (u16 (Z.shiftl (u16 connType) 8)) (u16 low)).

(** ** go-cotp *)

(** [cotp.CR] and [cotp.DT], as far as the module fills or reads them. *)
Record CR := {
  CR_CDT : Z;
  CR_DestinationRef : Z;
  CR_SourceRef : Z;
  CR_ClassOption : Z;
  CR_CallingSelector : bytes;
  CR_CalledSelector : bytes;
  CR_TPDUSize : option Z }.

Record DT := { DT_EOT : bool; DT_UserData : bytes }.

(** [cotp.Decoded]: the type of the TPDU and, for a DT, its contents. *)
Record Decoded := { Decoded_Type : Z; Decoded_DT : option DT }.

Class Cotp := {
  cotp_TypeCC : Z;
  cotp_TypeString : Z -> string;
  cotp_CR_MarshalBinary : CR -> error + bytes;
  cotp_DT_MarshalBinary : DT -> error + bytes;
  cotp_Decode : bytes -> error + Decoded }.

(** The laws of go-cotp the client relies on: a marshalled DT decodes to itself,
    and the user data of a decoded DT is a part of what was decoded. *)
Class CotpLaws `{C : Cotp} : Prop := {
  cotp_DT_roundtrip dt bs :
    cotp_DT_MarshalBinary dt = inr bs ->
    exists ty, cotp_Decode bs = inr {| Decoded_Type := ty; Decoded_DT := Some dt |};
  cotp_Decode_part bs ty dt :
    cotp_Decode bs = inr {| Decoded_Type := ty; Decoded_DT := Some dt |} ->
    exists pre post, bs = pre ++ DT_UserData dt ++ post }.

Section Cotp.
Context `{C : Cotp}.

Definition EncodeCOTPCR (localTSAP remoteTSAP : Z) : res bytes :=
  of_ext (cotp_CR_MarshalBinary
    {| CR_CDT := 0; CR_DestinationRef := 0; CR_SourceRef := 0; CR_ClassOption := 0;
       CR_CallingSelector := put_u16 localTSAP;
       CR_CalledSelector := put_u16 remoteTSAP;
       CR_TPDUSize := Some 0x0A |}).

Definition EncodeCOTPDT (s7Payload : bytes) : res bytes :=
  of_ext (cotp_DT_MarshalBinary {| DT_EOT := true; DT_UserData := s7Payload |}).
End Cotp.

(** ** A reference decoder of classic TSAPs *)

Definition tsap_connType (t : Z) : Z := t / 256.
Definition tsap_rack (t : Z) : Z := t mod 256 / 32.
Definition tsap_slot (t : Z) : Z := t mod 32.

(** ** Lemmas *)

Lemma ValidateRackSlot_Ok rack slot :
  ValidateRackSlot rack slot = Ok tt <-> 0 <= rack <= 7 /\ 0 <= slot <= 31.
Proof.
  unfold ValidateRackSlot. split.
  - intros H. repeat case_if; first [done|lia].
  - intros H. repeat case_if; first [done|lia].
Qed.

Lemma ValidateRackSlot_no_panic rack slot : no_panic (ValidateRackSlot rack slot) = true.
Proof. unfold ValidateRackSlot. by repeat case_if. Qed.

Lemma land_ones_mod z k : 0 <= k -> Z.land z (2 ^ k - 1) = z mod 2 ^ k.
Proof. intros. rewrite <- Z.land_ones by done. f_equal. rewrite Z.ones_equiv. lia. Qed.

Lemma EncodeRackSlotTSAP_eq rack slot :
  EncodeRackSlotTSAP rack slot = rack mod 8 * 32 + slot mod 32.
Proof.
  unfold EncodeRackSlotTSAP.
  change 0x07 with (2 ^ 3 - 1). change 0x1F with (2 ^ 5 - 1). rewrite !land_ones_mod by lia.
  rewrite Z.shiftl_mul_pow2 by lia. change (2 ^ 3) with 8. change (2 ^ 5) with 32.
  rewrite u8_small by lia. by apply (lor_add (rack mod 8) (slot mod 32) 5); lia.
Qed.

Lemma BuildTSAP_eq connType rack slot : 0 <= rack <= 7 -> 0 <= slot <= 31 ->
  BuildTSAP connType rack slot = Ok (connType mod 256 * 256 + rack * 32 + slot).
Proof.
  intros Hr Hs. unfold BuildTSAP.
  rewrite (proj2 (ValidateRackSlot_Ok rack slot)) by done. cbn.
  rewrite EncodeRackSlotTSAP_eq. rewrite !(u8_small _) by lia.
  rewrite (Z.mod_small rack), (Z.mod_small slot) by lia. f_equal.
  rewrite (u16_small (rack * 32 + slot)) by lia.
  replace (u16 (Z.shiftl (u16 connType) 8)) with (connType mod 256 * 2 ^ 8).
  - rewrite (lor_add (connType mod 256) (rack * 32 + slot) 8) by lia. lia.
  - unfold u16. rewrite Z.shiftl_mul_pow2 by lia.
    change (2 ^ 16) with (2 ^ 8 * 2 ^ 8). rewrite Z.mul_mod_distr_r by lia.
    change (2 ^ 8) with 256. f_equal. lia.
Qed.

Lemma BuildTSAP_no_panic connType rack slot : no_panic (BuildTSAP connType rack slot) = true.
Proof. unfold BuildTSAP. apply no_panic_bind; [apply ValidateRackSlot_no_panic|done]. Qed.

(** ** Properties *)

(** TSAPs of valid rack/slot pairs decode to the pair they were built from, and
    no other pair is accepted. *)
Theorem BuildTSAP_decode connType rack slot t :
  0 <= connType < 256 ->
  BuildTSAP connType rack slot = Ok t <->
  0 <= rack <= 7 /\ 0 <= slot <= 31 /\ 0 <= t < 65536 /\
  tsap_connType t = connType /\ tsap_rack t = rack /\ tsap_slot t = slot.
Proof.
  intros Hc. unfold tsap_connType, tsap_rack, tsap_slot. split.
  - intros H. assert (0 <= rack <= 7 /\ 0 <= slot <= 31) as [Hr Hs].
    { unfold BuildTSAP in H. apply res_bind_Ok in H as ([] & H & _).
      by apply ValidateRackSlot_Ok in H. }
    rewrite BuildTSAP_eq in H by done. injection H as <-.
    rewrite Z.mod_small by lia. lia.
  - intros (Hr & Hs & Ht & H1 & H2 & H3). rewrite BuildTSAP_eq by done. f_equal.
    rewrite Z.mod_small by lia. lia.
Qed.

Lemma BuildTSAP_decode_witness :
  BuildTSAP 3 2 17 = Ok 0x0351 <->
  0 <= 2 <= 7 /\ 0 <= 17 <= 31 /\ 0 <= 0x0351 < 65536 /\
  tsap_connType 0x0351 = 3 /\ tsap_rack 0x0351 = 2 /\ tsap_slot 0x0351 = 17.
Proof. apply BuildTSAP_decode. lia. Defined.
