(* ===== verification/WireReadWrite.v ===== *)
(** * wire/pdu_rw.go

    Read Var and Write Var: address encoding, requests, response parsing and the
    typed decoding of successful items. *)

From S2P Require Import Prelude GoError WireErrors WireHeader.

(** ** Area, syntax and transport size codes *)

Definition AreaDataRecord := 0x01.
Definition AreaSysInfo := 0x03.
Definition AreaSysFlags := 0x05.
Definition AreaS7200AN := 0x06.
Definition AreaS7200AO := 0x07.
Definition AreaInputs := 0x81.
Definition AreaOutputs := 0x82.
Definition AreaMerkers := 0x83.
Definition AreaDB := 0x84.
Definition AreaDI := 0x85.
Definition AreaLocal := 0x86.
Definition AreaV := 0x87.
Definition AreaCounter := 0x1C.
Definition AreaTimer := 0x1D.
Definition AreaIECCounter200 := 30.
Definition AreaIECTimer200 := 31.
Definition AreaPeripheral := 0x80.

Definition SyntaxIDS7Any := 0x10.
Definition SyntaxIDDBRead := 0xB0.
Definition SyntaxID1200Symbolic := 0xB2.
Definition SyntaxIDNCK := 0x82.
Definition SyntaxIDDriveES := 0xA2.

Definition ValidateRequestSyntax (syntax : Z) : res unit :=
  if syntax =? SyntaxIDS7Any then Ok tt
  else Err (EUnsupportedSyntax syntax).

Definition ValidateArea (area : Z) : res unit :=
  if bool_decide (area ∈ [AreaDataRecord; AreaInputs; AreaOutputs; AreaMerkers; AreaDB;
       AreaDI; AreaLocal; AreaV; AreaCounter; AreaTimer; AreaIECCounter200;
       AreaIECTimer200; AreaPeripheral; AreaSysInfo; AreaSysFlags; AreaS7200AN;
       AreaS7200AO])
  then Ok tt
  else Err (S7Msg ("unsupported area code 0x" +:+ hexByte area)).

(** [areaNames] *)
Definition areaNames : list (Z * string) :=
  [ (AreaDataRecord, "RECORD");
    (AreaSysInfo, "SI200");
    (AreaSysFlags, "SF200");
    (AreaS7200AN, "AI200");
    (AreaS7200AO, "AO200");
    (AreaPeripheral, "P");
    (AreaInputs, "I");
    (AreaOutputs, "Q");
    (AreaMerkers, "M");
    (AreaDB, "DB");
    (AreaDI, "DI");
    (AreaLocal, "L");
    (AreaV, "V");
    (AreaCounter, "C");
    (AreaTimer, "T");
    (30, "C200");
    (31, "T200") ].

Definition AreaString (area : Z) : string :=
  match table_lookup areaNames area with
  | Some s => s
  | None => "0x" +:+ hex02 area
  end.

(** [syntaxIDNames] *)
Definition syntaxIDNames : list (Z * string) :=
  [ (SyntaxIDS7Any, "S7ANY");
    (0x11, "ParameterShort");
    (0x12, "ParameterExtended");
    (0x13, "PBC-R_ID");
    (0x15, "ALARM_LOCKFREE");
    (0x16, "ALARM_IND");
    (0x19, "ALARM_ACK");
    (0x1a, "ALARM_QUERYREQ");
    (0x1c, "NOTIFY_IND");
    (0x82, "NCK");
    (0x83, "NCK_M");
    (0x84, "NCK_I");
    (SyntaxIDDriveES, "DRIVEESANY");
    (SyntaxID1200Symbolic, "1200SYM");
    (SyntaxIDDBRead, "DBREAD") ].

Definition SyntaxIDString (syntax : Z) : string :=
  match table_lookup syntaxIDNames syntax with
  | Some s => s
  | None => "0x" +:+ hex02 syntax
  end.

Definition TransportSizeBit := 0x01.
Definition TransportSizeByte := 0x02.
Definition TransportSizeChar := 0x03.
Definition TransportSizeWord := 0x04.
Definition TransportSizeInt := 0x05.
Definition TransportSizeDWord := 0x06.
Definition TransportSizeDInt := 0x07.
Definition TransportSizeReal := 0x08.

(** [type ResponseTransportSize byte] *)
Definition ResponseTransportSize := Z.
Definition RespTransportSizeBit : ResponseTransportSize := 0x01.
Definition RespTransportSizeByte : ResponseTransportSize := 0x02.
Definition RespTransportSizeChar : ResponseTransportSize := 0x03.
Definition RespTransportSizeWord : ResponseTransportSize := 0x04.
Definition RespTransportSizeInt : ResponseTransportSize := 0x05.
Definition RespTransportSizeDWord : ResponseTransportSize := 0x06.
Definition RespTransportSizeDInt : ResponseTransportSize := 0x07.
Definition RespTransportSizeReal : ResponseTransportSize := 0x08.
Definition RespTransportSizeDATE : ResponseTransportSize := 0x09.
Definition RespTransportSizeTOD : ResponseTransportSize := 0x0A.
Definition RespTransportSizeTIME : ResponseTransportSize := 0x0B.
Definition RespTransportSizeS5TIME : ResponseTransportSize := 0x0C.
Definition RespTransportSizeDT : ResponseTransportSize := 0x0F.
Definition RespTransportSizeCount : ResponseTransportSize := 0x1C.
Definition RespTransportSizeTimer : ResponseTransportSize := 0x1D.
Definition RespTransportSizeIECCount : ResponseTransportSize := 30.
Definition RespTransportSizeIECTimer : ResponseTransportSize := 31.
Definition RespTransportSizeHSCounter : ResponseTransportSize := 32.

(** [responseTransportSizeNames] *)
Definition responseTransportSizeNames : list (Z * string) :=
  [ (RespTransportSizeBit, "BIT");
    (RespTransportSizeByte, "BYTE");
    (RespTransportSizeChar, "CHAR");
    (RespTransportSizeWord, "WORD");
    (RespTransportSizeInt, "INT");
    (RespTransportSizeDWord, "DWORD");
    (RespTransportSizeDInt, "DINT");
    (RespTransportSizeReal, "REAL");
    (RespTransportSizeDATE, "DATE");
    (RespTransportSizeTOD, "TOD");
    (RespTransportSizeTIME, "TIME");
    (RespTransportSizeS5TIME, "S5TIME");
    (RespTransportSizeDT, "DATE_AND_TIME");
    (RespTransportSizeCount, "COUNTER");
    (RespTransportSizeTimer, "TIMER");
    (RespTransportSizeIECCount, "IEC_COUNTER");
    (RespTransportSizeIECTimer, "IEC_TIMER");
    (RespTransportSizeHSCounter, "HS_COUNTER") ].

Definition ResponseTransportSize_String (r : ResponseTransportSize) : string :=
  match table_lookup responseTransportSizeNames r with
  | Some s => s
  | None => "0x" +:+ hex02 r
  end.

(** ** Addresses and requests *)

Record S7AnyAddress := {
  Any_Area : Z;
  Any_DBNumber : Z;
  Any_Start : Z;
  Any_Size : Z }.

Definition EncodeS7Any (addr : S7AnyAddress) : bytes :=
  let startBit := int (Any_Start addr * 8) in
  [0x12; 0x0A; SyntaxIDS7Any; TransportSizeByte]
    ++ put_u16 (u16 (Any_Size addr)) ++ put_u16 (u16 (Any_DBNumber addr))
    ++ [Any_Area addr; u8 (Z.shiftr startBit 16); u8 (Z.shiftr startBit 8); u8 startBit].

Definition ReadVarRequestOverhead := S7HeaderSize + 2 + 12.
Definition WriteVarRequestOverhead := S7HeaderSize + 2 + 12 + 4.

Definition EncodeReadVarRequest (pduRef : Z) (addrs : list S7AnyAddress) : bytes :=
  let param := [FuncReadVar; u8 (len addrs)] ++ concat (map EncodeS7Any addrs) in
  let header := EncodeS7Header ROSCTRJob pduRef (len param) 0 in
  header ++ param.

Definition EncodeWriteVarRequest (pduRef : Z) (addr : S7AnyAddress) (value : bytes) : bytes :=
  let param := [FuncWriteVar; 1] ++ EncodeS7Any addr in
  let data := [RetCodeSuccess; 0x04] ++ put_u16 (u16 (len value * 8)) ++ value in
  let data := if negb (Z.rem (len data) 2 =? 0) then data ++ [0x00] else data in
  let header := EncodeS7Header ROSCTRJob pduRef (len param) (len data) in
  (header ++ param) ++ data.

(** ** Responses

    A nil [Data] is the empty list. *)

Record ReadVarItem := {
  Item_ReturnCode : Z;
  Item_RawTransportSize : Z;
  Item_RawLength : Z;
  Item_Data : bytes }.

Definition NormalizeResponseDataLength (transportSize : ResponseTransportSize)
    (rawLength : Z) : res Z :=
  if bool_decide (transportSize ∈ [RespTransportSizeBit; RespTransportSizeChar;
       RespTransportSizeWord; RespTransportSizeInt; RespTransportSizeDWord;
       RespTransportSizeDInt; RespTransportSizeReal])
  then Ok (Z.quot (rawLength + 7) 8)
  else if transportSize =? RespTransportSizeByte then Ok rawLength
  else if bool_decide (transportSize ∈ [RespTransportSizeDATE; RespTransportSizeS5TIME;
       RespTransportSizeCount; RespTransportSizeTimer; RespTransportSizeIECCount;
       RespTransportSizeIECTimer; RespTransportSizeHSCounter])
  then Ok (Z.quot (rawLength + 7) 8)
  else if bool_decide (transportSize ∈ [RespTransportSizeTOD; RespTransportSizeTIME])
  then Ok (Z.quot (rawLength + 7) 8)
  else if transportSize =? RespTransportSizeDT then Ok (Z.quot (rawLength + 7) 8)
  else Err (S7Msg ("unknown response transport size 0x" +:+ hexByte transportSize)).

Definition item_at_offset (offset : Z) (s : sentinel) : error :=
  EWrap ("read response item at offset " +:+ dec offset +:+ ": ") (ESentinel s) "".

Definition decodeReadResponseItem (data : bytes) (offset : Z) (isLastItem : bool)
    : res (ReadVarItem * Z) :=
  if len data <? offset + 4 then Err (item_at_offset offset ErrTruncatedItemHeader) else
  let! retCode := go_index data offset in
  let! transportSize := go_index data (offset + 1) in
  let! b2 := go_index data (offset + 2) in
  let! b3 := go_index data (offset + 3) in
  let rawLength := get_u16 b2 b3 in
  let? byteLen := NormalizeResponseDataLength transportSize rawLength in
  if byteLen <? 0 then Err (S7Msg "read response item negative length") else
  if len data <? offset + 4 + byteLen
  then Err (item_at_offset offset ErrTruncatedItemPayload) else
  let item d := {| Item_ReturnCode := retCode; Item_RawTransportSize := transportSize;
                   Item_RawLength := rawLength; Item_Data := d |} in
  let? item :=
    if retCode =? RetCodeSuccess
    then let! d := go_slice data (offset + 4) (offset + 4 + byteLen) in Ok (item d)
    else Ok (item []) in
  let next := offset + 4 + byteLen in
  if negb (Z.rem byteLen 2 =? 0) then
    if (len data <=? next) && negb isLastItem
    then Err (item_at_offset offset ErrTruncatedItemPayload)
    else if next <? len data then Ok (item, next + 1) else Ok (item, next)
  else Ok (item, next).

(** The item loop of [ParseReadVarResponse]: [n] items are left, the next one has
    index [i]. *)
Fixpoint read_items (data : bytes) (itemCount : Z) (n : nat) (i offset : Z)
    : res (list ReadVarItem) :=
  match n with
  | O => Ok []
  | S n =>
      let isLast := i =? itemCount - 1 in
      let? ' (item, next) := decodeReadResponseItem data offset isLast in
      let? items := read_items data itemCount n (i + 1) next in
      Ok (item :: items)
  end.

Definition ParseReadVarResponse (param data : bytes) : res (list ReadVarItem) :=
  if len param <? 2 then Err (S7Msg "read response param too short") else
  let! p0 := go_index param 0 in
  if negb (p0 =? FuncReadVar) then Err (S7Msg "not a read var response") else
  let! itemCount := go_index param 1 in
  read_items data itemCount (Z.to_nat itemCount) 0 0.

Definition ParseWriteVarResponse (param data : bytes) : res unit :=
  if len param <? 2 then Err (S7Msg "write response param too short") else
  let! p0 := go_index param 0 in
  if negb (p0 =? FuncWriteVar) then Err (S7Msg "not a write var response") else
  if len data <? 1 then Err (S7Msg "write response data too short") else
  let! d0 := go_index data 0 in
  ReturnCodeError d0.

(** ** Typed decoding of successful items

    A [float32] is represented by its IEEE 754 bits: [math.Float32frombits] and
    [math.Float32bits] are the identity on them. *)

Definition decodeSuccessItem (item : ReadVarItem) (need : Z) : res bytes :=
  if negb (Item_ReturnCode item =? RetCodeSuccess)
  then Err (S7Msg "item not success, cannot decode") else
  if len (Item_Data item) <? need
  then Err (S7Msg ("item payload too short: need " +:+ dec need +:+ ", got "
              +:+ dec (len (Item_Data item))))
  else Ok (Item_Data item).

Definition BigEndian_Uint16 (data : bytes) : res Z :=
  let! b0 := go_index data 0 in
  let! b1 := go_index data 1 in
  Ok (get_u16 b0 b1).

Definition BigEndian_Uint32 (data : bytes) : res Z :=
  let! b0 := go_index data 0 in
  let! b1 := go_index data 1 in
  let! b2 := go_index data 2 in
  let! b3 := go_index data 3 in
  Ok (get_u32 b0 b1 b2 b3).

Definition DecodeAsByte (item : ReadVarItem) : res Z :=
  let? data := decodeSuccessItem item 1 in
  let! b := go_index data 0 in
  Ok b.

Definition DecodeAsWord (item : ReadVarItem) : res Z :=
  let? data := decodeSuccessItem item 2 in
  BigEndian_Uint16 data.

Definition DecodeAsDWord (item : ReadVarItem) : res Z :=
  let? data := decodeSuccessItem item 4 in
  BigEndian_Uint32 data.

Definition DecodeAsInt (item : ReadVarItem) : res Z :=
  let? data := decodeSuccessItem item 2 in
  let? w := BigEndian_Uint16 data in
  Ok (i16 w).

Definition DecodeAsDInt (item : ReadVarItem) : res Z :=
  let? data := decodeSuccessItem item 4 in
  let? w := BigEndian_Uint32 data in
  Ok (i32 w).

Definition DecodeAsReal (item : ReadVarItem) : res Z :=
  let? data := decodeSuccessItem item 4 in
  BigEndian_Uint32 data.
