(* ===== verification/WireSpec.v ===== *)
(** * What a peer makes of Read Var and Write Var

    A reference codec for the other end of the connection, written from the
    layout of the messages and independent of the client's own code, and the
    theorems that relate [WireReadWrite] to it. *)

From S2P Require Import Prelude GoError WireErrors WireHeader WireReadWrite.

(** ** Requests, as the peer decodes them *)

Definition decode_s7any (l : bytes) : option S7AnyAddress :=
  match l with
  | [0x12; 0x0A; 0x10; 0x02; s1; s0; d1; d0; area; a2; a1; a0] =>
      Some {| Any_Area := area; Any_DBNumber := d1 * 256 + d0;
              Any_Start := (a2 * 65536 + a1 * 256 + a0) / 8;
              Any_Size := s1 * 256 + s0 |}
  | _ => None
  end.

Fixpoint decode_s7any_list (n : nat) (l : bytes) : option (list S7AnyAddress) :=
  match n with
  | O => match l with [] => Some [] | _ => None end
  | S n =>
      match decode_s7any (take 12 l), decode_s7any_list n (drop 12 l) with
      | Some a, Some addrs => Some (a :: addrs)
      | _, _ => None
      end
  end.

(** A Read Var job: its PDU reference and the addresses it asks for. *)
Definition decode_read_request (pdu : bytes) : option (Z * list S7AnyAddress) :=
  match ParseS7Header pdu with
  | Ok (h, f :: n :: body) =>
      if IsJob (Header_ROSCTR h) && (f =? 0x04) && (DataLength h =? 0)
           && (ParamLength h =? 2 + len body)
      then (PDURef h,.) <$> decode_s7any_list (Z.to_nat n) body
      else None
  | _ => None
  end.

(** A Write Var job with one item: reference, address and the bytes to store. *)
Definition decode_write_request (pdu : bytes) : option (Z * S7AnyAddress * bytes) :=
  match ParseS7Header pdu with
  | Ok (h, 0x05 :: 1 :: body) =>
      match decode_s7any (take 12 body), drop 12 body with
      | Some a, 0xFF :: 0x04 :: l1 :: l0 :: payload =>
          let n := (l1 * 256 + l0) / 8 in
          if IsJob (Header_ROSCTR h) && (ParamLength h =? 14)
               && (DataLength h =? 4 + len payload) && (n <=? len payload)
               && (len payload <=? n + 1)
          then Some (PDURef h, a, take (Z.to_nat n) payload)
          else None
      | _, _ => None
      end
  | _ => None
  end.

(** The part of an address that twelve bytes can carry: 16 bits of size and DB
    number and 21 bits of byte offset. *)
Definition any_on_wire (a : S7AnyAddress) : S7AnyAddress :=
  {| Any_Area := Any_Area a; Any_DBNumber := u16 (Any_DBNumber a);
     Any_Start := Any_Start a mod 2 ^ 21; Any_Size := u16 (Any_Size a) |}.

Definition any_in_range (a : S7AnyAddress) : Prop :=
  is_byte (Any_Area a) /\ 0 <= Any_DBNumber a < 2 ^ 16 /\
  0 <= Any_Start a < 2 ^ 21 /\ 0 <= Any_Size a < 2 ^ 16.

(** ** Responses, as the peer encodes them *)

(** An acknowledgement without an error. *)
Definition ack_header (ref : Z) (param data : bytes) : S7Header :=
  {| ProtocolID := 0x32; Header_ROSCTR := ROSCTRAckData; RedundancyID := 0; PDURef := ref;
     ParamLength := len param; DataLength := len data; ErrorClass := 0; ErrorCode := 0 |}.

Definition ack_data (ref : Z) (param data : bytes) : bytes :=
  encode_header_ref (ack_header ref param data) ++ param ++ data.

Lemma ack_header_wf ref param data :
  0 <= ref < 65536 -> len param < 65536 -> len data < 65536 ->
  header_wf (ack_header ref param data).
Proof. intros. constructor; cbn; unfold is_byte; len; done. Qed.

(** One response item: return code, transport size, raw length, payload and, after
    an odd payload, the fill byte. *)
Record RespItem := {
  ri_code : Z;
  ri_size : Z;
  ri_raw : Z;
  ri_payload : bytes;
  ri_fill : option Z }.

Definition encode_resp_item (it : RespItem) : bytes :=
  [ri_code it; ri_size it] ++ put_u16 (ri_raw it) ++ ri_payload it
    ++ option_list (ri_fill it).

Definition resp_item_wf (it : RespItem) : Prop :=
  is_byte (ri_code it) /\ is_byte (ri_size it) /\ 0 <= ri_raw it < 65536 /\
  bytes_ok (ri_payload it) /\ bytes_ok (option_list (ri_fill it)) /\
  NormalizeResponseDataLength (ri_size it) (ri_raw it) = Ok (len (ri_payload it)).

(** A fill byte follows an odd payload, and only that; it may be missing where the
    data ends with the last item. *)
Definition fill_ok (it : RespItem) (last : bool) (rest : bytes) : Prop :=
  if len (ri_payload it) mod 2 =? 0 then ri_fill it = None
  else is_Some (ri_fill it) \/ (ri_fill it = None /\ last = true /\ rest = []).

Fixpoint resp_items_ok (its : list RespItem) (trailing : bytes) : Prop :=
  match its with
  | [] => True
  | it :: its =>
      resp_item_wf it
      /\ fill_ok it (match its with [] => true | _ => false end)
           (concat (map encode_resp_item its) ++ trailing)
      /\ resp_items_ok its trailing
  end.

(** What the client reports for an item. *)
Definition item_of (it : RespItem) : ReadVarItem :=
  {| Item_ReturnCode := ri_code it; Item_RawTransportSize := ri_size it;
     Item_RawLength := ri_raw it;
     Item_Data := if ri_code it =? 0xFF then ri_payload it else [] |}.

(** A byte-sized item that carries [data] successfully. *)
Definition resp_byte_item (data : bytes) (fill : option Z) : RespItem :=
  {| ri_code := 0xFF; ri_size := 0x02; ri_raw := len data; ri_payload := data;
     ri_fill := fill |}.

(** ** Lemmas: addresses *)

Lemma len_EncodeS7Any a : len (EncodeS7Any a) = 12.
Proof. done. Qed.
#[export] Hint Rewrite len_EncodeS7Any : len.

Lemma bytes_ok_EncodeS7Any a : is_byte (Any_Area a) -> bytes_ok (EncodeS7Any a).
Proof. intros. unfold EncodeS7Any. auto 20 with bytes. Qed.
#[export] Hint Resolve bytes_ok_EncodeS7Any : bytes.

Lemma startBit_bytes z :
  u8 (Z.shiftr (int (z * 8)) 16) * 65536 + u8 (Z.shiftr (int (z * 8)) 8) * 256
    + u8 (int (z * 8)) = z mod 2 ^ 21 * 8.
Proof.
  pose proof (int_mod (z * 8) 24 ltac:(lia)) as H.
  unfold u8. rewrite !Z.shiftr_div_pow2 by lia.
  revert H. generalize (int (z * 8)). intros i H. lia.
Qed.

Lemma decode_s7any_inv l a : decode_s7any l = Some a ->
  exists s1 s0 d1 d0 area a2 a1 a0,
    l = [0x12; 0x0A; 0x10; 0x02; s1; s0; d1; d0; area; a2; a1; a0] /\
    a = {| Any_Area := area; Any_DBNumber := d1 * 256 + d0;
           Any_Start := (a2 * 65536 + a1 * 256 + a0) / 8; Any_Size := s1 * 256 + s0 |}.
Proof.
  intros H. unfold decode_s7any in H.
  repeat match type of H with match ?x with _ => _ end = _ =>
    is_var x; destruct x; try discriminate H end.
  injection H as <-. by eexists _, _, _, _, _, _, _, _.
Qed.

Lemma decode_EncodeS7Any a : decode_s7any (EncodeS7Any a) = Some (any_on_wire a).
Proof.
  unfold EncodeS7Any, any_on_wire, put_u16. cbn. rewrite startBit_bytes.
  rewrite Z.div_mul by lia.
  rewrite <- !get_u16_eq, !get_put_u16 by apply u8_range.
  unfold u16. by rewrite !Z.mod_mod by lia.
Qed.

Lemma any_on_wire_id a : any_in_range a -> any_on_wire a = a.
Proof.
  intros (Ha & Hd & Hs & Hz). destruct a as [ar db st sz]. unfold any_on_wire. cbn in *.
  by rewrite !u16_small, Z.mod_small by lia.
Qed.

Lemma decode_s7any_list_app addrs :
  decode_s7any_list (length addrs) (concat (map EncodeS7Any addrs))
  = Some (map any_on_wire addrs).
Proof.
  induction addrs as [|a addrs IH]; [done|]. cbn [length decode_s7any_list map concat].
  rewrite take_app_length', drop_app_length' by done.
  by rewrite decode_EncodeS7Any, IH.
Qed.

Lemma len_concat_EncodeS7Any addrs : len (concat (map EncodeS7Any addrs)) = 12 * len addrs.
Proof. induction addrs as [|a addrs IH]; [done|]. cbn [map concat]. len. Qed.
#[export] Hint Rewrite len_concat_EncodeS7Any : len.

(** ** Lemmas: requests *)

Lemma len_EncodeReadVarRequest ref addrs :
  len (EncodeReadVarRequest ref addrs) = 12 + 12 * len addrs.
Proof. unfold EncodeReadVarRequest. len. Qed.

(** The data section is padded to an even length. *)
Lemma len_EncodeWriteVarRequest ref a v :
  len (EncodeWriteVarRequest ref a v) = 28 + len v + len v mod 2.
Proof.
  unfold EncodeWriteVarRequest. pose proof (len_nonneg v).
  rewrite !len_app, len_EncodeS7Header, len_EncodeS7Any.
  assert (len ([RetCodeSuccess; 4] ++ put_u16 (u16 (len v * 8)) ++ v) = 4 + len v) as E by len.
  case_if; rewrite ?len_app, E in *; rewrite ?len_cons, ?len_nil in *;
    rewrite Z.rem_mod_nonneg in * by lia; lia.
Qed.

Lemma bytes_ok_concat_EncodeS7Any addrs :
  Forall (fun a => is_byte (Any_Area a)) addrs -> bytes_ok (concat (map EncodeS7Any addrs)).
Proof. induction 1; cbn [map concat]; auto with bytes. Qed.

Lemma bytes_ok_EncodeReadVarRequest ref addrs :
  Forall (fun a => is_byte (Any_Area a)) addrs -> bytes_ok (EncodeReadVarRequest ref addrs).
Proof.
  intros H%bytes_ok_concat_EncodeS7Any. unfold EncodeReadVarRequest. auto 20 with bytes.
Qed.

Lemma bytes_ok_EncodeWriteVarRequest ref a v :
  is_byte (Any_Area a) -> bytes_ok v -> bytes_ok (EncodeWriteVarRequest ref a v).
Proof.
  intros Ha Hv. unfold EncodeWriteVarRequest.
  assert (forall b : bool, bytes_ok (if b then ([RetCodeSuccess; 0x04]
    ++ put_u16 (u16 (len v * 8)) ++ v) ++ [0x00] else [RetCodeSuccess; 0x04]
    ++ put_u16 (u16 (len v * 8)) ++ v)) as Hd by (intros []; auto 20 with bytes).
  auto 20 with bytes.
Qed.

(** The section lengths in the header of a Read Var job are the real ones, and the
    peer decodes from it exactly the addresses the wire format can carry. *)
Lemma decode_EncodeReadVarRequest ref addrs :
  0 <= ref < 65536 -> len addrs < 256 ->
  decode_read_request (EncodeReadVarRequest ref addrs) = Some (ref, map any_on_wire addrs).
Proof.
  intros Href Hn. unfold decode_read_request, EncodeReadVarRequest.
  set (param := [FuncReadVar; u8 (len addrs)] ++ concat (map EncodeS7Any addrs)).
  assert (len param = 2 + 12 * len addrs) as Hp by (unfold param; len).
  rewrite ParseS7Header_job by (try done; len).
  rewrite Hp. unfold param. cbn [app PDURef Header_ROSCTR DataLength ParamLength].
  rewrite len_concat_EncodeS7Any, !Z.eqb_refl. cbn -[decode_s7any_list].
  rewrite u8_small by len. replace (Z.to_nat (len addrs)) with (length addrs) by (unfold len; lia).
  by rewrite decode_s7any_list_app.
Qed.

(** Up to 8191 bytes a Write Var job carries the value unchanged; beyond, the
    16-bit bit length no longer holds it. *)
Lemma decode_EncodeWriteVarRequest ref a v :
  0 <= ref < 65536 -> len v < 8192 ->
  decode_write_request (EncodeWriteVarRequest ref a v) = Some (ref, any_on_wire a, v).
Proof.
  intros Href Hn. unfold decode_write_request, EncodeWriteVarRequest.
  set (param := [FuncWriteVar; 1] ++ EncodeS7Any a).
  set (pad := if negb (Z.rem (4 + len v) 2 =? 0) then [0] else @nil Z).
  set (d := if negb _ then _ else _).
  assert (d = [0xFF; 0x04] ++ put_u16 (u16 (len v * 8)) ++ v ++ pad) as ->.
  { unfold d, pad. replace (len _) with (4 + len v) by len. case_if; [done|].
    by rewrite app_nil_r. }
  assert (len pad <= 1) by (unfold pad; case_if; len).
  rewrite <- app_assoc.
  rewrite (ParseS7Header_frame ROSCTRJob ref param) by (try done; len).
  unfold param. cbn [app]. cbn [PDURef Header_ROSCTR DataLength ParamLength].
  rewrite take_app_length', drop_app_length' by done. rewrite decode_EncodeS7Any.
  unfold put_u16; cbn [app]. rewrite <- get_u16_eq, get_put_u16 by apply u8_range.
  unfold u16. rewrite Z.mod_mod, Z.mod_small, Z.div_mul by len.
  rewrite take_app_length' by (unfold len; lia). unfold FuncWriteVar.
  match goal with |- (if ?b then _ else _) = _ => replace b with true; [done|] end.
  symmetry. rewrite !andb_true_iff, !Z.leb_le, !Z.eqb_eq. repeat split; len.
Qed.

(** ** Lemmas: one response item *)

Lemma NormalizeResponseDataLength_range ts raw n :
  0 <= raw < 65536 -> NormalizeResponseDataLength ts raw = Ok n -> 0 <= n <= raw.
Proof.
  intros Hr. unfold NormalizeResponseDataLength. rewrite Z.quot_div_nonneg by lia.
  repeat case_if; intros [= <-]; lia.
Qed.

Lemma NormalizeResponseDataLength_no_panic ts raw :
  no_panic (NormalizeResponseDataLength ts raw) = true.
Proof. unfold NormalizeResponseDataLength. by repeat case_if. Qed.

Lemma len_encode_resp_item it :
  len (encode_resp_item it) = 4 + len (ri_payload it) + len (option_list (ri_fill it)).
Proof. unfold encode_resp_item. len. Qed.
#[export] Hint Rewrite len_encode_resp_item : len.

Lemma bytes_ok_encode_resp_item it : resp_item_wf it -> bytes_ok (encode_resp_item it).
Proof. intros (?&?&?&?&?&?). unfold encode_resp_item. auto 20 with bytes. Qed.

Lemma fill_ok_len it last rest : fill_ok it last rest ->
  len (ri_payload it) mod 2 <> 0 /\ len (option_list (ri_fill it)) = 1 \/
  len (option_list (ri_fill it)) = 0 /\
    (len (ri_payload it) mod 2 = 0 \/ last = true /\ rest = []).
Proof.
  unfold fill_ok. case_if.
  - intros ->. right. split; [done|]. by left.
  - intros [[f ->]|(-> & -> & ->)]; [left|right]; split; auto.
Qed.

(** Decoding a well-formed item in place returns it and the offset after it. *)
Lemma decodeReadResponseItem_complete pre it rest last :
  resp_item_wf it -> fill_ok it last rest ->
  decodeReadResponseItem (pre ++ encode_resp_item it ++ rest) (len pre) last
  = Ok (item_of it, len pre + len (encode_resp_item it)).
Proof.
  intros (Hcode & Hsz & Hraw & Hpl & Hfill & Hn) Hok.
  pose proof (fill_ok_len _ _ _ Hok) as Hl. clear Hok Hfill.
  unfold decodeReadResponseItem. rewrite !len_app, len_encode_resp_item.
  case_if; [exfalso; len|].
  rewrite (go_index_app_plus _ _ (len pre) 0),
    !(go_index_app_plus _ _ (len pre + _) _ eq_refl) by lia.
  unfold encode_resp_item. rewrite <- !app_assoc. unfold put_u16; cbn [app]. indices.
  rewrite get_put_u16, u16_small, Hn by done. cbn.
  case_if; [exfalso; len|]. case_if; [exfalso; len|].
  rewrite (go_slice_app_plus _ _ _ _ 4 (4 + len (ri_payload it))) by lia.
  slices. rewrite take_app_length' by (unfold len; lia).
  match goal with |- res_bind ?m _ = _ => assert (m = Ok (item_of it)) as -> end.
  { unfold item_of, RetCodeSuccess. by case_if. }
  cbn. rewrite Z.rem_mod_nonneg by len.
  destruct Hl as [[Hodd Hf]|[Hf [Heven|[-> ->]]]]; repeat case_if; subst;
    try (do 2 f_equal; len); exfalso; len; done.
Qed.

(** Unfold the item decoder at the boundary between two parts of the data. *)
Lemma decodeReadResponseItem_at pre b0 b1 b2 b3 tl last :
  decodeReadResponseItem (pre ++ b0 :: b1 :: b2 :: b3 :: tl) (len pre) last =
  (let? n := NormalizeResponseDataLength b1 (get_u16 b2 b3) in
   if n <? 0 then Err (S7Msg "read response item negative length") else
   if len tl <? n then Err (item_at_offset (len pre) ErrTruncatedItemPayload) else
   let item := {| Item_ReturnCode := b0; Item_RawTransportSize := b1;
                  Item_RawLength := get_u16 b2 b3;
                  Item_Data := if b0 =? 0xFF then take (Z.to_nat n) tl else [] |} in
   let next := len pre + 4 + n in
   if negb (Z.rem n 2 =? 0) then
     if (len tl <=? n) && negb last
     then Err (item_at_offset (len pre) ErrTruncatedItemPayload)
     else if n <? len tl then Ok (item, next + 1) else Ok (item, next)
   else Ok (item, next)).
Proof.
  unfold decodeReadResponseItem. rewrite !len_app. case_if; [exfalso; len|].
  rewrite (go_index_app_plus _ _ (len pre) 0),
    !(go_index_app_plus _ _ (len pre + _) _ eq_refl) by lia.
  indices. destruct NormalizeResponseDataLength as [n| |]; cbn; [|done..].
  destruct (n <? 0) eqn:Hn; [done|]. zify_bool. rewrite !len_cons.
  replace (len pre + (1 + (1 + (1 + (1 + len tl)))) <? len pre + 4 + n) with (len tl <? n)
    by (apply eq_bool_prop_intro; rewrite !Is_true_true, !Z.ltb_lt; lia).
  destruct (len tl <? n) eqn:Hl; [done|]. zify_bool.
  rewrite (go_slice_app_plus _ _ _ _ 4 (4 + n)) by lia. slices.
  replace (4 + n - 4) with n by lia. unfold RetCodeSuccess.
  replace (len pre + (1 + (1 + (1 + (1 + len tl)))) <=? len pre + 4 + n) with (len tl <=? n)
    by (apply eq_bool_prop_intro; rewrite !Is_true_true, !Z.leb_le; lia).
  replace (len pre + 4 + n <? len pre + (1 + (1 + (1 + (1 + len tl))))) with (n <? len tl)
    by (apply eq_bool_prop_intro; rewrite !Is_true_true, !Z.ltb_lt; lia).
  by destruct (b0 =? 255).
Qed.


Lemma decodeReadResponseItem_no_panic data off last :
  0 <= off -> no_panic (decodeReadResponseItem data off last) = true.
Proof.
  intros Hoff. destruct (decide (len data < off + 4)) as [Hlt|Hge].
  { unfold decodeReadResponseItem. by rewrite (proj2 (Z.ltb_lt _ _)). }
  destruct (split_at data off) as (pre & tl & -> & ->); [len|].
  rewrite len_app in Hge. peel tl 4%nat. rewrite decodeReadResponseItem_at.
  apply no_panic_bind; [apply NormalizeResponseDataLength_no_panic|].
  intros n _. by repeat case_if.
Qed.

(** What the item decoder accepts is a well-formed item in place. *)
Lemma decodeReadResponseItem_sound pre tl last item next :
  bytes_ok tl -> decodeReadResponseItem (pre ++ tl) (len pre) last = Ok (item, next) ->
  exists it rest, tl = encode_resp_item it ++ rest /\ resp_item_wf it /\
    fill_ok it last rest /\ item = item_of it /\ next = len pre + len (encode_resp_item it).
Proof.
  intros Hok H. destruct (decide (len (pre ++ tl) < len pre + 4)) as [Hlt|Hge].
  { unfold decodeReadResponseItem in H. by rewrite (proj2 (Z.ltb_lt _ _)) in H. }
  rewrite len_app in Hge. peel tl 4%nat. rewrite decodeReadResponseItem_at in H.
  repeat (apply Forall_cons_1 in Hok as [? Hok]).
  apply res_bind_Ok in H as (n & Hn & H).
  pose proof (NormalizeResponseDataLength_range _ _ _ (get_u16_range z1 z2 ltac:(done) ltac:(done)) Hn).
  do 2 (case_if; [done|]).
  set (payload := take (Z.to_nat n) tl) in *. set (rest := drop (Z.to_nat n) tl).
  assert (tl = payload ++ rest) as Htl by (symmetry; apply take_drop).
  assert (len payload = n) as Hp by (unfold payload; len).
  assert (len rest = len tl - n) as Hr by (unfold rest; len).
  clearbody payload rest. subst tl n. apply bytes_ok_app in Hok as [Hpok Hrok].
  rewrite Z.rem_mod_nonneg in H by lia.
  set (it fill := {| ri_code := z; ri_size := z0; ri_raw := get_u16 z1 z2;
                     ri_payload := payload; ri_fill := fill |}).
  assert (forall fill, bytes_ok (option_list fill) -> resp_item_wf (it fill)) as Hwf.
  { intros fill ?. unfold resp_item_wf, it. cbn.
    pose proof (get_u16_range z1 z2 ltac:(done) ltac:(done)). tauto. }
  assert (forall fill, encode_resp_item (it fill)
    = z :: z0 :: z1 :: z2 :: payload ++ option_list fill) as Henc.
  { intros fill. unfold encode_resp_item, it. cbn.
    by rewrite put_get_u16. }
  destruct (negb (len payload mod 2 =? 0)) eqn:Hodd; zify_bool.
  - destruct ((len (payload ++ rest) <=? len payload) && negb last) eqn:Hl; [done|].
    destruct (len payload <? len (payload ++ rest)) eqn:Hlt; zify_bool;
      destruct rest as [|f rest]; try (exfalso; len; done).
    + exists (it (Some f)), rest. rewrite Henc in *. cbn [option_list].
      apply Forall_cons_1 in Hrok as [? Hrok].
      injection H as <- <-. split; [cbn [app]; by rewrite <- app_assoc|].
      split; [apply Hwf; by constructor|]. split; [|split; [done|cbn [option_list]; len]].
      unfold fill_ok. cbn. case_if; [lia|left; by eexists].
    + exists (it None), []. rewrite Henc. cbn [option_list].
      assert (last = true) as ->.
      { destruct last; [done|]. rewrite andb_true_r in Hl. zify_bool. lia. }
      injection H as <- <-. split; [by rewrite !app_nil_r|].
      split; [by apply Hwf|]. split; [|split; [done|cbn [option_list]; len]].
      unfold fill_ok. cbn. case_if; [lia|by right].
  - injection H as <- <-. exists (it None), rest. rewrite Henc. cbn [option_list].
    split; [by rewrite !app_nil_r|]. split; [by apply Hwf|].
    split; [|split; [done|cbn [option_list]; len]]. unfold fill_ok. cbn. case_if; [done|lia].
Qed.

(** ** The item loop *)

Lemma read_items_no_panic data count n i off :
  0 <= off -> no_panic (read_items data count n i off) = true.
Proof.
  revert i off. induction n as [|n IH]; intros i off Hoff; [done|]. cbn [read_items].
  apply no_panic_bind; [by apply decodeReadResponseItem_no_panic|].
  intros [item next] H. apply no_panic_bind; [|done]. apply IH. revert H.
  unfold decodeReadResponseItem. case_if; [done|].
  intros H. inv_ok. do 2 (case_if; [done|]). inv_ok. repeat case_if; inv_ok; simplify_eq; lia.
Qed.

Lemma read_items_complete pre its trailing count i :
  count = i + len its -> resp_items_ok its trailing ->
  read_items (pre ++ concat (map encode_resp_item its) ++ trailing) count (length its) i (len pre)
  = Ok (map item_of its).
Proof.
  revert pre i. induction its as [|it its IH]; intros pre i Hc; [done|].
  cbn [resp_items_ok map concat length read_items]. intros (Hwf & Hfill & Hits).
  rewrite <- app_assoc.
  rewrite decodeReadResponseItem_complete; [|done|].
  2:{ replace (i =? count - 1) with (match its with [] => true | _ => false end); [done|].
      symmetry. destruct its; [apply Z.eqb_eq|apply Z.eqb_neq]; len. }
  cbn [res_bind]. rewrite (app_assoc pre), <- len_app.
  rewrite IH; [done|len|done].
Qed.

Lemma read_items_sound pre tl count n i items :
  bytes_ok tl -> count = i + Z.of_nat n ->
  read_items (pre ++ tl) count n i (len pre) = Ok items ->
  exists its trailing, tl = concat (map encode_resp_item its) ++ trailing /\
    length its = n /\ resp_items_ok its trailing /\ items = map item_of its.
Proof.
  revert pre tl i items. induction n as [|n IH]; intros pre tl i items Hok Hc H.
  { injection H as <-. by exists [], tl. }
  cbn [read_items] in H. apply res_bind_Ok in H as ([item next] & Hd & H).
  apply res_bind_Ok in H as (items' & Hr & H). injection H as <-.
  apply decodeReadResponseItem_sound in Hd as (it & rest & -> & Hwf & Hfill & -> & ->); [|done].
  apply bytes_ok_app in Hok as [_ Hok]. rewrite app_assoc, <- len_app in Hr.
  apply IH in Hr as (its & trailing & -> & <- & Hits & ->); [|done|lia].
  exists (it :: its), trailing. cbn [map concat length resp_items_ok].
  rewrite <- app_assoc. split; [done|]. split; [done|]. split; [|done].
  split; [done|]. split; [|done]. revert Hfill.
  replace (i =? count - 1) with (match its with [] => true | _ => false end); [done|].
  symmetry. destruct its; cbn [length] in Hc; [apply Z.eqb_eq|apply Z.eqb_neq]; lia.
Qed.

(** ** Properties *)

(** C12: [ParseReadVarResponse] accepts exactly the Read Var responses of the wire
    format: the parameter section names the function and the number of items, the
    data section is that many well-formed items, each odd payload padded to the
    next word (the pad may be missing after the last).  Too few items are an error, but
    any bytes after the last counted item, surplus well-formed items among them, are
    accepted and ignored, although the comment on the function calls it strict and says
    that it requires exactly that many items and fails on a count mismatch.  The items it
    returns are those of the peer, payloads of failed items dropped. *)
Theorem ParseReadVarResponse_iff count ptail data items :
  is_byte count -> bytes_ok data ->
  ParseReadVarResponse (FuncReadVar :: count :: ptail) data = Ok items <->
  exists its trailing, data = concat (map encode_resp_item its) ++ trailing /\
    len its = count /\ resp_items_ok its trailing /\ items = map item_of its.
Proof.
  intros Hc Hok. unfold ParseReadVarResponse. case_if; [len|]. indices. split.
  - intros (its & tr & -> & Hl & Hits & ->)%(read_items_sound []); [|done|unfold is_byte in Hc; lia].
    exists its, tr. unfold len, is_byte in *. repeat split; [lia|done].
  - intros (its & tr & -> & Hl & Hits & ->).
    replace (Z.to_nat count) with (length its) by (unfold len in Hl; lia).
    by apply (read_items_complete []); [lia|].
Qed.

Lemma ParseReadVarResponse_complete ptail its trailing :
  resp_items_ok its trailing ->
  ParseReadVarResponse (FuncReadVar :: len its :: ptail)
    (concat (map encode_resp_item its) ++ trailing) = Ok (map item_of its).
Proof.
  intros Hits. unfold ParseReadVarResponse. case_if; [len|]. indices.
  unfold len at 2. rewrite Nat2Z.id. by apply (read_items_complete []); [lia|].
Qed.

Lemma ParseReadVarResponse_total param data :
  no_panic (ParseReadVarResponse param data) = true.
Proof.
  unfold ParseReadVarResponse. case_if; [done|]. peel param 2%nat. indices.
  case_if; [done|]. by apply read_items_no_panic.
Qed.

(** Whatever bytes the peer sends, parsing a Read Var response never indexes
    out of range: it returns items or an error. *)
Theorem ParseReadVarResponse_no_panic param data :
  no_panic (ParseReadVarResponse param data) = true.
Proof. apply ParseReadVarResponse_total. Qed.

(** C16: The twelve bytes of an address decode, at the peer, to the same area with
    the DB number and size reduced to 16 bits and the byte offset to 21 bits; so a
    Read Var job of fewer than 256 addresses reaches the peer as exactly those
    addresses when they are in range. *)
Theorem EncodeReadVarRequest_decodes ref addrs :
  0 <= ref < 65536 -> len addrs < 256 -> Forall any_in_range addrs ->
  decode_read_request (EncodeReadVarRequest ref addrs) = Some (ref, addrs).
Proof.
  intros Href Hn Hr. rewrite decode_EncodeReadVarRequest by done. do 2 f_equal.
  induction Hr as [|a addrs Ha _ IH]; cbn; [done|]. rewrite any_on_wire_id by done.
  f_equal. apply IH. len.
Qed.

(** C15: A Write Var job of up to 8191 bytes, padded to an even length, reaches the
    peer as the address (reduced to its wire widths) and exactly the given value,
    and its length is the overhead plus the padded value. *)
Theorem EncodeWriteVarRequest_decodes ref a v :
  0 <= ref < 65536 -> len v < 8192 ->
  decode_write_request (EncodeWriteVarRequest ref a v) = Some (ref, any_on_wire a, v)
  /\ len (EncodeWriteVarRequest ref a v) = WriteVarRequestOverhead + len v + len v mod 2.
Proof.
  intros. split; [by apply decode_EncodeWriteVarRequest|]. apply len_EncodeWriteVarRequest.
Qed.

(** ** Witnesses *)

Definition sample_items : list RespItem :=
  [ {| ri_code := 0xFF; ri_size := 0x01; ri_raw := 1; ri_payload := [0xAB];
       ri_fill := Some 0 |};
    {| ri_code := 0x05; ri_size := 0x02; ri_raw := 0; ri_payload := []; ri_fill := None |};
    {| ri_code := 0xFF; ri_size := 0x04; ri_raw := 24; ri_payload := [1; 2; 3];
       ri_fill := None |} ].

Lemma ParseReadVarResponse_iff_witness :
  ParseReadVarResponse [0x04; 3] (concat (map encode_resp_item sample_items))
  = Ok (map item_of sample_items).
Proof.
  apply (ParseReadVarResponse_iff 3 []).
  - unfold is_byte. lia.
  - vm_compute. repeat constructor; done.
  - exists sample_items, []. split; [by rewrite app_nil_r|]. split; [done|].
    split; [|done].
    repeat split; try done; try (repeat constructor; done).
Defined.

Lemma EncodeReadVarRequest_decodes_witness :
  let a := {| Any_Area := 0x84; Any_DBNumber := 1; Any_Start := 100; Any_Size := 16 |} in
  decode_read_request (EncodeReadVarRequest 7 [a; a]) = Some (7, [a; a]).
Proof.
  apply EncodeReadVarRequest_decodes; [lia|vm_compute; done|].
  repeat constructor; cbn; done.
Defined.

Lemma EncodeWriteVarRequest_decodes_witness :
  let a := {| Any_Area := 0x84; Any_DBNumber := 1; Any_Start := 100; Any_Size := 3 |} in
  decode_write_request (EncodeWriteVarRequest 7 a [1; 2; 3]) = Some (7, any_on_wire a, [1; 2; 3])
  /\ len (EncodeWriteVarRequest 7 a [1; 2; 3]) = WriteVarRequestOverhead + 3 + 3 mod 2.
Proof. apply EncodeWriteVarRequest_decodes; [lia|vm_compute; done]. Defined.
