(* ===== verification/WireSetup.v ===== *)
(** * wire/pdu_setup.go

    The Setup Communication job and its response. *)

From S2P Require Import Prelude GoError WireErrors WireHeader.

Definition EncodeSetupCommRequest (pduRef maxAmqCalling maxAmqCalled pduSize : Z) : bytes :=
  let param := [FuncSetupComm; 0x00] ++ put_u16 (u16 maxAmqCalling)
                 ++ put_u16 (u16 maxAmqCalled) ++ put_u16 (u16 pduSize) in
  let header := EncodeS7Header ROSCTRJob pduRef (len param) 0 in
  header ++ param.

Record SetupCommResponse := {
  Setup_MaxAmqCalling : Z;
  Setup_MaxAmqCalled : Z;
  Setup_PDUSize : Z }.

Definition ParseSetupCommResponse (data : bytes) : res SetupCommResponse :=
  if len data <? 8 then Err (S7Msg "setup comm response too short") else
  let! d0 := go_index data 0 in
  if negb (d0 =? FuncSetupComm) then Err (S7Msg "not a setup comm response") else
  let! d2 := go_index data 2 in
  let! d3 := go_index data 3 in
  let! d4 := go_index data 4 in
  let! d5 := go_index data 5 in
  let! d6 := go_index data 6 in
  let! d7 := go_index data 7 in
  Ok {| Setup_MaxAmqCalling := get_u16 d2 d3; Setup_MaxAmqCalled := get_u16 d4 d5;
        Setup_PDUSize := get_u16 d6 d7 |}.

(** The parameter section of a setup message, as both ends write it. *)
Definition setup_param (s : SetupCommResponse) : bytes :=
  [0xF0; 0x00] ++ put_u16 (Setup_MaxAmqCalling s) ++ put_u16 (Setup_MaxAmqCalled s)
    ++ put_u16 (Setup_PDUSize s).

Definition setup_wf (s : SetupCommResponse) : Prop :=
  0 <= Setup_MaxAmqCalling s < 65536 /\ 0 <= Setup_MaxAmqCalled s < 65536 /\
  0 <= Setup_PDUSize s < 65536.

(** ** Lemmas *)

Lemma ParseSetupCommResponse_no_panic data : no_panic (ParseSetupCommResponse data) = true.
Proof.
  unfold ParseSetupCommResponse. case_if; [done|]. peel data 8%nat. indices. by case_if.
Qed.

Lemma ParseSetupCommResponse_setup s rest :
  setup_wf s -> ParseSetupCommResponse (setup_param s ++ rest) = Ok s.
Proof.
  intros (?&?&?). destruct s as [c d p]. unfold ParseSetupCommResponse, setup_param, put_u16.
  cbn in *. case_if; [len|]. indices. by rewrite !get_put_u16, !u16_small.
Qed.

Lemma ParseSetupCommResponse_wf data s :
  bytes_ok data -> ParseSetupCommResponse data = Ok s -> setup_wf s.
Proof.
  intros Hok. unfold ParseSetupCommResponse. case_if; [done|]. peel data 8%nat. indices.
  repeat (apply Forall_cons_1 in Hok as [? Hok]).
  case_if; [done|]. intros [= <-]. unfold setup_wf. cbn.
  by repeat split; apply get_u16_range.
Qed.

(** ** Properties *)

(** The setup negotiation carries the limits intact: the job the client sends is
    a well-formed frame whose parameter section proposes its limits (reduced to 16
    bits), and the parser reads back from a peer's section exactly the limits the
    peer wrote, whatever follows them. *)
Theorem SetupComm_roundtrip ref calling called pdu s rest :
  0 <= ref < 65536 -> setup_wf s ->
  (exists h, ParseS7Header (EncodeSetupCommRequest ref calling called pdu)
     = Ok (h, setup_param {| Setup_MaxAmqCalling := u16 calling;
                             Setup_MaxAmqCalled := u16 called; Setup_PDUSize := u16 pdu |})
     /\ Header_ROSCTR h = ROSCTRJob /\ PDURef h = ref /\ ParamLength h = 8 /\ DataLength h = 0)
  /\ ParseSetupCommResponse (setup_param s ++ rest) = Ok s.
Proof.
  intros Href Hs. split; [|by apply ParseSetupCommResponse_setup].
  unfold EncodeSetupCommRequest.
  eexists. split; [by apply (ParseS7Header_job ref (setup_param
    {| Setup_MaxAmqCalling := u16 calling; Setup_MaxAmqCalled := u16 called;
       Setup_PDUSize := u16 pdu |}))|done].
Qed.

Lemma SetupComm_roundtrip_witness :
  let s := {| Setup_MaxAmqCalling := 1; Setup_MaxAmqCalled := 1; Setup_PDUSize := 240 |} in
  (exists h, ParseS7Header (EncodeSetupCommRequest 1 1 1 480)
     = Ok (h, setup_param {| Setup_MaxAmqCalling := u16 1;
                             Setup_MaxAmqCalled := u16 1; Setup_PDUSize := u16 480 |})
     /\ Header_ROSCTR h = ROSCTRJob /\ PDURef h = 1 /\ ParamLength h = 8 /\ DataLength h = 0)
  /\ ParseSetupCommResponse (setup_param s ++ [0]) = Ok s.
Proof. apply SetupComm_roundtrip; [lia|unfold setup_wf; cbn; lia]. Defined.
