(* ===== verification/WireSzl.v ===== *)
(** * wire/pdu_szl.go

    SZL (system status list) reads: the userdata request and its response. *)

From S2P Require Import Prelude GoError WireErrors WireHeader.

Definition SZLModuleID := 0x0011.
Definition SZLComponentID := 0x001C.
Definition SZLCPUState := 0x0424.
Definition SZLProtectionInfo := 0x0232.
Definition SZLDiagBuffer := 0x00A0.
Definition SZLBlockList := 0x0111.
Definition SZLBlockInfo := 0x0113.

(** [szlIDNames] *)
Definition szlIDNames : list (Z * string) :=
  [ (0x0011, "Module identification");
    (0x0012, "All characteristics");
    (0x0013, "Data records of all memory areas");
    (0x0014, "All system areas of a module");
    (0x0015, "Data records of all block types");
    (0x0016, "Data records of all priority classes");
    (0x0017, "All SDBs of a module");
    (0x0018, "All data records");
    (0x0019, "Status of all LEDs");
    (0x001C, "Component identification");
    (0x00A0, "Diagnostic buffer");
    (0x0111, "Block list (single identification data record)");
    (0x0112, "Characteristics of a group");
    (0x0113, "Data record for one memory area / Block info");
    (0x0114, "One system area");
    (0x0115, "Data record of a block type");
    (0x0116, "Data record of priority class");
    (0x0117, "One single SDB");
    (0x0124, "Information about the last mode transition");
    (0x0131, "Information about a communication unit");
    (0x0132, "Status data for one communication section");
    (0x0137, "Details of one Ethernet interface");
    (0x0174, "Status of an LED");
    (0x0181, "Startup information of all synchronous error OBs");
    (0x0182, "Startup events of all synchronous error OBs");
    (0x0190, "Information of one DP master system");
    (0x0191, "Status information of all modules/racks with wrong type");
    (0x01A0, "Most recent diagnostic buffer entries");
    (0x0200, "Partial list extract");
    (0x021C, "Identification of all components (H system)");
    (0x0221, "Data records for specified interrupt");
    (0x0222, "Data records for specified interrupt");
    (0x0223, "Data records of priority classes being processed");
    (0x0224, "Processed mode transition");
    (0x0232, "Protection level");
    (0x0281, "Startup information of synchronous error OBs (one priority class)");
    (0x0282, "Startup events of synchronous error OBs (one priority class)");
    (0x0291, "Status information of all faulty modules");
    (0x0292, "Actual status of central racks/stations (DP)");
    (0x0294, "Actual status of rack/stations (DP/PN)");
    (0x0300, "Possible indexes of a partial list extract");
    (0x031C, "Identification of one component (redundant CPUs, H system)");
    (0x0381, "Startup information of all OBs of one priority class");
    (0x0382, "Startup events of all OBs of a priority class");
    (0x0391, "Status information of all modules not available");
    (0x0392, "State of battery backup of racks");
    (0x0424, "Current mode transition");
    (0x0492, "State of total backup of racks");
    (0x04A0, "Start information of all standard OBs");
    (0x0524, "Specified mode transition") ].

Definition SZLIDString (id : Z) : string :=
  match table_lookup szlIDNames id with
  | Some s => s
  | None => "SZL 0x" +:+ hex04 id
  end.

Definition UserdataReq := 0x11.
Definition UserdataRes := 0x12.
Definition UserdataSubParam := 0x44.
Definition UserdataSZL := 0x01.

Definition EncodeSZLRequest (pduRef szlID szlIndex : Z) : bytes :=
  let param := [0x00; 0x01; 0x12; 0x04; UserdataSubParam; UserdataSZL; 0x00; 0x00] in
  let data := [RetCodeSuccess; 0x09] ++ put_u16 4 ++ put_u16 szlID ++ put_u16 szlIndex in
  let header := EncodeS7Header ROSCTRUserdata pduRef (len param) (len data) in
  (header ++ param) ++ data.

Record SZLResponse := {
  SZL_ID : Z;
  SZL_Index : Z;
  SZL_DataLength : Z;
  SZL_Data : bytes }.

Definition ParseSZLResponse (data : bytes) : res SZLResponse :=
  if len data <? 8 then Err (S7Msg "SZL response too short") else
  let! retCode := go_index data 0 in
  if negb (retCode =? RetCodeSuccess) then
    let? _ := ReturnCodeError retCode in Panic
  else
  let! d2 := go_index data 2 in
  let! d3 := go_index data 3 in
  let dataLen := get_u16 d2 d3 in
  let end_ := 4 + dataLen in
  if end_ <? 8 then Err (S7Msg "SZL data length too short") else
  if len data <? end_ then Err (S7Msg "SZL data length mismatch") else
  let! d4 := go_index data 4 in
  let! d5 := go_index data 5 in
  let! d6 := go_index data 6 in
  let! d7 := go_index data 7 in
  let! payload := go_slice data 8 end_ in
  Ok {| SZL_ID := get_u16 d4 d5; SZL_Index := get_u16 d6 d7;
        SZL_DataLength := dataLen; SZL_Data := payload |}.

(** A successful SZL response as the peer writes it: [ts] is the transport size
    byte, the length counts the identifier, the index and the records. *)
Definition encode_szl_response (ts id index : Z) (payload : bytes) : bytes :=
  [0xFF; ts] ++ put_u16 (4 + len payload) ++ put_u16 id ++ put_u16 index ++ payload.

(** ** Lemmas *)

Lemma ParseSZLResponse_no_panic data : no_panic (ParseSZLResponse data) = true.
Proof.
  unfold ParseSZLResponse. case_if; [done|]. peel data 8%nat. indices. case_if.
  - unfold ReturnCodeError. case_if; [done|]. done.
  - case_if; [done|]. case_if; [done|]. slices. done.
Qed.

(** ** Properties *)

(** C39: [ParseSZLResponse] accepts exactly the successful SZL responses: the result
    carries the identifier, index and all the records the declared length covers,
    and bytes after them are ignored. *)
Theorem ParseSZLResponse_iff data r :
  bytes_ok data ->
  ParseSZLResponse data = Ok r <->
  exists ts trailing,
    data = encode_szl_response ts (SZL_ID r) (SZL_Index r) (SZL_Data r) ++ trailing
    /\ SZL_DataLength r = 4 + len (SZL_Data r) /\ SZL_DataLength r < 65536
    /\ 0 <= SZL_ID r < 65536 /\ 0 <= SZL_Index r < 65536.
Proof.
  intros Hok. split.
  - unfold ParseSZLResponse. case_if; [done|]. peel data 8%nat. indices.
    repeat (apply Forall_cons_1 in Hok as [? Hok]).
    case_if; [unfold ReturnCodeError; by case_if|]. do 2 (case_if; [done|]).
    unfold RetCodeSuccess in *. subst z. slices. intros [= <-].
    cbn [SZL_ID SZL_Index SZL_DataLength SZL_Data].
    pose proof (get_u16_range z1 z2 ltac:(done) ltac:(done)).
    exists z0, (drop (Z.to_nat (4 + get_u16 z1 z2 - 8)) data).
    assert (len (take (Z.to_nat (4 + get_u16 z1 z2 - 8)) data) = get_u16 z1 z2 - 4) as Hl by len.
    unfold encode_szl_response. rewrite Hl.
    replace (4 + (get_u16 z1 z2 - 4)) with (get_u16 z1 z2) by lia.
    rewrite !put_get_u16 by done. cbn [app]. rewrite take_drop.
    repeat split; try (by apply get_u16_range); lia.
  - intros (ts & trailing & -> & Hl & Hlt & Hid & Hix). destruct r as [id ix dl payload].
    cbn in *. subst dl. unfold ParseSZLResponse, encode_szl_response. unfold put_u16; cbn [app].
    case_if; [len|]. indices. rewrite !get_put_u16, !u16_small by len.
    case_if; [len|]. case_if; [len|]. slices.
    rewrite take_app_length' by (unfold len; lia). done.
Qed.

Lemma ParseSZLResponse_iff_witness :
  ParseSZLResponse (encode_szl_response 9 0x0011 0 [1; 2; 3])
  = Ok {| SZL_ID := 0x0011; SZL_Index := 0; SZL_DataLength := 7; SZL_Data := [1; 2; 3] |}.
Proof.
  apply ParseSZLResponse_iff.
  - vm_compute. repeat constructor; done.
  - exists 9, []. rewrite app_nil_r. cbn. repeat split; done.
Defined.
