(* ===== verification/WireBlocks.v ===== *)
(** * wire/pdu_blocks.go

    Block listing, block info and the upload session: requests, responses and the
    block file name. *)

From S2P Require Import Prelude GoError GoStrings WireErrors WireHeader WireSzl.

Definition BlockTypeOB := 0x38.
Definition BlockTypeDB := 0x41.
Definition BlockTypeSDB := 0x42.
Definition BlockTypeFC := 0x43.
Definition BlockTypeSFC := 0x44.
Definition BlockTypeFB := 0x45.
Definition BlockTypeSFB := 0x46.

(** ** Block list and block info *)

Definition EncodeBlockListRequest (pduRef blockType : Z) : bytes :=
  let index :=
    if blockType =? BlockTypeOB then 0x0001
    else if blockType =? BlockTypeDB then 0x0002
    else if blockType =? BlockTypeSDB then 0x0003
    else if blockType =? BlockTypeFC then 0x0004
    else if blockType =? BlockTypeSFC then 0x0005
    else if blockType =? BlockTypeFB then 0x0006
    else if blockType =? BlockTypeSFB then 0x0007
    else 0x0000 in
  EncodeSZLRequest pduRef SZLBlockList index.

Record BlockListEntry := {
  BLE_BlockType : Z;
  BLE_BlockNumber : Z;
  BLE_Language : Z;
  BLE_Flags : Z }.

Record BlockInfoData := {
  BID_LoadMemory : Z;
  BID_LocalData : Z;
  BID_MC7Size : Z }.

Definition ParseBlockInfoResponse (szlData : bytes) : res BlockInfoData :=
  if len szlData <? 6
  then Err (EMsg ("block info data too short: need 6 bytes, got " +:+ dec (len szlData))) else
  let! d0 := go_index szlData 0 in
  let! d1 := go_index szlData 1 in
  let! d2 := go_index szlData 2 in
  let! d3 := go_index szlData 3 in
  let! d4 := go_index szlData 4 in
  let! d5 := go_index szlData 5 in
  Ok {| BID_LoadMemory := get_u16 d0 d1; BID_LocalData := get_u16 d2 d3;
        BID_MC7Size := get_u16 d4 d5 |}.

(** The loop of [ParseBlockListResponse] from [offset] on.  An iteration consumes
    four bytes, so the number of bytes bounds the iterations. *)
Fixpoint block_list_loop (fuel : nat) (szlData : bytes) (offset : Z)
    : res (list BlockListEntry) :=
  match fuel with
  | O => Ok []
  | S fuel =>
      if offset + 4 <=? len szlData then
        let! d0 := go_index szlData offset in
        let! d1 := go_index szlData (offset + 1) in
        let! d2 := go_index szlData (offset + 2) in
        let! d3 := go_index szlData (offset + 3) in
        let entry := {| BLE_BlockNumber := get_u16 d0 d1; BLE_BlockType := d2;
                        BLE_Language := Z.shiftr d3 4; BLE_Flags := Z.land d3 0x0F |} in
        let? entries := block_list_loop fuel szlData (offset + 4) in
        Ok (entry :: entries)
      else Ok []
  end.

Definition ParseBlockListResponse (szlData : bytes) : res (list BlockListEntry) :=
  if negb (Z.rem (len szlData) 4 =? 0)
  then Err (EMsg ("block list data length " +:+ dec (len szlData) +:+ " not multiple of 4"))
  else block_list_loop (S (length szlData)) szlData 0.

(** ** Upload *)

Definition ascii_digit (d : Z) : Z := u8 (0x30 + u8 d).

Definition EncodeStartUploadRequest (pduRef blockType blockNum : Z) : bytes :=
  let typeChar :=
    if blockType =? BlockTypeOB then 0x38        (* '8' *)
    else if blockType =? BlockTypeDB then 0x41   (* 'A' *)
    else if blockType =? BlockTypeFC then 0x43   (* 'C' *)
    else if blockType =? BlockTypeFB then 0x45   (* 'E' *)
    else if blockType =? BlockTypeSFC then 0x44  (* 'D' *)
    else if blockType =? BlockTypeSFB then 0x46  (* 'F' *)
    else 0x41 in
  let param := [FuncUploadStart; 0x00; 0x00; 0x00; 0x00; 0x00; 0x00; 0x00; 0x09] in
  let numStr :=
    [ ascii_digit (Z.rem (Z.quot blockNum 10000) 10);
      ascii_digit (Z.rem (Z.quot blockNum 1000) 10);
      ascii_digit (Z.rem (Z.quot blockNum 100) 10);
      ascii_digit (Z.rem (Z.quot blockNum 10) 10);
      ascii_digit (Z.rem blockNum 10) ] in
  let filename := [0x5F; typeChar] ++ numStr ++ [0x41; 0x00] in
  let param := param ++ filename in
  let header := EncodeS7Header ROSCTRJob pduRef (len param) 0 in
  header ++ param.

Definition ParseStartUploadResponse (param : bytes) : res string :=
  if len param <? 10 then Err (S7Msg "invalid start upload response") else
  let! p0 := go_index param 0 in
  if negb (p0 =? FuncUploadStart) then Err (S7Msg "invalid start upload response") else
  let! idLen := go_index param 8 in
  if (idLen <=? 0) || (len param <? 9 + idLen)
  then Err (S7Msg "invalid upload session id length") else
  let! id := go_slice param 9 (9 + idLen) in
  Ok (TrimSpace (string_of_bytes id)).

(** [EncodeUploadRequest] and [EncodeEndUploadRequest] differ in the function code. *)
Definition encode_session_request (func pduRef : Z) (sessionID : string) : bytes :=
  let id := bytes_of_string sessionID in
  let id := if 255 <? len id then take 255 id else id in
  let param := [func; 0; 0; 0; 0; 0; 0; 0; u8 (len id)] in
  let param := param ++ id in
  let header := EncodeS7Header ROSCTRJob pduRef (len param) 0 in
  header ++ param.

Definition EncodeUploadRequest (pduRef : Z) (sessionID : string) : bytes :=
  encode_session_request FuncUpload pduRef sessionID.

Definition EncodeEndUploadRequest (pduRef : Z) (sessionID : string) : bytes :=
  encode_session_request FuncUploadEnd pduRef sessionID.

Record UploadChunk := { Chunk_Done : bool; Chunk_Data : bytes }.

Definition ParseUploadResponse (param data : bytes) : res UploadChunk :=
  if len param <? 2 then Err (S7Msg "invalid upload response") else
  let! p0 := go_index param 0 in
  if negb (p0 =? FuncUpload) then Err (S7Msg "invalid upload response") else
  let! status := go_index param 1 in
  let done := status =? 0 in
  if len data <? 4 then Err (EMsg "upload response data too short") else
  let! d2 := go_index data 2 in
  let! d3 := go_index data 3 in
  let lengthBits := get_u16 d2 d3 in
  let lengthBytes := Z.quot (lengthBits + 7) 8 in
  if len data <? 4 + lengthBytes
  then Err (EMsg ("upload response length overrun: need " +:+ dec (4 + lengthBytes)
              +:+ " bytes, have " +:+ dec (len data))) else
  let! payload := go_slice data 4 (4 + lengthBytes) in
  Ok {| Chunk_Done := done; Chunk_Data := payload |}.

(** ** The peer's side *)

Definition entry_wf (e : BlockListEntry) : Prop :=
  0 <= BLE_BlockNumber e < 65536 /\ is_byte (BLE_BlockType e) /\
  0 <= BLE_Language e < 16 /\ 0 <= BLE_Flags e < 16.

Definition encode_block_entry (e : BlockListEntry) : bytes :=
  put_u16 (BLE_BlockNumber e) ++ [BLE_BlockType e; BLE_Language e * 16 + BLE_Flags e].

(** The block a start-upload job names: the type character and the decimal number
    of its file name. *)
Definition decode_start_upload (pdu : bytes) : option (Z * Z * Z) :=
  match ParseS7Header pdu with
  | Ok (h, [0x1D; 0; 0; 0; 0; 0; 0; 0; 9; 0x5F; ty; d4; d3; d2; d1; d0; 0x41; 0]) =>
      if forallb (fun d => (0x30 <=? d) && (d <=? 0x39)) [d4; d3; d2; d1; d0]
      then Some (PDURef h, ty,
             (d4 - 0x30) * 10000 + (d3 - 0x30) * 1000 + (d2 - 0x30) * 100
               + (d1 - 0x30) * 10 + (d0 - 0x30))
      else None
  | _ => None
  end.

(** The session a continuation or end-upload job names. *)
Definition decode_session_request (pdu : bytes) : option (Z * Z * bytes) :=
  match ParseS7Header pdu with
  | Ok (h, func :: _ :: _ :: _ :: _ :: _ :: _ :: _ :: n :: id) =>
      if n =? len id then Some (PDURef h, func, id) else None
  | _ => None
  end.

(** A continuation response with a chunk of whole bytes. *)
Definition upload_chunk_data (chunk : bytes) : bytes :=
  [0xFF; 0x04] ++ put_u16 (len chunk * 8) ++ chunk.

(** ** Lemmas *)

Lemma byte_nibbles b : is_byte b -> Z.shiftr b 4 = b / 16 /\ Z.land b 0x0F = b mod 16.
Proof.
  intros _. split; [by rewrite Z.shiftr_div_pow2|]. change 0x0F with (Z.ones 4). by rewrite Z.land_ones.
Qed.

Lemma ParseBlockInfoResponse_no_panic data : no_panic (ParseBlockInfoResponse data) = true.
Proof. unfold ParseBlockInfoResponse. case_if; [done|]. by peel data 6%nat. Qed.

(** One iteration of the list loop, and its end. *)
Lemma block_list_loop_step fuel pre d0 d1 d2 d3 tl :
  is_byte d3 ->
  block_list_loop (S fuel) (pre ++ d0 :: d1 :: d2 :: d3 :: tl) (len pre) =
  (let? entries := block_list_loop fuel ((pre ++ [d0; d1; d2; d3]) ++ tl)
                     (len (pre ++ [d0; d1; d2; d3])) in
   Ok ({| BLE_BlockNumber := get_u16 d0 d1; BLE_BlockType := d2;
          BLE_Language := d3 / 16; BLE_Flags := d3 mod 16 |} :: entries)).
Proof.
  intros Hb. cbn [block_list_loop]. rewrite len_app. case_if; [|exfalso; len].
  rewrite (go_index_app_plus _ _ (len pre) 0),
    !(go_index_app_plus _ _ (len pre + _) _ eq_refl) by lia.
  indices. destruct (byte_nibbles d3 Hb) as [-> ->].
  rewrite <- app_assoc, len_app. done.
Qed.

Lemma block_list_loop_end fuel l off : len l < off + 4 -> block_list_loop fuel l off = Ok [].
Proof. intros. destruct fuel; cbn; [done|]. case_if; [lia|done]. Qed.

Lemma block_list_loop_complete es fuel pre :
  Forall entry_wf es -> (length es < fuel)%nat ->
  block_list_loop fuel (pre ++ concat (map encode_block_entry es)) (len pre) = Ok es.
Proof.
  intros Hes. revert fuel pre. induction Hes as [|e es (Hn & Ht & Hl & Hf) Hes IH];
    intros fuel pre Hfuel; cbn [length] in Hfuel.
  - cbn. apply block_list_loop_end. rewrite app_nil_r. lia.
  - destruct fuel as [|fuel]; [lia|]. cbn [map concat].
    unfold encode_block_entry at 1, put_u16. cbn [app].
    rewrite block_list_loop_step by (unfold is_byte; lia).
    rewrite IH by lia. cbn [res_bind]. rewrite get_put_u16, u16_small by done.
    do 2 f_equal. destruct e as [t n l f]. cbn in *. f_equal; lia.
Qed.

Lemma block_list_loop_sound fuel pre tl es :
  bytes_ok tl -> len tl mod 4 = 0 -> (length tl < fuel)%nat ->
  block_list_loop fuel (pre ++ tl) (len pre) = Ok es ->
  tl = concat (map encode_block_entry es) /\ Forall entry_wf es.
Proof.
  revert pre tl es. induction fuel as [|fuel IH]; intros pre tl es Hok Hmod Hfuel H; [lia|].
  destruct tl as [|d0 [|d1 [|d2 [|d3 tl]]]]; try (exfalso; len; done).
  - rewrite app_nil_r, block_list_loop_end in H by lia. by injection H as <-.
  - repeat (apply Forall_cons_1 in Hok as [? Hok]).
    rewrite block_list_loop_step in H by done.
    apply res_bind_Ok in H as (es' & Hl & H). injection H as <-.
    apply IH in Hl as [-> Hes]; [|done|len|cbn in Hfuel; lia].
    assert (d3 / 16 * 16 + d3 mod 16 = d3) as Hd by lia.
    pose proof (get_u16_range d0 d1 ltac:(done) ltac:(done)).
    split.
    + cbn [map concat]. unfold encode_block_entry at 2.
      cbn [BLE_BlockNumber BLE_BlockType BLE_Language BLE_Flags].
      by rewrite put_get_u16, Hd.
    + constructor; [|done]. unfold is_byte in *. repeat split; cbn; lia.
Qed.

Lemma block_list_loop_no_panic fuel l off : 0 <= off -> no_panic (block_list_loop fuel l off) = true.
Proof.
  revert off. induction fuel as [|fuel IH]; intros off Hoff; cbn; [done|].
  case_if; [|done].
  destruct (split_at l off) as (pre & tl & -> & ->); [len|].
  rewrite len_app in *. peel tl 4%nat.
  rewrite (go_index_app_plus _ _ (len pre) 0),
    !(go_index_app_plus _ _ (len pre + _) _ eq_refl) by lia.
  indices. apply no_panic_bind; [apply IH; lia|done].
Qed.

Lemma ParseBlockListResponse_no_panic data : no_panic (ParseBlockListResponse data) = true.
Proof. unfold ParseBlockListResponse. case_if; [done|]. by apply block_list_loop_no_panic. Qed.

Lemma ParseStartUploadResponse_no_panic param : no_panic (ParseStartUploadResponse param) = true.
Proof.
  unfold ParseStartUploadResponse. case_if; [done|]. peel param 10%nat. indices.
  case_if; [done|]. case_if; [done|]. by slices.
Qed.

Lemma ParseUploadResponse_no_panic param data :
  bytes_ok data -> no_panic (ParseUploadResponse param data) = true.
Proof.
  intros Hok. unfold ParseUploadResponse. case_if; [done|]. peel param 2%nat. indices.
  case_if; [done|]. case_if; [done|]. peel data 4%nat. indices.
  repeat (apply Forall_cons_1 in Hok as [? Hok]).
  pose proof (get_u16_range z3 z4 ltac:(done) ltac:(done)).
  rewrite Z.quot_div_nonneg by lia. case_if; [done|]. by slices.
Qed.

(** ** Properties *)

Lemma ParseBlockListResponse_complete es : Forall entry_wf es ->
  ParseBlockListResponse (concat (map encode_block_entry es)) = Ok es.
Proof.
  intros Hes. unfold ParseBlockListResponse. rewrite Z.rem_mod_nonneg by len.
  assert (len (concat (map encode_block_entry es)) = 4 * len es) as Hl.
  { clear. induction es as [|e es IH]; [done|]. cbn [map concat].
    unfold encode_block_entry at 1. len. }
  rewrite Hl. case_if; [exfalso; lia|].
  apply (block_list_loop_complete _ _ []); [done|]. unfold len in Hl. lia.
Qed.

(** [ParseBlockListResponse] is the inverse of the four-byte entry encoding: it
    accepts exactly the concatenations of well-formed entries and returns them in
    order; in particular a length that is not a multiple of four is an error. *)
Theorem ParseBlockListResponse_iff data es :
  bytes_ok data ->
  ParseBlockListResponse data = Ok es <->
  data = concat (map encode_block_entry es) /\ Forall entry_wf es.
Proof.
  intros Hok. split; [|intros [-> Hes]; by apply ParseBlockListResponse_complete].
  unfold ParseBlockListResponse. rewrite Z.rem_mod_nonneg by len. case_if; [done|].
  intros H. apply (block_list_loop_sound _ [] data) in H; auto; lia.
Qed.

Lemma TrimSpace_printable id :
  Forall (fun b => 32 < b < 127) id -> bytes_of_string (TrimSpace (string_of_bytes id)) = id.
Proof.
  intros Hid. assert (bytes_ok id) by (revert Hid; apply Forall_impl; unfold is_byte; lia).
  unfold TrimSpace. rewrite (bytes_of_string_of_bytes id), trim_space_bytes_id by done.
  by apply bytes_of_string_of_bytes.
Qed.


(** The type character of a block type in a start-upload job. *)
Definition upload_type (bt : Z) : Z :=
  if bt =? BlockTypeOB then 0x38 else if bt =? BlockTypeDB then 0x41
  else if bt =? BlockTypeFC then 0x43 else if bt =? BlockTypeFB then 0x45
  else if bt =? BlockTypeSFC then 0x44 else if bt =? BlockTypeSFB then 0x46 else 0x41.

Lemma decode_EncodeStartUploadRequest ref bt n :
  0 <= ref < 65536 -> 0 <= n <= 99999 ->
  decode_start_upload (EncodeStartUploadRequest ref bt n) = Some (ref, upload_type bt, n).
Proof.
  intros Href Hn. unfold EncodeStartUploadRequest, decode_start_upload.
  fold (upload_type bt). rewrite ParseS7Header_job by (try done; len). cbn [app PDURef].
  unfold ascii_digit, FuncUploadStart. rewrite !Z.rem_mod_nonneg, !Z.quot_div_nonneg by lia.
  rewrite !(u8_small (_ mod 10)), !u8_small by lia.
  match goal with |- (if ?b then _ else _) = _ => replace b with true end.
  - do 2 f_equal. lia.
  - symmetry. cbn. rewrite !andb_true_iff, !Z.leb_le. repeat split; lia.
Qed.

Lemma len_EncodeStartUploadRequest ref bt n : len (EncodeStartUploadRequest ref bt n) = 28.
Proof. unfold EncodeStartUploadRequest. len. Qed.
Lemma bytes_ok_EncodeStartUploadRequest ref bt n : bytes_ok (EncodeStartUploadRequest ref bt n).
Proof.
  unfold EncodeStartUploadRequest, ascii_digit. fold (upload_type bt).
  assert (is_byte (upload_type bt)) by (unfold upload_type, is_byte; repeat case_match; lia).
  auto 40 with bytes.
Qed.

Lemma len_encode_session_request f ref id :
  len id <= 255 -> Forall (fun b => 32 < b < 127) id ->
  len (encode_session_request f ref (TrimSpace (string_of_bytes id))) = 19 + len id.
Proof.
  intros Hl Hid. unfold encode_session_request. rewrite TrimSpace_printable by done.
  case_if; [lia|]. len.
Qed.
Lemma bytes_ok_encode_session_request f ref s :
  is_byte f -> bytes_ok (encode_session_request f ref s).
Proof.
  intros Hf. unfold encode_session_request.
  assert (forall b : bool, bytes_ok (if b then take 255 (bytes_of_string s)
    else bytes_of_string s)) as Hid
    by (intros []; [apply Forall_take|]; apply bytes_of_string_ok).
  auto 40 with bytes.
Qed.

(** The start-upload job for block numbers up to five digits names, in decimal,
    exactly the requested block, with the type character of its type. *)
Theorem EncodeStartUploadRequest_decodes ref bt n :
  0 <= ref < 65536 -> 0 <= n <= 99999 ->
  exists ty, decode_start_upload (EncodeStartUploadRequest ref bt n) = Some (ref, ty, n)
    /\ (bt = BlockTypeOB -> ty = 0x38) /\ (bt = BlockTypeDB -> ty = 0x41)
    /\ (bt = BlockTypeFC -> ty = 0x43) /\ (bt = BlockTypeFB -> ty = 0x45)
    /\ (bt = BlockTypeSFC -> ty = 0x44) /\ (bt = BlockTypeSFB -> ty = 0x46).
Proof.
  intros Href Hn. exists (upload_type bt). split; [by apply decode_EncodeStartUploadRequest|].
  repeat split; intros ->; done.
Qed.

Lemma decode_encode_session_request f ref id :
  0 <= ref < 65536 -> len id <= 255 -> Forall (fun b => 32 < b < 127) id ->
  decode_session_request (encode_session_request f ref (TrimSpace (string_of_bytes id)))
  = Some (ref, f, id).
Proof.
  intros Href Hl Hid. unfold encode_session_request, decode_session_request.
  rewrite TrimSpace_printable by done. case_if; [lia|].
  rewrite ParseS7Header_job by (try done; len). cbn [app PDURef].
  rewrite u8_small by len. by rewrite Z.eqb_refl.
Qed.

Lemma ParseStartUploadResponse_complete id junk rest :
  len junk = 7 -> 0 < len id <= 255 ->
  ParseStartUploadResponse ([FuncUploadStart] ++ junk ++ [len id] ++ id ++ rest)
  = Ok (TrimSpace (string_of_bytes id)).
Proof.
  intros Hj Hl. unfold ParseStartUploadResponse. rewrite !len_app. case_if; [len|].
  peel junk 7%nat. assert (junk = []) as -> by (apply len_0_nil; len).
  cbn [app]. indices. rewrite (proj2 (Z.leb_gt (len id) 0)) by lia. cbn [orb].
  case_if; [len|]. slices. rewrite take_app_length' by (unfold len; lia). done.
Qed.

(** The session identifier of an upload makes the round trip: for a printable
    identifier of up to 255 characters, the parser of the start response and the
    encoders of the continuation and end jobs hand the peer back its own bytes. *)
Theorem upload_session_roundtrip ref id junk rest :
  0 <= ref < 65536 -> len junk = 7 -> 0 < len id <= 255 -> Forall (fun b => 32 < b < 127) id ->
  exists s,
    ParseStartUploadResponse ([FuncUploadStart] ++ junk ++ [len id] ++ id ++ rest) = Ok s
    /\ decode_session_request (EncodeUploadRequest ref s) = Some (ref, FuncUpload, id)
    /\ decode_session_request (EncodeEndUploadRequest ref s) = Some (ref, FuncUploadEnd, id).
Proof.
  intros Href Hj Hl Hid. exists (TrimSpace (string_of_bytes id)).
  split; [by apply ParseStartUploadResponse_complete|].
  split; apply decode_encode_session_request; done || lia.
Qed.

Lemma ParseUploadResponse_complete status ptail chunk trailing :
  len chunk < 8192 ->
  ParseUploadResponse (FuncUpload :: status :: ptail) (upload_chunk_data chunk ++ trailing)
  = Ok {| Chunk_Done := status =? 0; Chunk_Data := chunk |}.
Proof.
  intros Hl. unfold ParseUploadResponse, upload_chunk_data, put_u16.
  case_if; [len|]. indices. case_if; [len|]. rewrite get_put_u16, u16_small by len.
  rewrite Z.quot_div_nonneg by len.
  replace ((len chunk * 8 + 7) / 8) with (len chunk) by lia.
  case_if; [len|]. slices. by rewrite take_app_length' by (unfold len; lia).
Qed.

(** A continuation response with a chunk of whole bytes (a bit length of up to
    16 bits) is read as that chunk, final exactly when its status byte is zero. *)
Theorem ParseUploadResponse_chunk status ptail chunk trailing :
  len chunk < 8192 ->
  ParseUploadResponse (FuncUpload :: status :: ptail) (upload_chunk_data chunk ++ trailing)
  = Ok {| Chunk_Done := status =? 0; Chunk_Data := chunk |}.
Proof. apply ParseUploadResponse_complete. Qed.

Lemma ParseBlockListResponse_iff_witness :
  let es := [ {| BLE_BlockType := 0x41; BLE_BlockNumber := 300; BLE_Language := 5;
                 BLE_Flags := 1 |} ] in
  ParseBlockListResponse (concat (map encode_block_entry es)) = Ok es.
Proof.
  apply ParseBlockListResponse_iff.
  - vm_compute. repeat constructor; done.
  - split; [done|]. repeat constructor; cbn; done.
Defined.

Lemma EncodeStartUploadRequest_decodes_witness :
  exists ty, decode_start_upload (EncodeStartUploadRequest 9 BlockTypeFB 1234) = Some (9, ty, 1234)
    /\ (BlockTypeFB = BlockTypeOB -> ty = 0x38) /\ (BlockTypeFB = BlockTypeDB -> ty = 0x41)
    /\ (BlockTypeFB = BlockTypeFC -> ty = 0x43) /\ (BlockTypeFB = BlockTypeFB -> ty = 0x45)
    /\ (BlockTypeFB = BlockTypeSFC -> ty = 0x44) /\ (BlockTypeFB = BlockTypeSFB -> ty = 0x46).
Proof. apply (EncodeStartUploadRequest_decodes 9 BlockTypeFB 1234); lia. Defined.

Lemma upload_session_roundtrip_witness :
  exists s,
    ParseStartUploadResponse ([FuncUploadStart] ++ [0;1;0;0;0;0;0] ++ [3] ++ [0x30;0x30;0x37] ++ [])
      = Ok s
    /\ decode_session_request (EncodeUploadRequest 2 s) = Some (2, FuncUpload, [0x30;0x30;0x37])
    /\ decode_session_request (EncodeEndUploadRequest 2 s) = Some (2, FuncUploadEnd, [0x30;0x30;0x37]).
Proof.
  apply (upload_session_roundtrip 2 [0x30;0x30;0x37] [0;1;0;0;0;0;0] []);
    [lia|done|done|repeat constructor; lia].
Defined.

Lemma ParseUploadResponse_chunk_witness :
  ParseUploadResponse [FuncUpload; 0] (upload_chunk_data [7; 8; 9] ++ [])
  = Ok {| Chunk_Done := 0 =? 0; Chunk_Data := [7; 8; 9] |}.
Proof. apply (ParseUploadResponse_chunk 0 [] [7; 8; 9] []). done. Defined.
