(* ===== verification/ModelCodec.v ===== *)
(** * model/codec/codec.go and model/types.go

    Conversions between PLC data (big-endian) and Go values.  The functions of
    model/types.go only forward to these.  A [float32] is represented by its IEEE
    754 bits, on which [math.Float32bits] and [math.Float32frombits] are the
    identity; [int16] and [int32] conversions are [i16] and [i32]. *)

From S2P Require Import Prelude GoError.

Definition DecodeBool (data : bytes) (bit : Z) : res bool :=
  if bit <? 0 then Ok false else
  if len data =? 0 then Ok false else
  let byteOffset := Z.quot bit 8 in
  let bitOffset := Z.rem bit 8 in
  if len data <=? byteOffset then Ok false else
  let! b := go_index data byteOffset in
  Ok (negb (Z.land b (u8 (Z.shiftl 1 bitOffset)) =? 0)).

Definition DecodeByte (data : bytes) : res Z :=
  if len data <? 1 then Ok 0 else
  let! b := go_index data 0 in Ok b.

Definition DecodeWord (data : bytes) : res Z :=
  if len data <? 2 then Ok 0 else
  let! b0 := go_index data 0 in
  let! b1 := go_index data 1 in
  Ok (get_u16 b0 b1).

Definition DecodeInt (data : bytes) : res Z :=
  let? w := DecodeWord data in Ok (i16 w).

Definition DecodeDWord (data : bytes) : res Z :=
  if len data <? 4 then Ok 0 else
  let! b0 := go_index data 0 in
  let! b1 := go_index data 1 in
  let! b2 := go_index data 2 in
  let! b3 := go_index data 3 in
  Ok (get_u32 b0 b1 b2 b3).

Definition DecodeDInt (data : bytes) : res Z :=
  let? w := DecodeDWord data in Ok (i32 w).

Definition DecodeReal (data : bytes) : res Z :=
  let? bits := DecodeDWord data in Ok bits.

Definition DecodeString (data : bytes) : res string :=
  if len data <? 2 then Ok "" else
  let! actualLen := go_index data 1 in
  let actualLen := if len data <? 2 + actualLen then len data - 2 else actualLen in
  let! s := go_slice data 2 (2 + actualLen) in
  Ok (string_of_bytes s).

Definition EncodeBool (val : bool) : bytes := if val then [0x01] else [0x00].
Definition EncodeByte (val : Z) : bytes := [val].
Definition EncodeWord (val : Z) : bytes := put_u16 val.
Definition EncodeInt (val : Z) : bytes := EncodeWord (u16 val).
Definition EncodeDWord (val : Z) : bytes := put_u32 val.
Definition EncodeDInt (val : Z) : bytes := EncodeDWord (u32 val).
Definition EncodeReal (bits : Z) : bytes := EncodeDWord bits.

(** [make] followed by two stores and a [copy] of at most [maxChars] bytes. *)
Definition EncodeString (val : string) (maxLen : Z) : bytes :=
  let maxLen := if maxLen <? 2 then 2 else maxLen in
  let maxLen := if 256 <? maxLen then 256 else maxLen in
  let maxChars := maxLen - 2 in
  let val := bytes_of_string val in
  let val := if maxChars <? len val then take (Z.to_nat maxChars) val else val in
  [u8 maxChars; u8 (len val)] ++ val ++ go_make (maxLen - 2 - len val).

(** ** Lemmas *)

Lemma DecodeString_no_panic data : bytes_ok data -> no_panic (DecodeString data) = true.
Proof.
  intros Hok. unfold DecodeString. case_if; [done|]. peel data 2%nat. indices.
  repeat (apply Forall_cons_1 in Hok as [? Hok]). unfold is_byte in *.
  case_if; by slices.
Qed.

Lemma EncodeString_take val maxLen :
  2 <= maxLen <= 256 ->
  EncodeString val maxLen =
  let v := take (Z.to_nat (maxLen - 2)) (bytes_of_string val) in
  [maxLen - 2; len v] ++ v ++ go_make (maxLen - 2 - len v).
Proof.
  intros Hm. unfold EncodeString. cbv zeta.
  rewrite (proj2 (Z.ltb_ge maxLen 2)), (proj2 (Z.ltb_ge 256 maxLen)) by lia. case_if.
  - rewrite !u8_small by len. done.
  - rewrite take_ge by (unfold len in *; lia). rewrite !u8_small by len. done.
Qed.

(** ** Properties *)

(** C40: Every scalar of the codec makes the round trip through its big-endian
    encoding, whatever bytes follow it: words, double words, signed integers and
    the bits of reals; and decoding then encoding gives back the bytes. *)
Theorem codec_scalar_roundtrip v b0 b1 b2 b3 rest :
  bytes_ok [b0; b1; b2; b3] ->
  (0 <= v < 2 ^ 16 -> DecodeWord (EncodeWord v ++ rest) = Ok v) /\
  (- 2 ^ 15 <= v < 2 ^ 15 -> DecodeInt (EncodeInt v ++ rest) = Ok v) /\
  (0 <= v < 2 ^ 32 -> DecodeDWord (EncodeDWord v ++ rest) = Ok v
                      /\ DecodeReal (EncodeReal v ++ rest) = Ok v) /\
  (- 2 ^ 31 <= v < 2 ^ 31 -> DecodeDInt (EncodeDInt v ++ rest) = Ok v) /\
  (exists w, DecodeWord (b0 :: b1 :: rest) = Ok w /\ EncodeWord w = [b0; b1]) /\
  (exists d, DecodeDWord (b0 :: b1 :: b2 :: b3 :: rest) = Ok d /\ EncodeDWord d = [b0; b1; b2; b3]).
Proof.
  intros Hok.
  assert (forall v, DecodeWord (EncodeWord v ++ rest) = Ok (u16 v)) as HW.
  { intros w. unfold DecodeWord, EncodeWord, put_u16. case_if; [len|]. cbn [app]. indices.
    by rewrite get_put_u16. }
  assert (forall v, DecodeDWord (EncodeDWord v ++ rest) = Ok (u32 v)) as HD.
  { intros w. unfold DecodeDWord, EncodeDWord, put_u32. case_if; [len|]. cbn [app]. indices.
    by rewrite get_put_u32. }
  split_and!.
  - intros. by rewrite HW, u16_small.
  - intros. unfold DecodeInt, EncodeInt. rewrite HW. cbn. unfold u16, i16.
    by rewrite Z.mod_mod, swrap_mod.
  - intros. unfold DecodeReal, EncodeReal. rewrite HD. cbn. unfold u32.
    by rewrite Z.mod_small.
  - intros. unfold DecodeDInt, EncodeDInt. rewrite HD. cbn. unfold u32, i32.
    by rewrite Z.mod_mod, swrap_mod.
  - exists (get_u16 b0 b1). repeat (apply Forall_cons_1 in Hok as [? Hok]).
    split; [|by apply put_get_u16]. unfold DecodeWord. case_if; [len|]. done.
  - exists (get_u32 b0 b1 b2 b3). split; [|by apply put_get_u32].
    unfold DecodeDWord. case_if; [len|]. done.
Qed.

(** [DecodeBool] reads bit [bit] of the data seen as a little-endian bit string
    (bit 0 of byte 0 first), false outside of it, and never panics. *)
Theorem DecodeBool_testbit data bit :
  DecodeBool data bit =
  Ok (match go_index data (bit / 8) with
      | Some b => (0 <=? bit) && Z.testbit b (bit mod 8)
      | None => false
      end).
Proof.
  unfold DecodeBool. case_if.
  { rewrite go_index_neg by lia. done. }
  rewrite Z.quot_div_nonneg, Z.rem_mod_nonneg by lia.
  case_if. { by rewrite (len_0_nil data), go_index_nil. }
  case_if.
  { destruct (go_index data (bit / 8)) eqn:E; [|done]. apply go_index_inv in E as [? _]. lia. }
  destruct (go_index_Some data (bit / 8)) as [b ->]; [lia|]. cbn.
  rewrite (proj2 (Z.leb_le 0 bit)) by lia. f_equal. cbn.
  rewrite Z.shiftl_1_l. unfold u8.
  assert (0 <= bit mod 8 < 8) as Hk by lia. revert Hk. generalize (bit mod 8). intros k Hk.
  rewrite Z.mod_small
    by (split; [apply Z.pow_nonneg; lia|apply Z.pow_lt_mono_r; lia]).
  destruct (Z.testbit b k) eqn:Hb.
  - apply negb_true_iff, Z.eqb_neq. intros Hz.
    apply (f_equal (fun z => Z.testbit z k)) in Hz.
    rewrite Z.land_spec, Z.pow2_bits_true, Hb, Z.bits_0 in Hz by lia. done.
  - apply negb_false_iff, Z.eqb_eq. apply Z.bits_inj'. intros n Hn.
    rewrite Z.land_spec, Z.bits_0. destruct (decide (n = k)) as [->|].
    + by rewrite Hb.
    + rewrite Z.pow2_bits_false by lia. apply andb_false_r.
Qed.

(** An S7 string occupies exactly its declared size (at least 2 and at most 256
    bytes) and decodes to its first [maxLen - 2] characters. *)
Theorem EncodeString_roundtrip val maxLen :
  2 <= maxLen <= 256 ->
  len (EncodeString val maxLen) = maxLen /\
  DecodeString (EncodeString val maxLen)
  = Ok (string_of_bytes (take (Z.to_nat (maxLen - 2)) (bytes_of_string val))).
Proof.
  intros Hm. rewrite EncodeString_take by done. cbv zeta.
  set (v := take _ _). assert (len v <= maxLen - 2) as Hv by (unfold v; len).
  clearbody v. pose proof (len_nonneg v).
  assert (len (go_make (maxLen - 2 - len v)) = maxLen - 2 - len v) as Hg
    by (apply len_go_make; lia).
  split; [len|]. unfold DecodeString. case_if; [len|]. cbn [app]. indices.
  case_if; [len|]. slices. by rewrite take_app_length' by (unfold len; lia).
Qed.

Lemma codec_scalar_roundtrip_witness :
  (0 <= 258 < 2 ^ 16 -> DecodeWord (EncodeWord 258 ++ [9]) = Ok 258) /\
  (- 2 ^ 15 <= 258 < 2 ^ 15 -> DecodeInt (EncodeInt 258 ++ [9]) = Ok 258) /\
  (0 <= 258 < 2 ^ 32 -> DecodeDWord (EncodeDWord 258 ++ [9]) = Ok 258
                      /\ DecodeReal (EncodeReal 258 ++ [9]) = Ok 258) /\
  (- 2 ^ 31 <= 258 < 2 ^ 31 -> DecodeDInt (EncodeDInt 258 ++ [9]) = Ok 258) /\
  (exists w, DecodeWord (1 :: 2 :: [9]) = Ok w /\ EncodeWord w = [1; 2]) /\
  (exists d, DecodeDWord (1 :: 2 :: 3 :: 4 :: [9]) = Ok d /\ EncodeDWord d = [1; 2; 3; 4]).
Proof. apply (codec_scalar_roundtrip 258 1 2 3 4 [9]). repeat constructor; done. Defined.

Lemma EncodeString_roundtrip_witness :
  len (EncodeString "MOTOR" 6) = 6 /\
  DecodeString (EncodeString "MOTOR" 6)
  = Ok (string_of_bytes (take (Z.to_nat (6 - 2)) (bytes_of_string "MOTOR"))).
Proof. apply EncodeString_roundtrip. lia. Defined.
