(* ===== verification/ModelTypes.v ===== *)
(** * model/areas.go, model/blocks.go, model/device.go and model/fingerprint.go

    The data types of the client's API and the names of their codes. *)

From S2P Require Import Prelude.

(** ** areas.go: [type Area uint8] *)

Definition Area := Z.
Definition AreaInputs : Area := 0x81.
Definition AreaOutputs : Area := 0x82.
Definition AreaMerkers : Area := 0x83.
Definition AreaDB : Area := 0x84.
Definition AreaCounter : Area := 0x1C.
Definition AreaTimer : Area := 0x1D.

Definition Area_String (a : Area) : string :=
  if a =? AreaInputs then "I"
  else if a =? AreaOutputs then "Q"
  else if a =? AreaMerkers then "M"
  else if a =? AreaDB then "DB"
  else if a =? AreaCounter then "C"
  else if a =? AreaTimer then "T"
  else "?".

Record Address := {
  Address_Area : Area;
  Address_DBNumber : Z;
  Address_Start : Z;
  Address_Size : Z }.

(** ** blocks.go *)

Definition BlockType := Z.
Definition BlockOB : BlockType := 0x38.
Definition BlockDB : BlockType := 0x41.
Definition BlockSDB : BlockType := 0x42.
Definition BlockFC : BlockType := 0x43.
Definition BlockSFC : BlockType := 0x44.
Definition BlockFB : BlockType := 0x45.
Definition BlockSFB : BlockType := 0x46.

Definition BlockType_String (b : BlockType) : string :=
  if b =? BlockOB then "OB"
  else if b =? BlockDB then "DB"
  else if b =? BlockSDB then "SDB"
  else if b =? BlockFC then "FC"
  else if b =? BlockSFC then "SFC"
  else if b =? BlockFB then "FB"
  else if b =? BlockSFB then "SFB"
  else "?".

Definition BlockLang := Z.
Definition BlockLangAWL : BlockLang := 0x01.
Definition BlockLangKOP : BlockLang := 0x02.
Definition BlockLangFUP : BlockLang := 0x03.
Definition BlockLangSCL : BlockLang := 0x04.
Definition BlockLangDB : BlockLang := 0x05.
Definition BlockLangGraph : BlockLang := 0x06.

Definition BlockLang_String (l : BlockLang) : string :=
  if l =? BlockLangAWL then "AWL"
  else if l =? BlockLangKOP then "KOP"
  else if l =? BlockLangFUP then "FUP"
  else if l =? BlockLangSCL then "SCL"
  else if l =? BlockLangDB then "DB"
  else if l =? BlockLangGraph then "GRAPH"
  else "?".

Record BlockInfo := {
  BI_Type : BlockType;
  BI_Number : Z;
  BI_Language : BlockLang;
  BI_Flags : Z;
  BI_LoadMemory : Z;
  BI_LocalData : Z;
  BI_MC7Size : Z;
  BI_SBBLength : Z;
  BI_Author : string;
  BI_Family : string;
  BI_Name : string;
  BI_Version : string;
  BI_CheckSum : Z }.

Record BlockData := { BD_Info : BlockInfo; BD_Data : bytes }.

(** ** device.go *)

Record DeviceInfo := {
  OrderNumber : string;
  SerialNumber : string;
  ModuleName : string;
  PlantID : string;
  Copyright : string;
  ModuleType : string;
  FWVersion : string;
  HWVersion : string;
  CPUType : string;
  CPUFamily : string }.

Record ConnectionInfo := {
  CI_Host : string;
  CI_Port : Z;
  CI_LocalTSAP : Z;
  CI_RemoteTSAP : Z;
  CI_Rack : Z;
  CI_Slot : Z;
  CI_PDUSize : Z;
  CI_MaxAmqCalling : Z;
  CI_MaxAmqCalled : Z }.

Definition CPUState := Z.
Definition CPUStateUnknown : CPUState := 0.
Definition CPUStateRun : CPUState := 1.
Definition CPUStateStop : CPUState := 2.
Definition CPUStateStartup : CPUState := 3.
Definition CPUStateHold : CPUState := 4.

Definition CPUState_String (s : CPUState) : string :=
  if s =? CPUStateRun then "RUN"
  else if s =? CPUStateStop then "STOP"
  else if s =? CPUStateStartup then "STARTUP"
  else if s =? CPUStateHold then "HOLD"
  else "UNKNOWN".

Definition ProtectionLevel := Z.
Definition ProtectionNone : ProtectionLevel := 0.
Definition ProtectionRead : ProtectionLevel := 1.
Definition ProtectionReadWrite : ProtectionLevel := 2.
Definition ProtectionFull : ProtectionLevel := 3.

Definition ProtectionLevel_String (p : ProtectionLevel) : string :=
  if p =? ProtectionNone then "No Protection"
  else if p =? ProtectionRead then "Write Protected"
  else if p =? ProtectionReadWrite then "Read/Write Protected"
  else if p =? ProtectionFull then "Full Protection"
  else "Unknown".

Record DiagEntry := {
  DE_Timestamp : string;
  DE_EventID : Z;
  DE_EventClass : Z;
  DE_Priority : Z;
  DE_Description : string;
  DE_Info1 : Z;
  DE_Info2 : Z }.

Record DiagBuffer := { DB_Entries : list DiagEntry; DB_TotalCount : Z }.

(** ** fingerprint.go *)

Record Fingerprint := {
  FP_CPUType : string;
  FP_CPUGeneration : Z;
  FP_OrderNumber : string;
  FP_FirmwareVer : string;
  FP_ModuleName : string;
  FP_PDUSize : Z;
  FP_MaxAmqCalling : Z;
  FP_MaxAmqCalled : Z;
  FP_DetectedRack : Z;
  FP_DetectedSlot : Z;
  FP_AcceptedTSAP : Z;
  FP_Protection : ProtectionLevel;
  FP_SupportsRead : bool;
  FP_SupportsWrite : bool;
  FP_SupportsSZL : bool;
  FP_SupportsUpload : bool;
  FP_SupportsPI : bool }.

Record TSAPProfile := {
  TP_LocalTSAP : Z;
  TP_RemoteTSAP : Z;
  TP_Success : bool;
  TP_PDUSize : Z }.
