(* ===== verification/WireInspect.v ===== *)
(** * wire/inspect.go

    The summary of a captured frame.  go-tpkt's frame parser is the operation of
    the class [Tpkt], go-cotp's decoder the one of [Cotp]. *)

From S2P Require Import Prelude GoError WireHeader WireCotp.

(** [tpkt.Frame], as far as the module reads it. *)
Record TpktFrame := { Frame_Len : Z; Frame_Payload : bytes }.

Class Tpkt := { tpkt_Parse : bytes -> error + TpktFrame }.

Record FrameSummary := {
  FS_TPKTLength : Z;
  FS_COTPType : Z;
  FS_ROSCTR : Z;
  FS_Function : Z;
  FS_ParamLength : Z;
  FS_DataLength : Z;
  FS_ErrorClass : Z;
  FS_ErrorCode : Z }.

Section Inspect.
Context `{T : Tpkt} `{C : Cotp}.

Definition InspectFrame (frame : bytes) : res FrameSummary :=
  let? f := map_err (fun e => EWrap "parse tpkt: " e "") (of_ext (tpkt_Parse frame)) in
  let? dec := map_err (fun e => EWrap "parse cotp: " e "")
                (of_ext (cotp_Decode (Frame_Payload f))) in
  let s := {| FS_TPKTLength := Frame_Len f; FS_COTPType := u8 (Decoded_Type dec);
              FS_ROSCTR := 0; FS_Function := 0; FS_ParamLength := 0; FS_DataLength := 0;
              FS_ErrorClass := 0; FS_ErrorCode := 0 |} in
  let s7Payload := match Decoded_DT dec with Some dt => DT_UserData dt | None => [] end in
  let? other :=
    if len s7Payload =? 0 then Ok true
    else let! b := go_index s7Payload 0 in Ok (negb (b =? 0x32)) in
  if other then Ok s else
  let? ' (h, rest) := map_err (fun e => EWrap "parse s7 header: " e "")
                        (ParseS7Header s7Payload) in
  let? func := if 0 <? len rest then let! b := go_index rest 0 in Ok b else Ok 0 in
  Ok {| FS_TPKTLength := FS_TPKTLength s; FS_COTPType := FS_COTPType s;
        FS_ROSCTR := Header_ROSCTR h; FS_Function := func;
        FS_ParamLength := ParamLength h; FS_DataLength := DataLength h;
        FS_ErrorClass := ErrorClass h; FS_ErrorCode := ErrorCode h |}.

(** ** Properties *)

(** Inspecting a frame is total: whatever the TPKT and COTP decoders make of the
    bytes, the result is a summary or an error, never a panic. *)
Theorem InspectFrame_no_panic frame : no_panic (InspectFrame frame) = true.
Proof.
  unfold InspectFrame. apply no_panic_bind; [by rewrite map_err_no_panic, of_ext_no_panic|].
  intros f _. apply no_panic_bind; [by rewrite map_err_no_panic, of_ext_no_panic|].
  intros dec _. cbv zeta. generalize (match Decoded_DT dec with Some dt => DT_UserData dt
    | None => [] end). intros payload.
  apply no_panic_bind; [by destruct payload|]. intros [] _; [done|].
  apply no_panic_bind; [rewrite map_err_no_panic; apply ParseS7Header_no_panic|].
  intros [h rest] _. apply no_panic_bind; [by destruct rest|done].
Qed.
End Inspect.
