(* ===== verification/Transport.v ===== *)
(** * transport/conn.go

    The connection wrapper, over a model of what lies outside the process.

    The outside is a history of events, newest first, and an environment that
    decides each outcome from the history so far.  Quantifying over environments
    covers every network, peer, clock and cancellation: two calls may have
    different outcomes whenever anything, including another poll, happened in
    between.  [transport.Conn] values are objects on a heap, a [Conn] pointer is
    the index of one. *)

From S2P Require Import Prelude GoError GoMonad.

(** ** The outside *)

Abbreviation cid := nat.

Inductive event :=
  | EvCtxErr (e : option error)                    (* ctx.Err() *)
  | EvWait (d : Z) (e : option error)              (* select on ctx.Done and time.After(d) *)
  | EvNow (t : Z)                                  (* time.Now() *)
  | EvDial (addr : string) (timeout : Z) (r : error + cid)
  | EvSetWriteDeadline (c : cid) (d : option Z) (e : option error)
  | EvSetReadDeadline (c : cid) (d : option Z) (e : option error)
  | EvTrace (c : cid) (direction : string) (data : bytes)
  | EvWriteFrame (c : cid) (payload : bytes) (e : option error)
  | EvReadFrame (c : cid) (r : error + bytes)
  | EvClose (c : cid) (e : option error)
  | EvLog (level msg : string) (args : list error).

(** A [context.Context]: its error and its deadline, when it has one.  [ctx_Wait]
    is the outcome of waiting for the context or for [d] nanoseconds, whichever
    comes first: the context's error, or [None] for the timer. *)
Record Ctx := {
  ctx_Err : list event -> option error;
  ctx_Wait : list event -> Z -> option error;
  ctx_Deadline : option Z }.

(** TCP and go-tpkt.  A [time.Time] is a number of nanoseconds, [None] its zero. *)
Class Env := {
  env_Now : list event -> Z;
  env_Dial : list event -> Ctx -> string -> Z -> option error;
  env_SetWriteDeadline : list event -> cid -> option Z -> option error;
  env_SetReadDeadline : list event -> cid -> option Z -> option error;
  env_WriteFrame : list event -> cid -> bytes -> option error;
  env_ReadFrame : list event -> cid -> error + bytes;
  env_Close : list event -> cid -> option error;
  env_LocalAddr : cid -> string;
  env_RemoteAddr : cid -> string }.

(** The law of go-tpkt the client relies on: a frame has a 16-bit length. *)
Class EnvLaws `{E : Env} : Prop := {
  env_ReadFrame_ok h c bs :
    env_ReadFrame h c = inr bs -> bytes_ok bs /\ len bs < 65536 }.

(** ** The state *)

(** [transport.Conn]: [c.conn != nil] (with its reader and writer), the timeout, and
    whether a tracer is set. *)
Record Conn := { conn_open : bool; conn_timeout : Z; conn_tracer : bool }.

Record World := { hist : list event; conns : list Conn }.

Definition emit (ev : event) : M World unit :=
  modify (fun w => {| hist := ev :: hist w; conns := conns w |}).

(** An outside call: its outcome is decided from the history and recorded. *)
Definition outside {A} (f : list event -> A) (ev : A -> event) : M World A :=
  let* r := gets (fun w => f (hist w)) in
  let* _ := emit (ev r) in
  ret r.

Definition err_of (e : option error) : M World unit :=
  match e with Some e => fail e | None => ret tt end.

(** [if err := ctx.Err(); err != nil { return err }] *)
Definition ctx_check (ctx : Ctx) : M World unit :=
  let* e := outside (ctx_Err ctx) EvCtxErr in err_of e.

(** [select { case <-ctx.Done(): return ctx.Err(); case <-time.After(d): }] *)
Definition ctx_wait (ctx : Ctx) (d : Z) : M World unit :=
  let* e := outside (fun h => ctx_Wait ctx h d) (EvWait d) in err_of e.

(** Dereference a [*transport.Conn]. *)
Definition get_conn (c : cid) : M World Conn := fun w =>
  (w, checked (conns w !! c)).

Definition set_conn (c : cid) (x : Conn) : M World unit :=
  modify (fun w => {| hist := hist w; conns := <[c := x]> (conns w) |}).

Section Transport.
Context `{E : Env}.

(** [New]: a fresh object. *)
Definition New (timeout : Z) : M World cid := fun w =>
  ({| hist := hist w;
      conns := conns w ++ [{| conn_open := true; conn_timeout := timeout;
                              conn_tracer := false |}] |},
   Ok (length (conns w))).

Definition SetTracer (c : cid) (tracer : bool) : M World unit :=
  let* x := get_conn c in
  set_conn c {| conn_open := conn_open x; conn_timeout := conn_timeout x;
                conn_tracer := tracer |}.

(** The deadline both [setReadDeadline] and [setWriteDeadline] compute. *)
Definition io_deadline (timeout : Z) (ctx : Ctx) : M World (option Z) :=
  let* deadline :=
    if 0 <? timeout
    then let* now := outside env_Now EvNow in ret (Some (now + timeout))
    else ret None in
  ret match ctx_Deadline ctx, deadline with
      | None, _ => deadline
      | Some d, None => Some d
      | Some d, Some t => if d <? t then Some d else Some t
      end.

Definition setReadDeadline (c : cid) (timeout : Z) (ctx : Ctx) : M World unit :=
  let* deadline := io_deadline timeout ctx in
  let* e := outside (fun h => env_SetReadDeadline h c deadline)
              (EvSetReadDeadline c deadline) in
  err_of e.

Definition setWriteDeadline (c : cid) (timeout : Z) (ctx : Ctx) : M World unit :=
  let* deadline := io_deadline timeout ctx in
  let* e := outside (fun h => env_SetWriteDeadline h c deadline)
              (EvSetWriteDeadline c deadline) in
  err_of e.

Definition SendContext (c : cid) (ctx : Ctx) (data : bytes) : M World unit :=
  let* x := get_conn c in
  if negb (conn_open x) then fail (ESentinel ErrConnectionNotEstablished) else
  let* _ := setWriteDeadline c (conn_timeout x) ctx in
  let* _ := ctx_check ctx in
  let* _ := if conn_tracer x then emit (EvTrace c "TX" data) else ret tt in
  let* e := outside (fun h => env_WriteFrame h c data) (EvWriteFrame c data) in
  err_of e.

Definition ReceiveContext (c : cid) (ctx : Ctx) : M World bytes :=
  let* x := get_conn c in
  if negb (conn_open x) then fail (ESentinel ErrConnectionNotEstablished) else
  let* _ := setReadDeadline c (conn_timeout x) ctx in
  let* _ := ctx_check ctx in
  let* r := outside (fun h => env_ReadFrame h c) (EvReadFrame c) in
  match r with
  | inl e => fail (EWrap "read TPKT frame: " e "")
  | inr payload =>
      let* _ := if conn_tracer x then emit (EvTrace c "RX" payload) else ret tt in
      ret payload
  end.

(** [context.Background()] *)
Definition Background : Ctx :=
  {| ctx_Err := fun _ => None; ctx_Wait := fun _ _ => None; ctx_Deadline := None |}.

(** [context.WithTimeout(parent, d)].  The context is done when its parent is or when
    the clock has reached its deadline. *)
Definition context_WithTimeout (parent : Ctx) (d : Z) : M World Ctx :=
  let* now := outside env_Now EvNow in
  let deadline := now + d in
  ret {| ctx_Err := fun h =>
           match ctx_Err parent h with
           | Some e => Some e
           | None => if deadline <=? env_Now h then Some (ESentinel DeadlineExceeded) else None
           end;
         ctx_Wait := fun h w =>
           match ctx_Wait parent h w with
           | Some e => Some e
           | None => if deadline <=? env_Now h + w then Some (ESentinel DeadlineExceeded)
                     else None
           end;
         ctx_Deadline := Some match ctx_Deadline parent with
                              | Some p => Z.min p deadline
                              | None => deadline
                              end |}.

Definition Send (c : cid) (data : bytes) : M World unit := SendContext c Background data.
Definition Receive (c : cid) : M World bytes := ReceiveContext c Background.

Definition Close (c : cid) : M World unit :=
  let* x := get_conn c in
  if conn_open x then
    let* e := outside (fun h => env_Close h c) (EvClose c) in
    let* _ := set_conn c {| conn_open := false; conn_timeout := conn_timeout x;
                            conn_tracer := conn_tracer x |} in
    err_of e
  else ret tt.

Definition LocalAddr (c : cid) : M World (option string) :=
  let* x := get_conn c in
  ret (if conn_open x then Some (env_LocalAddr c) else None).

Definition RemoteAddr (c : cid) : M World (option string) :=
  let* x := get_conn c in
  ret (if conn_open x then Some (env_RemoteAddr c) else None).
End Transport.

(** ** What every operation respects

    The history only grows, objects are never deallocated, and a closed connection
    stays closed. *)
Definition world_le (w w' : World) : Prop :=
  (exists evs, hist w' = evs ++ hist w) /\
  (length (conns w) <= length (conns w'))%nat /\
  forall c x, conns w !! c = Some x -> conn_open x = false ->
    exists x', conns w' !! c = Some x' /\ conn_open x' = false.

#[export] Instance world_le_preorder : PreOrder world_le.
Proof.
  split.
  - intros w. split; [by exists []|]. split; [lia|eauto].
  - intros w1 w2 w3 ((e1 & H1) & L1 & C1) ((e2 & H2) & L2 & C2). split; [|split; [lia|]].
    + exists (e2 ++ e1). by rewrite H2, H1, app_assoc.
    + intros c x Hx Ho. destruct (C1 c x Hx Ho) as (x' & Hx' & Ho'). eauto.
Qed.

(** ** Lemmas *)

Lemma emit_le ev : preserves world_le (emit ev).
Proof.
  intros w w' r [= <- _]. split; [by exists [ev]|]. split; [cbn; lia|eauto].
Qed.

Lemma outside_le {A} (f : list event -> A) ev : preserves world_le (outside f ev).
Proof. unfold outside. eauto using emit_le with go typeclass_instances. Qed.

Lemma get_conn_le c : preserves world_le (get_conn c).
Proof. intros w w' r [= <- _]. reflexivity. Qed.

Lemma err_of_le e : preserves world_le (err_of e).
Proof. destruct e; cbn; eauto with go typeclass_instances. Qed.

#[export] Hint Resolve emit_le outside_le get_conn_le err_of_le : go.

(** Follow the structure of a computation down to its primitive steps. *)
Ltac preserve :=
  repeat match goal with
  | |- preserves _ (bind _ _) => apply preserves_bind; [apply _|..|intros ?]
  | |- preserves _ (catch _ _ _) => apply preserves_catch; [apply _|..|intros ?|intros ?]
  | |- preserves _ (let '(_, _) := ?p in _) => destruct p
  | |- preserves _ (if ?b then _ else _) => destruct b
  | |- preserves _ (match ?x with _ => _ end) => destruct x
  | |- preserves _ (attempt _) => apply preserves_attempt
  | |- preserves _ (wrap_err _ _) => apply preserves_wrap_err
  | |- preserves _ _ => solve [eauto with go typeclass_instances]
  end.

(** The same for panic-freedom. *)
Ltac safely :=
  repeat match goal with
  | |- safe _ (bind _ _) => apply safe_bind; [..|intros ?]
  | |- safe _ (catch _ _ _) => apply safe_catch; [..|intros ?|intros ?]
  | |- safe _ (let '(_, _) := ?p in _) => destruct p
  | |- safe _ (if ?b then _ else _) => destruct b
  | |- safe _ (match ?x with _ => _ end) => destruct x
  | |- safe _ (attempt _) => apply safe_attempt
  | |- safe _ (wrap_err _ _) => apply safe_wrap_err
  | |- safe _ _ => solve [eauto with go]
  end.

(** Operations that touch neither the heap nor, as frames, the network. *)
Definition writes (h : list event) : list (cid * bytes) :=
  omap (fun ev => match ev with EvWriteFrame c p _ => Some (c, p) | _ => None end) h.

Definition silent (w w' : World) : Prop :=
  writes (hist w') = writes (hist w) /\ conns w' = conns w.

#[export] Instance silent_preorder : PreOrder silent.
Proof. split; [by intros w|]. intros w1 w2 w3 [H1 C1] [H2 C2]. split; congruence. Qed.

Definition is_write (ev : event) : bool :=
  match ev with EvWriteFrame _ _ _ => true | _ => false end.

Lemma writes_frame c p e h : writes (EvWriteFrame c p e :: h) = (c, p) :: writes h.
Proof. done. Qed.

Lemma emit_silent ev : is_write ev = false -> preserves silent (emit ev).
Proof. intros Hev w w' r [= <- _]. split; [|done]. by destruct ev. Qed.

Lemma outside_silent {A} (f : list event -> A) ev :
  (forall a, is_write (ev a) = false) -> preserves silent (outside f ev).
Proof.
  intros Hev. unfold outside. preserve. by apply emit_silent.
Qed.

Lemma get_conn_silent c : preserves silent (get_conn c).
Proof. intros w w' r [= <- _]. reflexivity. Qed.
Lemma err_of_silent e : preserves silent (err_of e).
Proof. destruct e; cbn; eauto with go typeclass_instances. Qed.

#[export] Hint Resolve get_conn_silent err_of_silent : go.
#[export] Hint Extern 1 (preserves silent (emit _)) => (apply emit_silent; done) : go.
#[export] Hint Extern 1 (preserves silent (outside _ _)) => (apply outside_silent; done) : go.

Lemma set_conn_le c x y w : conns w !! c = Some y ->
  (conn_open y = false -> conn_open x = false) ->
  world_le w {| hist := hist w; conns := <[c := x]> (conns w) |}.
Proof.
  intros Hy Hxy. split; [by exists []|]. cbn. split; [by rewrite length_insert|].
  intros c' z Hz Ho. destruct (decide (c = c')) as [<-|Hne].
  - exists x. split; [|naive_solver]. apply list_lookup_insert_eq. by eapply lookup_lt_Some.
  - exists z. by rewrite list_lookup_insert_ne.
Qed.

Section Lemmas.
Context `{E : Env}.

Lemma ctx_check_le ctx : preserves world_le (ctx_check ctx).
Proof. unfold ctx_check. preserve. Qed.
Lemma ctx_wait_le ctx d : preserves world_le (ctx_wait ctx d).
Proof. unfold ctx_wait. preserve. Qed.
Lemma ctx_check_silent ctx : preserves silent (ctx_check ctx).
Proof. unfold ctx_check. preserve. Qed.
Lemma ctx_wait_silent ctx d : preserves silent (ctx_wait ctx d).
Proof. unfold ctx_wait. preserve. Qed.
#[local] Hint Resolve ctx_check_le ctx_wait_le ctx_check_silent ctx_wait_silent : go.

Lemma context_WithTimeout_le p d : preserves world_le (context_WithTimeout p d).
Proof. unfold context_WithTimeout. preserve. Qed.
Lemma context_WithTimeout_silent p d : preserves silent (context_WithTimeout p d).
Proof. unfold context_WithTimeout. preserve. Qed.
#[local] Hint Resolve context_WithTimeout_le context_WithTimeout_silent : go.

Lemma io_deadline_le t ctx : preserves world_le (io_deadline t ctx).
Proof. unfold io_deadline. preserve. Qed.
Lemma io_deadline_silent t ctx : preserves silent (io_deadline t ctx).
Proof. unfold io_deadline. preserve. Qed.
#[local] Hint Resolve io_deadline_le io_deadline_silent : go.

Lemma setWriteDeadline_silent c t ctx : preserves silent (setWriteDeadline c t ctx).
Proof. unfold setWriteDeadline. preserve. Qed.
Lemma setReadDeadline_silent c t ctx : preserves silent (setReadDeadline c t ctx).
Proof. unfold setReadDeadline. preserve. Qed.
#[local] Hint Resolve setWriteDeadline_silent setReadDeadline_silent : go.

Lemma New_le t : preserves world_le (New t).
Proof.
  intros w w' r [= <- _]. split; [by exists []|]. cbn. split; [rewrite length_app; lia|].
  intros c x Hx Ho. exists x. split; [|done]. by apply lookup_app_l_Some.
Qed.
Lemma SendContext_le c ctx data : preserves world_le (SendContext c ctx data).
Proof. unfold SendContext, setWriteDeadline. preserve. Qed.
Lemma ReceiveContext_le c ctx : preserves world_le (ReceiveContext c ctx).
Proof. unfold ReceiveContext, setReadDeadline. preserve. Qed.
Lemma ReceiveContext_silent c ctx : preserves silent (ReceiveContext c ctx).
Proof. unfold ReceiveContext. preserve. Qed.

Lemma Close_le c : preserves world_le (Close c).
Proof.
  unfold Close. intros w w' r H. unfold bind, get_conn in H.
  destruct (conns w !! c) as [x|] eqn:Hx; cbn in H; [|by injection H as <- _].
  destruct (conn_open x) eqn:Ho; [|by injection H as <- _].
  set (x' := {| conn_open := false; conn_timeout := conn_timeout x;
                conn_tracer := conn_tracer x |}).
  transitivity {| hist := EvClose c (env_Close (hist w) c) :: hist w; conns := conns w |}.
  { split; [by eexists [_]|]. cbn. split; [lia|eauto]. }
  replace w' with {| hist := EvClose c (env_Close (hist w) c) :: hist w;
                     conns := <[c := x']> (conns w) |}
    by (cbn in H; destruct (env_Close (hist w) c); by injection H as <- _).
  by apply (set_conn_le c x' x {| hist := _ :: hist w; conns := conns w |}).
Qed.

(** On an object of the heap no operation panics. *)
Definition on_heap (c : cid) (w : World) : Prop := is_Some (conns w !! c).

Lemma silent_safe {A} c (m : M World A) :
  preserves silent m -> (forall w w' r, m w = (w', r) -> r <> Panic) -> safe (on_heap c) m.
Proof.
  intros Hm Hr w w' r Hw H. split; [|by eapply Hr].
  apply Hm in H as [_ H]. unfold on_heap in *. by rewrite H.
Qed.
Lemma outside_safe {A} c (f : list event -> A) ev : safe (on_heap c) (outside f ev).
Proof. intros w w' r Hw [= <- <-]. done. Qed.
Lemma emit_safe c ev : safe (on_heap c) (emit ev).
Proof. intros w w' r Hw [= <- <-]. done. Qed.
Lemma get_conn_safe c : safe (on_heap c) (get_conn c).
Proof.
  intros w w' r Hw [= <- <-]. split; [done|]. by destruct Hw as [x ->].
Qed.
Lemma err_of_safe P e : safe P (err_of e).
Proof. destruct e; cbn; eauto with go. Qed.
#[local] Hint Resolve outside_safe emit_safe get_conn_safe err_of_safe : go.

Lemma ctx_check_safe c ctx : safe (on_heap c) (ctx_check ctx).
Proof. unfold ctx_check. safely. Qed.
Lemma io_deadline_safe c t ctx : safe (on_heap c) (io_deadline t ctx).
Proof. unfold io_deadline. safely. Qed.
#[local] Hint Resolve ctx_check_safe io_deadline_safe : go.
Lemma SendContext_safe c ctx data : safe (on_heap c) (SendContext c ctx data).
Proof. unfold SendContext, setWriteDeadline. safely. Qed.
Lemma ReceiveContext_safe c ctx : safe (on_heap c) (ReceiveContext c ctx).
Proof. unfold ReceiveContext, setReadDeadline. safely. Qed.

(** What a connection is after a close. *)
Definition closed (x : Conn) : Conn :=
  {| conn_open := false; conn_timeout := conn_timeout x; conn_tracer := conn_tracer x |}.

Lemma Close_heap c x w w' r :
  conns w !! c = Some x -> Close c w = (w', r) ->
  conns w' = <[c := closed x]> (conns w) /\ r <> Panic.
Proof.
  unfold Close, bind, get_conn. intros Hx. rewrite Hx. cbn.
  destruct (conn_open x) eqn:Ho; cbn.
  - destruct env_Close; by intros [= <- <-].
  - intros [= <- <-]. split; [|done]. rewrite list_insert_id; [done|].
    rewrite Hx. destruct x. cbn in *. by subst.
Qed.

(** A frame is written at most once, and only as the last effect of a send. *)
Lemma SendContext_writes c ctx data w w' r :
  SendContext c ctx data w = (w', r) ->
  conns w' = conns w /\
  (writes (hist w') = writes (hist w) /\ r <> Ok tt \/
   writes (hist w') = (c, data) :: writes (hist w)).
Proof.
  unfold SendContext. intros H.
  apply bind_inv in H as [(w1 & x & [= <- Hx] & H)|[(e & [= <- _] & ->)|[[= <- _] ->]]];
    [|by split; [|left]..].
  destruct (negb (conn_open x)); [injection H as <- <-; by split; [|left]|].
  apply bind_inv in H as [(w1 & [] & H1 & H)|[(e & H1 & ->)|[H1 ->]]];
    apply setWriteDeadline_silent in H1 as [W1 C1]; [|by split; [|left]..].
  apply bind_inv in H as [(w2 & [] & H2 & H)|[(e & H2 & ->)|[H2 ->]]];
    apply ctx_check_silent in H2 as [W2 C2]; [|split; [congruence|left; by split; [congruence|]]..].
  apply bind_inv in H as [(w3 & [] & H3 & H)|[(e & H3 & ->)|[H3 ->]]];
    assert (preserves silent (if conn_tracer x then emit (EvTrace c "TX" data) else ret tt))
      as Hs by preserve;
    apply Hs in H3 as [W3 C3];
    [|split; [congruence|left; by split; [congruence|]]..].
  assert (hist w' = EvWriteFrame c data (env_WriteFrame (hist w3) c data) :: hist w3
          /\ conns w' = conns w3) as [-> ->]
    by (cbn in H; by destruct (env_WriteFrame (hist w3) c data); injection H as <- _).
  split; [congruence|]. right. rewrite writes_frame. congruence.
Qed.
End Lemmas.

#[export] Hint Resolve ctx_check_le ctx_wait_le ctx_check_silent ctx_wait_silent
  context_WithTimeout_le context_WithTimeout_silent New_le SendContext_le ReceiveContext_le ReceiveContext_silent Close_le
  outside_safe emit_safe get_conn_safe err_of_safe ctx_check_safe io_deadline_safe
  SendContext_safe ReceiveContext_safe : go.

(** ** Properties *)

(** The deadline of an I/O operation started at [now]: the earlier of the timeout
    and the context's deadline, absent when both are. *)
Definition earliest_deadline (timeout now : Z) (ctx : Ctx) : option Z :=
  match (if 0 <? timeout then Some (now + timeout) else None), ctx_Deadline ctx with
  | Some a, Some b => Some (Z.min a b)
  | Some a, None => Some a
  | None, o => o
  end.

Section Properties.
Context `{E : Env}.

Lemma bind_outside {A B} (f : list event -> A) ev (k : A -> M World B) w :
  bind (outside f ev) k w
  = k (f (hist w)) {| hist := ev (f (hist w)) :: hist w; conns := conns w |}.
Proof. done. Qed.

Lemma io_deadline_run t ctx w : exists w' now evs,
  io_deadline t ctx w = (w', Ok (earliest_deadline t now ctx))
  /\ hist w' = evs ++ hist w /\ conns w' = conns w.
Proof.
  unfold io_deadline, earliest_deadline. destruct (0 <? t) eqn:Ht.
  - exists {| hist := EvNow (env_Now (hist w)) :: hist w; conns := conns w |},
      (env_Now (hist w)), [EvNow (env_Now (hist w))]. split; [|done]. cbn.
    destruct (ctx_Deadline ctx) as [d|]; [|done].
    destruct (d <? env_Now (hist w) + t) eqn:?; zify_bool; unfold ret; do 3 f_equal; lia.
  - exists w, 0, []. split; [|done]. cbn. by destruct (ctx_Deadline ctx).
Qed.

(** What a receive returns is a frame the network delivered. *)
Lemma ReceiveContext_frame c ctx w w' bs :
  ReceiveContext c ctx w = (w', Ok bs) -> exists h, env_ReadFrame h c = inr bs.
Proof.
  unfold ReceiveContext. intros (w1 & x & _ & H)%bind_Ok.
  destruct (negb (conn_open x)); [done|].
  apply bind_Ok in H as (w2 & [] & _ & H). apply bind_Ok in H as (w3 & [] & _ & H).
  rewrite bind_outside in H. exists (hist w3).
  destruct (env_ReadFrame (hist w3) c) as [e|p]; [done|].
  destruct (conn_tracer x); by injection H as _ <-.
Qed.

(** A context that stays alive and a connection on which no call fails: what a
    read returns is left open. *)
Record live (ctx : Ctx) (c : cid) : Prop := {
  live_Err h : ctx_Err ctx h = None;
  live_Wait h d : ctx_Wait ctx h d = None;
  live_SetWriteDeadline h d : env_SetWriteDeadline h c d = None;
  live_SetReadDeadline h d : env_SetReadDeadline h c d = None;
  live_WriteFrame h p : env_WriteFrame h c p = None }.

Definition open_at (c : cid) (w : World) : Prop :=
  exists x, conns w !! c = Some x /\ conn_open x = true.

(** The same world later, with the given frames written. *)
Definition later (w w' : World) (ws : list (cid * bytes)) : Prop :=
  conns w' = conns w /\ writes (hist w') = ws ++ writes (hist w).

Lemma get_conn_open c w x : conns w !! c = Some x -> get_conn c w = (w, Ok x).
Proof. intros Hx. unfold get_conn. by rewrite Hx. Qed.

Lemma ctx_check_live ctx c w : live ctx c ->
  exists w', ctx_check ctx w = (w', Ok tt) /\ later w w' [].
Proof.
  intros HL. unfold ctx_check. rewrite bind_outside, (live_Err _ _ HL). by eexists.
Qed.
Lemma ctx_wait_live ctx c d w : live ctx c ->
  exists w', ctx_wait ctx d w = (w', Ok tt) /\ later w w' [].
Proof.
  intros HL. unfold ctx_wait. rewrite bind_outside, (live_Wait _ _ HL). by eexists.
Qed.

Lemma SendContext_live ctx c data w : live ctx c -> open_at c w ->
  exists w', SendContext c ctx data w = (w', Ok tt) /\ later w w' [(c, data)].
Proof.
  intros HL (x & Hx & Ho). destruct (SendContext c ctx data w) as [w' r] eqn:H.
  assert (r = Ok tt) as ->.
  { unfold SendContext, setWriteDeadline, ctx_check in H.
    destruct (io_deadline_run (conn_timeout x) ctx w) as (w1 & now & evs & Hd & _).
    unfold bind in H. rewrite (get_conn_open _ _ x) in H by done.
    cbv beta iota in H. rewrite Ho in H. cbn [negb] in H. rewrite Hd in H. cbn in H.
    rewrite (live_SetWriteDeadline _ _ HL) in H. cbn in H. rewrite (live_Err _ _ HL) in H.
    cbn in H. destruct (conn_tracer x); cbn in H; rewrite (live_WriteFrame _ _ HL) in H;
      by injection H as _ <-. }
  apply SendContext_writes in H as [Hc [[_ []]|Hw]]; [done|]. by exists w'.
Qed.

Lemma ReceiveContext_live (Q : bytes -> Prop) ctx c w : live ctx c -> open_at c w ->
  (forall h, writes h = writes (hist w) -> exists bs, env_ReadFrame h c = inr bs /\ Q bs) ->
  exists w' bs, ReceiveContext c ctx w = (w', Ok bs) /\ later w w' [] /\ Q bs.
Proof.
  intros HL (x & Hx & Ho) Hread. destruct (ReceiveContext c ctx w) as [w' r] eqn:H.
  pose proof (ReceiveContext_silent _ _ _ _ _ H) as [Hw Hc].
  assert (exists bs, r = Ok bs /\ Q bs) as (bs & -> & HQ); [|by exists w', bs].
  unfold ReceiveContext, setReadDeadline, ctx_check in H.
  destruct (io_deadline_run (conn_timeout x) ctx w) as (w1 & now & evs & Hd & _).
  pose proof (io_deadline_silent _ _ _ _ _ Hd) as [Hw1 _].
  unfold bind in H. rewrite (get_conn_open _ _ x) in H by done.
  cbv beta iota in H. rewrite Ho in H. cbn [negb] in H. rewrite Hd in H. cbn in H.
  rewrite (live_SetReadDeadline _ _ HL) in H. cbn in H. rewrite (live_Err _ _ HL) in H.
  cbn in H. match type of H with context [env_ReadFrame ?h c] =>
    destruct (Hread h) as (bs & Hbs & HQ); [done|] end.
  exists bs. split; [|done]. rewrite Hbs in H. cbn in H.
  destruct (conn_tracer x); by injection H as _ <-.
Qed.

(** A send that reports success ran on an open connection, after setting the
    write deadline to the earlier of the timeout and the context's deadline and
    finding the context alive, and its last effect is the one frame with the
    given payload. *)
Theorem SendContext_Ok c ctx data w w' :
  SendContext c ctx data w = (w', Ok tt) ->
  exists x now evs,
    conns w !! c = Some x /\ conn_open x = true /\ conns w' = conns w /\
    hist w' = EvWriteFrame c data None :: evs ++ hist w /\
    EvSetWriteDeadline c (earliest_deadline (conn_timeout x) now ctx) None ∈ evs /\
    EvCtxErr None ∈ evs.
Proof.
  unfold SendContext. intros H.
  apply bind_Ok in H as (w1 & x & [= <- Hx] & H). apply checked_Ok in Hx.
  destruct (conn_open x) eqn:Ho; cbn [negb] in H; [|done].
  apply bind_Ok in H as (w2 & [] & H2 & H). unfold setWriteDeadline in H2.
  destruct (io_deadline_run (conn_timeout x) ctx w) as (w1 & now & evs1 & Hd & Hh1 & Hc1).
  unfold bind at 1 in H2. rewrite Hd, bind_outside in H2.
  destruct env_SetWriteDeadline as [e|]; [done|]. injection H2 as <-.
  unfold ctx_check in H. apply bind_Ok in H as (w3 & [] & H3 & H).
  rewrite bind_outside in H3. destruct (ctx_Err ctx _) as [e|] eqn:He; [done|].
  injection H3 as <-.
  apply bind_Ok in H as (w4 & [] & H4 & H).
  assert (exists evs, hist w4 = evs ++ EvCtxErr None ::
    EvSetWriteDeadline c (earliest_deadline (conn_timeout x) now ctx) None :: hist w1
    /\ conns w4 = conns w) as (evs & Hh4 & Hc4).
  { destruct (conn_tracer x); injection H4 as <-; [by eexists [_]|by exists []]. }
  rewrite bind_outside in H. destruct env_WriteFrame as [e|]; [done|]. injection H as <-.
  cbn [hist conns].
  exists x, now, (evs ++ EvCtxErr None ::
    EvSetWriteDeadline c (earliest_deadline (conn_timeout x) now ctx) None :: evs1).
  rewrite Hh4, Hh1. repeat split; auto.
  - by rewrite <- app_assoc.
  - apply elem_of_app. right. right. by left.
  - apply elem_of_app. right. by left.
Qed.

(** C19: A connection that has been closed is in a terminal state: whatever the
    close reported, later sends and receives fail with
    [ErrConnectionNotEstablished] without touching the network, a further close
    succeeds and does nothing, and no later operation reopens it. *)
Theorem Close_terminal c x w w' r :
  conns w !! c = Some x -> Close c w = (w', r) ->
  r <> Panic /\
  forall w'', world_le w' w'' ->
    (forall ctx data, SendContext c ctx data w''
       = (w'', Err (ESentinel ErrConnectionNotEstablished))) /\
    (forall ctx, ReceiveContext c ctx w''
       = (w'', Err (ESentinel ErrConnectionNotEstablished))) /\
    Close c w'' = (w'', Ok tt).
Proof.
  intros Hx H.
  assert (r <> Panic /\ exists x', conns w' !! c = Some x' /\ conn_open x' = false)
    as [Hr (x' & Hx' & Ho')].
  { unfold Close, bind at 1, get_conn in H. rewrite Hx in H. cbn [checked] in H.
    destruct (conn_open x) eqn:Ho; [|injection H as <- <-; eauto].
    rewrite bind_outside in H. cbn in H.
    destruct env_Close; injection H as <- <-; (split; [done|]); cbn;
      eexists; (split; [apply list_lookup_insert_eq; by eapply lookup_lt_Some|done]). }
  split; [done|]. intros w'' (_ & _ & Hc). destruct (Hc c x' Hx' Ho') as (y & Hy & Hoy).
  assert (get_conn c w'' = (w'', Ok y)) as Hg by (unfold get_conn; by rewrite Hy).
  unfold SendContext, ReceiveContext, Close, bind. rewrite Hg, Hoy. done.
Qed.
End Properties.

(** ** Witnesses *)

(** A quiet environment: nothing fails and the peer has nothing to say. *)
Definition quiet_env : Env := {|
  env_Now := fun h => Z.of_nat (length h);
  env_Dial := fun _ _ _ _ => None;
  env_SetWriteDeadline := fun _ _ _ => None;
  env_SetReadDeadline := fun _ _ _ => None;
  env_WriteFrame := fun _ _ _ => None;
  env_ReadFrame := fun _ _ => inl (EExt "EOF" None []);
  env_Close := fun _ _ => None;
  env_LocalAddr := fun _ => "";
  env_RemoteAddr := fun _ => "" |}.
#[local] Existing Instance quiet_env.

Definition one_conn : World :=
  {| hist := []; conns := [{| conn_open := true; conn_timeout := 5; conn_tracer := true |}] |}.

Lemma SendContext_Ok_witness : exists x now evs,
  conns one_conn !! 0%nat = Some x /\ conn_open x = true /\
  conns (fst (SendContext 0 Background [1] one_conn)) = conns one_conn /\
  hist (fst (SendContext 0 Background [1] one_conn))
    = EvWriteFrame 0 [1] None :: evs ++ hist one_conn /\
  EvSetWriteDeadline 0 (earliest_deadline (conn_timeout x) now Background) None ∈ evs /\
  EvCtxErr None ∈ evs.
Proof. apply (SendContext_Ok (E := quiet_env)). reflexivity. Defined.

Lemma Close_terminal_witness :
  Ok tt <> Panic /\
  forall w'', world_le (fst (Close 0 one_conn)) w'' ->
    (forall ctx data, SendContext 0 ctx data w''
       = (w'', Err (ESentinel ErrConnectionNotEstablished))) /\
    (forall ctx, ReceiveContext 0 ctx w''
       = (w'', Err (ESentinel ErrConnectionNotEstablished))) /\
    Close 0 w'' = (w'', Ok tt).
Proof.
  apply (Close_terminal (E := quiet_env) 0
    {| conn_open := true; conn_timeout := 5; conn_tracer := true |} one_conn); reflexivity.
Defined.
