(* ===== verification/Sample.v ===== *)
(** * A sample peer

    A concrete COTP codec and a concrete PLC with byte memories, at which the
    theorems about the client are instantiated.  Nothing here models the program. *)

From S2P Require Import Prelude GoError WireHeader WireCotp WireReadWrite WireSpec WireSetup Transport.

(** ** COTP class 0 *)

Definition sample_CR (cr : CR) : bytes :=
  let body := [0xE0; 0; 0; 0; 1; CR_ClassOption cr]
    ++ [0xC1; len (CR_CallingSelector cr)] ++ CR_CallingSelector cr
    ++ [0xC2; len (CR_CalledSelector cr)] ++ CR_CalledSelector cr in
  len body :: body.

Definition sample_DT (dt : DT) : bytes :=
  [0x02; 0xF0; if DT_EOT dt then 0x80 else 0x00] ++ DT_UserData dt.

Definition sample_Decode (bs : bytes) : error + Decoded :=
  match bs with
  | li :: ty :: rest =>
      if (li =? 0x02) && (ty =? 0xF0) then
        match rest with
        | eot :: data =>
            inr {| Decoded_Type := 0xF0;
                   Decoded_DT := Some {| DT_EOT := eot =? 0x80; DT_UserData := data |} |}
        | [] => inl (EExt "short TPDU" None [])
        end
      else inr {| Decoded_Type := ty; Decoded_DT := None |}
  | _ => inl (EExt "short TPDU" None [])
  end.

#[export] Instance sample_cotp : Cotp := {|
  cotp_TypeCC := 0xD0;
  cotp_TypeString := fun t => hex02 t;
  cotp_CR_MarshalBinary := fun cr => inr (sample_CR cr);
  cotp_DT_MarshalBinary := fun dt => inr (sample_DT dt);
  cotp_Decode := sample_Decode |}.

#[export] Instance sample_cotp_laws : CotpLaws.
Proof.
  split.
  - intros [eot data] bs [= <-]. exists 0xF0. by destruct eot.
  - intros bs ty dt H. cbn in H. unfold sample_Decode in H.
    destruct bs as [|a [|b rest]]; try done. case_if; [|done].
    destruct rest as [|c l]; [done|]. injection H as <- <-.
    exists [a; b; c], []. by rewrite app_nil_r.
Qed.

(** ** A PLC with byte memories *)

(** The last frame written on a connection. *)
Definition last_write (c : cid) (h : list event) : option bytes :=
  head (omap (fun '(c', p) => if bool_decide (c = c') then Some p else None) (writes h)).

(** The bytes [start .. start + size) of an area. *)
Definition mem_slice (mem : Z -> Z -> Z -> Z) (area db start size : Z) : bytes :=
  map (mem area db) (seqZ start size).

Definition plc_read (mem : Z -> Z -> Z -> Z) (a : S7AnyAddress) : bytes :=
  encode_resp_item
    (resp_byte_item (mem_slice mem (Any_Area a) (Any_DBNumber a) (Any_Start a) (Any_Size a))
       None).

Definition plc (mem : Z -> Z -> Z -> Z) (pdu : bytes) : bytes :=
  match decode_read_request pdu, decode_write_request pdu with
  | Some (ref, [a]), _ => ack_data ref [FuncReadVar; 1] (plc_read mem a)
  | _, Some (ref, _, _) => ack_data ref [FuncWriteVar; 1] [0xFF]
  | _, _ =>
      match ParseS7Header pdu with
      | Ok (h, _) => ack_data (PDURef h) (setup_param {| Setup_MaxAmqCalling := 1;
                       Setup_MaxAmqCalled := 1; Setup_PDUSize := 240 |}) []
      | _ => []
      end
  end.

Definition plc_frame (mem : Z -> Z -> Z -> Z) (frame : bytes) : bytes :=
  match sample_Decode frame with
  | inr {| Decoded_DT := Some dt |} =>
      sample_DT {| DT_EOT := true; DT_UserData := plc mem (DT_UserData dt) |}
  | _ => [0x06; 0xD0; 0; 1; 0; 2; 0]
  end.

(** What can be sent in a frame. *)
Definition sample_tpkt (bs : bytes) : error + bytes :=
  if decide (bytes_ok bs /\ len bs < 65536) then inr bs else inl (EExt "bad frame" None []).

Definition sample_env (mem : Z -> Z -> Z -> Z) : Env := {|
  env_Now := fun h => Z.of_nat (length h);
  env_Dial := fun _ _ _ _ => None;
  env_SetWriteDeadline := fun _ _ _ => None;
  env_SetReadDeadline := fun _ _ _ => None;
  env_WriteFrame := fun _ _ _ => None;
  env_ReadFrame := fun h c =>
    match last_write c h with
    | Some frame => sample_tpkt (plc_frame mem frame)
    | None => inl (EExt "EOF" None [])
    end;
  env_Close := fun _ _ => None;
  env_LocalAddr := fun _ => "";
  env_RemoteAddr := fun _ => "" |}.

Lemma sample_env_laws mem : EnvLaws (E := sample_env mem).
Proof.
  split. intros h c bs. cbn. destruct last_write; [|done]. unfold sample_tpkt.
  case_decide as H; [|done]. by intros [= <-].
Qed.

(** A peer that answers a telegram by what was written before it. *)
Definition peer_env (answer : list (cid * bytes) -> bytes -> bytes) : Env := {|
  env_Now := fun h => Z.of_nat (length h);
  env_Dial := fun _ _ _ _ => None;
  env_SetWriteDeadline := fun _ _ _ => None;
  env_SetReadDeadline := fun _ _ _ => None;
  env_WriteFrame := fun _ _ _ => None;
  env_ReadFrame := fun h c =>
    match writes h with
    | (_, frame) :: ws =>
        match sample_Decode frame with
        | inr {| Decoded_DT := Some dt |} =>
            sample_tpkt (sample_DT {| DT_EOT := true;
                                      DT_UserData := answer ws (DT_UserData dt) |})
        | _ => sample_tpkt [0x06; 0xD0; 0; 1; 0; 2; 0]
        end
    | [] => inl (EExt "EOF" None [])
    end;
  env_Close := fun _ _ => None;
  env_LocalAddr := fun _ => "";
  env_RemoteAddr := fun _ => "" |}.

Lemma peer_env_laws answer : EnvLaws (E := peer_env answer).
Proof.
  assert (forall x bs, sample_tpkt x = inr bs -> bytes_ok bs /\ len bs < 65536) as Ht.
  { intros x bs. unfold sample_tpkt. case_decide as H; [|done]. by intros [= <-]. }
  split. intros h c bs. cbn. repeat case_match; try done; apply Ht.
Qed.

(** A memory whose contents tell where they are. *)
Definition sample_mem (area db addr : Z) : Z := (area + db + addr) mod 256.
