(* ===== verification/ClientTypes.v ===== *)
(** * client: options, validation errors and read results

    [options.go] and [result.go], and [validateAddress] of [validation.go]; the
    other validators are with the operations that call them. *)

From S2P Require Import Prelude GoError GoStrings ModelTypes.

(** ** options.go *)

Record options := {
  port : Z;
  rack : Z;
  slot : Z;
  localTSAP : Z;
  remoteTSAP : Z;
  useExplicit : bool;
  autoRackSlot : bool;
  bruteRackSlot : bool;
  timeout : Z;
  rateLimit : Z;
  logger : bool;                       (* [logger != nil] *)
  maxPDU : Z;
  maxAmqCalling : Z;
  maxAmqCalled : Z }.

Definition time_Second : Z := 1000000000.

Definition defaultOptions : options := {|
  port := 102; rack := 0; slot := 1;
  localTSAP := 0; remoteTSAP := 0;
  useExplicit := false; autoRackSlot := false; bruteRackSlot := false;
  timeout := 5 * time_Second; rateLimit := 0; logger := false;
  maxPDU := 480; maxAmqCalling := 1; maxAmqCalled := 1 |}.

(** [type Option func( *options)] *)
Definition Option : Type := options -> options.

Definition WithPort (p : Z) : Option := fun o =>
  {| port := p; rack := rack o; slot := slot o;
     localTSAP := localTSAP o; remoteTSAP := remoteTSAP o;
     useExplicit := useExplicit o; autoRackSlot := autoRackSlot o;
     bruteRackSlot := bruteRackSlot o; timeout := timeout o; rateLimit := rateLimit o;
     logger := logger o; maxPDU := maxPDU o;
     maxAmqCalling := maxAmqCalling o; maxAmqCalled := maxAmqCalled o |}.

Definition WithRackSlot (r s : Z) : Option := fun o =>
  {| port := port o; rack := r; slot := s;
     localTSAP := localTSAP o; remoteTSAP := remoteTSAP o;
     useExplicit := useExplicit o; autoRackSlot := autoRackSlot o;
     bruteRackSlot := bruteRackSlot o; timeout := timeout o; rateLimit := rateLimit o;
     logger := logger o; maxPDU := maxPDU o;
     maxAmqCalling := maxAmqCalling o; maxAmqCalled := maxAmqCalled o |}.

Definition WithTSAP (local remote : Z) : Option := fun o =>
  {| port := port o; rack := rack o; slot := slot o;
     localTSAP := local; remoteTSAP := remote;
     useExplicit := true; autoRackSlot := autoRackSlot o;
     bruteRackSlot := bruteRackSlot o; timeout := timeout o; rateLimit := rateLimit o;
     logger := logger o; maxPDU := maxPDU o;
     maxAmqCalling := maxAmqCalling o; maxAmqCalled := maxAmqCalled o |}.

Definition WithAutoRackSlot (brute : bool) : Option := fun o =>
  {| port := port o; rack := rack o; slot := slot o;
     localTSAP := localTSAP o; remoteTSAP := remoteTSAP o;
     useExplicit := useExplicit o; autoRackSlot := true;
     bruteRackSlot := brute; timeout := timeout o; rateLimit := rateLimit o;
     logger := logger o; maxPDU := maxPDU o;
     maxAmqCalling := maxAmqCalling o; maxAmqCalled := maxAmqCalled o |}.

Definition WithTimeout (t : Z) : Option := fun o =>
  {| port := port o; rack := rack o; slot := slot o;
     localTSAP := localTSAP o; remoteTSAP := remoteTSAP o;
     useExplicit := useExplicit o; autoRackSlot := autoRackSlot o;
     bruteRackSlot := bruteRackSlot o; timeout := t; rateLimit := rateLimit o;
     logger := logger o; maxPDU := maxPDU o;
     maxAmqCalling := maxAmqCalling o; maxAmqCalled := maxAmqCalled o |}.

Definition WithRateLimit (d : Z) : Option := fun o =>
  {| port := port o; rack := rack o; slot := slot o;
     localTSAP := localTSAP o; remoteTSAP := remoteTSAP o;
     useExplicit := useExplicit o; autoRackSlot := autoRackSlot o;
     bruteRackSlot := bruteRackSlot o; timeout := timeout o; rateLimit := d;
     logger := logger o; maxPDU := maxPDU o;
     maxAmqCalling := maxAmqCalling o; maxAmqCalled := maxAmqCalled o |}.

Definition WithLogger (l : bool) : Option := fun o =>
  {| port := port o; rack := rack o; slot := slot o;
     localTSAP := localTSAP o; remoteTSAP := remoteTSAP o;
     useExplicit := useExplicit o; autoRackSlot := autoRackSlot o;
     bruteRackSlot := bruteRackSlot o; timeout := timeout o; rateLimit := rateLimit o;
     logger := l; maxPDU := maxPDU o;
     maxAmqCalling := maxAmqCalling o; maxAmqCalled := maxAmqCalled o |}.

Definition WithMaxPDU (size : Z) : Option := fun o =>
  {| port := port o; rack := rack o; slot := slot o;
     localTSAP := localTSAP o; remoteTSAP := remoteTSAP o;
     useExplicit := useExplicit o; autoRackSlot := autoRackSlot o;
     bruteRackSlot := bruteRackSlot o; timeout := timeout o; rateLimit := rateLimit o;
     logger := logger o; maxPDU := size;
     maxAmqCalling := maxAmqCalling o; maxAmqCalled := maxAmqCalled o |}.

(** ** validation.go: addresses *)

Definition validateAddress (addr : Address) : res unit :=
  if Address_Start addr <? 0
  then Err (EValidation ("start offset must be >= 0, got " +:+ dec (Address_Start addr)))
  else if Address_Size addr <? 0
  then Err (EValidation ("size must be >= 0, got " +:+ dec (Address_Size addr)))
  else if (Address_Area addr =? AreaDB) && (Address_DBNumber addr <? 0)
  then Err (EValidation ("DB number must be >= 0, got " +:+ dec (Address_DBNumber addr)))
  else Ok tt.

(** ** result.go *)

(** The texts of the constants. *)
Definition read_statuses : list string :=
  ["success"; "short-read"; "empty-read"; "rejected"; "timeout"; "transport-error";
   "protocol-error"; "inconclusive"].

(** [type ReadStatus string]: the constants, and any other text.  A status is its text
    ([ReadStatus_string_inj], [ReadStatus_string_surj]). *)
Inductive ReadStatus :=
  | ReadStatusSuccess
  | ReadStatusShortRead
  | ReadStatusEmptyRead
  | ReadStatusRejected
  | ReadStatusTimeout
  | ReadStatusTransportErr
  | ReadStatusProtocolErr
  | ReadStatusInconclusive
  | ReadStatusOther (s : string) (other : existsb (String.eqb s) read_statuses = false).

Definition ReadStatus_string (s : ReadStatus) : string :=
  match s with
  | ReadStatusSuccess => "success"
  | ReadStatusShortRead => "short-read"
  | ReadStatusEmptyRead => "empty-read"
  | ReadStatusRejected => "rejected"
  | ReadStatusTimeout => "timeout"
  | ReadStatusTransportErr => "transport-error"
  | ReadStatusProtocolErr => "protocol-error"
  | ReadStatusInconclusive => "inconclusive"
  | ReadStatusOther s _ => s
  end.

#[export] Instance ReadStatus_string_inj : Inj (=) (=) ReadStatus_string.
Proof.
  intros [| | | | | | | |s Hs] [| | | | | | | |t Ht]; cbn; try done; intros; subst; try done.
  f_equal. apply Eqdep_dec.UIP_dec, bool_eq_dec.
Qed.

#[export] Instance ReadStatus_string_surj : Surj (=) ReadStatus_string.
Proof.
  intros s. destruct (existsb (String.eqb s) read_statuses) eqn:Hs.
  - apply existsb_exists in Hs as (t & Ht & ->%String.eqb_eq).
    cbn [In read_statuses] in Ht. destruct_or? Ht; subst; try done.
    + by exists ReadStatusSuccess.
    + by exists ReadStatusShortRead.
    + by exists ReadStatusEmptyRead.
    + by exists ReadStatusRejected.
    + by exists ReadStatusTimeout.
    + by exists ReadStatusTransportErr.
    + by exists ReadStatusProtocolErr.
    + by exists ReadStatusInconclusive.
  - by exists (ReadStatusOther s Hs).
Qed.

#[export] Instance ReadStatus_eq_dec : EqDecision ReadStatus := fun s t =>
  match decide (ReadStatus_string s = ReadStatus_string t) with
  | left H => left (inj ReadStatus_string s t H)
  | right H => right (fun E => H (f_equal ReadStatus_string E))
  end.

(** The [Warnings] field is never written by the program. *)
Record ReadResult := {
  Status : ReadStatus;
  RequestedLength : Z;
  ReturnedLength : Z;
  Data : bytes;
  Warnings : list string;
  Message : string;
  Cause : option error;
  ItemStatus : string;
  ReturnCode : Z }.

(** A nil receiver is [None]. *)
Definition OK (r : option ReadResult) : bool :=
  match r with
  | None => false
  | Some r => bool_decide (Status r = ReadStatusSuccess)
  end.

Definition Success (r : option ReadResult) : bool := OK r.

(** The [Result] field of [ReadOutcomeError] is not kept: nothing reads it. *)
Definition ReadResult_Err (r : option ReadResult) : option error :=
  match r with
  | None => Some (ESentinel ErrNilReadResult)
  | Some r =>
      if decide (Status r = ReadStatusSuccess) then None
      else
        let msg := ReadStatus_string (Status r) in
        let msg := if bool_decide (Message r ≠ "") then Message r else msg in
        Some (EReadOutcome msg (Cause r))
  end.
