(* ===== verification/ClientCore.v ===== *)
(** * client/client.go and client/handshake.go

    The client object, connecting, and the request/response exchange.

    A [Client] is used by one operation at a time: every method that changes it or
    talks to the peer holds [reqMu], so the operations are atomic here and [mu]
    needs no counterpart. *)

From stdpp Require Import relations.
From S2P Require Import Prelude GoError GoMonad GoStrings WireErrors WireHeader WireCotp WireReadWrite WireSpec WireSetup ModelTypes Transport Sample ClientTypes.

(** ** State *)

Record Client := {
  host : string;
  opts : options;
  conn : option cid;
  client_rack : Z;
  client_slot : Z;
  pduRef : Z;
  client_localTSAP : Z;
  client_remoteTSAP : Z;
  pduSize : Z;
  client_maxAmqCalling : Z;
  client_maxAmqCalled : Z }.

(** The process: what is outside it, and the client. *)
Record Sys := { wld : World; cl : Client }.

(** A transport operation. *)
Definition on_net {A} (m : M World A) : M Sys A :=
  zoom wld (fun w s => {| wld := w; cl := cl s |}) m.

Definition set_cl (f : Client -> Client) : M Sys unit :=
  modify (fun s => {| wld := wld s; cl := f (cl s) |}).

(** [New] *)
Definition NewClient (host : string) (os : list Option) : Client :=
  let o := fold_left (fun o f => f o) os defaultOptions in
  {| host := host; opts := o; conn := None; client_rack := 0; client_slot := 0; pduRef := 0;
     client_localTSAP := 0; client_remoteTSAP := 0; pduSize := 0;
     client_maxAmqCalling := 0; client_maxAmqCalled := 0 |}.

(** [fmt.Errorf("...: %w", errors.Join(err, ErrProtocolFailure))] *)
Definition protocol_failure (what : string) (e : error) : error :=
  EWrap (what +:+ ": ") (EJoin [e; ESentinel ErrProtocolFailure]) "".

Section Client.
Context `{E : Env} `{C : Cotp}.

(** ** handshake.go *)

Definition dialTransport (ctx : Ctx) (address : string) (timeout : Z) : M World cid :=
  let* e := gets (fun w => env_Dial (hist w) ctx address timeout) in
  match e with
  | Some e =>
      let* _ := emit (EvDial address timeout (inl e)) in
      fail (EWrap "TCP connect: " e "")
  | None =>
      let* c := New timeout in
      let* _ := emit (EvDial address timeout (inr c)) in
      ret c
  end.

Definition performCOTPConnect (ctx : Ctx) (c : cid) (localTSAP remoteTSAP : Z)
    : M World unit :=
  let* _ := ctx_check ctx in
  let* crBytes := lift (map_err (protocol_failure "encode COTP CR")
                          (EncodeCOTPCR localTSAP remoteTSAP)) in
  let* _ := SendContext c ctx crBytes in
  let* resp := ReceiveContext c ctx in
  let* dec := lift (map_err (protocol_failure "decode COTP") (of_ext (cotp_Decode resp))) in
  if negb (Decoded_Type dec =? cotp_TypeCC)
  then fail (EWrap ("expected COTP CC, got " +:+ cotp_TypeString (Decoded_Type dec) +:+ ": ")
               (ESentinel ErrProtocolFailure) "")
  else ret tt.

(** The S7 header and what follows it in the DT that [resp] must be. *)
Definition decode_dt (resp : bytes) : res (S7Header * bytes) :=
  let? dec := map_err (protocol_failure "decode COTP") (of_ext (cotp_Decode resp)) in
  match Decoded_DT dec with
  | None => Err (EWrap ("expected COTP DT, got "
                   +:+ cotp_TypeString (Decoded_Type dec) +:+ ": ")
                   (ESentinel ErrProtocolFailure) "")
  | Some dt => map_err (protocol_failure "parse S7 header") (ParseS7Header (DT_UserData dt))
  end.

Definition setup_response (ref : Z) (resp : bytes) : res SetupCommResponse :=
  let? ' (header, paramData) := decode_dt resp in
  if negb (PDURef header =? ref)
  then Err (EPDURefMismatch ref (PDURef header)) else
  if negb (ErrorClass header =? 0) || negb (ErrorCode header =? 0) then
    let? e := NewS7ErrorWithParam (ErrorClass header) (ErrorCode header) paramData in
    Err (ES7 e)
  else
  let? f := if 0 <? len paramData then checked (go_index paramData 0) else Ok FuncSetupComm in
  if negb (f =? FuncSetupComm)
  then Err (EWrap ("S7 setup response: expected function 0x" +:+ hex02 FuncSetupComm
              +:+ ", got 0x" +:+ hex02 f +:+ ": ") (ESentinel ErrProtocolFailure) "")
  else map_err (protocol_failure "parse setup response") (ParseSetupCommResponse paramData).

Definition performS7Setup (ctx : Ctx) (c : cid) (ref maxAmqCalling maxAmqCalled maxPDU : Z)
    : M World SetupCommResponse :=
  let* _ := ctx_check ctx in
  let req := EncodeSetupCommRequest ref maxAmqCalling maxAmqCalled maxPDU in
  let* dtBytes := lift (map_err (protocol_failure "encode COTP DT") (EncodeCOTPDT req)) in
  let* _ := SendContext c ctx dtBytes in
  let* resp := ReceiveContext c ctx in
  lift (setup_response ref resp).

(** ** Connecting *)

(** [_ = conn.Close()], then the return of an error. *)
Definition close_and_fail {A} (c : cid) (e : error) : M Sys A :=
  let* _ := attempt (on_net (Close c)) in
  fail e.

(** The TSAPs of a connection attempt. *)
Definition connect_tsaps (o : options) (rack slot : Z) : res (Z * Z) :=
  if useExplicit o then Ok (localTSAP o, remoteTSAP o) else
  let? local := BuildTSAP 1 0 0 in
  let? remote := BuildTSAP 3 rack slot in
  Ok (local, remote).

(** Both handshakes on a fresh connection. *)
Definition connect_handshake (ctx : Ctx) (o : options) (rack slot : Z) (c : cid)
    : M World (Z * Z * SetupCommResponse) :=
  let* ' (local, remote) :=
    wrap_err (fun e => EValidation (error_text e)) (lift (connect_tsaps o rack slot)) in
  let* _ := wrap_err (fun e => EWrap "COTP connect: " e "")
              (performCOTPConnect ctx c local remote) in
  let* setup := wrap_err (fun e => EWrap "S7 setup: " e "")
                  (performS7Setup ctx c 1 (maxAmqCalling o) (maxAmqCalled o) (maxPDU o)) in
  ret (local, remote, setup).

(** The session the client switches to. *)
Definition install (c : cid) (rack slot local remote : Z) (setup : SetupCommResponse)
    (x : Client) : Client :=
  {| host := host x; opts := opts x; conn := Some c;
     client_rack := rack; client_slot := slot; pduRef := pduRef x;
     client_localTSAP := local; client_remoteTSAP := remote;
     pduSize := Setup_PDUSize setup;
     client_maxAmqCalling := Setup_MaxAmqCalling setup;
     client_maxAmqCalled := Setup_MaxAmqCalled setup |}.

Definition connectOnce (ctx : Ctx) (rack slot : Z) : M Sys unit :=
  let* x := gets cl in
  let o := opts x in
  let addr := JoinHostPort (host x) (dec (port o)) in
  let* c := on_net (dialTransport ctx addr (timeout o)) in
  let* r := attempt (on_net (connect_handshake ctx o rack slot c)) in
  match r with
  | inr e => close_and_fail c e
  | inl (local, remote, setup) =>
      let* oldConn := gets (fun s => conn (cl s)) in
      let* _ := set_cl (install c rack slot local remote setup) in
      match oldConn with
      | Some old => let* _ := attempt (on_net (Close old)) in ret tt
      | None => ret tt
      end
  end.

(** One attempt per pair, stopping at the first that connects. *)
Fixpoint try_pairs (ctx : Ctx) (pairs : list (Z * Z)) (final : error) : M Sys unit :=
  match pairs with
  | [] => fail final
  | (rack, slot) :: pairs =>
      let* _ := on_net (ctx_check ctx) in
      let* r := attempt (connectOnce ctx rack slot) in
      match r with
      | inl _ => ret tt
      | inr _ => try_pairs ctx pairs final
      end
  end.

(** [for rack := 0; rack <= 3; rack++ { for slot := 0; slot <= 5; slot++ ] *)
Definition brute_pairs : list (Z * Z) :=
  concat (map (fun rack => map (fun slot => (rack, slot)) [0; 1; 2; 3; 4; 5]) [0; 1; 2; 3]).

Definition common_pairs : list (Z * Z) := [(0, 1); (0, 2); (0, 0); (1, 1); (0, 3)].

Definition autoConnect (ctx : Ctx) : M Sys unit :=
  let* x := gets cl in
  if bruteRackSlot (opts x)
  then try_pairs ctx brute_pairs
         (EMsg "auto rack/slot connect failed for rack 0-3 slot 0-5")
  else try_pairs ctx common_pairs
         (EMsg "auto rack/slot connect failed on common rack/slot pairs").

(** The checks on the options made before anything is dialled. *)
Definition connect_validate (o : options) : res unit :=
  if port o <? 0 then Err (EValidation ("invalid port: " +:+ dec (port o))) else
  if timeout o <? 0
  then Err (EValidation ("invalid timeout: " +:+ Duration_String (timeout o))) else
  if maxPDU o <? 1 then Err (EValidation ("invalid max PDU: " +:+ dec (maxPDU o))) else
  if autoRackSlot o then Ok tt else
  if (rack o <? 0) || (slot o <? 0)
  then Err (EValidation ("invalid rack/slot: rack=" +:+ dec (rack o)
              +:+ " slot=" +:+ dec (slot o)))
  else map_err (fun e => EValidation (error_text e)) (ValidateRackSlot (rack o) (slot o)).

(** [if err != nil && logger != nil { logger.Error("Connect failed", err) }] *)
Definition log_failure (o : options) (m : M Sys unit) : M Sys unit :=
  let* r := attempt m in
  match r with
  | inl _ => ret tt
  | inr e =>
      let* _ := if logger o then on_net (emit (EvLog "Error" "Connect failed" [e]))
                else ret tt in
      fail e
  end.

Definition Connect (ctx : Ctx) : M Sys unit :=
  let* x := gets cl in
  let o := opts x in
  let* _ := lift (connect_validate o) in
  if autoRackSlot o && negb (useExplicit o)
  then log_failure o (autoConnect ctx)
  else log_failure o (connectOnce ctx (rack o) (slot o)).

(** ** Requests *)

Definition nextPDURef : M Sys Z :=
  let* x := gets cl in
  let n := u32 (pduRef x + 1) in
  let* _ := set_cl (fun x =>
    {| host := host x; opts := opts x; conn := conn x;
       client_rack := client_rack x; client_slot := client_slot x; pduRef := n;
       client_localTSAP := client_localTSAP x; client_remoteTSAP := client_remoteTSAP x;
       pduSize := pduSize x; client_maxAmqCalling := client_maxAmqCalling x;
       client_maxAmqCalled := client_maxAmqCalled x |}) in
  ret (u16 n).

(** The part of [sendReceive] after the response has arrived. *)
Definition job_response (expectedPDURef : Z) (resp : bytes) : res (bytes * bytes) :=
  let? ' (header, rest) := decode_dt resp in
  if negb (expectedPDURef =? 0) && negb (PDURef header =? expectedPDURef)
  then Err (EJoin [ESentinel ErrProtocolFailure;
                   EPDURefMismatch expectedPDURef (PDURef header)]) else
  if negb (ErrorClass header =? 0) || negb (ErrorCode header =? 0) then
    let pl := ParamLength header in
    let? param := if (0 <? pl) && (pl <=? len rest) then checked (go_slice rest 0 pl)
                  else Ok [] in
    let? e := NewS7ErrorWithParam (ErrorClass header) (ErrorCode header) param in
    Err (ES7 e)
  else
  let need := ParamLength header + DataLength header in
  if len rest <? need
  then Err (EWrap ("short S7 payload: need " +:+ dec need +:+ " bytes, got "
              +:+ dec (len rest) +:+ ": ") (ESentinel ErrProtocolFailure) "")
  else
  let! paramData := go_slice rest 0 (ParamLength header) in
  let! dataData := go_slice rest (ParamLength header)
                     (u16 (ParamLength header + DataLength header)) in
  Ok (paramData, dataData).

Definition sendReceive (ctx : Ctx) (req : bytes) (expectedPDURef : Z)
    : M Sys (bytes * bytes) :=
  let* x := gets cl in
  match conn x with
  | None => fail (ESentinel ErrNotConnected)
  | Some c =>
      if (0 <? pduSize x) && (pduSize x <? len req)
      then fail (EWrap ("request size " +:+ dec (len req)
                   +:+ " exceeds negotiated PDU size " +:+ dec (pduSize x) +:+ ": ")
                   (ESentinel ErrRequestExceedsPDU) "") else
      let* dtBytes := lift (map_err (protocol_failure "encode COTP DT") (EncodeCOTPDT req)) in
      let* _ := on_net (SendContext c ctx dtBytes) in
      let* _ := on_net (ctx_check ctx) in
      let* resp := on_net (ReceiveContext c ctx) in
      lift (job_response expectedPDURef resp)
  end.

(** ** Closing and inspecting *)

Definition disconnect (x : Client) : Client :=
  {| host := host x; opts := opts x; conn := None; client_rack := 0; client_slot := 0;
     pduRef := pduRef x; client_localTSAP := 0; client_remoteTSAP := 0; pduSize := 0;
     client_maxAmqCalling := 0; client_maxAmqCalled := 0 |}.

Definition closeConnLocked : M Sys unit :=
  let* x := gets cl in
  match conn x with
  | None => ret tt
  | Some c =>
      let* r := attempt (on_net (Close c)) in
      let* _ := set_cl disconnect in
      match r with inl _ => ret tt | inr e => fail e end
  end.

Definition ClientClose : M Sys unit := closeConnLocked.

Definition ConnectionInfo_of (x : Client) : ConnectionInfo :=
  {| CI_Host := host x; CI_Port := port (opts x);
     CI_LocalTSAP := client_localTSAP x; CI_RemoteTSAP := client_remoteTSAP x;
     CI_Rack := client_rack x; CI_Slot := client_slot x; CI_PDUSize := pduSize x;
     CI_MaxAmqCalling := client_maxAmqCalling x;
     CI_MaxAmqCalled := client_maxAmqCalled x |}.

Definition PDUSize (x : Client) : Z := pduSize x.
End Client.

(** ** Lemmas: computations on a part of the state *)

Lemma on_net_run {A} (m : M World A) s w r :
  m (wld s) = (w, r) -> on_net m s = ({| wld := w; cl := cl s |}, r).
Proof. intros H. unfold on_net, zoom. by rewrite H. Qed.

Lemma on_net_inv {A} (m : M World A) s s' r :
  on_net m s = (s', r) -> m (wld s) = (wld s', r) /\ cl s' = cl s.
Proof. unfold on_net, zoom. destruct (m (wld s)) eqn:H. intros [= <- <-]. done. Qed.

Lemma attempt_inv {S A} (m : M S A) s s' r :
  attempt m s = (s', r) ->
  (exists a, m s = (s', Ok a) /\ r = Ok (inl a)) \/
  (exists e, m s = (s', Err e) /\ r = Ok (inr e)) \/ (m s = (s', Panic) /\ r = Panic).
Proof. unfold attempt. destruct (m s) as [s1 [a|e|]]; intros [= <- <-]; eauto 10. Qed.

(** ** Operations that keep the session

    The heap is untouched and the client changes at most in its PDU reference
    counter: what every request/response operation does. *)

Definition set_pduRef (n : Z) (x : Client) : Client :=
  {| host := host x; opts := opts x; conn := conn x;
     client_rack := client_rack x; client_slot := client_slot x; pduRef := n;
     client_localTSAP := client_localTSAP x; client_remoteTSAP := client_remoteTSAP x;
     pduSize := pduSize x; client_maxAmqCalling := client_maxAmqCalling x;
     client_maxAmqCalled := client_maxAmqCalled x |}.

Definition same_session (s s' : Sys) : Prop :=
  conns (wld s') = conns (wld s) /\ set_pduRef 0 (cl s') = set_pduRef 0 (cl s).

#[export] Instance same_session_preorder : PreOrder same_session.
Proof. split; [by intros s|]. intros s1 s2 s3 [H1 C1] [H2 C2]. split; congruence. Qed.

Lemma same_session_conn s s' : same_session s s' -> conn (cl s') = conn (cl s).
Proof. intros [_ H]. apply (f_equal conn) in H. exact H. Qed.
Lemma same_session_pduSize s s' : same_session s s' -> pduSize (cl s') = pduSize (cl s).
Proof. intros [_ H]. apply (f_equal pduSize) in H. exact H. Qed.
Lemma same_session_open c s s' : same_session s s' -> open_at c (wld s) -> open_at c (wld s').
Proof. intros [H _]. unfold open_at. by rewrite H. Qed.

(** Transport operations that leave the heap alone. *)
Definition same_heap (w w' : World) : Prop := conns w' = conns w.

#[export] Instance same_heap_preorder : PreOrder same_heap.
Proof. split; [by intros w|]. intros w1 w2 w3 H1 H2. unfold same_heap in *. congruence. Qed.

Lemma on_net_same_session {A} (m : M World A) :
  preserves same_heap m -> preserves same_session (on_net m).
Proof.
  intros Hm s s' r [H1 H2]%on_net_inv. split; [by eapply Hm|]. by rewrite H2.
Qed.

Lemma silent_same_heap {A} (m : M World A) : preserves silent m -> preserves same_heap m.
Proof. intros Hm w w' r H. by apply (Hm _ _ _ H). Qed.

(** Operations that write no frame. *)
Definition same_writes (s s' : Sys) : Prop :=
  writes (hist (wld s')) = writes (hist (wld s)).

#[export] Instance same_writes_preorder : PreOrder same_writes.
Proof. split; [by intros s|]. intros s1 s2 s3 H1 H2. unfold same_writes in *. congruence. Qed.

Lemma on_net_same_writes {A} (m : M World A) :
  preserves silent m -> preserves same_writes (on_net m).
Proof. intros Hm s s' r [H _]%on_net_inv. by apply Hm in H as [H _]. Qed.

Section Lemmas.
Context `{E : Env} `{C : Cotp}.

Lemma ctx_check_heap ctx : preserves same_heap (ctx_check ctx).
Proof. apply silent_same_heap, ctx_check_silent. Qed.
Lemma ctx_wait_heap ctx d : preserves same_heap (ctx_wait ctx d).
Proof. apply silent_same_heap, ctx_wait_silent. Qed.
Lemma ReceiveContext_heap c ctx : preserves same_heap (ReceiveContext c ctx).
Proof. apply silent_same_heap, ReceiveContext_silent. Qed.
Lemma SendContext_heap c ctx data : preserves same_heap (SendContext c ctx data).
Proof. intros w w' r H. by apply SendContext_writes in H as [H _]. Qed.
Lemma emit_heap ev : preserves same_heap (emit ev).
Proof. by intros w w' r [= <- _]. Qed.
#[local] Hint Resolve ctx_check_heap ctx_wait_heap ReceiveContext_heap SendContext_heap
  emit_heap : go.

Lemma performCOTPConnect_heap ctx c l r : preserves same_heap (performCOTPConnect ctx c l r).
Proof. unfold performCOTPConnect. preserve. Qed.
Lemma performS7Setup_heap ctx c ref a b m : preserves same_heap (performS7Setup ctx c ref a b m).
Proof. unfold performS7Setup. preserve. Qed.
#[local] Hint Resolve performCOTPConnect_heap performS7Setup_heap : go.

Lemma connect_handshake_heap ctx o rack slot c :
  preserves same_heap (connect_handshake ctx o rack slot c).
Proof. unfold connect_handshake. preserve. Qed.

Lemma ctx_check_session ctx : preserves same_session (on_net (ctx_check ctx)).
Proof. apply on_net_same_session, ctx_check_heap. Qed.
Lemma ctx_wait_session ctx d : preserves same_session (on_net (ctx_wait ctx d)).
Proof. apply on_net_same_session, ctx_wait_heap. Qed.

Lemma nextPDURef_run s :
  nextPDURef s = ({| wld := wld s; cl := set_pduRef (u32 (pduRef (cl s) + 1)) (cl s) |},
                  Ok (u16 (pduRef (cl s) + 1))).
Proof.
  unfold nextPDURef. cbn. by rewrite u16_u32.
Qed.

Lemma nextPDURef_session : preserves same_session nextPDURef.
Proof. intros s s' r. rewrite nextPDURef_run. by intros [= <- _]. Qed.

Lemma sendReceive_session ctx req ref : preserves same_session (sendReceive ctx req ref).
Proof.
  unfold sendReceive.
  assert (forall A (m : M World A), preserves same_heap m -> preserves same_session (on_net m))
    as Hnet by (intros; by apply on_net_same_session).
  preserve; apply Hnet; eauto with go.
Qed.

(** *** Panic-freedom of the handshakes *)

Lemma decode_dt_no_panic resp : no_panic (decode_dt resp) = true.
Proof.
  unfold decode_dt. apply no_panic_bind; [by rewrite map_err_no_panic, of_ext_no_panic|].
  intros dec _. destruct (Decoded_DT dec); [|done].
  rewrite map_err_no_panic. apply ParseS7Header_no_panic.
Qed.

Lemma setup_response_no_panic ref resp : no_panic (setup_response ref resp) = true.
Proof.
  unfold setup_response. apply no_panic_bind; [apply decode_dt_no_panic|].
  intros [h p] _. case_if; [done|]. case_if.
  - apply no_panic_bind; [apply NewS7ErrorWithParam_no_panic|done].
  - apply no_panic_bind.
    + case_if; [|done]. by destruct (go_index_Some p 0) as [b ->]; [lia|].
    + intros f _. case_if; [done|]. rewrite map_err_no_panic.
      apply ParseSetupCommResponse_no_panic.
Qed.

Lemma EncodeCOTPDT_no_panic req : no_panic (EncodeCOTPDT req) = true.
Proof. apply of_ext_no_panic. Qed.

Lemma performCOTPConnect_safe ctx c l r : safe (on_heap c) (performCOTPConnect ctx c l r).
Proof.
  unfold performCOTPConnect. safely; apply safe_lift; rewrite map_err_no_panic; apply of_ext_no_panic.
Qed.
Lemma performS7Setup_safe ctx c ref a b m : safe (on_heap c) (performS7Setup ctx c ref a b m).
Proof.
  unfold performS7Setup. safely; apply safe_lift.
  - rewrite map_err_no_panic. apply of_ext_no_panic.
  - apply setup_response_no_panic.
Qed.

Lemma connect_handshake_safe ctx o rack slot c :
  safe (on_heap c) (connect_handshake ctx o rack slot c).
Proof.
  unfold connect_handshake, connect_tsaps.
  pose proof (performCOTPConnect_safe ctx c). pose proof (performS7Setup_safe ctx c).
  safely. apply safe_lift. case_if; [done|].
  repeat (apply no_panic_bind; [apply BuildTSAP_no_panic|intros ? _]). done.
Qed.
End Lemmas.

#[export] Hint Resolve ctx_check_session ctx_wait_session nextPDURef_session
  sendReceive_session ctx_check_heap ctx_wait_heap ReceiveContext_heap SendContext_heap
  emit_heap performCOTPConnect_heap performS7Setup_heap performCOTPConnect_safe
  performS7Setup_safe : go.

(** ** Connecting *)

(** Close a connection that is being replaced. *)
Definition close_opt (o : option cid) (l : list Conn) : list Conn :=
  match o with Some c => alter closed c l | None => l end.

Definition fresh_conn (timeout : Z) : Conn :=
  {| conn_open := true; conn_timeout := timeout; conn_tracer := false |}.

Definition all_closed (l : list Conn) : Prop := Forall (fun x => conn_open x = false) l.

(** The session refers to an object that is on the heap. *)
Definition client_on_heap (s : Sys) : Prop :=
  forall c, conn (cl s) = Some c -> on_heap c (wld s).

(** What one or more connection attempts with the given rack/slot pairs may do: on
    success, exactly one new connection is open, the client has switched to it with
    the parameters of one of the pairs and its old connection is closed; on failure
    the client and its old connection are as before.  Every other connection opened
    on the way is closed. *)
Definition connect_outcome (pairs : list (Z * Z)) (s s' : Sys) (r : res unit) : Prop :=
  match r with
  | Ok _ => exists failed rack slot local remote setup,
      (rack, slot) ∈ pairs /\ all_closed failed /\
      connect_tsaps (opts (cl s)) rack slot = Ok (local, remote) /\
      conns (wld s') = close_opt (conn (cl s)) (conns (wld s)) ++ failed
                         ++ [fresh_conn (timeout (opts (cl s)))] /\
      cl s' = install (length (conns (wld s)) + length failed) rack slot local remote setup
                (cl s)
  | Err _ => exists failed, all_closed failed /\
      conns (wld s') = conns (wld s) ++ failed /\ cl s' = cl s
  | Panic => False
  end.

Section Connecting.
Context `{E : Env} `{C : Cotp}.

Lemma dialTransport_inv ctx addr t w w' r : dialTransport ctx addr t w = (w', r) ->
  (exists e, r = Err e /\ conns w' = conns w) \/
  (r = Ok (length (conns w)) /\ conns w' = conns w ++ [fresh_conn t]).
Proof.
  unfold dialTransport, bind, gets. cbn. destruct env_Dial as [e|]; cbn;
    intros [= <- <-]; eauto 6.
Qed.

Lemma connect_handshake_Ok ctx o rack slot c w w' l r setup :
  connect_handshake ctx o rack slot c w = (w', Ok (l, r, setup)) ->
  connect_tsaps o rack slot = Ok (l, r).
Proof.
  unfold connect_handshake. intros (w1 & [l1 r1] & H1 & H)%bind_Ok.
  apply bind_Ok in H as (w2 & [] & H2 & H). apply bind_Ok in H as (w3 & st & H3 & H).
  injection H as <- <- <- <-. unfold wrap_err, lift in H1. by injection H1 as _ ?%map_err_Ok.
Qed.

Lemma lookup_new (l : list Conn) x : (l ++ [x]) !! length l = Some x.
Proof. by rewrite lookup_app_r, Nat.sub_diag. Qed.

Lemma connectOnce_outcome ctx rack slot s s' r :
  client_on_heap s -> connectOnce ctx rack slot s = (s', r) ->
  connect_outcome [(rack, slot)] s s' r.
Proof.
  intros Hs H. unfold connectOnce in H. cbn [bind gets] in H.
  set (o := opts (cl s)) in *. set (n := length (conns (wld s))).
  apply bind_inv in H as [(s1 & c & H1 & H)|[(e & H1 & ->)|[H1 ->]]];
    apply on_net_inv in H1 as [H1 Hcl1];
    apply dialTransport_inv in H1 as [(e1 & Hr1 & Hh1)|[Hr1 Hh1]]; try done.
  2:{ exists []. rewrite app_nil_r. by repeat split; [constructor|..]. }
  injection Hr1 as ->. fold n in H.
  assert (on_heap n (wld s1)) as Hn by (unfold on_heap, n; rewrite Hh1, lookup_new; eauto).
  apply bind_inv in H as [(s2 & x & H2 & H)|[(e & H2 & ->)|[H2 ->]]];
    apply attempt_inv in H2 as [([[l rm] st] & H2 & Hx)|[(e2 & H2 & Hx)|[H2 Hx]]];
    try done; apply on_net_inv in H2 as [H2 Hcl2].
  3:{ by apply connect_handshake_safe in H2 as [_ []]. }
  all: pose proof (connect_handshake_heap _ _ _ _ _ _ _ _ H2) as Hh2;
    unfold same_heap in Hh2; injection Hx as ->.
  - apply connect_handshake_Ok in H2. cbn [bind gets set_cl modify] in H.
    rewrite Hcl2, Hcl1 in H.
    assert (forall old y, conn (cl s) = Some old -> conns (wld s) !! old = Some y ->
      <[old := closed y]> (conns (wld s2))
      = alter closed old (conns (wld s)) ++ [fresh_conn (timeout o)]) as Hold.
    { intros old y _ Hy. rewrite Hh2, Hh1.
      rewrite insert_app_l by (by eapply lookup_lt_Some). f_equal.
      by rewrite (alter_insert _ _ _ y). }
    destruct (conn (cl s)) as [old|] eqn:Ho.
    + destruct (Hs old Ho) as [y Hy].
      apply bind_inv in H as [(s4 & z & H4 & H)|[(e & H4 & ->)|[H4 ->]]];
        apply attempt_inv in H4 as [(a & H4 & Hz)|[(e4 & H4 & Hz)|[H4 Hz]]]; try done;
        apply on_net_inv in H4 as [H4 Hcl4]; cbn in H4;
        apply (Close_heap _ y) in H4 as [Hh4 Hp4]; try done;
        try (rewrite Hh2, Hh1; by apply lookup_app_l_Some).
      all: injection H as <- <-; exists [], rack, slot, l, rm, st;
        rewrite Nat.add_0_r, Hcl4, Hh4; cbn; rewrite ?Hcl2, ?Hcl1, Ho;
        split; [by left|]; split; [constructor|]; split; [done|]; split; [|done];
        cbn; eauto.
    + injection H as <- <-. exists [], rack, slot, l, rm, st. cbn.
      rewrite Nat.add_0_r, Ho. cbn.
      split; [by left|]; split; [constructor|]; split; [done|]; split; [|done].
      by rewrite Hh2, Hh1.
  - unfold close_and_fail in H.
    assert (conns (wld s2) !! n = Some (fresh_conn (timeout o))) as Hnew
      by (unfold n; rewrite Hh2, Hh1; apply lookup_new).
    apply bind_inv in H as [(s3 & z & H3 & H)|[(e & H3 & ->)|[H3 ->]]];
      apply attempt_inv in H3 as [(a & H3 & Hz)|[(e3 & H3 & Hz)|[H3 Hz]]]; try done;
      apply on_net_inv in H3 as [H3 Hcl3];
      apply (Close_heap _ _ _ _ _ Hnew) in H3 as [Hh3 Hp3]; try done.
    all: injection H as <- <-; exists [closed (fresh_conn (timeout o))];
      split; [by repeat constructor|]; split; [|congruence];
      rewrite Hh3, Hh2, Hh1; unfold n;
      rewrite insert_app_r_alt, Nat.sub_diag by done; done.
Qed.

Lemma close_opt_app o l l' : (forall c, o = Some c -> is_Some (l !! c)) ->
  close_opt o (l ++ l') = close_opt o l ++ l'.
Proof.
  destruct o as [c|]; [|done]. intros H. cbn. destruct (H c eq_refl) as [x Hx].
  rewrite !(alter_insert _ _ _ x) by (done || by apply lookup_app_l_Some).
  apply insert_app_l. by eapply lookup_lt_Some.
Qed.

(** A failed attempt followed by more attempts. *)
Lemma connect_outcome_trans ps1 ps2 s s1 s2 e r :
  client_on_heap s ->
  connect_outcome ps1 s s1 (Err e) -> connect_outcome ps2 s1 s2 r ->
  connect_outcome (ps1 ++ ps2) s s2 r /\ client_on_heap s1.
Proof.
  intros Hs (f1 & Hf1 & Hc1 & Hcl1) H2. split.
  - destruct r as [[]|e2|]; cbn in *; [| |done].
    + destruct H2 as (f2 & rk & sl & l & rm & st & Hin & Hf2 & Ht & Hc & Hcl).
      exists (f1 ++ f2), rk, sl, l, rm, st. rewrite Hcl1 in *.
      split; [apply elem_of_app; auto|]. split; [by apply Forall_app|]. split; [done|].
      rewrite Hc, Hc1, close_opt_app by done. split; [by rewrite <- !app_assoc|].
      rewrite Hcl, Hc1. f_equal. rewrite !length_app. lia.
    + destruct H2 as (f2 & Hf2 & Hc & Hcl). exists (f1 ++ f2).
      split; [by apply Forall_app|]. split; [|congruence]. by rewrite Hc, Hc1, app_assoc.
  - intros c Hc. rewrite Hcl1 in Hc. destruct (Hs c Hc) as [x Hx].
    exists x. rewrite Hc1. by apply lookup_app_l_Some.
Qed.

(** Steps that change neither the client nor the heap. *)
Definition untouched (s s' : Sys) : Prop :=
  conns (wld s') = conns (wld s) /\ cl s' = cl s.

Lemma connect_outcome_untouched ps s s1 s2 r :
  untouched s s1 -> connect_outcome ps s1 s2 r -> connect_outcome ps s s2 r.
Proof. intros [H1 H2]. unfold connect_outcome. by rewrite H1, H2. Qed.
Lemma connect_outcome_untouched_r ps s s1 s2 r :
  untouched s1 s2 -> connect_outcome ps s s1 r -> connect_outcome ps s s2 r.
Proof. intros [H1 H2]. unfold connect_outcome. by rewrite H1, H2. Qed.
Lemma connect_outcome_nothing ps s s' e :
  untouched s s' -> connect_outcome ps s s' (Err e).
Proof. intros [H1 H2]. exists []. rewrite app_nil_r. by repeat split; [constructor|..]. Qed.

Lemma on_net_ctx_check_inv ctx s s' r : on_net (ctx_check ctx) s = (s', r) ->
  untouched s s' /\ r <> Panic.
Proof.
  intros [H Hcl]%on_net_inv. split; [split; [|done]|].
  - by eapply ctx_check_silent.
  - unfold ctx_check in H. rewrite bind_outside in H.
    destruct ctx_Err; by injection H as _ <-.
Qed.

Lemma try_pairs_outcome ctx pairs final s s' r :
  client_on_heap s -> try_pairs ctx pairs final s = (s', r) ->
  connect_outcome pairs s s' r.
Proof.
  revert s. induction pairs as [|[rk sl] ps IH]; intros s Hs H; cbn [try_pairs] in H.
  { injection H as <- <-. by apply connect_outcome_nothing. }
  apply bind_inv in H as [(s1 & [] & H1 & H)|[(e & H1 & ->)|[H1 ->]]];
    apply on_net_ctx_check_inv in H1 as [H1 Hp]; [|by apply connect_outcome_nothing|done].
  apply (connect_outcome_untouched _ _ s1); [done|].
  assert (client_on_heap s1) as Hs1.
  { destruct H1 as [Hc1 Hcl1]. intros c. rewrite Hcl1. unfold on_heap. rewrite Hc1. apply Hs. }
  apply bind_inv in H as [(s2 & z & H2 & H)|[(e & H2 & ->)|[H2 ->]]];
    apply attempt_inv in H2 as [(a & H2 & Hz)|[(e2 & H2 & Hz)|[H2 Hz]]]; try done;
    apply connectOnce_outcome in H2; try done; injection Hz as ->.
  - injection H as <- <-. cbn in H2 |- *.
    destruct H2 as (f & rk' & sl' & l & rm & st & Hin & H2). exists f, rk', sl', l, rm, st.
    split; [|done]. apply list_elem_of_singleton in Hin as [= -> ->]. left.
  - assert (connect_outcome ps s2 s' r) as H3.
    { apply IH; [|done]. by eapply (connect_outcome_trans [(rk, sl)] [] s1 s2 s2 e2);
        [..|apply (connect_outcome_nothing _ _ _ e2)]. }
    by eapply (connect_outcome_trans [(rk, sl)] ps) in H3 as [H3 _].
Qed.

(** The attempts [Connect] makes. *)
Definition connect_pairs (o : options) : list (Z * Z) :=
  if autoRackSlot o && negb (useExplicit o)
  then if bruteRackSlot o then brute_pairs else common_pairs
  else [(rack o, slot o)].

Lemma log_failure_outcome o ps m s s' r :
  (forall s1 r1, m s = (s1, r1) -> connect_outcome ps s s1 r1) ->
  log_failure o m s = (s', r) -> connect_outcome ps s s' r.
Proof.
  unfold log_failure. intros Hm H.
  apply bind_inv in H as [(s2 & z & H2 & H)|[(e & H2 & ->)|[H2 ->]]];
    apply attempt_inv in H2 as [(a & H2 & Hz)|[(e2 & H2 & Hz)|[H2 Hz]]]; try done;
    apply Hm in H2; try done; injection Hz as ->.
  - by injection H as <- <-.
  - destruct (logger o); injection H as <- <-; [|done].
    by eapply connect_outcome_untouched_r in H2.
Qed.

Lemma connect_validate_no_panic o : no_panic (connect_validate o) = true.
Proof.
  unfold connect_validate. repeat (case_if; [done|]).
  rewrite map_err_no_panic. apply ValidateRackSlot_no_panic.
Qed.

Lemma Connect_outcome ctx s s' r :
  client_on_heap s -> Connect ctx s = (s', r) ->
  connect_outcome (connect_pairs (opts (cl s))) s s' r.
Proof.
  intros Hs H. unfold Connect in H. cbn [bind gets] in H. unfold connect_pairs.
  apply bind_inv in H as [(s1 & [] & [= <- _] & H)|[(e & [= <- _] & ->)|[[= _ Hv] ->]]].
  3:{ pose proof (connect_validate_no_panic (opts (cl s))) as Hp. by rewrite Hv in Hp. }
  2:{ by apply connect_outcome_nothing. }
  destruct (autoRackSlot (opts (cl s)) && negb (useExplicit (opts (cl s)))).
  - eapply log_failure_outcome; [|exact H]. intros s1 r1. unfold autoConnect.
    cbn [bind gets]. destruct bruteRackSlot; by apply try_pairs_outcome.
  - eapply log_failure_outcome; [|exact H]. intros s1 r1. by apply connectOnce_outcome.
Qed.

(** C3: [Connect] is atomic for the session, whatever the network, the peer and the
    context do: it never panics; when it fails the client keeps its session, and its
    connection, as they were; when it succeeds the client has moved to the one new
    open connection, with the rack, slot and TSAPs of one of the attempts it was to
    make, and the connection it had before is closed.  Every other connection that
    was opened on the way is closed: nothing leaks. *)
Theorem Connect_atomic ctx s s' r :
  client_on_heap s -> Connect ctx s = (s', r) ->
  connect_outcome (connect_pairs (opts (cl s))) s s' r.
Proof.
  apply Connect_outcome.
Qed.
End Connecting.

(** ** The session invariant *)

(** The client's connection is open, and no other open connection exists. *)
Definition session_inv (s : Sys) : Prop :=
  (forall c, conn (cl s) = Some c -> exists x, conns (wld s) !! c = Some x /\ conn_open x = true) /\
  (forall c x, conns (wld s) !! c = Some x -> conn_open x = true -> conn (cl s) = Some c).

Section Session.
Context `{E : Env} `{C : Cotp}.

(** What a process does with one client: it connects, closes, and runs operations
    that keep the session, such as [sendReceive]; anything may happen outside in
    between. *)
Inductive client_step : Sys -> Sys -> Prop :=
  | step_outside s h :
      client_step s {| wld := {| hist := h; conns := conns (wld s) |}; cl := cl s |}
  | step_connect ctx s s' r : Connect ctx s = (s', r) -> client_step s s'
  | step_close s s' r : ClientClose s = (s', r) -> client_step s s'
  | step_request {A} (m : M Sys A) s s' r :
      preserves same_session m -> m s = (s', r) -> client_step s s'.

Definition client_init (host : string) (os : list Option) (h : list event) : Sys :=
  {| wld := {| hist := h; conns := [] |}; cl := NewClient host os |}.

Lemma session_inv_on_heap s : session_inv s -> client_on_heap s.
Proof. intros [H _] c Hc. destruct (H c Hc) as (x & Hx & _). by exists x. Qed.

Lemma same_session_inv s s' : same_session s s' -> session_inv s -> session_inv s'.
Proof.
  intros [Hc Hcl] [H1 H2]. assert (conn (cl s') = conn (cl s)) as Hconn
    by (by apply (f_equal conn) in Hcl).
  unfold session_inv. by rewrite Hc, Hconn.
Qed.

(** With the client's connection closed, no connection is open. *)
Lemma close_opt_all_closed s : session_inv s ->
  all_closed (close_opt (conn (cl s)) (conns (wld s))).
Proof.
  intros [H1 H2]. apply Forall_lookup_2. intros c x Hx.
  destruct (conn_open x) eqn:Ho; [exfalso|done].
  destruct (conn (cl s)) as [c'|] eqn:Hc; cbn in Hx.
  - destruct (decide (c' = c)) as [->|Hne].
    + rewrite list_lookup_alter_eq in Hx. by apply fmap_Some in Hx as (y & _ & ->).
    + rewrite list_lookup_alter_ne in Hx by done. apply Hne.
      specialize (H2 c x Hx Ho). congruence.
  - by specialize (H2 c x Hx Ho).
Qed.

Lemma connect_outcome_inv ps s s' r :
  session_inv s -> connect_outcome ps s s' r -> session_inv s'.
Proof.
  intros Hs H. destruct r as [[]|e|]; cbn in H; [| |done].
  - destruct H as (f & rk & sl & l & rm & st & _ & Hf & _ & Hc & Hcl).
    pose proof (close_opt_all_closed s Hs) as Hold.
    assert (length (close_opt (conn (cl s)) (conns (wld s))) = length (conns (wld s))) as Hlen
      by (destruct (conn (cl s)); [apply length_alter|done]).
    unfold session_inv. rewrite Hc, Hcl. cbn [conn install]. split.
    + intros c [= <-]. exists (fresh_conn (timeout (opts (cl s)))). split; [|done].
      rewrite !lookup_app_r, Hlen by (rewrite ?Hlen; lia).
      by replace (_ - _ - _)%nat with 0%nat by lia.
    + intros c x Hx Ho. rewrite app_assoc in Hx. apply lookup_app_Some in Hx as [Hx|[Hx1 Hx2]].
      * assert (all_closed (close_opt (conn (cl s)) (conns (wld s)) ++ f)) as Hall
          by (by apply Forall_app).
        eapply Forall_lookup_1 in Hall; [|exact Hx]. cbn in Hall. congruence.
      * apply list_lookup_singleton_Some in Hx2 as [Hx2 _].
        rewrite length_app, Hlen in *. f_equal. lia.
  - destruct H as (f & Hf & Hc & Hcl). destruct Hs as [H1 H2].
    unfold session_inv. rewrite Hc, Hcl. split.
    + intros c Hcc. destruct (H1 c Hcc) as (x & Hx & Ho). exists x.
      split; [by apply lookup_app_l_Some|done].
    + intros c x Hx Ho. apply lookup_app_Some in Hx as [Hx|[_ Hx]]; [by eapply H2|].
      eapply Forall_lookup_1 in Hf; [|exact Hx]. cbn in Hf. congruence.
Qed.

Lemma ClientClose_inv s s' r :
  session_inv s -> ClientClose s = (s', r) ->
  r <> Panic /\ conn (cl s') = None /\ all_closed (conns (wld s')).
Proof.
  intros Hs H. pose proof (close_opt_all_closed s Hs) as Hold.
  unfold ClientClose, closeConnLocked in H. cbn [bind gets] in H.
  destruct (conn (cl s)) as [c|] eqn:Hc; [|by injection H as <- <-].
  destruct Hs as [H1 _]. destruct (H1 c Hc) as (x & Hx & Ho). cbn in Hold.
  rewrite (alter_insert _ _ _ x Hx) in Hold.
  apply bind_inv in H as [(s1 & z & H2 & H)|[(e & H2 & ->)|[H2 ->]]];
    apply attempt_inv in H2 as [(a & H2 & Hz)|[(e2 & H2 & Hz)|[H2 Hz]]]; try done;
    apply on_net_inv in H2 as [H2 _]; apply (Close_heap _ _ _ _ _ Hx) in H2 as [Hh Hp];
    try done; injection Hz as ->; injection H as <- <-; cbn; by rewrite Hh.
Qed.

Lemma client_step_inv s1 s2 : client_step s1 s2 -> session_inv s1 -> session_inv s2.
Proof.
  destruct 1 as [s h|ctx s s' r H|s s' r H|A m s s' r Hm H]; intros Hs.
  - done.
  - eapply connect_outcome_inv; [done|].
    eapply Connect_outcome; [by apply session_inv_on_heap|exact H].
  - apply ClientClose_inv in H as (_ & Hc & Hall); [|done].
    unfold session_inv. rewrite Hc. split; [done|]. intros c x Hx Ho.
    eapply Forall_lookup_1 in Hall; [|exact Hx]. cbn in Hall. congruence.
  - eapply same_session_inv; [|done]. by eapply Hm.
Qed.

(** C4: However a process uses a client, and whatever the network does: the client's
    connection is an open one, no other connection is open, and so a client that is
    not connected holds no connection at all. *)
Theorem session_invariant host os h s :
  rtc client_step (client_init host os h) s -> session_inv s.
Proof.
  assert (session_inv (client_init host os h)) as H0.
  { split; [done|]. intros c x Hx. cbn in Hx. by rewrite lookup_nil in Hx. }
  intros H. induction H; eauto using client_step_inv.
Qed.
End Session.

(** ** Requests and responses *)

(** [n] consecutive draws from the PDU reference counter. *)
Fixpoint draw_refs (n : nat) : M Sys (list Z) :=
  match n with
  | O => ret []
  | S n => let* r := nextPDURef in let* l := draw_refs n in ret (r :: l)
  end.

Section Requests.
Context `{E : Env} `{C : Cotp}.

Lemma u32_wrap_add p k : u16 (u32 p + k) = u16 (p + k).
Proof.
  rewrite <- (u16_u32 (u32 p + k)), <- (u16_u32 (p + k)). f_equal. unfold u32.
  by rewrite Zplus_mod_idemp_l.
Qed.

Lemma draw_refs_run n s : exists s',
  draw_refs n s = (s', Ok (map (fun k => u16 (pduRef (cl s) + k)) (seqZ 1 (Z.of_nat n)))).
Proof.
  revert s. induction n as [|n IH]; intros s; [by eexists|].
  cbn [draw_refs]. unfold bind. rewrite nextPDURef_run.
  destruct (IH {| wld := wld s; cl := set_pduRef (u32 (pduRef (cl s) + 1)) (cl s) |})
    as [s' ->].
  exists s'. unfold ret. do 2 f_equal. rewrite (seqZ_cons 1 (Z.of_nat (S n))) by lia. cbn [map]. f_equal.
  replace (Z.pred (Z.of_nat (S n))) with (Z.of_nat n) by lia.
  rewrite map_seqZ_succ. apply map_ext_in. intros k _. cbn.
  rewrite u32_wrap_add. f_equal. lia.
Qed.

(** The references drawn for successive requests are [pduRef + 1],
    [pduRef + 2], ... modulo [2 ^ 16], so no two of up to [2 ^ 16] successive
    requests share one, although the counter itself wraps at [2 ^ 32]. *)
Theorem draw_refs_distinct n s : Z.of_nat n <= 65536 ->
  exists s' l, draw_refs n s = (s', Ok l) /\ NoDup l /\
    l = map (fun k => (pduRef (cl s) + k) mod 65536) (seqZ 1 (Z.of_nat n)).
Proof.
  intros Hn. destruct (draw_refs_run n s) as [s' Hs'].
  exists s', (map (fun k => (pduRef (cl s) + k) mod 65536) (seqZ 1 (Z.of_nat n))).
  split; [exact Hs'|]. split; [|done]. apply NoDup_alt. intros i j x Hi Hj.
  change (map ?f) with (fmap (M:=list) f) in Hi, Hj. rewrite list_lookup_fmap in Hi, Hj.
  apply fmap_Some in Hi as (a & Ha & ->). apply fmap_Some in Hj as (b & Hb & Hab).
  apply lookup_seqZ in Ha as [-> Hi], Hb as [-> Hj]. lia.
Qed.

(** The peer's acceptable answers to a job: a DT that carries a header without an
    error, the two sections it announces and possibly more. *)
Definition answers_job (ref : Z) (param data : bytes) (resp : bytes) : Prop :=
  exists ty eot h tl,
    cotp_Decode resp = inr {| Decoded_Type := ty;
      Decoded_DT := Some {| DT_EOT := eot;
        DT_UserData := encode_header_ref h ++ param ++ data ++ tl |} |} /\
    header_wf h /\ ParamLength h = len param /\ DataLength h = len data /\
    (ref = 0 \/ PDURef h = ref) /\ ErrorClass h = 0 /\ ErrorCode h = 0.

Lemma cotp_Decode_ok `{HL : !CotpLaws} resp ty dt :
  bytes_ok resp -> len resp < 65536 ->
  cotp_Decode resp = inr {| Decoded_Type := ty; Decoded_DT := Some dt |} ->
  bytes_ok (DT_UserData dt) /\ len (DT_UserData dt) < 65536.
Proof.
  intros Hok Hlen (pre & post & ->)%cotp_Decode_part.
  apply bytes_ok_app in Hok as [_ Hok]. apply bytes_ok_app in Hok as [Hok _].
  split; [done|]. len.
Qed.

Lemma decode_dt_sound `{HL : !CotpLaws} resp h rest :
  bytes_ok resp -> len resp < 65536 -> decode_dt resp = Ok (h, rest) ->
  exists ty eot, cotp_Decode resp = inr {| Decoded_Type := ty;
    Decoded_DT := Some {| DT_EOT := eot; DT_UserData := encode_header_ref h ++ rest |} |}
  /\ header_wf h /\ ParamLength h + DataLength h <= len rest
  /\ bytes_ok rest /\ len rest < 65536.
Proof.
  intros Hok Hlen H. unfold decode_dt in H. apply res_bind_Ok in H as ([ty o] & Hd & H).
  apply map_err_Ok, of_ext_Ok in Hd. cbn in H. destruct o as [[eot ud]|]; [|done].
  apply map_err_Ok in H. cbn in H.
  destruct (cotp_Decode_ok _ _ _ Hok Hlen Hd) as [Hu Hul]. cbn in Hu, Hul.
  apply ParseS7Header_sound in H as (-> & Hwf & Hl); [|done].
  exists ty, eot. apply bytes_ok_app in Hu as [_ Hu]. do 4 (split; [done|]). len.
Qed.

Lemma decode_dt_complete resp ty eot h rest :
  cotp_Decode resp = inr {| Decoded_Type := ty;
    Decoded_DT := Some {| DT_EOT := eot; DT_UserData := encode_header_ref h ++ rest |} |} ->
  header_wf h -> ParamLength h + DataLength h <= len rest -> decode_dt resp = Ok (h, rest).
Proof.
  intros Hd Hwf Hl. unfold decode_dt. rewrite Hd.
  cbn [of_ext map_err res_bind Decoded_DT DT_UserData]. by rewrite ParseS7Header_ref.
Qed.

(** The cutting of the payload into its two sections. *)
Lemma job_sections h (rest : bytes) :
  0 <= ParamLength h -> 0 <= DataLength h -> ParamLength h + DataLength h <= len rest ->
  len rest < 65536 ->
  exists p d tl, rest = p ++ d ++ tl /\ len p = ParamLength h /\ len d = DataLength h /\
    go_slice rest 0 (ParamLength h) = Some p /\
    go_slice rest (ParamLength h) (u16 (ParamLength h + DataLength h)) = Some d.
Proof.
  intros Hp Hd Hl Hr.
  destruct (split_at rest (ParamLength h)) as (p & rest' & -> & Hlp); [lia|].
  destruct (split_at rest' (DataLength h)) as (d & tl & -> & Hld); [len|].
  exists p, d, tl. rewrite u16_small by lia. repeat split; try lia.
  - by apply go_slice_head.
  - apply go_slice_mid; lia.
Qed.

Lemma job_response_no_panic `{HL : !CotpLaws} ref resp :
  bytes_ok resp -> len resp < 65536 -> no_panic (job_response ref resp) = true.
Proof.
  intros Hok Hlen. unfold job_response. apply no_panic_bind; [apply decode_dt_no_panic|].
  intros [h rest] H. apply decode_dt_sound in H as (ty & eot & _ & Hwf & Hl & _ & Hr); [|done..].
  case_if; [done|]. case_if.
  - apply no_panic_bind.
    + case_if; [|done]. by rewrite go_slice_in by lia.
    + intros p _. apply no_panic_bind; [apply NewS7ErrorWithParam_no_panic|done].
  - case_if; [done|].
    destruct (job_sections h rest) as (p & d & tl & _ & _ & _ & -> & ->); try done;
      destruct Hwf; lia.
Qed.

Lemma job_response_complete `{HL : !CotpLaws} ref resp param data :
  bytes_ok resp -> len resp < 65536 ->
  answers_job ref param data resp -> job_response ref resp = Ok (param, data).
Proof.
  intros Hok Hlen (ty & eot & h & tl & Hd & Hwf & Hp & Hdl & Href & Hc & Hcode).
  destruct (cotp_Decode_ok _ _ _ Hok Hlen Hd) as [_ Hul]. cbn in Hul.
  unfold job_response. erewrite decode_dt_complete; [|done..|]; [|len].
  cbn [res_bind]. rewrite Hc, Hcode.
  replace (negb (ref =? 0) && negb (PDURef h =? ref)) with false
    by (symmetry; apply andb_false_iff; rewrite !negb_false_iff, !Z.eqb_eq; tauto).
  cbn [negb orb Z.eqb]. rewrite (proj2 (Z.ltb_ge _ _)) by len.
  rewrite go_slice_head by done. cbn.
  rewrite u16_small by len. rewrite (go_slice_mid param data tl) by lia. done.
Qed.

Lemma job_response_answers `{HL : !CotpLaws} ref resp param data :
  bytes_ok resp -> len resp < 65536 ->
  job_response ref resp = Ok (param, data) <-> answers_job ref param data resp.
Proof.
  intros Hok Hlen. split.
  - intros H. unfold job_response in H. apply res_bind_Ok in H as ([h rest] & Hd & H).
    apply decode_dt_sound in Hd as (ty & eot & Hd & Hwf & Hl & _ & Hr); [|done..].
    destruct (negb (ref =? 0) && _) eqn:Href; [done|].
    destruct (negb (ErrorClass h =? 0) || _) eqn:Herr; [by apply res_bind_Ok in H as (? & _ & H);
      apply res_bind_Ok in H as (? & _ & H)|].
    zify_bool. destruct (len rest <? _) eqn:?; [done|].
    destruct (job_sections h rest) as (p & d & tl & -> & Hp & Hd' & Hs1 & Hs2);
      try (destruct Hwf; lia). rewrite Hs1, Hs2 in H. cbn in H. injection H as <- <-.
    exists ty, eot, h, tl. split; [done|]. split; [done|]. split; [done|]. split; [done|].
    split; [|done].
    apply andb_false_iff in Href as [Href|Href]; zify_bool; auto.
  - by apply job_response_complete.
Qed.

(** C10: What [sendReceive] accepts as the response to a request, and what it
    returns: exactly the responses that carry the request's PDU reference and no
    error, cut into the parameter and data sections the header announces; anything
    after them is ignored.  With the reference [0] any reference is accepted. *)
Theorem job_response_iff `{HL : !CotpLaws} ref resp param data :
  bytes_ok resp -> len resp < 65536 ->
  job_response ref resp = Ok (param, data) <-> answers_job ref param data resp.
Proof. apply job_response_answers. Qed.

Lemma sendReceive_oversize ctx req ref s :
  conn (cl s) <> None -> 0 < pduSize (cl s) < len req ->
  exists e, sendReceive ctx req ref s = (s, Err e) /\ errors_Is e ErrRequestExceedsPDU = true.
Proof.
  intros Hc [H0 Hlt]. unfold sendReceive. cbn [bind gets].
  destruct (conn (cl s)); [|done].
  rewrite (proj2 (Z.ltb_lt 0 _)), (proj2 (Z.ltb_lt (pduSize (cl s)) _)) by done. by eexists.
Qed.

Lemma job_exchange_writes c ctx dt ref s s' r :
  (let* _ := on_net (SendContext c ctx dt) in
   let* _ := on_net (ctx_check ctx) in
   let* resp := on_net (ReceiveContext c ctx) in
   lift (job_response ref resp)) s = (s', r) ->
  writes (hist (wld s')) = writes (hist (wld s)) /\ is_ok r = false \/
  writes (hist (wld s')) = (c, dt) :: writes (hist (wld s)).
Proof.
  intros H. apply bind_inv in H as [(s1 & [] & H1 & H)|[(e & H1 & ->)|[H1 ->]]];
    apply on_net_inv in H1 as [H1 _];
    apply SendContext_writes in H1 as [_ [[Hw Hr]|Hw]]; try done; auto.
  right. rewrite <- Hw. revert H. apply (preserves_bind same_writes).
  - apply on_net_same_writes, ctx_check_silent.
  - intros _. apply (preserves_bind same_writes).
    + apply on_net_same_writes, ReceiveContext_silent.
    + intros resp. apply (preserves_lift _).
Qed.

Lemma sendReceive_writes ctx req ref s s' r :
  sendReceive ctx req ref s = (s', r) ->
  writes (hist (wld s')) = writes (hist (wld s)) /\ is_ok r = false \/
  exists c dt, conn (cl s) = Some c /\ EncodeCOTPDT req = Ok dt /\
    (pduSize (cl s) <= 0 \/ len req <= pduSize (cl s)) /\
    writes (hist (wld s')) = (c, dt) :: writes (hist (wld s)).
Proof.
  intros H. unfold sendReceive in H. cbn [bind gets] in H.
  destruct (conn (cl s)) as [c|]; [|injection H as <- <-; by left].
  destruct ((0 <? pduSize (cl s)) && (pduSize (cl s) <? len req)) eqn:Hsz;
    [injection H as <- <-; by left|].
  assert (pduSize (cl s) <= 0 \/ len req <= pduSize (cl s)) as Hfit
    by (apply andb_false_iff in Hsz as [?|?]; zify_bool; lia).
  apply bind_inv in H as [(s1 & dt & [= <- Hdt] & H)|[(e & [= <- _] & ->)|[[= <- _] ->]]];
    [|by left..]. apply map_err_Ok in Hdt.
  apply job_exchange_writes in H as [H|H]; [by left|right]. by exists c, dt.
Qed.

(** C11: A request never reaches the network in a frame larger than the negotiated
    PDU size: a request that exceeds it fails with [ErrRequestExceedsPDU] and
    changes nothing, and any other call writes at most one frame, the DT of the
    request, on the client's connection; no call returns a response without having
    written it. *)
Theorem sendReceive_frame ctx req ref s s' r :
  sendReceive ctx req ref s = (s', r) ->
  same_session s s' /\
  (0 < pduSize (cl s) < len req -> conn (cl s) <> None ->
     s' = s /\ exists e, r = Err e /\ errors_Is e ErrRequestExceedsPDU = true) /\
  (writes (hist (wld s')) = writes (hist (wld s)) /\ is_ok r = false \/
   exists c dt, conn (cl s) = Some c /\ EncodeCOTPDT req = Ok dt /\
     (pduSize (cl s) <= 0 \/ len req <= pduSize (cl s)) /\
     writes (hist (wld s')) = (c, dt) :: writes (hist (wld s))).
Proof.
  intros H. split; [by eapply sendReceive_session|].
  split; [|by eapply sendReceive_writes]. intros [H0 Hlt] Hc.
  unfold sendReceive in H. cbn [bind gets] in H.
  destruct (conn (cl s)) as [c|]; [|done].
  rewrite (proj2 (Z.ltb_lt 0 _)), (proj2 (Z.ltb_lt (pduSize (cl s)) _)) in H by done.
  injection H as <- <-. by eauto.
Qed.

(** An exchange over a live connection, with whatever the peer answers once the
    request is the last frame written. *)
Lemma sendReceive_live (Q : bytes -> bytes -> Prop) ctx c req dt ref s :
  conn (cl s) = Some c -> open_at c (wld s) -> live ctx c ->
  pduSize (cl s) <= 0 \/ len req <= pduSize (cl s) ->
  EncodeCOTPDT req = Ok dt ->
  (forall h, writes h = (c, dt) :: writes (hist (wld s)) -> exists resp param data,
     env_ReadFrame h c = inr resp /\ job_response ref resp = Ok (param, data) /\
     Q param data) ->
  exists w' param data,
    sendReceive ctx req ref s = ({| wld := w'; cl := cl s |}, Ok (param, data))
    /\ later (wld s) w' [(c, dt)] /\ Q param data.
Proof.
  intros Hc Hop HL Hfit Hdt Hread.
  destruct (SendContext_live ctx c dt (wld s) HL Hop) as (w1 & H1 & Hh1 & Hw1).
  destruct (ctx_check_live ctx c w1 HL) as (w2 & H2 & Hh2 & Hw2).
  assert (open_at c w2) as Hop2 by (unfold open_at in *; by rewrite Hh2, Hh1).
  destruct (ReceiveContext_live (fun resp => exists param data,
    job_response ref resp = Ok (param, data) /\ Q param data) ctx c w2 HL Hop2)
    as (w3 & resp & H3 & [Hh3 Hw3] & param & data & Hresp & HQ).
  { intros h Hh. rewrite Hw2, Hw1 in Hh. destruct (Hread h Hh) as (resp & p & d & ? & ? & ?).
    eauto 10. }
  exists w3, param, data.
  split; [|split; [split; [congruence|by rewrite Hw3, Hw2, Hw1]|done]].
  unfold sendReceive. cbn [bind gets]. rewrite Hc.
  replace ((0 <? pduSize (cl s)) && (pduSize (cl s) <? len req)) with false
    by (symmetry; apply andb_false_iff; rewrite !Z.ltb_ge; lia).
  unfold bind, lift. rewrite Hdt. cbn [map_err].
  rewrite (on_net_run _ s w1 (Ok tt)) by done. cbv beta iota.
  rewrite (on_net_run _ _ w2 (Ok tt)) by done. cbv beta iota.
  rewrite (on_net_run _ _ w3 (Ok resp)) by done. cbv beta iota. cbn [cl].
  by rewrite Hresp.
Qed.

(** What an exchange returns are bytes. *)
Lemma sendReceive_bytes `{EL : !EnvLaws} `{HL : !CotpLaws} ctx req ref s s' p d :
  sendReceive ctx req ref s = (s', Ok (p, d)) -> bytes_ok p /\ bytes_ok d.
Proof.
  intros H. unfold sendReceive in H. cbn [bind gets] in H.
  destruct (conn (cl s)) as [c|]; [|done]. destruct ((0 <? pduSize (cl s)) && _); [done|].
  do 3 apply bind_Ok in H as (? & ? & _ & H).
  apply bind_Ok in H as (s3 & resp & H3 & H).
  apply on_net_inv in H3 as [[h Hf]%ReceiveContext_frame _].
  apply env_ReadFrame_ok in Hf as [Hok Hlen]. injection H as _ H.
  unfold job_response in H. apply res_bind_Ok in H as ([hd rest] & Hd & H).
  apply decode_dt_sound in Hd as (ty & eot & _ & Hwf & Hl & Hr & Hlr); [|done..].
  case_if; [done|]. case_if.
  { by apply res_bind_Ok in H as (? & _ & (? & _ & H)%res_bind_Ok). }
  case_if; [done|]. inv_ok. simplify_eq.
  split; eapply bytes_ok_slice; [exact Hr|eassumption|exact Hr|eassumption].
Qed.

Lemma on_net_safe {A} c (m : M World A) :
  safe (on_heap c) m -> safe (fun s => on_heap c (wld s)) (on_net m).
Proof. intros Hm s s' r Hs [H _]%on_net_inv. by eapply Hm. Qed.

(** A request never panics, whatever the peer answers. *)
Lemma sendReceive_no_panic `{EL : !EnvLaws} `{HL : !CotpLaws} ctx req ref s s' r :
  client_on_heap s -> sendReceive ctx req ref s = (s', r) -> r <> Panic.
Proof.
  intros Hs H. unfold sendReceive in H. cbn [bind gets] in H.
  destruct (conn (cl s)) as [c|] eqn:Hc; [|by injection H as _ <-].
  case_if; [by injection H as _ <-|]. specialize (Hs c Hc).
  apply bind_inv in H as [(s1 & dt & [= <- _] & H)|[(e & _ & ->)|[[= _ Hp] ->]]]; [|done|].
  2:{ pose proof (EncodeCOTPDT_no_panic req) as Hn. apply (f_equal no_panic) in Hp.
      rewrite map_err_no_panic, Hn in Hp. done. }
  assert (safe (fun s => on_heap c (wld s)) (on_net (SendContext c ctx dt))) as Hsend
    by (apply on_net_safe; eauto with go).
  assert (safe (fun s => on_heap c (wld s)) (on_net (ctx_check ctx))) as Hctx
    by (apply on_net_safe; eauto with go).
  assert (safe (fun s => on_heap c (wld s)) (on_net (ReceiveContext c ctx))) as Hrecv
    by (apply on_net_safe; eauto with go).
  apply bind_inv in H as [(s1 & [] & H1 & H)|[(e & _ & ->)|[H1 ->]]]; [|done|];
    apply Hsend in H1 as [Hs1 Hp]; try done.
  apply bind_inv in H as [(s2 & [] & H2 & H)|[(e & _ & ->)|[H2 ->]]]; [|done|];
    apply Hctx in H2 as [Hs2 Hp2]; try done.
  apply bind_inv in H as [(s3 & resp & H3 & H)|[(e & _ & ->)|[H3 ->]]]; [|done|].
  2:{ by apply Hrecv in H3 as [_ Hp3]. }
  apply on_net_inv in H3 as [[h Hf]%ReceiveContext_frame _].
  apply env_ReadFrame_ok in Hf as [Hok Hlen]. injection H as _ <-.
  pose proof (job_response_no_panic ref resp Hok Hlen) as Hn. intros Hp3. by rewrite Hp3 in Hn.
Qed.
End Requests.

(** ** Counting frames

    A bound on the frames an operation writes, whatever happens. *)

Definition at_most (n : Z) {A} (m : M Sys A) : Prop :=
  grows (fun s => writes (hist (wld s))) n m.

Lemma at_most_weaken n n' {A} (m : M Sys A) : at_most n m -> n <= n' -> at_most n' m.
Proof. apply grows_weaken. Qed.

Lemma at_most_silent {A} (m : M Sys A) : preserves same_writes m -> at_most 0 m.
Proof. apply grows_same. Qed.

Lemma at_most_bind n1 n2 {A B} (m : M Sys A) (k : A -> M Sys B) :
  0 <= n2 -> at_most n1 m -> (forall a, at_most n2 (k a)) -> at_most (n1 + n2) (bind m k).
Proof. apply grows_bind. Qed.

Lemma at_most_catch n1 n2 {A B} (m : M Sys A) h (k : A -> M Sys B) :
  0 <= n2 -> at_most n1 m -> (forall e, at_most n2 (h e)) -> (forall a, at_most n2 (k a)) ->
  at_most (n1 + n2) (catch m h k).
Proof. apply grows_catch. Qed.

Lemma at_most_sendReceive `{E : Env} `{C : Cotp} ctx req ref : at_most 1 (sendReceive ctx req ref).
Proof.
  intros s s' r H. destruct (sendReceive_writes _ _ _ _ _ _ H) as [[Hw _]|(c & dt & _ & _ & _ & Hw)].
  - exists []. split; [done|]. done.
  - exists [(c, dt)]. by split.
Qed.

(** ** Witnesses

    A client of the sample PLC. *)

#[local] Existing Instance sample_cotp.
#[local] Instance sample : Env := sample_env sample_mem.

Definition sample_init : Sys := client_init "192.168.0.1" [WithRackSlot 0 2] [].
Definition sample_auto : Sys := client_init "plc" [WithAutoRackSlot false] [].
(** The same client, connected. *)
Definition sample_connected : Sys := fst (Connect Background sample_init).

Example sample_connects : snd (Connect Background sample_init) = Ok tt.
Proof. vm_compute. reflexivity. Qed.

Lemma Connect_atomic_witness :
  connect_outcome (connect_pairs (opts (cl sample_auto))) sample_auto
    (fst (Connect Background sample_auto)) (snd (Connect Background sample_auto)).
Proof. apply (Connect_atomic Background); [by intros c|apply surjective_pairing]. Defined.

Lemma session_invariant_witness : session_inv sample_connected.
Proof.
  apply (session_invariant "192.168.0.1" [WithRackSlot 0 2] []).
  apply rtc_once. eapply (step_connect Background). apply surjective_pairing.
Defined.

Lemma draw_refs_distinct_witness :
  exists s' l, draw_refs 3 sample_connected = (s', Ok l) /\ NoDup l /\
    l = map (fun k => (pduRef (cl sample_connected) + k) mod 65536) (seqZ 1 (Z.of_nat 3)).
Proof. apply draw_refs_distinct. lia. Defined.

Definition sample_response : bytes :=
  sample_DT {| DT_EOT := true; DT_UserData := ack_data 7 [4; 1] [0xFF; 2; 0; 1; 42] ++ [0] |}.

Lemma job_response_iff_witness :
  job_response 7 sample_response = Ok ([4; 1], [0xFF; 2; 0; 1; 42]).
Proof.
  apply (job_response_iff 7).
  - apply (bool_decide_unpack _). vm_compute. exact I.
  - vm_compute. reflexivity.
  - exists 0xF0, true, (ack_header 7 [4; 1] [0xFF; 2; 0; 1; 42]), [0].
    split; [reflexivity|]. split; [apply ack_header_wf; vm_compute; done|].
    split; [done|]. split; [done|]. split; [by right|done].
Defined.

Lemma sendReceive_frame_witness :
  let req := replicate 300 0 in
  fst (sendReceive Background req 1 sample_connected) = sample_connected /\
  exists e, snd (sendReceive Background req 1 sample_connected) = Err e /\
    errors_Is e ErrRequestExceedsPDU = true.
Proof.
  cbv zeta. eapply (sendReceive_frame Background (replicate 300 0) 1 sample_connected);
    [apply surjective_pairing|vm_compute; done|by vm_compute].
Defined.
