(* ===== verification/ClientReadWrite.v ===== *)
(** * client/readwrite.go

    Reading and writing memory areas: the chunking of a transfer, the
    classification of its failures, and the loops over the chunks. *)

From S2P Require Import Prelude GoError GoMonad WireErrors WireHeader WireCotp WireReadWrite WireSpec WireSetup ModelTypes Transport Sample ClientTypes ClientCore.

(** ** Classification *)

Definition classifyOpError (err : option error) : ReadStatus :=
  match err with
  | None => ReadStatusSuccess
  | Some err =>
      if errors_Is err DeadlineExceeded then ReadStatusTimeout
      else if default false (errors_As_net err) then ReadStatusTimeout
      else if errors_Is err ErrNotConnected || errors_Is err ErrConnectionNotEstablished
      then ReadStatusTransportErr
      else match errors_As_S7 err with
      | Some _ => ReadStatusRejected
      | None =>
          if errors_Is err ErrShortS7Header || errors_Is err ErrInvalidS7ProtocolID
             || errors_Is err ErrShortS7AckHeader || errors_Is err ErrS7PayloadLength
          then ReadStatusProtocolErr
          else if errors_Is err ErrProtocolFailure then ReadStatusProtocolErr
          else if errors_Is err ErrRequestExceedsPDU then ReadStatusProtocolErr
          else ReadStatusTransportErr
      end
  end.

Definition newFailedReadResult (requested : Z) (err : option error) : ReadResult :=
  {| Status := classifyOpError err;
     RequestedLength := requested;
     ReturnedLength := 0;
     Data := [];
     Warnings := [];
     Message := match err with Some e => error_text e | None => "" end;
     Cause := err;
     ItemStatus := "";
     ReturnCode := 0 |}.

Definition ClassifyReadOutcome (requested returned : Z) : ReadStatus :=
  if requested <=? 0 then ReadStatusSuccess
  else if returned =? 0 then ReadStatusEmptyRead
  else if returned <? requested then ReadStatusShortRead
  else ReadStatusSuccess.

(** ** Chunks *)

(** The loop of [planReadChunks]; every round takes at least one byte off
    [remaining], so [remaining] rounds are enough. *)
Fixpoint plan_loop (fuel : nat) (remaining maxChunk : Z) : list Z :=
  match fuel with
  | O => []
  | S fuel =>
      if 0 <? remaining then
        let n := if maxChunk <? remaining then maxChunk else remaining in
        n :: plan_loop fuel (remaining - n) maxChunk
      else []
  end.

Definition planReadChunks (total maxChunk : Z) : list Z :=
  if total <=? 0 then []
  else
    let maxChunk := if maxChunk <=? 0 then total else maxChunk in
    plan_loop (Z.to_nat total) total maxChunk.

(** ** Reading *)

(** The returns of [ReadArea] that keep what was read so far: the result [out] with
    its status, message and, for a rejected item, the item's code. *)
Definition read_out (reqLen : Z) (result : bytes) (status : ReadStatus) (message : string)
    (itemStatus : string) (returnCode : Z) : ReadResult :=
  {| Status := status; RequestedLength := reqLen; ReturnedLength := len result;
     Data := result; Warnings := []; Message := message; Cause := None;
     ItemStatus := itemStatus; ReturnCode := returnCode |}.

Definition read_done (reqLen : Z) (result : bytes) : ReadResult :=
  let status := ClassifyReadOutcome reqLen (len result) in
  let message :=
    if decide (status = ReadStatusEmptyRead)
    then "target returned no data for requested range"
    else if decide (status = ReadStatusShortRead)
    then "short read: requested " +:+ dec reqLen +:+ ", got " +:+ dec (len result)
    else "" in
  read_out reqLen result status message "" 0.

Section ReadWrite.
Context `{E : Env} `{C : Cotp}.

Definition rate_limit (ctx : Ctx) (rateLimit : Z) (firstChunk : bool) : M Sys unit :=
  if (0 <? rateLimit) && negb firstChunk then on_net (ctx_wait ctx rateLimit) else ret tt.

(** The loop of [ReadArea] over the chunks that are left. *)
Fixpoint read_chunks (ctx : Ctx) (addr : Address) (reqLen rateLimit : Z) (chunks : list Z)
    (result : bytes) (offset : Z) (firstChunk : bool) : M Sys ReadResult :=
  match chunks with
  | [] => ret (read_done reqLen result)
  | chunkSize :: chunks =>
      let failed e := ret (newFailedReadResult reqLen (Some e)) in
      catch (on_net (ctx_check ctx)) failed (fun _ =>
      catch (rate_limit ctx rateLimit firstChunk) failed (fun _ =>
      let s7Addr := {| Any_Area := Address_Area addr; Any_DBNumber := Address_DBNumber addr;
                       Any_Start := offset; Any_Size := chunkSize |} in
      let* ref := nextPDURef in
      let req := EncodeReadVarRequest ref [s7Addr] in
      catch (sendReceive ctx req ref) failed (fun '(param, data) =>
      catch (lift (ParseReadVarResponse param data))
        (fun e => ret (read_out reqLen result ReadStatusProtocolErr (error_text e) "" 0))
        (fun items =>
      match items with
      | [] => ret (read_out reqLen result ReadStatusEmptyRead "no data returned" "" 0)
      | item :: _ =>
          catch (lift (ReturnCodeError (Item_ReturnCode item)))
            (fun e => ret (read_out reqLen result ReadStatusRejected (error_text e)
                             (ItemReturnCodeString (Item_ReturnCode item))
                             (Item_ReturnCode item)))
            (fun _ =>
          read_chunks ctx addr reqLen rateLimit chunks (result ++ Item_Data item)
            (int (offset + chunkSize)) false)
      end))))
  end.

Definition ReadArea (ctx : Ctx) (addr : Address) : M Sys ReadResult :=
  let* _ := lift (validateAddress addr) in
  let reqLen := if Address_Size addr <? 0 then 0 else Address_Size addr in
  let* x := gets cl in
  let maxData := pduSize x - ReadVarRequestOverhead in
  let maxData := if maxData <? 1 then 200 else maxData in
  read_chunks ctx addr reqLen (rateLimit (opts x))
    (planReadChunks (Address_Size addr) maxData) [] (Address_Start addr) true.

Definition ReadDB (ctx : Ctx) (dbNum offset size : Z) : M Sys ReadResult :=
  ReadArea ctx {| Address_Area := AreaDB; Address_DBNumber := dbNum;
                  Address_Start := offset; Address_Size := size |}.
Definition ReadInputs (ctx : Ctx) (offset size : Z) : M Sys ReadResult :=
  ReadArea ctx {| Address_Area := AreaInputs; Address_DBNumber := 0;
                  Address_Start := offset; Address_Size := size |}.
Definition ReadOutputs (ctx : Ctx) (offset size : Z) : M Sys ReadResult :=
  ReadArea ctx {| Address_Area := AreaOutputs; Address_DBNumber := 0;
                  Address_Start := offset; Address_Size := size |}.
Definition ReadMerkers (ctx : Ctx) (offset size : Z) : M Sys ReadResult :=
  ReadArea ctx {| Address_Area := AreaMerkers; Address_DBNumber := 0;
                  Address_Start := offset; Address_Size := size |}.

(** ** Writing *)

Fixpoint write_chunks (ctx : Ctx) (addr : Address) (data : bytes) (rateLimit : Z)
    (chunks : list Z) (offset : Z) (firstChunk : bool) : M Sys unit :=
  match chunks with
  | [] => ret tt
  | chunkSize :: chunks =>
      let* _ := on_net (ctx_check ctx) in
      let* _ := rate_limit ctx rateLimit firstChunk in
      let* chunk := lift (checked (go_slice data offset (offset + chunkSize))) in
      let s7Addr := {| Any_Area := Address_Area addr; Any_DBNumber := Address_DBNumber addr;
                       Any_Start := int (Address_Start addr + offset);
                       Any_Size := len chunk |} in
      let* ref := nextPDURef in
      let req := EncodeWriteVarRequest ref s7Addr chunk in
      let* ' (param, respData) := sendReceive ctx req ref in
      let* _ := lift (ParseWriteVarResponse param respData) in
      write_chunks ctx addr data rateLimit chunks (offset + chunkSize) false
  end.

Definition WriteArea (ctx : Ctx) (addr : Address) (data : bytes) : M Sys unit :=
  let* _ := lift (validateAddress addr) in
  let* _ := on_net (ctx_check ctx) in
  let* x := gets cl in
  let maxPayload := pduSize x - WriteVarRequestOverhead in
  let maxPayload := if maxPayload <? 1 then 200 else maxPayload in
  write_chunks ctx addr data (rateLimit (opts x)) (planReadChunks (len data) maxPayload)
    0 true.

Definition WriteDB (ctx : Ctx) (dbNum offset : Z) (data : bytes) : M Sys unit :=
  WriteArea ctx {| Address_Area := AreaDB; Address_DBNumber := dbNum;
                   Address_Start := offset; Address_Size := len data |} data.
End ReadWrite.

(** ** Chunking *)

Definition zsum (l : list Z) : Z := foldr Z.add 0 l.

Lemma zsum_app l1 l2 : zsum (l1 ++ l2) = zsum l1 + zsum l2.
Proof. induction l1; cbn; unfold zsum in *; cbn; lia. Qed.

Lemma zsum_replicate n x : zsum (replicate n x) = Z.of_nat n * x.
Proof. unfold zsum. induction n; cbn -[Z.of_nat]; lia. Qed.

Lemma zsum_nonneg l : Forall (fun c => 0 < c) l -> 0 <= zsum l.
Proof. unfold zsum. induction 1; cbn; lia. Qed.

(** The last, shorter chunk, when the total is not a multiple of the size. *)
Definition last_chunk (r : Z) : list Z := if r =? 0 then [] else [r].

Lemma plan_loop_eq fuel total maxChunk : 0 <= total <= Z.of_nat fuel -> 0 < maxChunk ->
  plan_loop fuel total maxChunk
  = replicate (Z.to_nat (total / maxChunk)) maxChunk ++ last_chunk (total mod maxChunk).
Proof.
  intros Ht Hm. revert total Ht. induction fuel as [|fuel IH]; intros total Ht.
  { replace total with 0 by lia. by rewrite Z.div_0_l, Z.mod_0_l by lia. }
  cbn [plan_loop]. destruct (Z.ltb_spec 0 total) as [H0|H0].
  2:{ replace total with 0 by lia. by rewrite Z.div_0_l, Z.mod_0_l by lia. }
  destruct (Z.ltb_spec maxChunk total) as [H1|H1]; rewrite IH by lia.
  - replace (total / maxChunk) with (1 + (total - maxChunk) / maxChunk).
    2:{ replace total with (total - maxChunk + 1 * maxChunk) at 2 by lia.
        rewrite Z.div_add by lia. lia. }
    replace (total mod maxChunk) with ((total - maxChunk) mod maxChunk).
    2:{ replace total with (total - maxChunk + 1 * maxChunk) at 2 by lia.
        by rewrite Z.mod_add by lia. }
    rewrite Z2Nat.inj_add by (try apply Z.div_pos; lia). done.
  - rewrite Z.sub_diag, Z.div_0_l, Z.mod_0_l by lia. cbn.
    destruct (decide (total = maxChunk)) as [->|Hne].
    + by rewrite Z.div_same, Z.mod_same by lia.
    + rewrite Z.div_small, Z.mod_small by lia. unfold last_chunk. cbn.
      by rewrite (proj2 (Z.eqb_neq _ _)) by lia.
Qed.

Lemma planReadChunks_eq total maxChunk : 0 <= total -> 0 < maxChunk ->
  planReadChunks total maxChunk
  = replicate (Z.to_nat (total / maxChunk)) maxChunk ++ last_chunk (total mod maxChunk).
Proof.
  intros Ht Hm. unfold planReadChunks. destruct (Z.leb_spec total 0) as [H|H].
  { replace total with 0 by lia. by rewrite Z.div_0_l, Z.mod_0_l by lia. }
  rewrite (proj2 (Z.leb_gt _ _)) by lia. apply plan_loop_eq; lia.
Qed.

Lemma planReadChunks_bounds total maxChunk : 0 < maxChunk ->
  Forall (fun c => 0 < c <= maxChunk) (planReadChunks total maxChunk).
Proof.
  intros Hm. destruct (Z.leb_spec total 0) as [H|H].
  { unfold planReadChunks. by rewrite (proj2 (Z.leb_le _ _)). }
  rewrite planReadChunks_eq by lia. apply Forall_app. split.
  - apply Forall_replicate. lia.
  - unfold last_chunk. pose proof (Z.mod_pos_bound total maxChunk Hm).
    case_if; repeat constructor; lia.
Qed.

Lemma planReadChunks_sum total maxChunk : 0 < maxChunk ->
  zsum (planReadChunks total maxChunk) = Z.max 0 total.
Proof.
  intros Hm. destruct (Z.leb_spec total 0) as [H|H].
  { unfold planReadChunks. rewrite (proj2 (Z.leb_le _ _)) by done. cbn. lia. }
  rewrite planReadChunks_eq by lia. rewrite zsum_app, zsum_replicate.
  rewrite Z2Nat.id by (apply Z.div_pos; lia).
  pose proof (Z.div_mod total maxChunk ltac:(lia)). unfold last_chunk. case_if; cbn; lia.
Qed.

(** C13: The chunks of a transfer: as many full chunks as fit and one shorter chunk for
    the rest.  So every chunk is positive and at most [maxChunk], they add up to the
    total, and there are no more of them than needed; a limit that is not positive
    means a single chunk, and nothing is planned for a total that is not positive. *)
Theorem planReadChunks_spec total maxChunk :
  let l := planReadChunks total maxChunk in
  zsum l = Z.max 0 total /\ Forall (fun c => 0 < c) l /\
  (total <= 0 -> l = []) /\
  (0 < total -> maxChunk <= 0 -> l = [total]) /\
  (0 < total -> 0 < maxChunk ->
     l = replicate (Z.to_nat (total / maxChunk)) maxChunk ++ last_chunk (total mod maxChunk) /\
     Forall (fun c => c <= maxChunk) l /\
     len l = (total + maxChunk - 1) / maxChunk).
Proof.
  cbv zeta. destruct (Z.leb_spec total 0) as [H|H].
  { unfold planReadChunks. rewrite (proj2 (Z.leb_le _ _)) by done.
    split; [cbn; lia|]. split; [constructor|]. split; [done|]. split; lia. }
  destruct (Z.leb_spec maxChunk 0) as [Hm|Hm].
  { assert (planReadChunks total maxChunk = planReadChunks total total) as ->.
    { unfold planReadChunks. rewrite (proj2 (Z.leb_gt total 0)) by lia.
      by rewrite (proj2 (Z.leb_le maxChunk 0)) by lia. }
    rewrite planReadChunks_eq, Z.div_same, Z.mod_same by lia.
    replace (replicate (Z.to_nat 1) total ++ last_chunk 0) with [total] by done.
    split; [cbn; lia|]. split; [by repeat constructor|]. split; [lia|]. split; [done|lia]. }
  pose proof (planReadChunks_bounds total maxChunk Hm) as Hb.
  split; [by apply planReadChunks_sum|].
  split; [eapply Forall_impl; [|exact Hb]; cbn; lia|].
  split; [lia|]. split; [lia|]. intros _ _.
  split; [by apply planReadChunks_eq; lia|].
  split; [eapply Forall_impl; [|exact Hb]; cbn; lia|].
  rewrite planReadChunks_eq by lia. rewrite len_app, len_replicate.
  rewrite Z2Nat.id by (apply Z.div_pos; lia).
  pose proof (Z.div_mod total maxChunk ltac:(lia)) as Hdm.
  pose proof (Z.mod_pos_bound total maxChunk Hm) as Hmb.
  set (q := total / maxChunk) in *. set (r := total mod maxChunk) in *.
  unfold last_chunk. destruct (Z.eqb_spec r 0) as [Hr|Hr].
  - rewrite len_nil, Z.add_0_r. apply (Z.div_unique_pos _ _ _ (maxChunk - 1)); lia.
  - change (len [r]) with 1. apply (Z.div_unique_pos _ _ _ (r - 1)); lia.
Qed.

(** ** The outcome of a read *)

(** What the fields of a result say about each other. *)
Definition read_result_ok (size : Z) (r : ReadResult) : Prop :=
  RequestedLength r = size /\ ReturnedLength r = len (Data r) /\
  match Status r with
  | ReadStatusSuccess => size <= len (Data r) /\ Cause r = None /\ Message r = ""
  | ReadStatusShortRead => 0 < len (Data r) < size /\ Cause r = None
  | ReadStatusEmptyRead => 0 < size /\ Cause r = None
  | ReadStatusRejected => ReturnCode r <> 0xFF
  | ReadStatusProtocolErr => True
  | ReadStatusTimeout | ReadStatusTransportErr => Data r = [] /\ is_Some (Cause r)
  | ReadStatusInconclusive | ReadStatusOther _ _ => False
  end.

Lemma classifyOpError_Some e :
  match classifyOpError (Some e) with
  | ReadStatusTimeout | ReadStatusTransportErr | ReadStatusRejected
  | ReadStatusProtocolErr => True
  | _ => False
  end.
Proof.
  unfold classifyOpError. destruct (errors_Is e DeadlineExceeded); [done|].
  destruct (default false (errors_As_net e)); [done|].
  destruct (errors_Is e ErrNotConnected || _); [done|]. destruct (errors_As_S7 e); [done|].
  destruct (_ || _); [done|]. destruct (errors_Is e ErrProtocolFailure); [done|].
  by destruct (errors_Is e ErrRequestExceedsPDU).
Qed.

Lemma newFailedReadResult_ok size e : read_result_ok size (newFailedReadResult size (Some e)).
Proof.
  split; [done|]. split; [done|]. pose proof (classifyOpError_Some e) as H.
  cbn -[classifyOpError].
  destruct (classifyOpError (Some e)); first [done | lia | by split; [|eexists]].
Qed.

Lemma read_done_ok size result : 0 <= size -> read_result_ok size (read_done size result).
Proof.
  intros Hs. split; [done|]. split; [done|]. cbn. unfold ClassifyReadOutcome.
  pose proof (len_nonneg result).
  destruct (Z.leb_spec size 0); [by repeat split; lia|].
  destruct (Z.eqb_spec (len result) 0); [by repeat split; lia|].
  destruct (Z.ltb_spec (len result) size); by repeat split; lia.
Qed.

Section ReadOutcome.
Context `{E : Env} `{C : Cotp}.

Lemma rate_limit_session ctx d b : preserves same_session (rate_limit ctx d b).
Proof. unfold rate_limit. preserve. Qed.
#[local] Hint Resolve rate_limit_session : go.

Lemma read_chunks_session ctx addr size d chunks result off b :
  preserves same_session (read_chunks ctx addr size d chunks result off b).
Proof.
  revert result off b. induction chunks as [|n chunks IH]; intros; cbn [read_chunks];
    [eauto with go typeclass_instances|]. preserve.
Qed.

Lemma ReadArea_session ctx addr : preserves same_session (ReadArea ctx addr).
Proof. unfold ReadArea. preserve. apply read_chunks_session. Qed.

Lemma write_chunks_session ctx addr data d chunks off b :
  preserves same_session (write_chunks ctx addr data d chunks off b).
Proof.
  revert off b. induction chunks as [|n chunks IH]; intros; cbn [write_chunks];
    [eauto with go typeclass_instances|]. preserve.
Qed.

Lemma WriteArea_session ctx addr data : preserves same_session (WriteArea ctx addr data).
Proof. unfold WriteArea. preserve. apply write_chunks_session. Qed.

Lemma same_session_heap s s' : same_session s s' -> client_on_heap s -> client_on_heap s'.
Proof.
  intros [Hc Hcl%(f_equal conn)] Hs c Hconn. cbn in Hcl. unfold on_heap. rewrite Hc.
  apply Hs. congruence.
Qed.

Lemma on_net_ctx_wait_no_panic ctx d s s' r :
  on_net (ctx_wait ctx d) s = (s', r) -> r <> Panic.
Proof.
  intros [H _]%on_net_inv. unfold ctx_wait in H. rewrite bind_outside in H.
  destruct ctx_Wait; by injection H as _ <-.
Qed.
Lemma rate_limit_no_panic ctx d b s s' r : rate_limit ctx d b s = (s', r) -> r <> Panic.
Proof.
  unfold rate_limit. case_if; [apply on_net_ctx_wait_no_panic|by intros [= _ <-]].
Qed.

Lemma session_safe {A} (m : M Sys A) :
  preserves same_session m ->
  (forall s s' r, client_on_heap s -> m s = (s', r) -> r <> Panic) -> safe client_on_heap m.
Proof.
  intros Hm Hp s s' r Hs H. split; [|by eapply Hp]. eapply same_session_heap; [by eapply Hm|done].
Qed.
Lemma sendReceive_safe `{EL : !EnvLaws} `{HL : !CotpLaws} ctx req ref :
  safe client_on_heap (sendReceive ctx req ref).
Proof. apply session_safe; [apply sendReceive_session|apply sendReceive_no_panic]. Qed.
Lemma nextPDURef_safe : safe client_on_heap nextPDURef.
Proof.
  apply session_safe; [apply nextPDURef_session|]. intros s s' r _. rewrite nextPDURef_run.
  by intros [= _ <-].
Qed.
Lemma on_net_ctx_check_safe ctx : safe client_on_heap (on_net (ctx_check ctx)).
Proof.
  apply session_safe; [apply ctx_check_session|]. intros s s' r _ H.
  by apply on_net_ctx_check_inv in H as [_ H].
Qed.

Lemma read_chunks_outcome `{EL : !EnvLaws} `{HL : !CotpLaws} ctx addr size d chunks result
    off b s s' r :
  0 <= size -> (result <> [] -> 0 < size) -> (chunks <> [] -> 0 < size) ->
  client_on_heap s -> read_chunks ctx addr size d chunks result off b s = (s', r) ->
  exists x, r = Ok x /\ read_result_ok size x.
Proof.
  intros Hsz. revert result off b s. induction chunks as [|n chunks IH];
    intros result off b s Hres Hch Hs H; cbn [read_chunks] in H.
  { injection H as <- <-. eauto using read_done_ok. }
  specialize (Hch ltac:(done)). pose proof (newFailedReadResult_ok size) as Hf.
  apply catch_inv in H as [(s1 & [] & H1 & H)|[(s1 & e & _ & [= <- <-])|[H1 ->]]]; [|eauto|].
  2:{ by apply on_net_ctx_check_inv in H1 as [_ H1]. }
  pose proof (same_session_heap _ _ (ctx_check_session _ _ _ _ H1) Hs) as Hs1.
  apply catch_inv in H as [(s2 & [] & H2 & H)|[(s2 & e & _ & [= <- <-])|[H2 ->]]]; [|eauto|].
  2:{ by apply rate_limit_no_panic in H2. }
  pose proof (same_session_heap _ _ (rate_limit_session _ _ _ _ _ _ H2) Hs1) as Hs2.
  unfold bind in H at 1. rewrite nextPDURef_run in H.
  match type of H with catch _ _ _ ?s = _ => set (s3 := s) in H end.
  assert (client_on_heap s3) as Hs3 by exact Hs2.
  apply catch_inv in H as [(s4 & [param data] & H4 & H)|[(s4 & e & _ & [= <- <-])|[H4 ->]]];
    [|eauto|].
  2:{ by apply sendReceive_no_panic in H4. }
  pose proof (same_session_heap _ _ (sendReceive_session _ _ _ _ _ _ H4) Hs3) as Hs4.
  apply catch_inv in H as [(s5 & items & [= <- _] & H)|[(s5 & e & _ & [= <- <-])|[[= _ H5] ->]]].
  2:{ eexists. split; [done|]. split; [done|]. by split. }
  2:{ pose proof (ParseReadVarResponse_total param data) as Hp. by rewrite H5 in Hp. }
  destruct items as [|item items].
  { injection H as <- <-. eexists. split; [done|]. split; [done|]. split; [done|]. by split. }
  apply catch_inv in H as [(s5 & [] & [= <- _] & H)|[(s5 & e & [= <- Hc] & [= <- <-])|[[= _ H5] ->]]].
  2:{ eexists. split; [done|]. split; [done|]. split; [done|]. cbn.
      intros Hff%ReturnCodeError_Ok. congruence. }
  2:{ pose proof (ReturnCodeError_no_panic (Item_ReturnCode item)) as Hp. by rewrite H5 in Hp. }
  by eapply IH in H.
Qed.

Lemma ReadArea_ends `{EL : !EnvLaws} `{HL : !CotpLaws} ctx addr s s' r :
  client_on_heap s -> ReadArea ctx addr s = (s', r) ->
  same_session s s' /\
  match r with
  | Ok x => validateAddress addr = Ok tt /\ read_result_ok (Address_Size addr) x
  | Err e => validateAddress addr = Err e /\ s' = s
  | Panic => False
  end.
Proof.
  intros Hs H. split; [by eapply ReadArea_session|].
  unfold ReadArea in H.
  apply bind_inv in H as [(s1 & [] & [= <- Hv] & H)|[(e & [= <- Hv] & ->)|[[= _ Hv] ->]]].
  - assert (0 <= Address_Size addr) as Hsz.
    { unfold validateAddress in Hv. repeat case_if; try done; lia. }
    rewrite (proj2 (Z.ltb_ge (Address_Size addr) 0)) in H by done. cbn [bind gets] in H.
    apply read_chunks_outcome in H as (x & -> & Hx); try done.
    intros Hne. destruct (decide (Address_Size addr <= 0)) as [Hle|]; [|lia].
    exfalso. apply Hne. unfold planReadChunks. by rewrite (proj2 (Z.leb_le _ _)).
  - done.
  - unfold validateAddress in Hv. repeat case_if; done.
Qed.

(** C7: Whatever the network, the peer and the context do, a read comes to an end
    without a panic, keeps the session, and is an error only when the address is
    invalid, before anything is sent.  Otherwise it is a result whose fields fit
    together; in particular a success never has fewer bytes than were requested, a
    short read has fewer but some, and a time-out or a transport error has none and
    carries its cause. *)
Theorem ReadArea_outcome `{EL : !EnvLaws} `{HL : !CotpLaws} ctx addr s s' r :
  client_on_heap s -> ReadArea ctx addr s = (s', r) ->
  same_session s s' /\
  match r with
  | Ok x => validateAddress addr = Ok tt /\ read_result_ok (Address_Size addr) x
  | Err e => validateAddress addr = Err e /\ s' = s
  | Panic => False
  end.
Proof. apply ReadArea_ends. Qed.
End ReadOutcome.

#[export] Hint Resolve rate_limit_session read_chunks_session ReadArea_session
  write_chunks_session WriteArea_session sendReceive_safe nextPDURef_safe
  on_net_ctx_check_safe : go.

(** ** A peer that serves reads

    An abstract specification of the other side: a memory of bytes, and a peer that
    answers every read of at most [limit] bytes with what the memory holds, in an item
    of whatever transport size. *)

(** The frame [dt] carries the S7 telegram [pdu]. *)
Definition carries `{C : Cotp} (dt pdu : bytes) : Prop :=
  exists ty eot, cotp_Decode dt = inr {| Decoded_Type := ty;
    Decoded_DT := Some {| DT_EOT := eot; DT_UserData := pdu |} |}.

(** A data section with one successful item that holds [payload]. *)
Definition holds (payload data : bytes) : Prop :=
  exists it trailing, data = encode_resp_item it ++ trailing /\ resp_items_ok [it] trailing /\
    ri_code it = RetCodeSuccess /\ ri_payload it = payload.

Definition any_slice (mem : Z -> Z -> Z -> Z) (a : S7AnyAddress) : bytes :=
  mem_slice mem (Any_Area a) (Any_DBNumber a) (Any_Start a) (Any_Size a).

Definition serves_reads `{E : Env} `{C : Cotp} (mem : Z -> Z -> Z -> Z) (limit : Z) (c : cid)
    : Prop :=
  forall h dt ws pdu ref a,
    writes h = (c, dt) :: ws -> carries dt pdu -> bytes_ok pdu ->
    decode_read_request pdu = Some (ref, [a]) -> Any_Size a <= limit ->
    exists resp data, env_ReadFrame h c = inr resp /\
      answers_job ref [FuncReadVar; 1] data resp /\ holds (any_slice mem a) data.

(** Every S7 telegram can be sent. *)
Definition marshals `{C : Cotp} : Prop := forall pdu, exists dt, EncodeCOTPDT pdu = Ok dt.

(** The largest chunk of a read. *)
Definition read_chunk_size (pduSize : Z) : Z :=
  if pduSize - ReadVarRequestOverhead <? 1 then 200 else pduSize - ReadVarRequestOverhead.

Lemma mem_slice_app mem area db start n1 n2 : 0 <= n1 -> 0 <= n2 ->
  mem_slice mem area db start n1 ++ mem_slice mem area db (start + n1) n2
  = mem_slice mem area db start (n1 + n2).
Proof. intros. unfold mem_slice. by rewrite seqZ_app, map_app by done. Qed.
Lemma len_mem_slice mem area db start n : 0 <= n -> len (mem_slice mem area db start n) = n.
Proof. intros. unfold mem_slice. rewrite len_map. unfold len. rewrite length_seqZ. lia. Qed.

Section ReadServes.
Context `{E : Env} `{EL : !EnvLaws} `{C : Cotp} `{HL : !CotpLaws}.
Context (mem : Z -> Z -> Z -> Z) (c : cid) (ctx : Ctx).
Context (Hlive : live ctx c) (Hmarsh : marshals).

Lemma EncodeCOTPDT_carries pdu dt : EncodeCOTPDT pdu = Ok dt -> carries dt pdu.
Proof.
  unfold EncodeCOTPDT. intros H%of_ext_Ok. destruct (cotp_DT_roundtrip _ _ H) as [ty Hty].
  by exists ty, true.
Qed.

Lemma rate_limit_live d b s :
  exists w', rate_limit ctx d b s = ({| wld := w'; cl := cl s |}, Ok tt) /\ later (wld s) w' [].
Proof.
  unfold rate_limit. case_if.
  - destruct (ctx_wait_live ctx c d (wld s) Hlive) as (w' & Hw & Hl).
    exists w'. split; [by apply on_net_run|done].
  - exists (wld s). destruct s. by split.
Qed.

Lemma on_net_ctx_check_live s :
  exists w', on_net (ctx_check ctx) s = ({| wld := w'; cl := cl s |}, Ok tt)
    /\ later (wld s) w' [].
Proof.
  destruct (ctx_check_live ctx c (wld s) Hlive) as (w' & Hw & Hl).
  exists w'. split; [by apply on_net_run|done].
Qed.

Lemma parse_holds payload data : holds payload data ->
  exists it, ParseReadVarResponse [FuncReadVar; 1] data = Ok [it] /\
    Item_ReturnCode it = RetCodeSuccess /\ Item_Data it = payload.
Proof.
  intros (it & tr & -> & Hok & Hc & Hp). exists (item_of it).
  pose proof (ParseReadVarResponse_complete [] [it] tr Hok) as H. cbn [map concat] in H.
  rewrite app_nil_r in H. split; [exact H|]. split; [done|]. cbn. by rewrite Hc.
Qed.

(** One exchange of a read, after which the chunk's bytes are known. *)
Lemma read_exchange limit a ref s :
  serves_reads mem limit c -> conn (cl s) = Some c -> open_at c (wld s) ->
  any_in_range a -> Any_Size a <= limit -> 0 <= ref < 65536 ->
  pduSize (cl s) <= 0 \/ ReadVarRequestOverhead <= pduSize (cl s) ->
  exists w' it dt param data,
    sendReceive ctx (EncodeReadVarRequest ref [a]) ref s
      = ({| wld := w'; cl := cl s |}, Ok (param, data)) /\
    ParseReadVarResponse param data = Ok [it] /\
    Item_ReturnCode it = RetCodeSuccess /\ Item_Data it = any_slice mem a /\
    later (wld s) w' [(c, dt)] /\ carries dt (EncodeReadVarRequest ref [a]).
Proof.
  intros Hsrv Hc Hop Ha Hlim Href Hpdu.
  destruct (Hmarsh (EncodeReadVarRequest ref [a])) as [dt Hdt].
  pose proof (EncodeCOTPDT_carries _ _ Hdt) as Hcar.
  assert (decode_read_request (EncodeReadVarRequest ref [a]) = Some (ref, [a])) as Hdec.
  { rewrite decode_EncodeReadVarRequest by done. cbn. by rewrite any_on_wire_id. }
  assert (bytes_ok (EncodeReadVarRequest ref [a])) as Hok'
    by (apply bytes_ok_EncodeReadVarRequest; repeat constructor; apply Ha).
  destruct (sendReceive_live (fun param data => exists it,
      ParseReadVarResponse param data = Ok [it] /\
      Item_ReturnCode it = RetCodeSuccess /\ Item_Data it = any_slice mem a)
    ctx c (EncodeReadVarRequest ref [a]) dt ref s)
    as (w' & param & data & Hsr & Hl & it & Hp & Hrc & Hd); try done.
  - intros h Hh. destruct (Hsrv h dt _ _ _ _ Hh Hcar Hok' Hdec Hlim)
      as (resp & data & Hrf & Hans & Hhold).
    destruct (env_ReadFrame_ok _ _ _ Hrf) as [Hok Hlen].
    exists resp, [FuncReadVar; 1], data. split; [done|].
    split; [by apply job_response_complete|]. by apply parse_holds.
  - exists w', it, dt, param, data. by repeat (split; [done|]).
Qed.

(** The requests of a read, in order. *)
Fixpoint read_plan (addr : Address) (off : Z) (chunks : list Z) : list S7AnyAddress :=
  match chunks with
  | [] => []
  | n :: chunks =>
      {| Any_Area := Address_Area addr; Any_DBNumber := Address_DBNumber addr;
         Any_Start := off; Any_Size := n |} :: read_plan addr (off + n) chunks
  end.

(** A frame on [c] that carries a request for [a]. *)
Definition read_frame (w : cid * bytes) (a : S7AnyAddress) : Prop :=
  fst w = c /\ exists ref, carries (snd w) (EncodeReadVarRequest ref [a]).

(** The address is one that twelve bytes can carry. *)
Definition address_in_range (addr : Address) : Prop :=
  is_byte (Address_Area addr) /\ 0 <= Address_DBNumber addr < 2 ^ 16 /\
  0 <= Address_Start addr /\ 0 <= Address_Size addr /\
  Address_Start addr + Address_Size addr <= 2 ^ 21.

Lemma read_chunks_serves limit addr size d chunks result off b s :
  serves_reads mem limit c -> conn (cl s) = Some c -> open_at c (wld s) ->
  pduSize (cl s) <= 0 \/ ReadVarRequestOverhead <= pduSize (cl s) ->
  is_byte (Address_Area addr) -> 0 <= Address_DBNumber addr < 2 ^ 16 ->
  Forall (fun n => 0 < n <= limit /\ n < 2 ^ 16) chunks ->
  0 <= off -> off + zsum chunks <= 2 ^ 21 ->
  exists s' ws,
    read_chunks ctx addr size d chunks result off b s
      = (s', Ok (read_done size (result ++ mem_slice mem (Address_Area addr)
           (Address_DBNumber addr) off (zsum chunks)))) /\
    writes (hist (wld s')) = ws ++ writes (hist (wld s)) /\
    Forall2 read_frame (rev ws) (read_plan addr off chunks).
Proof.
  intros Hsrv Hc Hop Hpdu Har Hdb. revert result off b s Hc Hop Hpdu.
  induction chunks as [|n chunks IH]; intros result off b s Hc Hop Hpdu Hch Hoff Hend.
  { exists s, []. split; [|by split]. cbn. by rewrite app_nil_r. }
  apply Forall_cons_1 in Hch as [[[Hn Hlim] Hn16] Hch].
  assert (0 <= zsum chunks) as Hz.
  { apply zsum_nonneg. eapply Forall_impl; [|exact Hch]. cbn. lia. }
  cbn [read_chunks]. cbn [zsum foldr] in Hend |- *. fold (zsum chunks) in *.
  destruct (on_net_ctx_check_live s) as (w1 & H1 & Hc1 & Hw1).
  rewrite (catch_Ok _ _ _ _ _ _ H1).
  destruct (rate_limit_live d b {| wld := w1; cl := cl s |}) as (w2 & H2 & Hc2 & Hw2).
  rewrite (catch_Ok _ _ _ _ _ _ H2). cbn [wld cl] in *.
  rewrite (bind_step _ _ _ _ _ (nextPDURef_run _)). cbn [wld cl].
  set (a := {| Any_Area := Address_Area addr; Any_DBNumber := Address_DBNumber addr;
               Any_Start := off; Any_Size := n |}).
  set (s2 := {| wld := w2; cl := set_pduRef (u32 (pduRef (cl s) + 1)) (cl s) |}).
  set (ref := u16 (pduRef (cl s) + 1)).
  assert (open_at c (wld s2)) as Hop2 by (unfold open_at in *; cbn; by rewrite Hc2, Hc1).
  destruct (read_exchange limit a ref s2)
    as (w3 & it & dt & param & data & H3 & Hp & Hrc & Hd & [Hc3 Hw3] & Hcar); try done.
  { unfold any_in_range, a. cbn -[Z.pow]. unfold is_byte in *. lia. }
  { apply u16_range. }
  change (wld s2) with w2 in Hc3, Hw3.
  rewrite (catch_Ok _ _ _ _ _ _ H3), Hp, catch_lift_Ok.
  rewrite (proj2 (ReturnCodeError_Ok _) Hrc), catch_lift_Ok.
  rewrite int_small by lia.
  destruct (IH (result ++ Item_Data it) (off + n) false {| wld := w3; cl := cl s2 |})
    as (s' & ws & Hrun & Hws & Hfr); try done; try lia.
  { unfold open_at in *. cbn. by rewrite Hc3, Hc2, Hc1. }
  exists s', (ws ++ [(c, dt)]). rewrite Hrun, Hd. split; [|split].
  - rewrite <- app_assoc. unfold any_slice. cbn [Any_Area Any_DBNumber Any_Start Any_Size a].
    by rewrite mem_slice_app by lia.
  - rewrite Hws. cbn [wld]. by rewrite Hw3, Hw2, Hw1, <- app_assoc.
  - rewrite rev_app_distr. cbn. constructor; [|done]. split; [done|]. by exists ref.
Qed.

Lemma ReadArea_live addr s :
  conn (cl s) = Some c -> open_at c (wld s) ->
  pduSize (cl s) <= 0 \/ ReadVarRequestOverhead <= pduSize (cl s) -> pduSize (cl s) < 2 ^ 16 ->
  serves_reads mem (read_chunk_size (pduSize (cl s))) c ->
  address_in_range addr ->
  exists s' x ws,
    ReadArea ctx addr s = (s', Ok x) /\
    Status x = ReadStatusSuccess /\ RequestedLength x = Address_Size addr /\
    Data x = mem_slice mem (Address_Area addr) (Address_DBNumber addr)
               (Address_Start addr) (Address_Size addr) /\
    writes (hist (wld s')) = ws ++ writes (hist (wld s)) /\
    Forall2 read_frame (rev ws)
      (read_plan addr (Address_Start addr)
         (planReadChunks (Address_Size addr) (read_chunk_size (pduSize (cl s))))).
Proof.
  intros Hc Hop Hpdu Hpdu16 Hsrv (Har & Hdb & Hst & Hsz & Hend).
  set (m := read_chunk_size (pduSize (cl s))) in *.
  assert (0 < m < 2 ^ 16) as Hm.
  { unfold m, read_chunk_size, ReadVarRequestOverhead, S7HeaderSize in *. case_if; lia. }
  assert (zsum (planReadChunks (Address_Size addr) m) = Address_Size addr) as Hsum
    by (rewrite planReadChunks_sum by lia; lia).
  destruct (read_chunks_serves m addr (Address_Size addr) (rateLimit (opts (cl s)))
    (planReadChunks (Address_Size addr) m) [] (Address_Start addr) true s)
    as (s' & ws & Hrun & Hws & Hfr); try done.
  { eapply Forall_impl; [|apply planReadChunks_bounds; lia]. cbn. lia. }
  { by rewrite Hsum. }
  rewrite Hsum in Hrun. cbn [app] in Hrun.
  eexists s', _, ws. split; [|split; [|split; [|split; [|by split]]]].
  - unfold ReadArea. rewrite (bind_step _ _ s s tt).
    2:{ unfold lift, validateAddress. do 2 f_equal.
        rewrite !(proj2 (Z.ltb_ge _ 0)) by lia. by rewrite andb_false_r. }
    rewrite (proj2 (Z.ltb_ge (Address_Size addr) 0)) by done. exact Hrun.
  - cbn. unfold ClassifyReadOutcome. rewrite len_mem_slice by done.
    repeat case_if; try done; lia.
  - done.
  - done.
Qed.

(** C1: Against a peer that serves its memory, reading is correct: a read of a valid
    address, over a live connection whose PDU has room for a request, succeeds with
    exactly the bytes the memory holds at that address, whatever its length; it
    sends one request per planned chunk, in ascending order, and nothing else. *)
Theorem ReadArea_serves addr s :
  conn (cl s) = Some c -> open_at c (wld s) ->
  pduSize (cl s) <= 0 \/ ReadVarRequestOverhead <= pduSize (cl s) -> pduSize (cl s) < 2 ^ 16 ->
  serves_reads mem (read_chunk_size (pduSize (cl s))) c ->
  address_in_range addr ->
  exists s' x ws,
    ReadArea ctx addr s = (s', Ok x) /\
    Status x = ReadStatusSuccess /\ RequestedLength x = Address_Size addr /\
    Data x = mem_slice mem (Address_Area addr) (Address_DBNumber addr)
               (Address_Start addr) (Address_Size addr) /\
    writes (hist (wld s')) = ws ++ writes (hist (wld s)) /\
    Forall2 read_frame (rev ws)
      (read_plan addr (Address_Start addr)
         (planReadChunks (Address_Size addr) (read_chunk_size (pduSize (cl s))))).
Proof. apply ReadArea_live. Qed.
End ReadServes.

(** ** Writing to a peer *)

(** A peer that acknowledges every write. *)
Definition serves_writes `{E : Env} `{C : Cotp} (c : cid) : Prop :=
  forall h dt ws pdu ref a v,
    writes h = (c, dt) :: ws -> carries dt pdu -> bytes_ok pdu ->
    decode_write_request pdu = Some (ref, a, v) ->
    exists resp data, env_ReadFrame h c = inr resp /\
      answers_job ref [FuncWriteVar; 1] (RetCodeSuccess :: data) resp.

(** The effect of a write on a memory. *)
Definition mem_write (mem : Z -> Z -> Z -> Z) (area db start : Z) (v : bytes)
    : Z -> Z -> Z -> Z := fun ar d x =>
  if (ar =? area) && (d =? db) && (start <=? x) && (x <? start + len v)
  then default 0 (v !! Z.to_nat (x - start)) else mem ar d x.

Definition exec_writes (mem : Z -> Z -> Z -> Z) (reqs : list (S7AnyAddress * bytes))
    : Z -> Z -> Z -> Z :=
  fold_left (fun mem '(a, v) => mem_write mem (Any_Area a) (Any_DBNumber a) (Any_Start a) v)
    reqs mem.

(** The address and the bytes of a write are ones that the wire format can carry; the
    client truncates all others. *)
Definition write_in_range (addr : Address) (data : bytes) : Prop :=
  is_byte (Address_Area addr) /\ 0 <= Address_DBNumber addr < 2 ^ 16 /\
  0 <= Address_Start addr /\ Address_Start addr + len data <= 2 ^ 21.

(** The requests of a write, in order. *)
Fixpoint write_plan (addr : Address) (data : bytes) (off : Z) (chunks : list Z)
    : list (S7AnyAddress * bytes) :=
  match chunks with
  | [] => []
  | n :: chunks =>
      ({| Any_Area := Address_Area addr; Any_DBNumber := Address_DBNumber addr;
          Any_Start := Address_Start addr + off; Any_Size := n |},
       take (Z.to_nat n) (drop (Z.to_nat off) data))
      :: write_plan addr data (off + n) chunks
  end.

Definition write_chunk_size (pduSize : Z) : Z :=
  if pduSize - WriteVarRequestOverhead <? 1 then 200 else pduSize - WriteVarRequestOverhead.

Lemma mem_write_app mem area db start v1 v2 ar d x :
  mem_write (mem_write mem area db start v1) area db (start + len v1) v2 ar d x
  = mem_write mem area db start (v1 ++ v2) ar d x.
Proof.
  unfold mem_write. pose proof (len_nonneg v1). pose proof (len_nonneg v2).
  destruct ((ar =? area) && (d =? db)); cbn [andb]; [|done]. rewrite len_app.
  destruct (Z.leb_spec (start + len v1) x), (Z.leb_spec start x),
    (Z.ltb_spec x (start + len v1 + len v2)), (Z.ltb_spec x (start + (len v1 + len v2))),
    (Z.ltb_spec x (start + len v1)); cbn [andb]; try lia; try done; f_equal.
  - rewrite lookup_app_r by (unfold len in *; lia). f_equal. unfold len in *. lia.
  - rewrite lookup_app_l by (unfold len in *; lia). done.
Qed.

(** Executing a plan is writing the data it covers. *)
Lemma exec_write_plan addr data off chunks mem ar d x :
  Forall (fun n => 0 < n) chunks -> 0 <= off -> off + zsum chunks = len data ->
  exec_writes mem (write_plan addr data off chunks) ar d x
  = mem_write mem (Address_Area addr) (Address_DBNumber addr) (Address_Start addr + off)
      (drop (Z.to_nat off) data) ar d x.
Proof.
  revert mem off. induction chunks as [|n chunks IH]; intros mem off Hch Hoff Hsum.
  { cbn in *. replace (Z.to_nat off) with (length data) by (unfold len in *; lia).
    rewrite drop_all. unfold mem_write. rewrite len_nil.
    destruct (Z.leb_spec (Address_Start addr + off) x);
      destruct (Z.ltb_spec x (Address_Start addr + off + 0)); try lia; by rewrite ?andb_false_r. }
  apply Forall_cons_1 in Hch as [Hn Hch]. pose proof (zsum_nonneg _ Hch) as Hz.
  cbn [zsum foldr] in Hsum. fold (zsum chunks) in Hsum.
  cbn [write_plan]. unfold exec_writes. cbn [fold_left Any_Area Any_DBNumber Any_Start].
  fold (exec_writes (mem_write mem (Address_Area addr) (Address_DBNumber addr)
    (Address_Start addr + off) (take (Z.to_nat n) (drop (Z.to_nat off) data)))
    (write_plan addr data (off + n) chunks)).
  rewrite IH by (done || lia).
  set (v1 := take (Z.to_nat n) (drop (Z.to_nat off) data)).
  assert (len v1 = n) as Hv1 by (unfold v1; rewrite len_take, len_drop; lia).
  replace (Address_Start addr + (off + n)) with (Address_Start addr + off + len v1) by lia.
  rewrite mem_write_app. f_equal. unfold v1.
  replace (Z.to_nat (off + n)) with (Z.to_nat off + Z.to_nat n)%nat by lia.
  by rewrite <- drop_drop, take_drop.
Qed.

Section WriteServes.
Context `{E : Env} `{EL : !EnvLaws} `{C : Cotp} `{HL : !CotpLaws}.
Context (c : cid) (ctx : Ctx) (Hlive : live ctx c) (Hmarsh : marshals).

(** What the peer makes of a frame: the address and the bytes of the write request that
    it decodes from it. *)
Definition decode_write_frame (dt : bytes) : option (S7AnyAddress * bytes) :=
  match cotp_Decode dt with
  | inr {| Decoded_DT := Some t |} =>
      match decode_write_request (DT_UserData t) with
      | Some (_, a, v) => Some (a, v)
      | None => None
      end
  | _ => None
  end.

(** A frame on [c] that the peer decodes to a request to write as many bytes as the
    address says. *)
Definition write_frame (w : cid * bytes) (av : S7AnyAddress * bytes) : Prop :=
  fst w = c /\ decode_write_frame (snd w) = Some av /\ Any_Size av.1 = len av.2.

Lemma carries_write_frame dt ref a v :
  carries dt (EncodeWriteVarRequest ref a v) -> 0 <= ref < 65536 -> len v < 8192 ->
  any_in_range a -> Any_Size a = len v -> write_frame (c, dt) (a, v).
Proof.
  intros (ty & eot & Hd) Href Hv Ha Hsz. split; [done|]. split; [|done].
  unfold decode_write_frame. cbn [snd]. rewrite Hd. cbn [DT_UserData].
  by rewrite decode_EncodeWriteVarRequest, any_on_wire_id.
Qed.

Lemma ParseWriteVarResponse_ack data :
  ParseWriteVarResponse [FuncWriteVar; 1] (RetCodeSuccess :: data) = Ok tt.
Proof.
  assert ((len (RetCodeSuccess :: data) <? 1) = false) as H by (apply Z.ltb_ge; len).
  unfold ParseWriteVarResponse. by rewrite H.
Qed.

Lemma write_exchange a v ref s :
  serves_writes c -> conn (cl s) = Some c -> open_at c (wld s) ->
  is_byte (Any_Area a) -> bytes_ok v -> len v < 8192 -> 0 <= ref < 65536 ->
  pduSize (cl s) <= 0 \/ WriteVarRequestOverhead + len v + len v mod 2 <= pduSize (cl s) ->
  exists w' dt param data,
    sendReceive ctx (EncodeWriteVarRequest ref a v) ref s
      = ({| wld := w'; cl := cl s |}, Ok (param, data)) /\
    ParseWriteVarResponse param data = Ok tt /\
    later (wld s) w' [(c, dt)] /\ carries dt (EncodeWriteVarRequest ref a v).
Proof.
  intros Hsrv Hc Hop Har Hvok Hv Href Hpdu.
  destruct (Hmarsh (EncodeWriteVarRequest ref a v)) as [dt Hdt].
  pose proof (EncodeCOTPDT_carries _ _ Hdt) as Hcar.
  pose proof (decode_EncodeWriteVarRequest ref a v Href Hv) as Hdec.
  pose proof (bytes_ok_EncodeWriteVarRequest ref a v Har Hvok) as Hok'.
  destruct (sendReceive_live (fun param data => ParseWriteVarResponse param data = Ok tt)
    ctx c (EncodeWriteVarRequest ref a v) dt ref s)
    as (w' & param & data & Hsr & Hl & Hp); try done.
  - rewrite len_EncodeWriteVarRequest.
    unfold WriteVarRequestOverhead, S7HeaderSize in Hpdu. lia.
  - intros h Hh. destruct (Hsrv h dt _ _ _ _ _ Hh Hcar Hok' Hdec) as (resp & data & Hrf & Hans).
    destruct (env_ReadFrame_ok _ _ _ Hrf) as [Hok Hlen].
    exists resp, [FuncWriteVar; 1], (RetCodeSuccess :: data). split; [done|].
    split; [by apply job_response_complete|]. apply ParseWriteVarResponse_ack.
  - exists w', dt, param, data. by repeat (split; [done|]).
Qed.

Lemma write_chunks_serves addr data d chunks off b s :
  serves_writes c -> conn (cl s) = Some c -> open_at c (wld s) ->
  write_in_range addr data -> bytes_ok data ->
  Forall (fun n => 0 < n < 8192 /\ (pduSize (cl s) <= 0 \/
    WriteVarRequestOverhead + n + n mod 2 <= pduSize (cl s))) chunks ->
  0 <= off -> off + zsum chunks = len data ->
  exists s' ws,
    write_chunks ctx addr data d chunks off b s = (s', Ok tt) /\
    writes (hist (wld s')) = ws ++ writes (hist (wld s)) /\
    Forall2 write_frame (rev ws) (write_plan addr data off chunks).
Proof.
  intros Hsrv Hc Hop (Har & Hdb & Hst & Hend) Hdok. revert off b s Hc Hop.
  induction chunks as [|n chunks IH]; intros off b s Hc Hop Hch Hoff Hsum.
  { exists s, []. by split. }
  apply Forall_cons_1 in Hch as [[Hn Hfit] Hch].
  assert (0 <= zsum chunks) as Hz.
  { apply zsum_nonneg. eapply Forall_impl; [|exact Hch]. cbn. lia. }
  cbn [write_chunks]. cbn [zsum foldr] in Hsum |- *. fold (zsum chunks) in *.
  destruct (on_net_ctx_check_live c ctx Hlive s) as (w1 & H1 & Hc1 & Hw1).
  rewrite (bind_step _ _ _ _ _ H1).
  destruct (rate_limit_live c ctx Hlive d b {| wld := w1; cl := cl s |})
    as (w2 & H2 & Hc2 & Hw2).
  rewrite (bind_step _ _ _ _ _ H2). cbn [wld cl] in *.
  set (v := take (Z.to_nat n) (drop (Z.to_nat off) data)).
  assert (len v = n) as Hv by (unfold v; rewrite len_take, len_drop; lia).
  rewrite (bind_step _ _ _ {| wld := w2; cl := cl s |} v).
  2:{ unfold lift. rewrite go_slice_in by lia. cbn [checked]. unfold v.
      by replace (off + n - off) with n by lia. }
  rewrite (bind_step _ _ _ _ _ (nextPDURef_run _)). cbn [wld cl].
  rewrite Hv, int_small by lia.
  set (a := {| Any_Area := Address_Area addr; Any_DBNumber := Address_DBNumber addr;
               Any_Start := Address_Start addr + off; Any_Size := n |}).
  set (s2 := {| wld := w2; cl := set_pduRef (u32 (pduRef (cl s) + 1)) (cl s) |}).
  set (ref := u16 (pduRef (cl s) + 1)).
  assert (open_at c (wld s2)) as Hop2 by (unfold open_at in *; cbn; by rewrite Hc2, Hc1).
  destruct (write_exchange a v ref s2)
    as (w3 & dt & param & rd & H3 & Hp & [Hc3 Hw3] & Hcar); try done.
  { unfold v. by apply Forall_take, Forall_drop. }
  { lia. }
  { apply u16_range. }
  { by rewrite Hv. }
  change (wld s2) with w2 in Hc3, Hw3.
  rewrite (bind_step _ _ _ _ _ H3), Hp, bind_lift_Ok.
  destruct (IH (off + n) false {| wld := w3; cl := cl s2 |})
    as (s' & ws & Hrun & Hws & Hfr); try done; try lia.
  { unfold open_at in *. cbn. by rewrite Hc3, Hc2, Hc1. }
  exists s', (ws ++ [(c, dt)]). rewrite Hrun. split; [done|split].
  - rewrite Hws. cbn [wld]. by rewrite Hw3, Hw2, Hw1, <- app_assoc.
  - rewrite rev_app_distr. cbn [rev app write_plan]. constructor; [|done].
    eapply carries_write_frame;
      [exact Hcar|apply u16_range|change (len v < 8192); lia| |exact (eq_sym Hv)].
    unfold any_in_range, a. cbn -[Z.pow]. unfold is_byte in *. lia.
Qed.

(** C2: Against a peer that acknowledges writes, writing is correct: over a live
    connection with an even PDU size that has room for at least one byte, a write to
    a valid address that the wire format can carry succeeds, every frame it sent is a
    write request to the peer that decodes it, and executing the decoded requests, in the
    order they were sent, stores exactly the given bytes at the given address and changes
    nothing else.  With an odd PDU size this holds for data shorter than one full
    chunk. *)
Theorem WriteArea_serves addr data s :
  serves_writes c -> conn (cl s) = Some c -> open_at c (wld s) ->
  WriteVarRequestOverhead < pduSize (cl s) <= 8192 ->
  pduSize (cl s) mod 2 = 0 \/ len data < write_chunk_size (pduSize (cl s)) ->
  validateAddress addr = Ok tt -> write_in_range addr data -> bytes_ok data ->
  exists s' ws reqs,
    WriteArea ctx addr data s = (s', Ok tt) /\
    writes (hist (wld s')) = ws ++ writes (hist (wld s)) /\
    Forall2 write_frame (rev ws) reqs /\
    forall mem ar d x, exec_writes mem reqs ar d x
      = mem_write mem (Address_Area addr) (Address_DBNumber addr) (Address_Start addr)
          data ar d x.
Proof.
  intros Hsrv Hc Hop Hpdu Heven Hval Hrange Hdok.
  unfold WriteArea. rewrite (bind_step _ _ s s tt) by (unfold lift; by rewrite Hval).
  destruct (on_net_ctx_check_live c ctx Hlive s) as (w1 & H1 & Hc1 & Hw1).
  rewrite (bind_step _ _ _ _ _ H1). cbn [bind gets cl].
  fold (write_chunk_size (pduSize (cl s))). set (m := write_chunk_size (pduSize (cl s))) in *.
  assert (m = pduSize (cl s) - WriteVarRequestOverhead) as Hm.
  { unfold m, write_chunk_size. case_if; lia. }
  unfold WriteVarRequestOverhead, S7HeaderSize in *.
  pose proof (len_nonneg data) as Hlen.
  assert (zsum (planReadChunks (len data) m) = len data) as Hsum
    by (rewrite planReadChunks_sum by lia; lia).
  assert (Forall (fun n => 0 < n < 8192 /\ (pduSize (cl s) <= 0 \/
    WriteVarRequestOverhead + n + n mod 2 <= pduSize (cl s))) (planReadChunks (len data) m))
    as Hch.
  { unfold WriteVarRequestOverhead, S7HeaderSize.
    assert (0 < m) as Hm0 by lia. pose proof (Z.mod_pos_bound (len data) m Hm0) as Hmb.
    rewrite planReadChunks_eq by lia. apply Forall_app. split.
    - destruct Heven as [He|Hlt].
      + apply Forall_replicate. lia.
      + by rewrite Z.div_small by lia.
    - unfold last_chunk. set (r := len data mod m) in *. case_if; [constructor|].
      apply Forall_cons_2; [|constructor]. split; [lia|right]. destruct Heven; lia. }
  destruct (write_chunks_serves addr data (rateLimit (opts (cl s)))
    (planReadChunks (len data) m) 0 true {| wld := w1; cl := cl s |})
    as (s' & ws & Hrun & Hws & Hfr); try done.
  { unfold open_at in *. cbn. by rewrite Hc1. }
  exists s', ws, (write_plan addr data 0 (planReadChunks (len data) m)).
  split; [exact Hrun|]. split; [rewrite Hws; cbn [wld]; by rewrite Hw1|].
  split; [done|]. intros mem ar d x. rewrite exec_write_plan; try lia.
  - by rewrite Z.add_0_r, drop_0.
  - eapply Forall_impl; [|exact Hch]. cbn. lia.
Qed.
End WriteServes.

(** ** Where writing fails, and how failures are classified *)

(** An error of the COTP decoder: one that wraps no error of this module, no [S7Error]
    and no network time-out. *)
Definition foreign_error (e : error) : Prop :=
  (forall s, errors_Is e s = false) /\ errors_As_S7 e = None /\ errors_As_net e = None.

Section Failures.
Context `{E : Env} `{C : Cotp}.

(** C18: With an odd PDU size a write of at least one full chunk always fails, before
    anything is sent: the full chunk is of odd length, the fill byte takes the request
    one byte over the negotiated size, and the client itself rejects it. *)
Theorem WriteArea_odd_pdu ctx addr data s :
  conn (cl s) <> None -> (forall h, ctx_Err ctx h = None) ->
  validateAddress addr = Ok tt ->
  WriteVarRequestOverhead < pduSize (cl s) -> pduSize (cl s) mod 2 = 1 ->
  write_chunk_size (pduSize (cl s)) <= len data ->
  exists s' e,
    WriteArea ctx addr data s = (s', Err e) /\
    errors_Is e ErrRequestExceedsPDU = true /\
    writes (hist (wld s')) = writes (hist (wld s)).
Proof.
  intros Hconn Hctx Hval Hpdu Hodd Hdata. destruct (conn (cl s)) as [c|] eqn:Hc; [|done].
  assert (forall s, on_net (ctx_check ctx) s =
    ({| wld := {| hist := EvCtxErr None :: hist (wld s); conns := conns (wld s) |};
        cl := cl s |}, Ok tt)) as Hck.
  { intros s0. apply on_net_run. unfold ctx_check. by rewrite bind_outside, Hctx. }
  unfold WriteArea. rewrite Hval, bind_lift_Ok. rewrite (bind_step _ _ _ _ _ (Hck _)).
  cbn [bind gets cl]. fold (write_chunk_size (pduSize (cl s))).
  set (m := write_chunk_size (pduSize (cl s))) in *.
  assert (m = pduSize (cl s) - WriteVarRequestOverhead) as Hm.
  { unfold m, write_chunk_size. case_if; lia. }
  unfold WriteVarRequestOverhead, S7HeaderSize in *.
  rewrite planReadChunks_eq by lia.
  assert (1 <= len data / m) as Hq by (apply Z.div_le_lower_bound; lia).
  replace (Z.to_nat (len data / m)) with (S (Z.to_nat (len data / m - 1))) by lia.
  cbn [replicate app write_chunks]. rewrite (bind_step _ _ _ _ _ (Hck _)).
  unfold rate_limit. rewrite andb_false_r. cbn [wld cl hist conns].
  rewrite (bind_step (ret tt) _ _ _ _ eq_refl).
  rewrite go_slice_in by lia. cbn [checked]. rewrite bind_lift_Ok.
  rewrite (bind_step _ _ _ _ _ (nextPDURef_run _)). cbn [wld cl].
  set (v := take _ _). assert (len v = m) as Hv by (unfold v; rewrite len_take, len_drop; lia).
  match goal with |- context [bind (sendReceive ?ctx ?req ?ref) _ ?s2] =>
    destruct (sendReceive_oversize ctx req ref s2) as (e & He & Hise) end.
  { cbn. by rewrite Hc. }
  { cbn -[len EncodeWriteVarRequest]. rewrite len_EncodeWriteVarRequest, Hv. lia. }
  rewrite (bind_step_Err _ _ _ _ _ He). eexists _, _. by split.
Qed.

(** Errors that count as a malformed response. *)
Definition malformed (e : error) : Prop :=
  classifyOpError (Some e) = ReadStatusProtocolErr /\ errors_As_S7 e = None /\
  errors_Is e ErrProtocolFailure = true.

Lemma ParseS7Header_malformed data e :
  ParseS7Header data = Err e -> malformed (protocol_failure "parse S7 header" e).
Proof.
  intros (s & Hs & [->|[post ->]])%ParseS7Header_Err; cbn in Hs;
    repeat (destruct Hs as [<-|Hs]; [by split|]); done.
Qed.

Lemma decode_dt_malformed resp e :
  (forall bs e, cotp_Decode bs = inl e -> foreign_error e) ->
  decode_dt resp = Err e -> malformed e.
Proof.
  intros Hf. unfold decode_dt. destruct (cotp_Decode resp) as [e'|[ty o]] eqn:Hd; cbn.
  - intros [= <-]. apply Hf in Hd as (His & Hs7 & Hnet). unfold malformed.
    cbn. by rewrite !His, Hs7, Hnet.
  - destruct o as [dt|]; cbn; [|by intros [= <-]].
    destruct (ParseS7Header (DT_UserData dt)) as [|e'|] eqn:Hp; cbn; [done| |done].
    intros [= <-]. by eapply ParseS7Header_malformed.
Qed.

(** C17: What the classification makes of a response that is not accepted: an error
    reported by the target is a rejection, and anything malformed (an undecodable
    frame, a bad header, a foreign PDU reference, sections shorter than announced) is
    a protocol error; neither is ever taken for a time-out or a transport error. *)
Theorem job_response_classified ref resp e :
  (forall bs e, cotp_Decode bs = inl e -> foreign_error e) ->
  job_response ref resp = Err e ->
  classifyOpError (Some e) = ReadStatusRejected /\ is_Some (errors_As_S7 e) \/ malformed e.
Proof.
  intros Hf H. unfold job_response in H.
  destruct (decode_dt resp) as [[h rest]|e'|] eqn:Hd; cbn [res_bind] in H; [|right|done].
  2:{ injection H as <-. by eapply decode_dt_malformed. }
  destruct (negb (ref =? 0) && _); [right; by injection H as <-|].
  destruct (negb (ErrorClass h =? 0) || _).
  { left. destruct (if (0 <? ParamLength h) && _ then _ else _) as [p|e'|] eqn:Hp;
      cbn [res_bind] in H; [| |done].
    2:{ destruct ((0 <? ParamLength h) && _); [by destruct (go_slice rest _ _)|done]. }
    destruct NewS7ErrorWithParam as [s7|e'|] eqn:Hn; cbn in H;
      [|by apply NewS7ErrorWithParam_no_Err in Hn|done].
    injection H as <-. split; [done|by eexists]. }
  destruct (len rest <? _); [right; by injection H as <-|].
  by destruct (go_slice rest 0 _), (go_slice rest (ParamLength h) _).
Qed.
End Failures.

(** ** Witnesses *)

#[local] Existing Instance sample_cotp.
#[local] Instance sample : Env := sample_env sample_mem.
#[local] Instance sample_laws : EnvLaws := sample_env_laws sample_mem.

Lemma decode_read_request_inv pdu ref a : bytes_ok pdu ->
  decode_read_request pdu = Some (ref, [a]) ->
  0 <= ref < 65536 /\ 0 <= Any_Size a /\ exists h l, ParseS7Header pdu = Ok (h, FuncReadVar :: l).
Proof.
  intros Hok H. unfold decode_read_request in H.
  destruct (ParseS7Header pdu) as [[h [|f [|n body]]]| |] eqn:Hp; try done.
  destruct (_ && _) eqn:Hc in H; [|done]. zify_bool. subst f.
  apply fmap_Some in H as (l & Hl & [= -> <-]).
  apply ParseS7Header_sound in Hp as (-> & Hwf & _); [|done].
  split; [by destruct Hwf|]. apply bytes_ok_app in Hok as [_ Hok].
  do 2 apply Forall_cons_1 in Hok as [_ Hok]. split; [|by eexists _, _].
  destruct (Z.to_nat n) as [|k]; cbn in Hl; [by destruct body|].
  destruct (decode_s7any (take 12 body)) as [a'|] eqn:Ha; cbn in Hl; [|done].
  destruct (decode_s7any_list k _) as [l'|]; cbn in Hl; [|done]. injection Hl as -> _.
  apply decode_s7any_inv in Ha as (s1 & s0 & d1 & d0 & ar & a2 & a1 & a0 & Ht & ->).
  assert (bytes_ok (take 12 body)) as Hb by (by apply Forall_take). rewrite Ht in Hb.
  repeat (apply Forall_cons_1 in Hb as [? Hb]). unfold is_byte in *. cbn. lia.
Qed.

Lemma decode_write_request_inv pdu ref a v : bytes_ok pdu ->
  decode_write_request pdu = Some (ref, a, v) ->
  0 <= ref < 65536 /\ exists h l, ParseS7Header pdu = Ok (h, FuncWriteVar :: l).
Proof.
  intros Hok H. unfold decode_write_request in H.
  destruct (ParseS7Header pdu) as [[h rest]| |] eqn:Hp; try done.
  apply ParseS7Header_sound in Hp as (-> & Hwf & _); [|done].
  assert (exists l, rest = FuncWriteVar :: l /\ PDURef h = ref) as (l & -> & <-).
  { repeat match type of H with match ?x with _ => _ end = _ =>
      is_var x; destruct x; try discriminate H end.
    repeat (case_match; try discriminate H). injection H as <- _ _. eauto. }
  split; [by destruct Hwf|eauto].
Qed.

Lemma last_write_cons c dt ws h : writes h = (c, dt) :: ws -> last_write c h = Some dt.
Proof. intros H. unfold last_write. rewrite H. cbn. by rewrite bool_decide_true. Qed.

Lemma sample_answers ref param data :
  0 <= ref < 65536 -> bytes_ok param -> bytes_ok data -> len param < 1000 -> len data < 30000 ->
  let resp := sample_DT {| DT_EOT := true; DT_UserData := ack_data ref param data |} in
  sample_tpkt resp = inr resp /\ answers_job ref param data resp.
Proof.
  intros Href Hp Hd Hlp Hld. cbv zeta. split.
  - unfold sample_tpkt. rewrite decide_True; [done|]. split.
    + unfold sample_DT, ack_data, encode_header_ref. cbn [DT_EOT DT_UserData].
      cbn -[put_u16 app len]. auto 20 with bytes.
    + unfold sample_DT, ack_data, encode_header_ref. cbn -[put_u16 len]. len.
  - exists 0xF0, true, (ack_header ref param data), []. rewrite app_nil_r.
    split; [done|]. split; [apply ack_header_wf; lia|]. split; [done|]. split; [done|].
    split; [by right|done].
Qed.

Lemma peer_answers answer h c dt ws pdu ref param data :
  writes h = (c, dt) :: ws -> carries dt pdu ->
  answer ws pdu = ack_data ref param data ->
  0 <= ref < 65536 -> bytes_ok param -> bytes_ok data -> len param < 1000 -> len data < 30000 ->
  exists resp, @env_ReadFrame (peer_env answer) h c = inr resp /\ answers_job ref param data resp.
Proof.
  intros Hw (ty & eot & Hd) Ha Href Hp Hdok Hlp Hld. cbn in Hd.
  destruct (sample_answers ref param data) as [Ht Hans]; try done.
  eexists. split; [|exact Hans]. cbn. rewrite Hw, Hd. cbn [DT_UserData]. by rewrite Ha.
Qed.

Lemma sample_serves_reads c : serves_reads sample_mem 20000 c.
Proof.
  intros h dt ws pdu ref a Hw Hcar Hok Hdec Hlim.
  destruct (decode_read_request_inv _ _ _ Hok Hdec) as (Href & Hsz & _).
  assert (bytes_ok (any_slice sample_mem a)) as Hsl.
  { apply List.Forall_forall. intros b Hb. apply in_map_iff in Hb as (z & <- & _).
    unfold sample_mem, is_byte. lia. }
  assert (len (any_slice sample_mem a) = Any_Size a) as Hlen by (by apply len_mem_slice).
  assert (resp_item_wf (resp_byte_item (any_slice sample_mem a) None)) as Hwf.
  { unfold resp_item_wf. cbn -[len NormalizeResponseDataLength]. rewrite Hlen.
    repeat split; try done; try lia; unfold is_byte; lia. }
  destruct (sample_answers ref [FuncReadVar; 1] (plc_read sample_mem a))
    as [Ht Ha]; try done.
  - repeat constructor; done.
  - by apply bytes_ok_encode_resp_item.
  - unfold plc_read. fold (any_slice sample_mem a). rewrite len_encode_resp_item.
    cbn -[len any_slice]. rewrite Hlen, len_nil. lia.
  - eexists _, _. split; [|split; [exact Ha|]].
    + cbn [env_ReadFrame sample sample_env]. rewrite (last_write_cons c dt ws) by done.
      destruct Hcar as (ty & eot & Hd). cbn in Hd. unfold plc_frame. rewrite Hd.
      cbn [DT_UserData]. unfold plc. rewrite Hdec. exact Ht.
    + exists (resp_byte_item (any_slice sample_mem a) None), [].
      split; [by rewrite app_nil_r|]. split; [|done].
      split; [done|]. split; [|done]. unfold fill_ok. case_if; [done|by right].
Qed.

Lemma sample_serves_writes c : serves_writes c.
Proof.
  intros h dt ws pdu ref a v Hw Hcar Hok Hdec.
  destruct (decode_write_request_inv _ _ _ _ Hok Hdec) as (Href & hd & l & Hp).
  destruct (sample_answers ref [FuncWriteVar; 1] [0xFF]) as [Ht Ha];
    [done|by repeat constructor|by repeat constructor|done|done|].
  eexists _, []. split; [|exact Ha].
  cbn [env_ReadFrame sample sample_env]. rewrite (last_write_cons c dt ws) by done.
  destruct Hcar as (ty & eot & Hd). cbn in Hd. unfold plc_frame. rewrite Hd.
  cbn [DT_UserData]. unfold plc. rewrite Hdec.
  replace (decode_read_request pdu) with (@None (Z * list S7AnyAddress)); [exact Ht|].
  unfold decode_read_request. rewrite Hp. destruct l; [done|]. by rewrite andb_false_r.
Qed.

Lemma sample_live c : live Background c.
Proof. by split. Qed.
Lemma sample_marshals : marshals.
Proof. intros pdu. by eexists. Qed.

(** A client connected to the sample PLC with the given PDU size, on connection 0. *)
Definition sample_client (pdu : Z) : Sys :=
  {| wld := {| hist := []; conns := [fresh_conn 0] |};
     cl := install 0 0 2 0x100 0x302 {| Setup_MaxAmqCalling := 1; Setup_MaxAmqCalled := 1;
                                        Setup_PDUSize := pdu |} (NewClient "plc" []) |}.

Lemma sample_open pdu : open_at 0 (wld (sample_client pdu)).
Proof. by eexists. Qed.
Lemma sample_on_heap pdu : client_on_heap (sample_client pdu).
Proof. intros c [= <-]. by eexists. Qed.

Definition db1 (start size : Z) : Address :=
  {| Address_Area := AreaDB; Address_DBNumber := 1; Address_Start := start;
     Address_Size := size |}.

Lemma ReadArea_outcome_witness :
  let '(s', r) := ReadArea Background (db1 10 300) (sample_client 240) in
  same_session (sample_client 240) s' /\
  match r with
  | Ok x => validateAddress (db1 10 300) = Ok tt /\ read_result_ok 300 x
  | Err e => validateAddress (db1 10 300) = Err e /\ s' = sample_client 240
  | Panic => False
  end.
Proof.
  destruct (ReadArea Background (db1 10 300) (sample_client 240)) as [s' r] eqn:H.
  apply (ReadArea_outcome Background (db1 10 300) (sample_client 240) s' r);
    [apply sample_on_heap|exact H].
Defined.

Lemma ReadArea_serves_witness :
  exists s' x ws,
    ReadArea Background (db1 10 300) (sample_client 240) = (s', Ok x) /\
    Status x = ReadStatusSuccess /\ RequestedLength x = 300 /\
    Data x = mem_slice sample_mem AreaDB 1 10 300 /\
    writes (hist (wld s')) = ws ++ [] /\
    Forall2 (read_frame 0) (rev ws)
      (read_plan (db1 10 300) 10 (planReadChunks 300 (read_chunk_size 240))).
Proof.
  apply (ReadArea_serves sample_mem 0 Background (sample_live 0) sample_marshals
    (db1 10 300) (sample_client 240)).
  - reflexivity.
  - apply sample_open.
  - right. vm_compute. discriminate.
  - reflexivity.
  - intros h dt ws pdu ref a Hw Hc Hok Hd Hl. eapply sample_serves_reads; try eassumption.
    etransitivity; [exact Hl|]. vm_compute. discriminate.
  - unfold address_in_range, is_byte. vm_compute. intuition discriminate.
Defined.

Lemma WriteArea_serves_witness :
  exists s' ws reqs,
    WriteArea Background (db1 10 0) (replicate 501 7) (sample_client 240) = (s', Ok tt) /\
    writes (hist (wld s')) = ws ++ [] /\
    Forall2 (write_frame 0) (rev ws) reqs /\
    forall mem ar d x, exec_writes mem reqs ar d x
      = mem_write mem AreaDB 1 10 (replicate 501 7) ar d x.
Proof.
  apply (WriteArea_serves 0 Background (sample_live 0) sample_marshals
    (db1 10 0) (replicate 501 7) (sample_client 240)).
  - apply sample_serves_writes.
  - reflexivity.
  - apply sample_open.
  - vm_compute. intuition discriminate.
  - left. reflexivity.
  - reflexivity.
  - unfold write_in_range, is_byte. vm_compute. intuition discriminate.
  - apply (bool_decide_unpack _). vm_compute. exact I.
Defined.

Lemma WriteArea_odd_pdu_witness :
  exists s' e,
    WriteArea Background (db1 10 0) (replicate 300 7) (sample_client 241) = (s', Err e) /\
    errors_Is e ErrRequestExceedsPDU = true /\ writes (hist (wld s')) = [].
Proof.
  apply (WriteArea_odd_pdu Background (db1 10 0) (replicate 300 7) (sample_client 241));
    [discriminate|reflexivity|reflexivity|reflexivity|reflexivity|vm_compute; discriminate].
Defined.

Lemma job_response_classified_witness :
  let e := match job_response 8 sample_response with Err e => e | _ => EMsg "" end in
  classifyOpError (Some e) = ReadStatusRejected /\ is_Some (errors_As_S7 e) \/ malformed e.
Proof.
  cbv zeta. apply (job_response_classified 8 sample_response); [|reflexivity].
  intros bs e H. cbn in H. unfold sample_Decode in H.
  repeat (case_match; try done); injection H as <-; by split.
Defined.
