(* ===== verification/ClientConnect.v ===== *)
(** * Connecting to a peer that accepts

    [Connect] against a peer that confirms the connection request and answers the setup:
    it succeeds, with what the peer has negotiated. *)

From S2P Require Import Prelude GoError GoMonad GoStrings WireErrors WireHeader WireCotp WireReadWrite WireSpec WireSetup ModelTypes Transport ClientTypes ClientCore ClientReadWrite Sample.

(** A peer that accepts a connection on [c] made with these options and TSAPs, and
    negotiates [setup]. *)
Record accepts `{E : Env} `{C : Cotp} (ctx : Ctx) (c : cid) (o : options) (local remote : Z)
    (setup : SetupCommResponse) : Prop := {
  acc_live : live ctx c;
  acc_dial h addr : env_Dial h ctx addr (timeout o) = None;
  acc_CC h cr ws :
    writes h = (c, cr) :: ws -> EncodeCOTPCR local remote = Ok cr ->
    exists resp dec, env_ReadFrame h c = inr resp /\ cotp_Decode resp = inr dec /\
      Decoded_Type dec = cotp_TypeCC;
  acc_setup h dt ws :
    writes h = (c, dt) :: ws ->
    EncodeCOTPDT (EncodeSetupCommRequest 1 (maxAmqCalling o) (maxAmqCalled o) (maxPDU o)) = Ok dt ->
    exists resp data, env_ReadFrame h c = inr resp /\
      answers_job 1 (setup_param setup) data resp }.

(** Connection requests can be encoded. *)
Definition requests `{C : Cotp} : Prop := forall l r, exists cr, EncodeCOTPCR l r = Ok cr.

Section Connect.
Context `{E : Env} `{EL : !EnvLaws} `{C : Cotp} `{HL : !CotpLaws}.

Lemma setup_response_answers resp setup data :
  bytes_ok resp -> len resp < 65536 -> setup_wf setup ->
  answers_job 1 (setup_param setup) data resp -> setup_response 1 resp = Ok setup.
Proof.
  intros Hok Hlen Hwf (ty & eot & h & tl & Hd & Hh & Hp & Hdl & Href & Hc & Hcode).
  unfold setup_response. erewrite decode_dt_complete; [|exact Hd|done|len].
  destruct Href as [[=]|Href].
  cbn [res_bind]. rewrite Href, Hc, Hcode. cbn [Z.eqb Pos.eqb negb orb].
  assert (0 < len (setup_param setup ++ data ++ tl)) as Hl by (unfold setup_param; len).
  rewrite (proj2 (Z.ltb_lt _ _)) by done.
  change (go_index (setup_param setup ++ data ++ tl) 0) with (Some FuncSetupComm).
  cbn [checked res_bind]. change (negb (FuncSetupComm =? FuncSetupComm)) with false. cbn match.
  by rewrite ParseSetupCommResponse_setup.
Qed.

Lemma performCOTPConnect_accepted ctx c o l r setup w :
  accepts ctx c o l r setup -> requests -> open_at c w ->
  exists w', performCOTPConnect ctx c l r w = (w', Ok tt) /\ conns w' = conns w.
Proof.
  intros Hacc Hreq Hop. pose proof (acc_live _ _ _ _ _ _ Hacc) as HL0.
  destruct (Hreq l r) as [cr Hcr].
  destruct (ctx_check_live ctx c w HL0) as (w1 & H1 & Hh1 & Hw1).
  assert (open_at c w1) as Hop1 by (unfold open_at in *; by rewrite Hh1).
  destruct (SendContext_live ctx c cr w1 HL0 Hop1) as (w2 & H2 & Hh2 & Hw2).
  assert (open_at c w2) as Hop2 by (unfold open_at in *; by rewrite Hh2).
  destruct (ReceiveContext_live (fun resp => exists dec, cotp_Decode resp = inr dec /\
    Decoded_Type dec = cotp_TypeCC) ctx c w2 HL0 Hop2) as (w3 & resp & H3 & [Hh3 _] & dec & Hdec & Ht).
  { intros h Hh. rewrite Hw2 in Hh. destruct (acc_CC _ _ _ _ _ _ Hacc _ _ _ Hh Hcr)
      as (resp & dec & ? & ? & ?). eauto. }
  exists w3. split; [|congruence]. unfold performCOTPConnect.
  rewrite (bind_step _ _ _ _ _ H1), Hcr. cbn [map_err]. rewrite bind_lift_Ok.
  rewrite (bind_step _ _ _ _ _ H2), (bind_step _ _ _ _ _ H3), Hdec. cbn [of_ext map_err].
  rewrite bind_lift_Ok, Ht, Z.eqb_refl. done.
Qed.

Lemma performS7Setup_accepted ctx c o l r setup w :
  accepts ctx c o l r setup -> marshals -> setup_wf setup -> open_at c w ->
  exists w', performS7Setup ctx c 1 (maxAmqCalling o) (maxAmqCalled o) (maxPDU o) w
      = (w', Ok setup) /\ conns w' = conns w.
Proof.
  intros Hacc Hm Hwf Hop. pose proof (acc_live _ _ _ _ _ _ Hacc) as HL0.
  destruct (Hm (EncodeSetupCommRequest 1 (maxAmqCalling o) (maxAmqCalled o) (maxPDU o)))
    as [dt Hdt].
  destruct (ctx_check_live ctx c w HL0) as (w1 & H1 & Hh1 & Hw1).
  assert (open_at c w1) as Hop1 by (unfold open_at in *; by rewrite Hh1).
  destruct (SendContext_live ctx c dt w1 HL0 Hop1) as (w2 & H2 & Hh2 & Hw2).
  assert (open_at c w2) as Hop2 by (unfold open_at in *; by rewrite Hh2).
  destruct (ReceiveContext_live (fun resp => setup_response 1 resp = Ok setup) ctx c w2 HL0 Hop2)
    as (w3 & resp & H3 & [Hh3 _] & Hresp).
  { intros h Hh. rewrite Hw2 in Hh. destruct (acc_setup _ _ _ _ _ _ Hacc _ _ _ Hh Hdt)
      as (resp & data & Hr & Ha). exists resp. split; [done|].
    destruct (env_ReadFrame_ok _ _ _ Hr). by eapply setup_response_answers. }
  exists w3. split; [|congruence]. unfold performS7Setup.
  rewrite (bind_step _ _ _ _ _ H1), Hdt. cbn [map_err]. rewrite bind_lift_Ok.
  rewrite (bind_step _ _ _ _ _ H2), (bind_step _ _ _ _ _ H3). unfold lift. by rewrite Hresp.
Qed.

Lemma connectOnce_accepted ctx rk sl l r setup s :
  client_on_heap s -> accepts ctx (length (conns (wld s))) (opts (cl s)) l r setup ->
  connect_tsaps (opts (cl s)) rk sl = Ok (l, r) -> requests -> marshals -> setup_wf setup ->
  exists s', connectOnce ctx rk sl s = (s', Ok tt) /\
    cl s' = install (length (conns (wld s))) rk sl l r setup (cl s).
Proof.
  intros Hs Hacc Ht Hreq Hm Hwf. set (c := length (conns (wld s))) in *.
  set (o := opts (cl s)) in *.
  destruct (connectOnce ctx rk sl s) as [s' res] eqn:H. exists s'.
  pose proof (connectOnce_outcome _ _ _ _ _ _ Hs H) as Hout.
  unfold connectOnce in H. cbn [bind gets] in H. fold o in H.
  set (addr := JoinHostPort (host (cl s)) (dec (port o))) in *.
  destruct (dialTransport ctx addr (timeout o) (wld s)) as [w1 r1] eqn:H1.
  pose proof H1 as H1'. apply dialTransport_inv in H1' as [(e & -> & _)|[-> Hh1]].
  { exfalso. unfold dialTransport, bind, gets in H1. cbn in H1.
    rewrite (acc_dial _ _ _ _ _ _ Hacc) in H1. discriminate H1. }
  rewrite (bind_step _ _ _ _ _ (on_net_run _ _ _ _ H1)) in H. fold c in H.
  assert (open_at c w1) as Hop1.
  { exists (fresh_conn (timeout o)). split; [|done]. rewrite Hh1. apply lookup_new. }
  destruct (performCOTPConnect_accepted ctx c o l r setup w1 Hacc Hreq Hop1) as (w2 & H2 & Hh2).
  assert (open_at c w2) as Hop2 by (unfold open_at in *; by rewrite Hh2).
  destruct (performS7Setup_accepted ctx c o l r setup w2 Hacc Hm Hwf Hop2) as (w3 & H3 & Hh3).
  assert (connect_handshake ctx o rk sl c w1 = (w3, Ok (l, r, setup))) as H4.
  { unfold connect_handshake. rewrite Ht. unfold wrap_err at 1, bind at 1. cbn [lift map_err].
    unfold wrap_err at 1, bind at 1. rewrite H2. cbn [map_err].
    unfold wrap_err at 1, bind at 1. by rewrite H3. }
  unfold attempt at 1, bind at 1 in H. rewrite (on_net_run _ _ w3 (Ok (l, r, setup))) in H by done.
  cbn [bind gets set_cl modify wld cl] in H.
  destruct res as [[]|e|]; cbn in Hout; [|exfalso|done].
  - split; [done|].
    destruct Hout as (f & rk' & sl' & l' & r' & st' & Hin & Hf & Ht' & Hc & Hcl).
    apply list_elem_of_singleton in Hin as [= -> ->].
    assert (cl s' = install c rk sl l r setup (cl s)) as ->; [|done].
    destruct (conn (cl s)) as [old|]; [|by injection H as <-].
    apply bind_inv in H as [(s4 & z & H5 & H)|[(e & H5 & [=])|[H5 [=]]]].
    injection H as <-. apply attempt_inv in H5 as [(a & H5 & _)|[(e & H5 & _)|[H5 _]]];
      by apply on_net_inv in H5 as [_ ->].
  - destruct (conn (cl s)) as [old|]; [|done].
    apply bind_inv in H as [(s4 & z & H5 & H)|[(e' & H5 & _)|[_ [=]]]]; [done|].
    by apply attempt_inv in H5 as [(a & _ & [=])|[(e2 & _ & [=])|[_ [=]]]].
Qed.

(** C21: [Connect] succeeds against a peer that accepts, at the first rack and slot it
    tries: the client has moved to the new connection, with the TSAPs of that rack and
    slot and with the PDU size and job limits that the peer has answered, whatever the
    client had asked for. *)
Theorem Connect_serves ctx s rk sl l r setup :
  let o := opts (cl s) in
  client_on_heap s -> connect_validate o = Ok tt -> head (connect_pairs o) = Some (rk, sl) ->
  connect_tsaps o rk sl = Ok (l, r) ->
  accepts ctx (length (conns (wld s))) o l r setup -> requests -> marshals -> setup_wf setup ->
  exists s', Connect ctx s = (s', Ok tt) /\
    cl s' = install (length (conns (wld s))) rk sl l r setup (cl s).
Proof.
  intros o Hs Hv Hhd Ht Hacc Hreq Hm Hwf.
  assert (forall s0, conns (wld s0) = conns (wld s) -> cl s0 = cl s ->
    exists s', connectOnce ctx rk sl s0 = (s', Ok tt) /\
      cl s' = install (length (conns (wld s))) rk sl l r setup (cl s)) as Honce.
  { intros s0 Hc0 Hcl0. destruct (connectOnce_accepted ctx rk sl l r setup s0) as (s' & H & Hcl);
      rewrite ?Hcl0, ?Hc0 in *; try done; [|by exists s'].
    intros c. rewrite Hcl0. unfold on_heap. rewrite Hc0. apply Hs. }
  unfold Connect. cbn [bind gets]. fold o. rewrite Hv, bind_lift_Ok.
  unfold connect_pairs in Hhd. destruct (autoRackSlot o && negb (useExplicit o)).
  - assert (forall pairs final, head pairs = Some (rk, sl) ->
      exists s', try_pairs ctx pairs final s = (s', Ok tt) /\
        cl s' = install (length (conns (wld s))) rk sl l r setup (cl s)) as Htry.
    { intros [|[rk' sl'] pairs] final; [done|]. intros [= -> ->]. cbn [try_pairs].
      destruct (ctx_check_live ctx _ (wld s) (acc_live _ _ _ _ _ _ Hacc)) as (w1 & H1 & Hh1 & _).
      rewrite (bind_step _ _ _ _ _ (on_net_run _ _ _ _ H1)).
      destruct (Honce {| wld := w1; cl := cl s |}) as (s' & H & Hcl); [done|done|].
      exists s'. split; [|done]. unfold attempt, bind at 1. by rewrite H. }
    assert (exists s', autoConnect ctx s = (s', Ok tt) /\
      cl s' = install (length (conns (wld s))) rk sl l r setup (cl s)) as (s' & H & Hcl).
    { unfold autoConnect. cbn [bind gets]. fold o. destruct (bruteRackSlot o); by apply Htry. }
    exists s'. split; [|done]. unfold log_failure, attempt, bind at 1. by rewrite H.
  - injection Hhd as <- <-. destruct (Honce s) as (s' & H & Hcl); [done|done|].
    exists s'. split; [|done]. unfold log_failure, attempt, bind at 1. by rewrite H.
Qed.
End Connect.

(** ** Witness *)

#[local] Existing Instance sample_cotp.
#[local] Instance sample : Env := sample_env sample_mem.
#[local] Instance sample_laws : EnvLaws := sample_env_laws sample_mem.

Definition sample_setup : SetupCommResponse :=
  {| Setup_MaxAmqCalling := 1; Setup_MaxAmqCalled := 1; Setup_PDUSize := 240 |}.

(** The frame read after a frame written is decided by that frame. *)
Lemma sample_read h (c : cid) frame ws resp : writes h = (c, frame) :: ws ->
  sample_tpkt (plc_frame sample_mem frame) = inr resp -> env_ReadFrame h c = inr resp.
Proof. intros Hw Hr. cbn. by rewrite (last_write_cons _ _ _ _ Hw). Qed.

Lemma sample_accepts :
  accepts Background 0 (opts (cl sample_init)) 0x100 0x302 sample_setup.
Proof.
  split.
  - by split.
  - done.
  - intros h cr ws Hw [= <-]. eexists [0x06; 0xD0; 0; 1; 0; 2; 0], _.
    split; [apply (sample_read _ _ _ _ _ Hw); vm_compute; reflexivity|].
    split; reflexivity.
  - intros h dt ws Hw [= <-].
    exists (sample_DT {| DT_EOT := true; DT_UserData := ack_data 1 (setup_param sample_setup) [] |}), [].
    split; [apply (sample_read _ _ _ _ _ Hw); vm_compute; reflexivity|].
    exists 0xF0, true, (ack_header 1 (setup_param sample_setup) []), [].
    split; [reflexivity|]. split; [apply ack_header_wf; by vm_compute|].
    split; [done|]. split; [done|]. split; [by right|done].
Qed.

Lemma sample_requests : requests.
Proof. intros l r. by eexists. Qed.

Lemma Connect_serves_witness :
  exists s', Connect Background sample_init = (s', Ok tt) /\
    cl s' = install 0 0 2 0x100 0x302 sample_setup (cl sample_init).
Proof.
  apply (Connect_serves Background sample_init 0 2 0x100 0x302 sample_setup).
  - by intros c.
  - reflexivity.
  - reflexivity.
  - vm_compute. reflexivity.
  - apply sample_accepts.
  - apply sample_requests.
  - apply sample_marshals.
  - by vm_compute.
Defined.
