(* ===== verification/ClientSzl.v ===== *)
(** * client/szl.go

    The system status list queries; [Identify], which evaluates two of them, is in
    Identify.v. *)

From S2P Require Import Prelude GoError GoMonad WireErrors WireHeader WireCotp WireReadWrite WireSpec WireSzl ModelTypes Transport ClientTypes ClientCore ClientReadWrite Sample.

Section Szl.
Context `{E : Env} `{C : Cotp}.

(** The exchange every query starts with: [ref := c.nextPDURef()], the request, the
    exchange and [wire.ParseSZLResponse] of the data section. *)
Definition query_szl (ctx : Ctx) (szlID szlIndex : Z) : M Sys SZLResponse :=
  let* ref := nextPDURef in
  let req := EncodeSZLRequest ref szlID szlIndex in
  let* ' (_, data) := sendReceive ctx req ref in
  lift (ParseSZLResponse data).

Definition readModuleIDSZL (ctx : Ctx) : M Sys bytes :=
  let* resp := query_szl ctx SZLModuleID 0 in
  ret (SZL_Data resp).

Definition readComponentIDSZL (ctx : Ctx) : M Sys bytes :=
  let* resp := query_szl ctx SZLComponentID 0 in
  ret (SZL_Data resp).

(** The decoding of the CPU state record. *)
Definition cpu_state (data : bytes) : res CPUState :=
  if 4 <=? len data then
    let! state := go_index data 2 in
    if state =? 0x08 then Ok CPUStateRun
    else if state =? 0x04 then Ok CPUStateStop
    else if state =? 0x01 then Ok CPUStateStartup
    else Ok CPUStateUnknown
  else Ok CPUStateUnknown.

(** The value returned beside an error is [CPUStateUnknown]. *)
Definition GetCPUState (ctx : Ctx) : M Sys CPUState :=
  let* resp := query_szl ctx SZLCPUState 0 in
  lift (cpu_state (SZL_Data resp)).

Definition protection_level (data : bytes) : res ProtectionLevel :=
  if 4 <=? len data then
    let! level := go_index data 2 in
    Ok (Z.land level 0x03)
  else Ok ProtectionNone.

Definition GetProtectionLevel (ctx : Ctx) : M Sys ProtectionLevel :=
  let* resp := query_szl ctx SZLProtectionInfo 0 in
  lift (protection_level (SZL_Data resp)).

Definition ReadDiagBufferRaw (ctx : Ctx) : M Sys bytes :=
  let* resp := query_szl ctx SZLDiagBuffer 0 in
  ret (SZL_Data resp).

Definition diagEntrySize := 20.

(** The loop of [ReadDiagBuffer] from [offset] on; a round consumes an entry, so the
    number of bytes bounds the rounds. *)
Fixpoint diag_loop (fuel : nat) (raw : bytes) (offset : Z) : res (list DiagEntry) :=
  match fuel with
  | O => Ok []
  | S fuel =>
      if offset + diagEntrySize <=? len raw then
        let! b0 := go_index raw offset in
        let! b1 := go_index raw (offset + 1) in
        let! b2 := go_index raw (offset + 2) in
        let! b3 := go_index raw (offset + 3) in
        let entry := {| DE_Timestamp := ""; DE_EventID := Z.lor (u16 (Z.shiftl b0 8)) b1;
                        DE_EventClass := b2; DE_Priority := b3; DE_Description := "";
                        DE_Info1 := 0; DE_Info2 := 0 |} in
        let? entries := diag_loop fuel raw (offset + diagEntrySize) in
        Ok (entry :: entries)
      else Ok []
  end.

Definition diag_entries (raw : bytes) : res (list DiagEntry) :=
  diag_loop (S (length raw)) raw 0.

Definition ReadDiagBuffer (ctx : Ctx) : M Sys DiagBuffer :=
  let* raw := ReadDiagBufferRaw ctx in
  let* entries := lift (diag_entries raw) in
  ret {| DB_Entries := entries; DB_TotalCount := len entries |}.
End Szl.

(** [trimString] *)
Fixpoint drop_padding (l : bytes) : bytes :=
  match l with
  | b :: l' => if (b =? 0) || (b =? 32) then drop_padding l' else l
  | [] => []
  end.

Definition trimString (data : bytes) : string :=
  string_of_bytes (reverse (drop_padding (reverse data))).

(** ** The decoding of records *)

(** The entry in the first bytes of a record of [diagEntrySize] bytes. *)
Definition diag_entry (record : bytes) : option DiagEntry :=
  match record with
  | b0 :: b1 :: b2 :: b3 :: _ =>
      Some {| DE_Timestamp := ""; DE_EventID := b0 * 256 + b1; DE_EventClass := b2;
              DE_Priority := b3; DE_Description := ""; DE_Info1 := 0; DE_Info2 := 0 |}
  | _ => None
  end.

Lemma diag_loop_step fuel pre record tl e :
  bytes_ok record -> len record = diagEntrySize -> diag_entry record = Some e ->
  diag_loop (S fuel) (pre ++ record ++ tl) (len pre) =
  (let? entries := diag_loop fuel ((pre ++ record) ++ tl) (len (pre ++ record)) in
   Ok (e :: entries)).
Proof.
  unfold diagEntrySize. intros Hok Hlen He.
  destruct record as [|b0 [|b1 [|b2 [|b3 record]]]]; try done.
  injection He as <-. do 2 apply Forall_cons_1 in Hok as [? Hok].
  cbn [diag_loop]. unfold diagEntrySize.
  rewrite (proj2 (Z.leb_le _ _)) by (revert Hlen; len).
  rewrite (go_index_app_plus _ _ (len pre) 0),
    !(go_index_app_plus pre _ (len pre + _) _ eq_refl) by lia.
  cbn [app]. indices. rewrite <- app_assoc, (len_app pre), Hlen. cbn [app].
  assert (Z.lor (u16 (Z.shiftl b0 8)) b1 = b0 * 256 + b1) as ->; [|done].
  unfold is_byte in *. rewrite Z.shiftl_mul_pow2, u16_small by lia.
  by apply (lor_add b0 b1 8).
Qed.

Lemma diag_loop_end fuel raw off : len raw < off + diagEntrySize ->
  diag_loop fuel raw off = Ok [].
Proof. intros. destruct fuel; cbn; [done|]. by rewrite (proj2 (Z.leb_gt _ _)). Qed.

Lemma diag_loop_records records es rest fuel pre :
  Forall (fun r => bytes_ok r /\ len r = diagEntrySize) records ->
  Forall2 (fun r e => diag_entry r = Some e) records es -> len rest < diagEntrySize ->
  (length records < fuel)%nat ->
  diag_loop fuel (pre ++ concat records ++ rest) (len pre) = Ok es.
Proof.
  intros Hr He Hrest. revert fuel pre es He. induction Hr as [|r rs [Hok Hlen] Hr IH];
    intros fuel pre es He Hfuel; inversion He; subst; cbn [concat].
  - apply diag_loop_end. len.
  - destruct fuel as [|fuel]; [cbn in Hfuel; lia|].
    rewrite <- app_assoc, (diag_loop_step _ _ _ _ y) by done.
    erewrite IH; [done|done|cbn in Hfuel; lia].
Qed.

(** The diagnostic buffer is decoded record by record: the raw data is cut into
    records of 20 bytes, each gives one entry with its event identifier, class and
    priority, in order; a shorter rest is ignored. *)
Theorem diag_entries_records records es rest :
  Forall (fun r => bytes_ok r /\ len r = diagEntrySize) records ->
  Forall2 (fun r e => diag_entry r = Some e) records es ->
  len rest < diagEntrySize ->
  diag_entries (concat records ++ rest) = Ok es.
Proof.
  intros Hr He Hrest. unfold diag_entries.
  apply (diag_loop_records records es rest _ []); try done.
  rewrite length_app. enough (length records <= length (concat records))%nat by lia.
  clear He. induction Hr as [|r rs [_ Hlen] Hr IH]; [done|]. cbn. rewrite length_app.
  unfold len, diagEntrySize in Hlen. lia.
Qed.

Lemma diag_entries_records_witness :
  diag_entries (concat [replicate 20 1; 0x12 :: 0x34 :: replicate 18 7] ++ [9; 9])
  = Ok [ {| DE_Timestamp := ""; DE_EventID := 0x0101; DE_EventClass := 1; DE_Priority := 1;
            DE_Description := ""; DE_Info1 := 0; DE_Info2 := 0 |};
         {| DE_Timestamp := ""; DE_EventID := 0x1234; DE_EventClass := 7; DE_Priority := 7;
            DE_Description := ""; DE_Info1 := 0; DE_Info2 := 0 |} ].
Proof.
  apply diag_entries_records.
  - repeat (constructor; [split; [apply (bool_decide_unpack _); vm_compute; exact I|done]|]).
    constructor.
  - repeat constructor.
  - done.
Defined.

(** ** Queries against a peer that serves its status lists *)

(** A status list job: its reference and the list and index it asks for. *)
Definition decode_szl_request (pdu : bytes) : option (Z * Z * Z) :=
  match ParseS7Header pdu with
  | Ok (h, [0x00; 0x01; 0x12; 0x04; 0x44; 0x01; 0x00; 0x00;
            0xFF; 0x09; 0x00; 0x04; i1; i0; x1; x0]) =>
      if IsUserdata (Header_ROSCTR h) && (ParamLength h =? 8) && (DataLength h =? 8)
      then Some (PDURef h, i1 * 256 + i0, x1 * 256 + x0) else None
  | _ => None
  end.

Lemma len_EncodeSZLRequest ref id idx : len (EncodeSZLRequest ref id idx) = 26.
Proof. unfold EncodeSZLRequest. len. Qed.

Lemma bytes_ok_EncodeSZLRequest ref id idx : bytes_ok (EncodeSZLRequest ref id idx).
Proof.
  unfold EncodeSZLRequest. apply bytes_ok_app. split.
  - apply bytes_ok_app. split; [apply bytes_ok_EncodeS7Header|].
    apply (bool_decide_unpack _). vm_compute. exact I.
  - auto 20 with bytes.
Qed.

Lemma decode_EncodeSZLRequest ref id idx :
  0 <= ref < 65536 -> 0 <= id < 65536 -> 0 <= idx < 65536 ->
  decode_szl_request (EncodeSZLRequest ref id idx) = Some (ref, id, idx).
Proof.
  intros Href Hid Hidx. unfold decode_szl_request, EncodeSZLRequest.
  rewrite <- app_assoc.
  rewrite (ParseS7Header_frame ROSCTRUserdata ref
    [0x00; 0x01; 0x12; 0x04; UserdataSubParam; UserdataSZL; 0x00; 0x00]
    ([RetCodeSuccess; 0x09] ++ put_u16 4 ++ put_u16 id ++ put_u16 idx)) by (done || len).
  rewrite !put_u16_eq. cbn.
  replace (id / 256 mod 256 * 256 + id mod 256) with id by lia.
  by replace (idx / 256 mod 256 * 256 + idx mod 256) with idx by lia.
Qed.

(** A peer that holds status list records and answers a query with the record. *)
Definition serves_szl `{E : Env} `{C : Cotp} (records : Z -> Z -> option bytes) (c : cid)
    : Prop :=
  forall h dt ws pdu ref id idx payload,
    writes h = (c, dt) :: ws -> carries dt pdu -> bytes_ok pdu ->
    decode_szl_request pdu = Some (ref, id, idx) -> records id idx = Some payload ->
    exists resp param ts tr, env_ReadFrame h c = inr resp /\
      4 + len payload < 65536 /\
      answers_job ref param (encode_szl_response ts id idx payload ++ tr) resp.

Section Serves.
Context `{E : Env} `{EL : !EnvLaws} `{C : Cotp} `{HL : !CotpLaws}.

Lemma ParseSZLResponse_encoded ts id idx payload tr :
  0 <= id < 65536 -> 0 <= idx < 65536 -> 4 + len payload < 65536 ->
  ParseSZLResponse (encode_szl_response ts id idx payload ++ tr)
  = Ok {| SZL_ID := id; SZL_Index := idx; SZL_DataLength := 4 + len payload;
          SZL_Data := payload |}.
Proof.
  intros Hid Hidx Hl. unfold ParseSZLResponse, encode_szl_response. unfold put_u16; cbn [app].
  case_if; [len|]. indices. rewrite !get_put_u16, !u16_small by len.
  case_if; [len|]. case_if; [len|]. slices.
  rewrite take_app_length' by (unfold len; lia). done.
Qed.

Lemma query_szl_serves ctx records c id idx payload s :
  live ctx c -> marshals -> serves_szl records c ->
  conn (cl s) = Some c -> open_at c (wld s) ->
  pduSize (cl s) <= 0 \/ 26 <= pduSize (cl s) ->
  0 <= id < 65536 -> 0 <= idx < 65536 -> records id idx = Some payload ->
  exists s' resp, query_szl ctx id idx s = (s', Ok resp) /\ SZL_Data resp = payload /\
    same_session s s'.
Proof.
  intros Hlive Hm Hsrv Hc Hop Hpdu Hid Hidx Hrec.
  destruct (query_szl ctx id idx s) as [s' r] eqn:H.
  assert (same_session s s') as Hsame.
  { revert H. apply (preserves_bind same_session); [apply nextPDURef_session|]. intros ref.
    apply (preserves_bind same_session); [apply sendReceive_session|]. intros [p d].
    apply (preserves_lift _). }
  unfold query_szl in H. rewrite (bind_step _ _ _ _ _ (nextPDURef_run _)) in H.
  set (ref := u16 (pduRef (cl s) + 1)) in *.
  match type of H with _ ?s1 = _ => set (s1' := s1) in * end.
  destruct (Hm (EncodeSZLRequest ref id idx)) as [dt Hdt].
  assert (0 <= ref < 65536) as Href by apply u16_range.
  destruct (sendReceive_live (fun _ data => ParseSZLResponse data =
      Ok {| SZL_ID := id; SZL_Index := idx; SZL_DataLength := 4 + len payload;
            SZL_Data := payload |}) ctx c (EncodeSZLRequest ref id idx) dt ref s1')
    as (w' & param & data & Hsr & _ & Hp); try done.
  { intros h Hh. edestruct (Hsrv h dt) as (resp & param & ts & tr & Hrf & Hl & Hans);
      [exact Hh|by apply EncodeCOTPDT_carries|apply bytes_ok_EncodeSZLRequest
      |by apply decode_EncodeSZLRequest|exact Hrec|].
    destruct (env_ReadFrame_ok _ _ _ Hrf) as [Hok Hlen].
    exists resp, param, (encode_szl_response ts id idx payload ++ tr). split; [done|].
    split; [by apply job_response_complete|]. by apply ParseSZLResponse_encoded. }
  rewrite (bind_step _ _ _ _ _ Hsr) in H. unfold lift in H. rewrite Hp in H.
  injection H as <- <-. by eexists _, _.
Qed.

(** The steps of a query that succeeded. *)
Lemma query_szl_inv ctx id idx s s' resp :
  query_szl ctx id idx s = (s', Ok resp) ->
  exists ref s1 param data, nextPDURef s = (s1, Ok ref) /\
    sendReceive ctx (EncodeSZLRequest ref id idx) ref s1 = (s', Ok (param, data)) /\
    ParseSZLResponse data = Ok resp.
Proof.
  intros (s1 & ref & H1 & H)%bind_Ok. apply bind_Ok in H as (s2 & [param data] & H2 & H).
  injection H as <- H. by exists ref, s1, param, data.
Qed.

(** What the state and protection records say. *)
Definition cpu_state_of (record : bytes) : CPUState :=
  match record with
  | _ :: _ :: b :: _ :: _ =>
      if b =? 8 then CPUStateRun else if b =? 4 then CPUStateStop
      else if b =? 1 then CPUStateStartup else CPUStateUnknown
  | _ => CPUStateUnknown
  end.

Definition protection_of (record : bytes) : ProtectionLevel :=
  match record with _ :: _ :: b :: _ :: _ => b mod 4 | _ => ProtectionNone end.

Lemma cpu_state_eq record : cpu_state record = Ok (cpu_state_of record).
Proof.
  destruct record as [|b0 [|b1 [|b2 [|b3 l]]]]; try done. unfold cpu_state.
  rewrite (proj2 (Z.leb_le _ _)) by len. indices. by destruct (b2 =? 8), (b2 =? 4), (b2 =? 1).
Qed.

Lemma protection_level_eq record : protection_level record = Ok (protection_of record).
Proof.
  destruct record as [|b0 [|b1 [|b2 [|b3 l]]]]; try done. unfold protection_level.
  rewrite (proj2 (Z.leb_le _ _)) by len. indices. f_equal. by apply (Z.land_ones b2 2).
Qed.

(** C38: Against a peer that serves its status lists, the state, protection and
    diagnostic queries return what the peer's records say, whatever they contain, and
    keep the session: a known state byte is the state, anything else is unknown; the
    protection level is the low two bits of its byte. *)
Theorem SZL_queries_serve ctx records c s state prot diag :
  live ctx c -> marshals -> serves_szl records c ->
  conn (cl s) = Some c -> open_at c (wld s) -> pduSize (cl s) <= 0 \/ 26 <= pduSize (cl s) ->
  records SZLCPUState 0 = Some state -> records SZLProtectionInfo 0 = Some prot ->
  records SZLDiagBuffer 0 = Some diag ->
  (exists s', GetCPUState ctx s = (s', Ok (cpu_state_of state)) /\ same_session s s') /\
  (exists s', GetProtectionLevel ctx s = (s', Ok (protection_of prot)) /\ same_session s s') /\
  (exists s', ReadDiagBufferRaw ctx s = (s', Ok diag) /\ same_session s s').
Proof.
  intros Hlive Hm Hsrv Hc Hop Hpdu Hst Hpr Hdi.
  assert (forall id payload, 0 <= id < 65536 -> records id 0 = Some payload ->
    exists s' resp, query_szl ctx id 0 s = (s', Ok resp) /\ SZL_Data resp = payload /\
      same_session s s') as Hq by (intros; by eapply query_szl_serves).
  split; [|split].
  - destruct (Hq SZLCPUState state) as (s' & resp & Hr & <- & Hs); [by vm_compute|done|].
    exists s'. split; [|done]. unfold GetCPUState. rewrite (bind_step _ _ _ _ _ Hr).
    unfold lift. by rewrite cpu_state_eq.
  - destruct (Hq SZLProtectionInfo prot) as (s' & resp & Hr & <- & Hs); [by vm_compute|done|].
    exists s'. split; [|done]. unfold GetProtectionLevel. rewrite (bind_step _ _ _ _ _ Hr).
    unfold lift. by rewrite protection_level_eq.
  - destruct (Hq SZLDiagBuffer diag) as (s' & resp & Hr & <- & Hs); [by vm_compute|done|].
    exists s'. split; [|done]. unfold ReadDiagBufferRaw. by rewrite (bind_step _ _ _ _ _ Hr).
Qed.
End Serves.

(** ** Witness *)

#[local] Existing Instance sample_cotp.

Definition szl_answer (records : Z -> Z -> option bytes) (ws : list (cid * bytes)) (pdu : bytes)
    : bytes :=
  match decode_szl_request pdu with
  | Some (ref, id, idx) =>
      match records id idx with
      | Some payload => ack_data ref [0; 1; 0x12; 8; 0x12; 0x84; 1; 1]
                          (encode_szl_response 9 id idx payload)
      | None => []
      end
  | None => []
  end.

Lemma decode_szl_request_range pdu ref id idx :
  bytes_ok pdu -> decode_szl_request pdu = Some (ref, id, idx) ->
  0 <= ref < 65536 /\ 0 <= id < 65536 /\ 0 <= idx < 65536.
Proof.
  intros Hok H. unfold decode_szl_request in H.
  destruct (ParseS7Header pdu) as [[h l]| |] eqn:Hp; try done.
  apply ParseS7Header_sound in Hp as (-> & Hwf & _); [|done].
  apply bytes_ok_app in Hok as [_ Hok].
  repeat match type of H with match ?x with _ => _ end = _ =>
    is_var x; destruct x; try discriminate H end.
  destruct (_ && _) in H; [|done]. injection H as <- <- <-.
  repeat (apply Forall_cons_1 in Hok as [? Hok]). unfold is_byte in *.
  split; [by destruct Hwf|lia].
Qed.

Lemma sample_serves_szl records c :
  (forall id idx p, records id idx = Some p -> bytes_ok p /\ len p < 20000) ->
  serves_szl (E := peer_env (szl_answer records)) records c.
Proof.
  intros Hr h dt ws pdu ref id idx payload Hw Hcar Hok Hdec Hrec.
  destruct (decode_szl_request_range _ _ _ _ Hok Hdec) as (Href & Hid & Hidx).
  destruct (Hr _ _ _ Hrec) as [Hp Hl].
  destruct (peer_answers (szl_answer records) h c dt ws pdu ref
    [0; 1; 0x12; 8; 0x12; 0x84; 1; 1] (encode_szl_response 9 id idx payload))
    as (resp & Hrf & Ha); try done.
  - unfold szl_answer. by rewrite Hdec, Hrec.
  - repeat constructor; done.
  - unfold encode_szl_response. auto 20 with bytes.
  - unfold encode_szl_response. len.
  - exists resp, [0; 1; 0x12; 8; 0x12; 0x84; 1; 1], 9, []. rewrite app_nil_r.
    split; [done|]. split; [lia|done].
Qed.

Definition sample_records (id idx : Z) : option bytes :=
  if id =? SZLCPUState then Some [0; 0; 8; 0]
  else if id =? SZLProtectionInfo then Some [0; 0; 6; 0] else Some (replicate 20 1).

Lemma SZL_queries_serve_witness :
  let E := peer_env (szl_answer sample_records) in
  let s := sample_client 240 in
  (exists s', @GetCPUState E sample_cotp Background s = (s', Ok CPUStateRun)
    /\ same_session s s') /\
  (exists s', @GetProtectionLevel E sample_cotp Background s = (s', Ok ProtectionReadWrite)
    /\ same_session s s') /\
  (exists s', @ReadDiagBufferRaw E sample_cotp Background s = (s', Ok (replicate 20 1))
    /\ same_session s s').
Proof.
  apply (SZL_queries_serve (E := peer_env (szl_answer sample_records))
    (EL := peer_env_laws (szl_answer sample_records)) Background sample_records 0
    (sample_client 240) [0; 0; 8; 0] [0; 0; 6; 0] (replicate 20 1)); try done.
  - apply sample_marshals.
  - apply sample_serves_szl. intros id idx p. unfold sample_records.
    repeat case_if; intros [= <-]; (split; [|done]); apply (bool_decide_unpack _);
      vm_compute; exact I.
  - apply sample_open.
  - by right.
Defined.
