(* ===== verification/Identify.v ===== *)
(** * client/szl.go: [Identify]

    The device information that [Identify] gathers from the identification records, and
    the text heuristics that fill in what the records do not give directly.  Text is
    bytes, read as UTF-8 as Go reads it; what [unicode] says of characters outside ASCII
    is left open. *)

From S2P Require Import Prelude GoError GoMonad GoStrings WireErrors WireHeader WireCotp WireReadWrite WireSpec WireSzl ModelTypes Transport ClientTypes ClientCore ClientReadWrite ClientSzl Sample.

(** ** Runes *)

(** [unicode] outside ASCII. *)
Class Unicode := {
  uni_IsPrint : Z -> bool;
  uni_IsLetter : Z -> bool;
  uni_IsDigit : Z -> bool;
  uni_ToUpper : Z -> Z }.

Definition RuneError : Z := 0xFFFD.
Definition in_range (lo hi b : Z) : bool := (lo <=? b) && (b <=? hi).
Definition cont (b : Z) : bool := in_range 0x80 0xBF b.

(** [utf8.DecodeRuneInString]: the rune at the front and its width. *)
Definition DecodeRune (l : bytes) : Z * nat :=
  match l with
  | [] => (RuneError, 0%nat)
  | b0 :: l =>
      if b0 <? 0x80 then (b0, 1%nat)
      else if in_range 0xC2 0xDF b0 then
        match l with
        | b1 :: _ =>
            if cont b1 then (Z.lor (Z.shiftl (Z.land b0 0x1F) 6) (Z.land b1 0x3F), 2%nat)
            else (RuneError, 1%nat)
        | _ => (RuneError, 1%nat)
        end
      else if in_range 0xE0 0xEF b0 then
        match l with
        | b1 :: b2 :: _ =>
            let lo := if b0 =? 0xE0 then 0xA0 else 0x80 in
            let hi := if b0 =? 0xED then 0x9F else 0xBF in
            if in_range lo hi b1 && cont b2
            then (Z.lor (Z.lor (Z.shiftl (Z.land b0 0x0F) 12) (Z.shiftl (Z.land b1 0x3F) 6))
                    (Z.land b2 0x3F), 3%nat)
            else (RuneError, 1%nat)
        | _ => (RuneError, 1%nat)
        end
      else if in_range 0xF0 0xF4 b0 then
        match l with
        | b1 :: b2 :: b3 :: _ =>
            let lo := if b0 =? 0xF0 then 0x90 else 0x80 in
            let hi := if b0 =? 0xF4 then 0x8F else 0xBF in
            if in_range lo hi b1 && cont b2 && cont b3
            then (Z.lor (Z.lor (Z.shiftl (Z.land b0 0x07) 18) (Z.shiftl (Z.land b1 0x3F) 12))
                    (Z.lor (Z.shiftl (Z.land b2 0x3F) 6) (Z.land b3 0x3F)), 4%nat)
            else (RuneError, 1%nat)
        | _ => (RuneError, 1%nat)
        end
      else (RuneError, 1%nat)
  end.

(** [for i, r := range s]: the runes with the bytes they come from.  Each takes a byte at
    least. *)
Definition rune := (Z * bytes)%type.

Fixpoint runes_from (fuel : nat) (l : bytes) : list rune :=
  match fuel, l with
  | S fuel, _ :: _ =>
      let (r, n) := DecodeRune l in (r, take n l) :: runes_from fuel (drop n l)
  | _, _ => []
  end.

Definition runes (l : bytes) : list rune := runes_from (length l) l.
Definition text (rs : list rune) : bytes := concat (map snd rs).

(** [utf8.AppendRune] *)
Definition EncodeRune (r : Z) : bytes :=
  if in_range 0 0x7F r then [r]
  else if in_range 0 0x7FF r
  then [Z.lor 0xC0 (Z.shiftr r 6); Z.lor 0x80 (Z.land r 0x3F)]
  else
  let r := if (r <? 0) || (0x10FFFF <? r) || in_range 0xD800 0xDFFF r then RuneError else r in
  if r <=? 0xFFFF
  then [Z.lor 0xE0 (Z.shiftr r 12); Z.lor 0x80 (Z.land (Z.shiftr r 6) 0x3F);
        Z.lor 0x80 (Z.land r 0x3F)]
  else [Z.lor 0xF0 (Z.shiftr r 18); Z.lor 0x80 (Z.land (Z.shiftr r 12) 0x3F);
        Z.lor 0x80 (Z.land (Z.shiftr r 6) 0x3F); Z.lor 0x80 (Z.land r 0x3F)].

Definition is_digit (r : Z) : bool := in_range 48 57 r.
Definition is_upper (r : Z) : bool := in_range 65 90 r.
Definition is_lower (r : Z) : bool := in_range 97 122 r.

(** [strings.Contains] *)
Fixpoint contains (sub l : bytes) : bool :=
  match strip_prefix sub l with
  | Some _ => true
  | None => match l with [] => false | _ :: l => contains sub l end
  end.

Fixpoint drop_while {A} (f : A -> bool) (l : list A) : list A :=
  match l with
  | x :: l' => if f x then drop_while f l' else l
  | [] => []
  end.
Fixpoint take_while {A} (f : A -> bool) (l : list A) : list A :=
  match l with
  | x :: l' => if f x then x :: take_while f l' else []
  | [] => []
  end.

Section Unicode.
Context `{U : Unicode}.

Definition IsPrint (r : Z) : bool := if r <? 0x80 then in_range 0x20 0x7E r else uni_IsPrint r.
Definition IsLetter (r : Z) : bool :=
  if r <? 0x80 then is_upper r || is_lower r else uni_IsLetter r.
Definition IsDigit (r : Z) : bool := if r <? 0x80 then is_digit r else uni_IsDigit r.
Definition ToUpper_rune (r : Z) : Z :=
  if r <? 0x80 then if is_lower r then r - 32 else r else uni_ToUpper r.

(** [strings.ToUpper] *)
Definition ToUpper (l : bytes) : bytes :=
  concat (map (fun r => EncodeRune (ToUpper_rune (fst r))) (runes l)).

(** ** Tokens *)

(** [strings.FieldsFunc], from the current field on. *)
Fixpoint FieldsFunc (f : Z -> bool) (cur : list rune) (rs : list rune) : list bytes :=
  let field := match cur with [] => [] | _ => [text cur] end in
  match rs with
  | [] => field
  | r :: rs => if f (fst r) then field ++ FieldsFunc f [] rs else FieldsFunc f (cur ++ [r]) rs
  end.

(** [strings.ReplaceAll(s, "  ", " ")] *)
Fixpoint single_spaces (l : bytes) : bytes :=
  match l with
  | [] => []
  | c :: l' =>
      match l' with
      | c' :: l'' => if (c =? 32) && (c' =? 32) then 32 :: single_spaces l''
                     else c :: single_spaces l'
      | [] => [c]
      end
  end.

(** The cutset of [normalizeToken]: quotation marks, brackets and braces, semicolon, comma. *)
Definition token_cutset : bytes := [34; 39; 91; 93; 40; 41; 123; 125; 59; 44].

Definition normalizeToken (s : bytes) : bytes :=
  let s := trim_space_bytes s in
  let cut c := bool_decide (c ∈ token_cutset) in
  let s := reverse (drop_while cut (reverse (drop_while cut s))) in
  single_spaces s.

Definition extractPrintableTokens (raw : bytes) : list bytes :=
  let parts := FieldsFunc (fun r => (r =? 0) || negb (IsPrint r)) [] (runes raw) in
  List.filter (fun p => 4 <=? len p)
    (map (fun p => normalizeToken (trim_space_bytes p)) parts).

Definition isLikelySerial (s : bytes) : bool :=
  if (len s <? 8) || (24 <? len s) then false
  else existsb (fun r => IsLetter (fst r)) (runes s) && existsb (fun r => IsDigit (fst r)) (runes s).

(** [strings.Join(tokens, " ")] *)
Fixpoint join_tokens (tokens : list bytes) : bytes :=
  match tokens with
  | [] => []
  | t :: tokens => match tokens with [] => t | _ => t ++ 32 :: join_tokens tokens end
  end.
End Unicode.

(** ** The regular expressions

    Each is matched greedily, as Go prefers, and none of them has to give back what it
    has taken: what may follow a repetition is never one of the characters repeated.  The
    flag [i] makes [S] and [K] match the two characters outside ASCII that fold to them. *)

Definition folds_to (c r : Z) : bool :=
  (r =? c) || (r =? c + 32) || ((c =? 83) && (r =? 0x17F)) || ((c =? 75) && (r =? 0x212A)).
Definition alnum_ci (r : rune) : bool :=
  is_digit (fst r) || is_upper (fst r) || is_lower (fst r) || (fst r =? 0x17F) || (fst r =? 0x212A).

(** The first match of a matcher at some place. *)
Fixpoint find_match (m : list rune -> option (list rune)) (rs : list rune) : bytes :=
  match m rs with
  | Some r => text r
  | None => match rs with [] => [] | _ :: rs => find_match m rs end
  end.

(** [6ES7[0-9A-Z\-\/]{4,}] *)
Definition order_match (rs : list rune) : option (list rune) :=
  match rs with
  | r0 :: r1 :: r2 :: r3 :: rs =>
      if (fst r0 =? 54) && folds_to 69 (fst r1) && folds_to 83 (fst r2) && (fst r3 =? 55) then
        let run := take_while (fun r => alnum_ci r || (fst r =? 45) || (fst r =? 47)) rs in
        if 4 <=? len run then Some ([r0; r1; r2; r3] ++ run) else None
      else None
  | _ => None
  end.

(** At most [n] times a dot and digits. *)
Fixpoint dotted_digits (n : nat) (rs : list rune) : list rune :=
  match n, rs with
  | S n, d :: rs =>
      let run := take_while (fun r => is_digit (fst r)) rs in
      if (fst d =? 46) && (0 <? len run)
      then d :: run ++ dotted_digits n (drop (length run) rs)
      else []
  | _, _ => []
  end.

(** [V\s*\d+(?:\.\d+){1,3}] *)
Definition firmware_match (rs : list rune) : option (list rune) :=
  match rs with
  | v :: rs =>
      if folds_to 86 (fst v) then
        let ws := take_while (fun r => bool_decide (fst r ∈ [9; 10; 12; 13; 32])) rs in
        let rs := drop (length ws) rs in
        let ds := take_while (fun r => is_digit (fst r)) rs in
        let groups := dotted_digits 3 (drop (length ds) rs) in
        if (0 <? len ds) && (0 <? len groups) then Some (v :: ws ++ ds ++ groups) else None
      else None
  | [] => None
  end.

(** The matches of [[A-Z0-9]{8,24}], one after the other; a round consumes a rune. *)
Fixpoint serial_matches (fuel : nat) (rs : list rune) : list bytes :=
  match fuel, rs with
  | S fuel, _ :: rs' =>
      let run := take 24 (take_while alnum_ci rs) in
      if 8 <=? len run then text run :: serial_matches fuel (drop (length run) rs)
      else serial_matches fuel rs'
  | _, _ => []
  end.

(** ** The information *)

Definition empty_info : DeviceInfo :=
  {| OrderNumber := ""; SerialNumber := ""; ModuleName := ""; PlantID := ""; Copyright := "";
     ModuleType := ""; FWVersion := ""; HWVersion := ""; CPUType := ""; CPUFamily := "" |}.

Definition set_OrderNumber (v : string) (i : DeviceInfo) : DeviceInfo :=
  {| OrderNumber := v; SerialNumber := SerialNumber i; ModuleName := ModuleName i;
     PlantID := PlantID i; Copyright := Copyright i; ModuleType := ModuleType i;
     FWVersion := FWVersion i; HWVersion := HWVersion i; CPUType := CPUType i;
     CPUFamily := CPUFamily i |}.
Definition set_SerialNumber (v : string) (i : DeviceInfo) : DeviceInfo :=
  {| OrderNumber := OrderNumber i; SerialNumber := v; ModuleName := ModuleName i;
     PlantID := PlantID i; Copyright := Copyright i; ModuleType := ModuleType i;
     FWVersion := FWVersion i; HWVersion := HWVersion i; CPUType := CPUType i;
     CPUFamily := CPUFamily i |}.
Definition set_FWVersion (v : string) (i : DeviceInfo) : DeviceInfo :=
  {| OrderNumber := OrderNumber i; SerialNumber := SerialNumber i; ModuleName := ModuleName i;
     PlantID := PlantID i; Copyright := Copyright i; ModuleType := ModuleType i;
     FWVersion := v; HWVersion := HWVersion i; CPUType := CPUType i; CPUFamily := CPUFamily i |}.
Definition set_CPUType (v : string) (i : DeviceInfo) : DeviceInfo :=
  {| OrderNumber := OrderNumber i; SerialNumber := SerialNumber i; ModuleName := ModuleName i;
     PlantID := PlantID i; Copyright := Copyright i; ModuleType := ModuleType i;
     FWVersion := FWVersion i; HWVersion := HWVersion i; CPUType := v; CPUFamily := CPUFamily i |}.
Definition set_module_names (name plant : string) (i : DeviceInfo) : DeviceInfo :=
  {| OrderNumber := OrderNumber i; SerialNumber := SerialNumber i; ModuleName := name;
     PlantID := plant; Copyright := Copyright i; ModuleType := ModuleType i;
     FWVersion := FWVersion i; HWVersion := HWVersion i; CPUType := CPUType i;
     CPUFamily := CPUFamily i |}.

(** [if info.F == "" && cond { info.F = v }] *)
Definition fill (get : DeviceInfo -> string) (set : string -> DeviceInfo -> DeviceInfo)
    (cond : bool) (v : bytes) (i : DeviceInfo) : DeviceInfo :=
  if String.eqb (get i) "" && cond then set (string_of_bytes v) i else i.

(** What the buffer of a frame holds after a slice of it, up to the capacity of the slice:
    the rest of the frame, and what go-tpkt and go-cotp allocate in excess.  A slice
    expression can reach into it. *)
Class Buffer := buffer_after : Sys -> bytes -> bytes.

Section Identify.
Context `{E : Env} `{C : Cotp} `{U : Unicode} `{B : Buffer}.

(** A round of the loop over the tokens. *)
Definition populate_token (i : DeviceInfo) (tok : bytes) : DeviceInfo :=
  let tok := normalizeToken tok in
  let u := ToUpper tok in
  let i := fill OrderNumber set_OrderNumber (contains (bytes_of_string "6ES7") u) tok i in
  let i := fill CPUType set_CPUType
             (contains (bytes_of_string "CPU") u || contains (bytes_of_string "S7-") u) tok i in
  let i := fill FWVersion set_FWVersion
             (contains (bytes_of_string "V") u && existsb (fun r => IsDigit (fst r)) (runes u)) tok i in
  fill SerialNumber set_SerialNumber (isLikelySerial u) tok i.

(** The first match that looks like a serial number. *)
Definition serial_of (joined : bytes) : option bytes :=
  List.find (fun m => let u := ToUpper m in
    isLikelySerial u && negb (contains (bytes_of_string "6ES7") u))
    (serial_matches (length (runes joined)) (runes joined)).

Definition populateInfoFromRaw (info : DeviceInfo) (raw : bytes) : DeviceInfo :=
  let tokens := extractPrintableTokens raw in
  let joined := join_tokens tokens in
  let m := find_match order_match (runes joined) in
  let info := fill OrderNumber set_OrderNumber (0 <? len m) (normalizeToken m) info in
  let m := find_match firmware_match (runes joined) in
  let info := fill FWVersion set_FWVersion (0 <? len m) (normalizeToken m) info in
  let info := fold_left populate_token tokens info in
  match serial_of joined with
  | Some m => fill SerialNumber set_SerialNumber true (normalizeToken m) info
  | None => info
  end.

(** What [Identify] makes of the module record, and of its error.  The code checks for 20
    bytes and takes 22: [rest] is what the buffer holds after the record. *)
Definition identify_module (rest : bytes) (r : bytes + error) : res (DeviceInfo * list error) :=
  match r with
  | inr errMod => Ok (empty_info, [errMod])
  | inl rawModule =>
      if 20 <=? len rawModule then
        let! order := go_slice (rawModule ++ rest) 2 22 in
        let info := set_OrderNumber (trimString order) empty_info in
        Ok (populateInfoFromRaw info rawModule, [])
      else if 0 <? len rawModule
      then Ok (empty_info, [EMsg ("module ID SZL payload too short: got " +:+ dec (len rawModule))])
      else Ok (empty_info, [])
  end.

Definition identify_component (info : DeviceInfo) (r : bytes + error)
    : res (DeviceInfo * list error) :=
  match r with
  | inr errComp => Ok (info, [errComp])
  | inl rawComponent =>
      if 34 <=? len rawComponent then
        let! name := go_slice rawComponent 2 26 in
        let! plant := go_slice rawComponent 26 34 in
        let info := set_module_names (trimString name) (trimString plant) info in
        Ok (populateInfoFromRaw info rawComponent, [])
      else if 0 <? len rawComponent
      then Ok (info, [EMsg ("component ID SZL payload too short: got "
                        +:+ dec (len rawComponent))])
      else Ok (info, [])
  end.

(** Both results are returned: the information or nil, the error or nil. *)
Definition identify_result (info : DeviceInfo) (errs : list error)
    : option DeviceInfo * option error :=
  match errs with
  | [] => (Some info, None)
  | [e] => (Some info, Some e)
  | _ => (None, Some (EJoin errs))
  end.

Definition Identify (ctx : Ctx) : M Sys (option DeviceInfo * option error) :=
  let* rawModule := attempt (readModuleIDSZL ctx) in
  let* rest := gets (fun s => match rawModule with inl raw => buffer_after s raw | inr _ => [] end) in
  let* ' (info, errs1) := lift (identify_module rest rawModule) in
  let* rawComponent := attempt (readComponentIDSZL ctx) in
  let* ' (info, errs2) := lift (identify_component info rawComponent) in
  ret (identify_result info (errs1 ++ errs2)).
End Identify.

(** ** Properties *)

(** What later text never changes: a field that has a value, and the fields that the
    heuristics do not know. *)
Definition info_le (i j : DeviceInfo) : Prop :=
  (forall get, In get [OrderNumber; FWVersion; CPUType; SerialNumber] ->
     get i <> "" -> get j = get i) /\
  (forall get, In get [ModuleName; PlantID; Copyright; ModuleType; HWVersion; CPUFamily] ->
     get j = get i).

#[export] Instance info_le_preorder : PreOrder info_le.
Proof.
  split; [by intros i|]. intros i j k [H1 H2] [H3 H4]. split; intros get Hin.
  - intros Hne. rewrite (H3 get Hin), (H1 get Hin Hne); [done|]. by rewrite (H1 get Hin Hne).
  - by rewrite (H4 get Hin), (H2 get Hin).
Qed.

Lemma fill_keeps get set cond v i :
  (get = OrderNumber /\ set = set_OrderNumber) \/ (get = SerialNumber /\ set = set_SerialNumber) \/
  (get = FWVersion /\ set = set_FWVersion) \/ (get = CPUType /\ set = set_CPUType) ->
  info_le i (fill get set cond v i).
Proof.
  intros Hgs. unfold fill. destruct (String.eqb_spec (get i) "") as [He|]; [|reflexivity].
  destruct cond; [|reflexivity]. cbn [andb].
  destruct Hgs as [[-> ->]|[[-> ->]|[[-> ->]|[-> ->]]]]; split; intros g Hg;
    repeat destruct Hg as [<-|Hg]; try done.
Qed.

Lemma fold_keeps (f : DeviceInfo -> bytes -> DeviceInfo) l i :
  (forall i x, info_le i (f i x)) -> info_le i (fold_left f l i).
Proof.
  intros Hf. revert i. induction l as [|x l IH]; intros i; cbn; [reflexivity|].
  etransitivity; [apply Hf|apply IH].
Qed.

Section Properties.
Context `{U : Unicode}.

Lemma populate_keeps info raw : info_le info (populateInfoFromRaw info raw).
Proof.
  unfold populateInfoFromRaw.
  assert (forall i t, info_le i (populate_token i t)) as Htok.
  { intros i t. unfold populate_token. repeat (etransitivity; [|apply fill_keeps; auto]).
    reflexivity. }
  set (i1 := fill OrderNumber _ _ _ info). set (i2 := fill FWVersion _ _ _ i1).
  set (i3 := fold_left _ _ i2).
  assert (info_le info i3) as H3.
  { unfold i3, i2, i1. etransitivity; [|by apply fold_keeps].
    repeat (etransitivity; [|apply fill_keeps; auto]). reflexivity. }
  destruct (serial_of _); [|done]. etransitivity; [exact H3|]. apply fill_keeps. auto.
Qed.

Lemma identify_module_panic rest r :
  identify_module rest r = Panic <->
  exists raw, r = inl raw /\ 20 <= len raw /\ len raw + len rest < 22.
Proof.
  unfold identify_module. destruct r as [raw|e]; [|split; [done|by intros (raw & [=] & _)]].
  destruct (Z.leb_spec 20 (len raw)).
  - destruct (Z.lt_ge_cases (len raw + len rest) 22).
    + unfold go_slice. rewrite len_app. replace (22 <=? len raw + len rest) with false by lia. cbn.
      split; [intros _; by exists raw|done].
    + rewrite go_slice_in by len. cbn. split; [done|]. intros (raw' & [= <-] & ?). lia.
  - case_if; (split; [done|intros (raw' & [= <-] & ?); lia]).
Qed.

Lemma identify_module_errs rest r info errs : identify_module rest r = Ok (info, errs) -> len errs <= 1.
Proof.
  unfold identify_module. destruct r as [raw|e]; [|by intros [= _ <-]].
  repeat case_if; try (by intros [= _ <-]). destruct (go_slice (raw ++ rest) 2 22); [|done].
  cbn. by intros [= _ <-].
Qed.

Lemma identify_component_ok info r :
  exists info' errs, identify_component info r = Ok (info', errs) /\ len errs <= 1.
Proof.
  unfold identify_component. destruct r as [raw|e]; [|by eexists _, _].
  repeat case_if; try (by eexists _, _). rewrite !go_slice_in by lia. cbn. by eexists _, _.
Qed.
End Properties.

Section Client.
Context `{E : Env} `{EL : !EnvLaws} `{C : Cotp} `{HL : !CotpLaws} `{U : Unicode} `{B : Buffer}.

Lemma query_szl_session ctx id idx : preserves same_session (query_szl ctx id idx).
Proof. unfold query_szl. preserve. Qed.

Lemma query_szl_safe ctx id idx : safe client_on_heap (query_szl ctx id idx).
Proof.
  unfold query_szl. pose proof (sendReceive_safe ctx). pose proof nextPDURef_safe.
  safely. apply safe_lift, ParseSZLResponse_no_panic.
Qed.

Lemma readModuleIDSZL_safe ctx : safe client_on_heap (readModuleIDSZL ctx).
Proof. unfold readModuleIDSZL. pose proof (query_szl_safe ctx). safely. Qed.
Lemma readComponentIDSZL_safe ctx : safe client_on_heap (readComponentIDSZL ctx).
Proof. unfold readComponentIDSZL. pose proof (query_szl_safe ctx). safely. Qed.

Lemma Identify_session ctx : preserves same_session (Identify ctx).
Proof.
  unfold Identify, readModuleIDSZL, readComponentIDSZL. pose proof (query_szl_session ctx). preserve.
Qed.

(** C28: What [Identify] returns, whatever the network and the peer do: the session is
    kept; it panics exactly when the module record that arrives has 20 or 21 bytes and the
    buffer ends before the 22nd; there is no information only when both records failed, and
    then both errors are returned; otherwise one error at most comes with the information. *)
Theorem Identify_outcome ctx s s' r :
  client_on_heap s -> Identify ctx s = (s', r) ->
  same_session s s' /\
  (r = Panic <-> exists s1 raw, readModuleIDSZL ctx s = (s1, Ok raw) /\
     20 <= len raw /\ len raw + len (buffer_after s1 raw) < 22) /\
  match r with
  | Ok (None, err) => exists e1 e2, err = Some (EJoin [e1; e2])
  | Ok (Some _, _) | Panic => True
  | Err _ => False
  end.
Proof.
  intros Hs H. split; [by eapply Identify_session|]. unfold Identify in H.
  set (tail := fun s1 (x : bytes + error) => match x with inl raw => buffer_after s1 raw | inr _ => [] end).
  assert (forall x s1, attempt (readModuleIDSZL ctx) s = (s1, Ok x) ->
    identify_module (tail s1 x) x = Panic <->
    exists s1 raw, readModuleIDSZL ctx s = (s1, Ok raw) /\
      20 <= len raw /\ len raw + len (buffer_after s1 raw) < 22) as Hx.
  { intros x s1 H1. rewrite identify_module_panic.
    apply attempt_inv in H1 as [(raw & H1 & [= ->])|[(e & H1 & [= ->])|[_ [=]]]].
    - split; [intros (raw' & [= <-] & ?); eauto|]. intros (s2 & raw' & H2 & ?). exists raw'.
      rewrite H1 in H2. by injection H2 as -> ->.
    - split; [intros (raw' & [=] & _)|intros (s2 & raw' & H2 & _); congruence]. }
  apply bind_inv in H as [(s1 & x & H1 & H)|[(e & H1 & ->)|[H1 ->]]].
  2,3: apply attempt_inv in H1 as [(raw & H1 & Hr)|[(e' & H1 & Hr)|[H1 Hr]]]; try done;
    by apply readModuleIDSZL_safe in H1 as [_ []].
  rewrite <- (Hx x s1 H1). change (gets _) with (gets (fun s => tail s x)) in H.
  rewrite (bind_step _ _ s1 s1 (tail s1 x) eq_refl) in H.
  assert (client_on_heap s1) as Hs1.
  { apply attempt_inv in H1 as [(raw & H1 & _)|[(e' & H1 & _)|[H1 _]]];
      by apply readModuleIDSZL_safe in H1 as [? _]. }
  clear Hx H1. destruct (identify_module (tail s1 x) x) as [[info errs1]|e|] eqn:Hm;
    [|by unfold identify_module in Hm; destruct x as [raw|]; repeat case_if;
      try done; destruct (go_slice (raw ++ _) 2 22)|by injection H as <- <-].
  rewrite bind_lift_Ok in H. cbv beta iota in H.
  apply bind_inv in H as [(s2 & y & H2 & H)|[(e & H2 & ->)|[H2 ->]]].
  2,3: apply attempt_inv in H2 as [(raw & H2 & Hr)|[(e' & H2 & Hr)|[H2 Hr]]]; try done;
    by apply readComponentIDSZL_safe in H2 as [_ []].
  destruct (identify_component_ok info y) as (info' & errs2 & Hc & Hl2). rewrite Hc, bind_lift_Ok in H.
  injection H as <- <-. split; [done|]. apply identify_module_errs in Hm.
  unfold identify_result. destruct errs1 as [|e1 [|]]; [..|exfalso; len];
    (destruct errs2 as [|e2 [|]]; [..|exfalso; len]); cbn; eauto.
Qed.

(** Against a peer that serves its status lists. *)
Section Serves.
Context (ctx : Ctx) (records : Z -> Z -> option bytes) (c : cid).
Context (Hlive : live ctx c) (Hm : marshals) (Hsrv : serves_szl records c).

Definition at_peer (s : Sys) : Prop :=
  conn (cl s) = Some c /\ open_at c (wld s) /\ (pduSize (cl s) <= 0 \/ 26 <= pduSize (cl s)).

Lemma identify_query id payload s : at_peer s -> 0 <= id < 65536 -> records id 0 = Some payload ->
  exists s', (let* resp := query_szl ctx id 0 in ret (SZL_Data resp)) s = (s', Ok payload) /\
    same_session s s' /\ at_peer s'.
Proof.
  intros (Hc & Hop & Hpdu) Hid Hrec.
  destruct (query_szl_serves ctx records c id 0 payload s) as (s' & resp & Hq & <- & Hss); try done.
  exists s'. split; [by rewrite (bind_step _ _ _ _ _ Hq)|]. split; [done|].
  split; [by rewrite (same_session_conn _ _ Hss)|]. split; [by eapply same_session_open|].
  by rewrite (same_session_pduSize _ _ Hss).
Qed.

(** C27: The identification of a peer that serves both records: the order number, the
    module name and the plant identification are the fields of the records, without their
    padding, whatever else is in the records; only an empty order number is searched for
    in the text. *)
Theorem Identify_serves s module component :
  at_peer s -> records SZLModuleID 0 = Some module -> records SZLComponentID 0 = Some component ->
  22 <= len module -> 34 <= len component ->
  exists s' info, Identify ctx s = (s', Ok (Some info, None)) /\ same_session s s' /\
    ModuleName info = trimString (take 24 (drop 2 component)) /\
    PlantID info = trimString (take 8 (drop 26 component)) /\
    (trimString (take 20 (drop 2 module)) <> "" ->
     OrderNumber info = trimString (take 20 (drop 2 module))).
Proof.
  intros Hs Hrm Hrc Hlm Hlc.
  destruct (identify_query SZLModuleID module s) as (s1 & H1 & Hss1 & Hs1); [done|by vm_compute|done|].
  destruct (identify_query SZLComponentID component s1) as (s2 & H2 & Hss2 & Hs2);
    [done|by vm_compute|done|].
  unfold Identify, readModuleIDSZL, readComponentIDSZL. unfold attempt at 1, bind at 1. rewrite H1.
  rewrite (bind_step _ _ s1 s1 (buffer_after s1 module) eq_refl).
  unfold identify_module. rewrite (proj2 (Z.leb_le _ _)), go_slice_in by len.
  cbn [checked res_bind]. rewrite bind_lift_Ok. cbv beta iota. znat.
  rewrite drop_app_le, take_app_le by (rewrite ?length_drop; unfold len in *; lia).
  unfold attempt at 1, bind at 1. rewrite H2.
  unfold identify_component. rewrite (proj2 (Z.leb_le _ _)), !go_slice_in by lia.
  cbn [checked res_bind]. rewrite bind_lift_Ok. cbv beta iota. znat. cbn [app identify_result].
  eexists s2, _. split; [done|]. split; [by etransitivity|].
  set (i1 := populateInfoFromRaw _ module).
  match goal with |- context [populateInfoFromRaw ?i component] => set (i2 := i) end.
  destruct (populate_keeps i2 component) as [Hk2 Hf2].
  rewrite (Hf2 ModuleName), (Hf2 PlantID) by (cbn; auto). split; [done|]. split; [done|].
  intros Hne. destruct (populate_keeps (set_OrderNumber (trimString (take 20 (drop 2 module)))
    empty_info) module) as [Hk1 _].
  assert (OrderNumber i1 = trimString (take 20 (drop 2 module))) as Ho.
  { unfold i1. rewrite (Hk1 OrderNumber); [done|cbn; auto|exact Hne]. }
  rewrite (Hk2 OrderNumber); [exact Ho|cbn; auto|]. cbn [i2 OrderNumber set_module_names].
  by rewrite Ho.
Qed.

(** A module record of 20 or 21 bytes at the end of its buffer stops the program. *)
Theorem Identify_short_record s module :
  at_peer s -> records SZLModuleID 0 = Some module -> 20 <= len module < 22 ->
  (forall s', buffer_after s' module = []) -> snd (Identify ctx s) = Panic.
Proof.
  intros Hs Hrm Hl Hb.
  destruct (identify_query SZLModuleID module s) as (s1 & H1 & _); [done|by vm_compute|done|].
  unfold Identify, readModuleIDSZL. unfold attempt at 1, bind at 1. rewrite H1.
  rewrite (bind_step _ _ s1 s1 (buffer_after s1 module) eq_refl), Hb.
  assert (identify_module [] (inl module) = Panic) as ->; [|done].
  apply identify_module_panic. exists module. split; [done|]. rewrite len_nil. lia.
Qed.
End Serves.
End Client.

(** ** Examples *)

(** A buffer that ends with the slice. *)
#[local] Instance exact_buffer : Buffer := fun _ _ => [].

#[local] Instance ascii_only : Unicode :=
  {| uni_IsPrint := fun _ => true; uni_IsLetter := fun _ => false; uni_IsDigit := fun _ => false;
     uni_ToUpper := fun r => r |}.

Example tokens_ex : map string_of_bytes (extractPrintableTokens
    ([0; 1] ++ bytes_of_string " 6ES7 315-2EH14-0AB0 " ++ [0; 0] ++ bytes_of_string "V3.2" ++ [0xFF; 0x07]
     ++ bytes_of_string "(S C-C2UR28922012)" ++ [0] ++ bytes_of_string "abc"))
  = ["6ES7 315-2EH14-0AB0"; string_of_bytes (bytes_of_string "V3.2" ++ [0xFF]); "S C-C2UR28922012"].
Proof. vm_compute. reflexivity. Qed.

Example populate_ex :
  let info := populateInfoFromRaw empty_info
    ([0; 0] ++ bytes_of_string "xx 6ES7315-2EH14-0AB0 fw V 3.2.6.11.7" ++ [0] ++ bytes_of_string "CPU 315-2 PN/DP"
     ++ [0] ++ bytes_of_string "S C-C2UR28922012") in
  (OrderNumber info, FWVersion info, CPUType info, SerialNumber info) =
  ("6ES7315-2EH14-0AB0", "V 3.2.6.11", "CPU 315-2 PN/DP", "CPU 315-2 PN/DP").
Proof. vm_compute. reflexivity. Qed.

(** The order number looks like a serial number. *)
Example serial_is_order :
  let info := populateInfoFromRaw empty_info
    ([0; 0x11] ++ bytes_of_string "6ES7 315-2EH14-0AB0 ") in
  OrderNumber info = "6ES7 315-2EH14-0AB0" /\ SerialNumber info = OrderNumber info.
Proof. vm_compute. done. Qed.

(** ** Witnesses *)

#[local] Existing Instance sample_cotp.

Definition sample_module : bytes :=
  [0; 1] ++ bytes_of_string "6ES7 315-2EH14-0AB0 " ++ [0; 0xC0; 0; 3].
Definition sample_component : bytes :=
  [0; 1] ++ bytes_of_string "SNAP7-SERVER" ++ replicate 12 0 ++ bytes_of_string "PLANT 7 ".

Definition sample_ids (module : bytes) (id idx : Z) : option bytes :=
  if id =? SZLModuleID then Some module else Some sample_component.

Lemma sample_serves_ids module c : bytes_ok module -> len module < 20000 ->
  serves_szl (E := peer_env (szl_answer (sample_ids module))) (sample_ids module) c.
Proof.
  intros Hok Hl. apply sample_serves_szl. intros id idx p. unfold sample_ids.
  case_if; intros [= <-]; [done|]. split; [|done].
  apply (bool_decide_unpack _). vm_compute. exact I.
Qed.

Lemma Identify_outcome_witness :
  let E := peer_env (szl_answer (sample_ids (replicate 21 65))) in
  let '(s', r) := @Identify E sample_cotp ascii_only exact_buffer Background (sample_client 240) in
  same_session (sample_client 240) s' /\
  (r = Panic <-> exists s1 raw, @readModuleIDSZL E sample_cotp Background (sample_client 240)
     = (s1, Ok raw) /\ 20 <= len raw /\ len raw + len (buffer_after s1 raw) < 22) /\
  match r with
  | Ok (None, err) => exists e1 e2, err = Some (EJoin [e1; e2])
  | Ok (Some _, _) | Panic => True
  | Err _ => False
  end.
Proof.
  cbv zeta. set (E := peer_env (szl_answer (sample_ids (replicate 21 65)))).
  destruct (@Identify E sample_cotp ascii_only exact_buffer Background (sample_client 240)) as [s' r] eqn:H.
  apply (Identify_outcome (E := E) (EL := peer_env_laws _) (U := ascii_only) (B := exact_buffer) Background
    (sample_client 240) s' r); [|exact H].
  intros c [= <-]. destruct (sample_open 240) as (x & Hx & _). by exists x.
Defined.

Lemma Identify_serves_witness :
  let E := peer_env (szl_answer (sample_ids sample_module)) in
  exists s' info, @Identify E sample_cotp ascii_only exact_buffer Background (sample_client 240)
      = (s', Ok (Some info, None)) /\ same_session (sample_client 240) s' /\
    ModuleName info = "SNAP7-SERVER" /\ PlantID info = "PLANT 7" /\
    OrderNumber info = "6ES7 315-2EH14-0AB0".
Proof.
  destruct (Identify_serves (E := peer_env (szl_answer (sample_ids sample_module)))
    (EL := peer_env_laws _) (U := ascii_only) (B := exact_buffer) Background (sample_ids sample_module) 0
    ltac:(by split) sample_marshals
    (sample_serves_ids sample_module 0 ltac:(apply (bool_decide_unpack _); vm_compute; exact I)
       ltac:(by vm_compute))
    (sample_client 240) sample_module sample_component)
    as (s' & info & H1 & H2 & H3 & H4 & H5).
  - split; [reflexivity|]. split; [apply sample_open|right; by vm_compute].
  - reflexivity.
  - reflexivity.
  - by vm_compute.
  - by vm_compute.
  - exists s', info. split; [exact H1|]. split; [exact H2|]. split; [|split].
    + rewrite H3. vm_compute. reflexivity.
    + rewrite H4. vm_compute. reflexivity.
    + rewrite H5; [vm_compute; reflexivity|vm_compute; discriminate].
Defined.
