(* ===== verification/ClientBlocks.v ===== *)
(** * client/blocks.go

    Block lists, block information and the upload of a block. *)

From S2P Require Import Prelude GoError GoMonad GoStrings WireErrors WireHeader WireCotp WireReadWrite WireSpec WireSzl WireBlocks ModelTypes Transport ClientTypes ClientCore ClientReadWrite ClientSzl Sample.

Definition maxUploadChunks := 4096.
Definition maxUploadRetries := 3.

Definition isUploadProtocolError (err : option error) : bool :=
  match err with
  | None => false
  | Some err =>
      errors_Is err ErrProtocolFailure
      || match errors_As_S7 err with Some _ => true | None => false end
  end.

(** A [model.BlockInfo] literal that sets the first four fields. *)
Definition block_info (type number lang flags : Z) : BlockInfo :=
  {| BI_Type := type; BI_Number := number; BI_Language := lang; BI_Flags := flags;
     BI_LoadMemory := 0; BI_LocalData := 0; BI_MC7Size := 0; BI_SBBLength := 0;
     BI_Author := ""; BI_Family := ""; BI_Name := ""; BI_Version := ""; BI_CheckSum := 0 |}.

(** [if num < 0 || num > 0xFFFF] *)
Definition validate_block_number (num : Z) : res unit :=
  if (num <? 0) || (0xFFFF <? num)
  then Err (EValidation ("block number " +:+ dec num +:+ " out of range (0..65535)"))
  else Ok tt.

Section Blocks.
Context `{E : Env} `{C : Cotp}.

(** ** Lists *)

Definition ListBlocks (ctx : Ctx) (bt : BlockType) : M Sys (list BlockInfo) :=
  let* ref := nextPDURef in
  let req := EncodeBlockListRequest ref bt in
  let* ' (_, data) := sendReceive ctx req ref in
  let* resp := lift (ParseSZLResponse data) in
  let* entries := lift (ParseBlockListResponse (SZL_Data resp)) in
  ret (map (fun e => block_info (BLE_BlockType e) (BLE_BlockNumber e) (BLE_Language e)
                       (BLE_Flags e)) entries).

Definition all_block_types : list BlockType :=
  [BlockOB; BlockDB; BlockSDB; BlockFC; BlockFB; BlockSFC; BlockSFB].

Fixpoint list_types (ctx : Ctx) (types : list BlockType) (all : list BlockInfo)
    (errs : list error) : M Sys (list BlockInfo * list error) :=
  match types with
  | [] => ret (all, errs)
  | bt :: types =>
      catch (ListBlocks ctx bt)
        (fun e => list_types ctx types all
                    (errs ++ [EWrap ("list blocks " +:+ BlockType_String bt +:+ ": ") e ""]))
        (fun blocks => list_types ctx types (all ++ blocks) errs)
  end.

(** Both results are returned: the blocks found and the joined errors, if any. *)
Definition ListAllBlocks (ctx : Ctx) : M Sys (list BlockInfo * option error) :=
  let* ' (all, errs) := list_types ctx all_block_types [] [] in
  ret (all, match errs with [] => None | _ => Some (EJoin errs) end).

(** ** Information *)

(** [uint16(bt)<<8 | uint16(num)] *)
Definition block_info_index (bt : BlockType) (num : Z) : Z :=
  Z.lor (u16 (Z.shiftl (u16 bt) 8)) (u16 num).

(** Returns the information, possibly partial, beside the error. *)
Definition GetBlockInfo (ctx : Ctx) (bt : BlockType) (num : Z)
    : M Sys (option BlockInfo * option error) :=
  catch (lift (validate_block_number num)) (fun e => ret (None, Some e)) (fun _ =>
  let szlIndex := block_info_index bt num in
  let* ref := nextPDURef in
  let req := EncodeSZLRequest ref SZLBlockInfo szlIndex in
  catch (sendReceive ctx req ref) (fun e => ret (None, Some e)) (fun '(_, data) =>
  catch (lift (ParseSZLResponse data)) (fun e => ret (None, Some e)) (fun resp =>
  catch (lift (ParseBlockInfoResponse (SZL_Data resp)))
    (fun parseErr => ret (Some (block_info bt num 0 0), Some parseErr))
    (fun blockInfo =>
       ret (Some {| BI_Type := bt; BI_Number := num; BI_Language := 0; BI_Flags := 0;
                    BI_LoadMemory := BID_LoadMemory blockInfo;
                    BI_LocalData := BID_LocalData blockInfo;
                    BI_MC7Size := BID_MC7Size blockInfo; BI_SBBLength := 0;
                    BI_Author := ""; BI_Family := ""; BI_Name := ""; BI_Version := "";
                    BI_CheckSum := 0 |}, None))))).

(** ** Upload *)

(** The attempts that are left for chunk [i]; [lastErr] is the error of the last one.
    The result is the chunk, or the last error when no attempt succeeded. *)
Fixpoint upload_attempts (ctx : Ctx) (sessionID : string) (i : Z) (attempts : nat)
    (lastErr : option error) : M Sys (UploadChunk + error) :=
  match attempts with
  | O => match lastErr with
         | Some e => ret (inr e)
         | None => lift Panic                       (* chunk is nil *)
         end
  | S attempts =>
      let failed e := fail (EWrap ("upload chunk " +:+ dec i +:+ ": ") e "") in
      let* _ := on_net (ctx_check ctx) in
      let* chunkRef := nextPDURef in
      let req := EncodeUploadRequest chunkRef sessionID in
      catch (sendReceive ctx req chunkRef)
        (fun e => if isUploadProtocolError (Some e) then failed e
                  else upload_attempts ctx sessionID i attempts (Some e))
        (fun '(param, data) =>
      catch (lift (ParseUploadResponse param data))
        (fun e =>
           let e := EWrap "parse upload response: " (EJoin [e; ESentinel ErrProtocolFailure]) ""
           in
           if isUploadProtocolError (Some e) then failed e
           else upload_attempts ctx sessionID i attempts (Some e))
        (fun chunk => ret (inl chunk)))
  end.

(** The chunk loop: [n] rounds are left, the next one has index [i].  The result is the
    payload, the number of chunks with data, and whether the last one was seen. *)
Fixpoint upload_chunks (ctx : Ctx) (sessionID : string) (n : nat) (i : Z) (payload : bytes)
    (chunkCount : Z) : M Sys (bytes * Z * bool) :=
  match n with
  | O => ret (payload, chunkCount, false)
  | S n =>
      let* r := upload_attempts ctx sessionID i (Z.to_nat maxUploadRetries) None in
      match r with
      | inr lastErr =>
          fail (EWrap ("upload chunk " +:+ dec i +:+ " failed after " +:+ dec maxUploadRetries
                  +:+ " retries (received " +:+ dec (len payload) +:+ " bytes so far): ")
                  lastErr "")
      | inl chunk =>
          let '(payload, chunkCount) :=
            if 0 <? len (Chunk_Data chunk)
            then (payload ++ Chunk_Data chunk, chunkCount + 1) else (payload, chunkCount) in
          if Chunk_Done chunk then ret (payload, chunkCount, true)
          else upload_chunks ctx sessionID n (i + 1) payload chunkCount
      end
  end.

(** What follows the opening of the session, up to the deferred clean-up. *)
Definition upload_body (ctx : Ctx) (bt : BlockType) (num : Z) (sessionID : string)
    : M Sys BlockData :=
  let* ' (payload, chunkCount, done) :=
    upload_chunks ctx sessionID (Z.to_nat maxUploadChunks) 0 [] 0 in
  if negb done
  then fail (EMsg ("upload did not complete within " +:+ dec maxUploadChunks +:+ " chunks"))
  else if (len payload =? 0) && (chunkCount =? 0)
  then fail (EMsg "upload completed with no payload")
  else ret {| BD_Info := block_info bt num 0 0; BD_Data := payload |}.

(** The deferred clean-up: [cleanup] runs however [m] ends. *)
Definition deferred {A} (m : M Sys A) (cleanup : M Sys unit) : M Sys A := fun s =>
  let (s1, r) := m s in
  match cleanup s1 with
  | (s2, Panic) => (s2, Panic)
  | (s2, _) => (s2, r)
  end.

Definition upload_cleanup (sessionID : string) : M Sys unit :=
  let* cleanupCtx := on_net (context_WithTimeout Background 500000000) in
  let* endRef := nextPDURef in
  let* r := attempt (sendReceive cleanupCtx (EncodeEndUploadRequest endRef sessionID) endRef) in
  let* x := gets cl in
  if logger (opts x) then
    match r with
    | inr e => on_net (emit (EvLog "Debug"
                 "upload cleanup: end-upload failed (best-effort): %v" [e]))
    | inl _ => on_net (emit (EvLog "Debug" "upload cleanup: end-upload sent" []))
    end
  else ret tt.

Definition UploadBlock (ctx : Ctx) (bt : BlockType) (num : Z) : M Sys BlockData :=
  let* _ := lift (validate_block_number num) in
  let* ref := nextPDURef in
  let req := EncodeStartUploadRequest ref bt num in
  let* ' (param, _) := sendReceive ctx req ref in
  let* sessionID := lift (map_err (protocol_failure "parse start upload")
                            (ParseStartUploadResponse param)) in
  deferred (upload_body ctx bt num sessionID) (upload_cleanup sessionID).
End Blocks.

(** ** Lemmas: sessions, frames and panics *)

Section Lemmas.
Context `{E : Env} `{C : Cotp}.

Lemma upload_attempts_session ctx sid i n e :
  preserves same_session (upload_attempts ctx sid i n e).
Proof. revert e. induction n as [|n IH]; intros e; cbn [upload_attempts]; preserve. Qed.
#[local] Hint Resolve upload_attempts_session : go.

Lemma upload_chunks_session ctx sid n i p k : preserves same_session (upload_chunks ctx sid n i p k).
Proof.
  revert i p k. induction n as [|n IH]; intros i p k; cbn [upload_chunks]; preserve.
Qed.
#[local] Hint Resolve upload_chunks_session : go.

Lemma upload_body_session ctx bt num sid : preserves same_session (upload_body ctx bt num sid).
Proof. unfold upload_body. preserve. Qed.

Lemma upload_cleanup_session sid : preserves same_session (upload_cleanup sid).
Proof.
  unfold upload_cleanup. preserve; apply on_net_same_session.
  - apply silent_same_heap, context_WithTimeout_silent.
  - apply emit_heap.
  - apply emit_heap.
Qed.
#[local] Hint Resolve upload_body_session upload_cleanup_session : go.

Lemma preserves_deferred R `{!PreOrder R} {A} (m : M Sys A) f :
  preserves R m -> preserves R f -> preserves R (deferred m f).
Proof.
  intros Hm Hf s s' r. unfold deferred. destruct (m s) as [s1 r1] eqn:H1.
  destruct (f s1) as [s2 r2] eqn:H2. intros H.
  assert (s2 = s') as <- by (destruct r2; by injection H).
  transitivity s1; [by eapply Hm|by eapply Hf].
Qed.
#[local] Hint Resolve preserves_deferred : go.

Lemma UploadBlock_session ctx bt num : preserves same_session (UploadBlock ctx bt num).
Proof. unfold UploadBlock. preserve. Qed.

(** *** Frames *)

Lemma at_most_no_net {A} (m : M Sys A) : preserves same_writes m -> at_most 0 m.
Proof. apply at_most_silent. Qed.

Lemma nextPDURef_at_most : at_most 0 nextPDURef.
Proof. apply at_most_silent. intros s s' r. rewrite nextPDURef_run. by intros [= <- _]. Qed.
Lemma ctx_check_at_most ctx : at_most 0 (on_net (ctx_check ctx)).
Proof. apply at_most_silent, on_net_same_writes, ctx_check_silent. Qed.
Lemma ret_at_most {A} (a : A) : at_most 0 (ret a).
Proof. apply at_most_silent, preserves_ret, _. Qed.
Lemma fail_at_most {A} e : at_most 0 (@fail Sys A e).
Proof. apply at_most_silent, preserves_fail, _. Qed.
Lemma lift_at_most {A} (r : res A) : at_most 0 (lift r).
Proof. apply at_most_silent, preserves_lift, _. Qed.

Lemma upload_attempts_at_most ctx sid i n e :
  at_most (Z.of_nat n) (upload_attempts ctx sid i n e).
Proof.
  revert e. induction n as [|n IH]; intros e; cbn [upload_attempts].
  { destruct e; [apply ret_at_most|apply lift_at_most]. }
  replace (Z.of_nat (S n)) with (0 + (0 + (1 + Z.of_nat n))) by lia.
  assert (forall A (m : M Sys A), at_most 0 m -> at_most (Z.of_nat n) m) as Hz
    by (intros; eapply at_most_weaken; [done|lia]).
  apply at_most_bind; [lia|apply ctx_check_at_most|intros _].
  apply at_most_bind; [lia|apply nextPDURef_at_most|intros ref].
  apply at_most_catch; [lia|apply at_most_sendReceive|intros e'|intros [param data]].
  - case_if; [apply Hz, fail_at_most|apply IH].
  - replace (Z.of_nat n) with (0 + Z.of_nat n) by lia.
    apply at_most_catch; [lia|apply lift_at_most|intros e'|intros chunk].
    + case_if; [apply Hz, fail_at_most|apply IH].
    + apply Hz, ret_at_most.
Qed.

Lemma upload_chunks_at_most ctx sid n i p k :
  at_most (maxUploadRetries * Z.of_nat n) (upload_chunks ctx sid n i p k).
Proof.
  unfold maxUploadRetries. revert i p k. induction n as [|n IH]; intros i p k; cbn [upload_chunks].
  { apply ret_at_most. }
  replace (3 * Z.of_nat (S n)) with (3 + 3 * Z.of_nat n) by lia.
  assert (forall A (m : M Sys A), at_most 0 m -> at_most (3 * Z.of_nat n) m) as Hz
    by (intros; eapply at_most_weaken; [done|lia]).
  apply at_most_bind; [lia|apply upload_attempts_at_most|]. intros [chunk|e];
    [|apply Hz, fail_at_most].
  case_match. destruct (Chunk_Done chunk); [apply Hz, ret_at_most|apply IH].
Qed.

Lemma upload_body_at_most ctx bt num sid :
  at_most (maxUploadRetries * maxUploadChunks) (upload_body ctx bt num sid).
Proof.
  unfold upload_body. apply (at_most_weaken (maxUploadRetries * maxUploadChunks + 0)); [|lia].
  apply at_most_bind; [lia|apply (upload_chunks_at_most _ _ (Z.to_nat maxUploadChunks))|].
  intros [[payload k] done]. repeat case_if; first [apply fail_at_most|apply ret_at_most].
Qed.

Lemma upload_cleanup_at_most sid : at_most 1 (upload_cleanup sid).
Proof.
  unfold upload_cleanup. apply (at_most_bind 0 1); [lia| |intros cctx].
  { apply at_most_silent, on_net_same_writes, context_WithTimeout_silent. }
  apply (at_most_bind 0 1); [lia|apply nextPDURef_at_most|intros ref].
  apply (at_most_bind 1 0); [lia| |intros r].
  { intros s s' r. unfold attempt.
    destruct (sendReceive cctx _ ref s) as [s1 r1] eqn:H1. intros H.
    apply at_most_sendReceive in H1. by destruct r1; injection H as <- _. }
  apply (at_most_bind 0 0); [lia|apply at_most_silent, preserves_gets, _|intros x].
  destruct (logger (opts x)); [|apply ret_at_most].
  destruct r; apply at_most_silent, on_net_same_writes, emit_silent; done.
Qed.

Lemma deferred_at_most n1 n2 {A} (m : M Sys A) f :
  at_most n1 m -> at_most n2 f -> at_most (n1 + n2) (deferred m f).
Proof.
  intros Hm Hf s s' r. unfold deferred. destruct (m s) as [s1 r1] eqn:H1.
  destruct (f s1) as [s2 r2] eqn:H2. intros H.
  assert (s2 = s') as <- by (destruct r2; by injection H).
  destruct (Hm _ _ _ H1) as (ws & Hws & Hl). destruct (Hf _ _ _ H2) as (ws2 & Hws2 & Hl2).
  exists (ws2 ++ ws). split; [by rewrite Hws2, Hws, app_assoc|len].
Qed.

(** *** Panics *)

Lemma upload_attempts_safe `{EL : !EnvLaws} `{HL : !CotpLaws} ctx sid i n e :
  (0 < n)%nat \/ is_Some e -> safe client_on_heap (upload_attempts ctx sid i n e).
Proof.
  revert e. induction n as [|n IH]; intros e He; cbn [upload_attempts].
  { destruct e; [apply safe_ret|]. destruct He as [He|[? He]]; [lia|done]. }
  assert (forall e', safe client_on_heap (upload_attempts ctx sid i n (Some e'))) as IH'
    by (intros; apply IH; right; by eexists).
  apply safe_bind; [safely|intros _]. apply safe_bind; [safely|intros ref].
  apply (safe_catch_post _ (fun pd => bytes_ok pd.2)).
  - apply sendReceive_safe.
  - intros s s' [p d] _ H. by apply sendReceive_bytes in H as [_ Hd].
  - intros e'. safely.
  - intros [param data] Hok. apply safe_catch; [|intros e'; safely|intros chunk; safely].
    by apply safe_lift, ParseUploadResponse_no_panic.
Qed.

Lemma upload_body_safe `{EL : !EnvLaws} `{HL : !CotpLaws} ctx bt num sid :
  safe client_on_heap (upload_body ctx bt num sid).
Proof.
  unfold upload_body. apply safe_bind.
  - generalize 0 at 1 as i. generalize (@nil Z) as p. generalize 0 as k.
    induction (Z.to_nat maxUploadChunks) as [|n IH]; intros k p i; cbn [upload_chunks];
      [apply safe_ret|].
    apply safe_bind; [apply upload_attempts_safe; left; unfold maxUploadRetries; lia|].
    intros [chunk|e]; [|apply safe_fail]. case_match.
    destruct (Chunk_Done chunk); [apply safe_ret|apply IH].
  - intros [[payload k] done]. safely.
Qed.

Lemma upload_cleanup_safe `{EL : !EnvLaws} `{HL : !CotpLaws} sid :
  safe client_on_heap (upload_cleanup sid).
Proof.
  unfold upload_cleanup.
  assert (forall A (m : M World A), preserves silent m ->
    (forall w w' r, m w = (w', r) -> r <> Panic) -> safe client_on_heap (on_net m)) as Hnet.
  { intros A m Hm Hp. apply session_safe.
    - by apply on_net_same_session, silent_same_heap.
    - intros s s' r _ [H _]%on_net_inv. by eapply Hp. }
  safely.
  - apply Hnet; [apply context_WithTimeout_silent|]. by intros w w' r [= _ <-].
  - apply Hnet; [by apply emit_silent|]. by intros w w' r [= _ <-].
  - apply Hnet; [by apply emit_silent|]. by intros w w' r [= _ <-].
Qed.

Lemma deferred_safe {A} (P : Sys -> Prop) (m : M Sys A) f :
  safe P m -> safe P f -> safe P (deferred m f).
Proof.
  intros Hm Hf s s' r Hs. unfold deferred. destruct (m s) as [s1 r1] eqn:H1.
  destruct (f s1) as [s2 r2] eqn:H2. intros H.
  apply Hm in H1 as [Hs1 Hr1]; [|done]. apply Hf in H2 as [Hs2 Hr2]; [|done].
  destruct r2; try done; by injection H as <- <-.
Qed.
End Lemmas.

(** ** Lists and information *)

(** What the list of a type is asked for under, and what an entry of it becomes. *)
Definition list_index (bt : BlockType) : Z :=
  if bt =? BlockOB then 1 else if bt =? BlockDB then 2 else if bt =? BlockSDB then 3
  else if bt =? BlockFC then 4 else if bt =? BlockSFC then 5 else if bt =? BlockFB then 6
  else if bt =? BlockSFB then 7 else 0.

Definition listed (e : BlockListEntry) : BlockInfo :=
  block_info (BLE_BlockType e) (BLE_BlockNumber e) (BLE_Language e) (BLE_Flags e).

(** The seven lists, one after the other, with the result of each. *)
Inductive lists_run `{E : Env} `{C : Cotp} (ctx : Ctx) :
    Sys -> list BlockType -> list (BlockType * (list BlockInfo + error)) -> Sys -> Prop :=
  | lists_run_nil s : lists_run ctx s [] [] s
  | lists_run_ok s s1 s' bt bts blocks rs :
      ListBlocks ctx bt s = (s1, Ok blocks) -> lists_run ctx s1 bts rs s' ->
      lists_run ctx s (bt :: bts) ((bt, inl blocks) :: rs) s'
  | lists_run_err s s1 s' bt bts e rs :
      ListBlocks ctx bt s = (s1, Err e) -> lists_run ctx s1 bts rs s' ->
      lists_run ctx s (bt :: bts) ((bt, inr e) :: rs) s'.

Definition found (r : BlockType * (list BlockInfo + error)) : list BlockInfo :=
  match r.2 with inl blocks => blocks | inr _ => [] end.
Definition failure (r : BlockType * (list BlockInfo + error)) : list error :=
  match r.2 with
  | inl _ => []
  | inr e => [EWrap ("list blocks " +:+ BlockType_String r.1 +:+ ": ") e ""]
  end.

Section Lists.
Context `{E : Env} `{EL : !EnvLaws} `{C : Cotp} `{HL : !CotpLaws}.

Lemma ListBlocks_session ctx bt : preserves same_session (ListBlocks ctx bt).
Proof. unfold ListBlocks. preserve. Qed.

Lemma ListBlocks_safe ctx bt : safe client_on_heap (ListBlocks ctx bt).
Proof.
  unfold ListBlocks. safely.
  - apply safe_lift, ParseSZLResponse_no_panic.
  - apply safe_lift, ParseBlockListResponse_no_panic.
Qed.

Lemma list_types_run ctx bts all errs s :
  client_on_heap s ->
  exists s' rs, list_types ctx bts all errs s
      = (s', Ok (all ++ concat (map found rs), errs ++ concat (map failure rs))) /\
    lists_run ctx s bts rs s' /\ same_session s s'.
Proof.
  revert all errs s. induction bts as [|bt bts IH]; intros all errs s Hs; cbn [list_types].
  { exists s, []. cbn. rewrite !app_nil_r. repeat split; try done. constructor. }
  destruct (ListBlocks ctx bt s) as [s1 r] eqn:H.
  pose proof (ListBlocks_session _ _ _ _ _ H) as Hs1.
  destruct (ListBlocks_safe _ _ _ _ _ Hs H) as [Hh Hr].
  destruct r as [blocks|e|]; [| |done].
  - rewrite (catch_Ok _ _ _ _ _ _ H).
    destruct (IH (all ++ blocks) errs s1 Hh) as (s' & rs & -> & Hrun & Hs').
    exists s', ((bt, inl blocks) :: rs). cbn. rewrite app_assoc. split; [done|].
    split; [by econstructor|by transitivity s1].
  - rewrite (catch_Err _ _ _ _ _ _ H).
    destruct (IH all (errs ++ [EWrap ("list blocks " +:+ BlockType_String bt +:+ ": ") e ""]) s1 Hh)
      as (s' & rs & -> & Hrun & Hs').
    exists s', ((bt, inr e) :: rs). cbn -[app]. rewrite <- app_assoc. split; [done|].
    split; [by econstructor|by transitivity s1].
Qed.

(** C37: Listing all blocks is best effort: against any peer the seven types are listed
    one after the other whatever becomes of each, the blocks returned are those of the
    lists that succeeded, in order, and the error joins the errors of the others, each
    with its type; there is none exactly when all seven succeeded. *)
Theorem ListAllBlocks_best_effort ctx s :
  client_on_heap s ->
  exists s' rs err, ListAllBlocks ctx s = (s', Ok (concat (map found rs), err)) /\
    lists_run ctx s all_block_types rs s' /\ same_session s s' /\
    err = (if decide (concat (map failure rs) = []) then None
           else Some (EJoin (concat (map failure rs)))).
Proof.
  intros Hs. destruct (list_types_run ctx all_block_types [] [] s Hs) as (s' & rs & H & Hrun & Hss).
  eexists s', rs, _. split; [|split; [done|split; [done|reflexivity]]].
  unfold ListAllBlocks. rewrite (bind_step _ _ _ _ _ H). cbn [app].
  case_decide as Hd; [by rewrite Hd|]. by destruct (concat (map failure rs)).
Qed.

Context (ctx : Ctx) (c : cid) (Hlive : live ctx c) (Hmarsh : marshals).
Context (records : Z -> Z -> option bytes) (Hsrv : serves_szl records c).

Definition szl_ready (s : Sys) : Prop :=
  conn (cl s) = Some c /\ open_at c (wld s) /\ (pduSize (cl s) <= 0 \/ 26 <= pduSize (cl s)).

Lemma szl_ready_session s s' : same_session s s' -> szl_ready s -> szl_ready s'.
Proof.
  intros Hs (Hc & Ho & Hp). split; [by rewrite (same_session_conn _ _ Hs)|].
  split; [by eapply same_session_open|]. by rewrite (same_session_pduSize _ _ Hs).
Qed.

Lemma ListBlocks_serves bt es s :
  szl_ready s -> In bt all_block_types ->
  records SZLBlockList (list_index bt) = Some (concat (map encode_block_entry es)) ->
  Forall entry_wf es ->
  exists s', ListBlocks ctx bt s = (s', Ok (map listed es)) /\ same_session s s'.
Proof.
  intros (Hc & Ho & Hp) Hbt Hrec Hes.
  assert (0 <= list_index bt < 65536) as Hix by (unfold list_index; repeat case_if; lia).
  destruct (query_szl_serves ctx records c SZLBlockList (list_index bt) _ s Hlive Hmarsh Hsrv
    Hc Ho Hp ltac:(done) Hix Hrec) as (s' & resp & Hq & Hd & Hs).
  exists s'. split; [|done]. apply query_szl_inv in Hq as (ref & s1 & param & data & H1 & H2 & H3).
  unfold ListBlocks. rewrite (bind_step _ _ _ _ _ H1).
  assert (EncodeBlockListRequest ref bt = EncodeSZLRequest ref SZLBlockList (list_index bt)) as ->
    by done.
  rewrite (bind_step _ _ _ _ _ H2), H3, bind_lift_Ok, Hd.
  rewrite (ParseBlockListResponse_complete es) by done. by rewrite bind_lift_Ok.
Qed.

(** Against a peer that serves the lists of all seven types, the list of all blocks
    is complete and in order, and there is no error. *)
Theorem ListAllBlocks_serves (blocks : BlockType -> list BlockListEntry) s :
  szl_ready s ->
  (forall bt, In bt all_block_types ->
    records SZLBlockList (list_index bt) = Some (concat (map encode_block_entry (blocks bt))) /\
    Forall entry_wf (blocks bt)) ->
  exists s', same_session s s' /\ ListAllBlocks ctx s
    = (s', Ok (concat (map (fun bt => map listed (blocks bt)) all_block_types), None)).
Proof.
  intros Hrdy Hrec.
  assert (forall bts all s, szl_ready s -> (forall bt, In bt bts -> In bt all_block_types) ->
    exists s', list_types ctx bts all [] s
      = (s', Ok (all ++ concat (map (fun bt => map listed (blocks bt)) bts), [])) /\
      same_session s s') as Hlists.
  { clear s Hrdy. induction bts as [|bt bts IH]; intros all s Hrdy Hin; cbn [list_types map concat].
    { exists s. by rewrite app_nil_r. }
    destruct (Hrec bt) as [Hr Hwf]; [apply Hin; by left|].
    destruct (ListBlocks_serves bt (blocks bt) s) as (s1 & H1 & Hs1);
      [done|apply Hin; by left|done..|].
    destruct (IH (all ++ map listed (blocks bt)) s1) as (s2 & H2 & Hs2).
    { by eapply szl_ready_session. }
    { intros bt' Hbt'. apply Hin. by right. }
    exists s2. rewrite (catch_Ok _ _ _ _ _ _ H1), H2, app_assoc. split; [done|].
    by transitivity s1. }
  destruct (Hlists all_block_types [] s Hrdy (fun _ H => H)) as (s' & H & Hs).
  exists s'. split; [done|]. unfold ListAllBlocks. by rewrite (bind_step _ _ _ _ _ H).
Qed.

Lemma block_info_index_eq bt num : 0 <= bt < 256 -> 0 <= num < 256 ->
  block_info_index bt num = bt * 256 + num.
Proof.
  intros Hbt Hn. unfold block_info_index. rewrite (u16_small bt), (u16_small num), Z.shiftl_mul_pow2 by lia.
  rewrite u16_small by lia. by apply (lor_add bt num 8).
Qed.

(** The information of a block with a number below 256: against a peer that holds
    the record of the block under type * 256 + number, the three sizes of the record are
    returned for that block, without error; a record of fewer than six bytes gives the
    block's type and number only, beside an error. *)
Theorem GetBlockInfo_serves bt num record s :
  szl_ready s -> 0 <= bt < 256 -> 0 <= num < 256 ->
  records SZLBlockInfo (bt * 256 + num) = Some record ->
  exists s' info err, GetBlockInfo ctx bt num s = (s', Ok (Some info, err)) /\
    same_session s s' /\ BI_Type info = bt /\ BI_Number info = num /\
    match record with
    | l1 :: l0 :: d1 :: d0 :: m1 :: m0 :: _ =>
        err = None /\ BI_LoadMemory info = get_u16 l1 l0 /\
        BI_LocalData info = get_u16 d1 d0 /\ BI_MC7Size info = get_u16 m1 m0
    | _ => err <> None /\ info = block_info bt num 0 0
    end.
Proof.
  intros (Hc & Ho & Hp) Hbt Hnum Hrec.
  destruct (query_szl_serves ctx records c SZLBlockInfo (bt * 256 + num) _ s Hlive Hmarsh Hsrv
    Hc Ho Hp ltac:(done) ltac:(lia) Hrec) as (s' & resp & Hq & Hd & Hs).
  apply query_szl_inv in Hq as (ref & s1 & param & data & H1 & H2 & H3).
  assert (validate_block_number num = Ok tt) as Hv
    by (unfold validate_block_number; case_if; [lia|done]).
  unfold GetBlockInfo. rewrite Hv, catch_lift_Ok, (block_info_index_eq bt num) by done.
  rewrite (bind_step _ _ _ _ _ H1), (catch_Ok _ _ _ _ _ _ H2).
  cbv beta iota. rewrite H3, catch_lift_Ok, Hd.
  destruct record as [|l1 [|l0 [|d1 [|d0 [|m1 [|m0 tl]]]]]];
    [by eexists _, _, _..|].
  assert (exists i, ParseBlockInfoResponse (l1 :: l0 :: d1 :: d0 :: m1 :: m0 :: tl) = Ok i /\
    BID_LoadMemory i = get_u16 l1 l0 /\ BID_LocalData i = get_u16 d1 d0 /\
    BID_MC7Size i = get_u16 m1 m0) as (i & Hi & ? & ? & ?).
  { unfold ParseBlockInfoResponse. case_if; [len|]. indices. by eexists. }
  eexists _, _, _. rewrite Hi, catch_lift_Ok. by split.
Qed.
End Lists.

(** The status list index names a block unambiguously for numbers below 256 only:
    from there on the number runs into the type, and the query for DB 512 is the query
    for FC 0. *)
Theorem block_info_index_ambiguous :
  (forall bt num bt' num', 0 <= bt < 256 -> 0 <= num < 256 -> 0 <= bt' < 256 -> 0 <= num' < 256 ->
     block_info_index bt num = block_info_index bt' num' -> bt = bt' /\ num = num') /\
  (forall n, 0 <= n < 256 ->
     block_info_index BlockDB (512 + n) = block_info_index BlockFC n).
Proof.
  split.
  - intros bt num bt' num' ????. rewrite !block_info_index_eq by done. lia.
  - intros n Hn. rewrite (block_info_index_eq BlockFC) by done. unfold block_info_index.
    rewrite (u16_small (512 + n)) by lia. change (512 + n) with (2 * 2 ^ 8 + n).
    rewrite <- (lor_add 2 n 8), Z.lor_assoc by done.
    by apply (lor_add 67 n 8).
Qed.

(** ** What an upload can do *)

Section Outcome.
Context `{E : Env} `{EL : !EnvLaws} `{C : Cotp} `{HL : !CotpLaws}.

Lemma UploadBlock_safe ctx bt num : safe client_on_heap (UploadBlock ctx bt num).
Proof.
  unfold UploadBlock. safely.
  - apply safe_lift. unfold validate_block_number. by case_if.
  - apply safe_lift. rewrite map_err_no_panic. apply ParseStartUploadResponse_no_panic.
  - apply deferred_safe; [apply upload_body_safe|apply upload_cleanup_safe].
Qed.

Lemma UploadBlock_at_most ctx bt num :
  at_most (2 + maxUploadRetries * maxUploadChunks) (UploadBlock ctx bt num).
Proof.
  unfold UploadBlock. set (n := maxUploadRetries * maxUploadChunks).
  assert (0 < n) by done. replace (2 + n) with (0 + (0 + (1 + (0 + (n + 1))))) by lia.
  apply at_most_bind; [lia|apply lift_at_most|intros _].
  apply at_most_bind; [lia|apply nextPDURef_at_most|intros ref].
  apply at_most_bind; [lia|apply at_most_sendReceive|intros [param data]].
  apply at_most_bind; [lia|apply lift_at_most|intros sid].
  apply deferred_at_most; [apply upload_body_at_most|apply upload_cleanup_at_most].
Qed.

(** The payload is empty exactly as long as no chunk with data was seen. *)
Lemma upload_chunks_payload ctx sid n i p k s s' p' k' d :
  0 <= k -> (k = 0 <-> p = []) ->
  upload_chunks ctx sid n i p k s = (s', Ok (p', k', d)) -> k' = 0 <-> p' = [].
Proof.
  revert i p k s. induction n as [|n IH]; intros i p k s Hk Hp H; cbn [upload_chunks] in H.
  { by injection H as _ <- <- _. }
  apply bind_Ok in H as (s1 & [chunk|e] & _ & H); [|done].
  assert (forall b : bool, let '(p2, k2) := if b then (p ++ Chunk_Data chunk, k + 1) else (p, k)
    in b = (0 <? len (Chunk_Data chunk)) -> 0 <= k2 /\ (k2 = 0 <-> p2 = [])) as Hnext.
  { intros [] Hb; [|done]. split; [lia|]. split; [lia|].
    intros [_ Hnil]%app_eq_nil. by rewrite Hnil in Hb. }
  specialize (Hnext (0 <? len (Chunk_Data chunk))).
  destruct (if 0 <? len (Chunk_Data chunk) then _ else _) as [p2 k2].
  destruct (Hnext eq_refl) as [Hk2 Hp2].
  destruct (Chunk_Done chunk); [by injection H as _ <- <- _|by eapply IH].
Qed.

Lemma upload_body_Ok ctx bt num sid s s' b :
  upload_body ctx bt num sid s = (s', Ok b) ->
  BD_Data b <> [] /\ BD_Info b = block_info bt num 0 0.
Proof.
  unfold upload_body. generalize (Z.to_nat maxUploadChunks) as n. intros n H.
  apply bind_Ok in H as (s2 & [[p k] d] & Hc & H).
  apply upload_chunks_payload in Hc; [|lia|done].
  destruct d; [|done]. cbn [negb] in H. destruct (_ && _) eqn:Hpk; [done|].
  injection H as _ <-. split; [|done]. cbn. intros ->. destruct Hc as [_ Hc].
  by rewrite Hc in Hpk.
Qed.

Lemma deferred_Ok {A} (m : M Sys A) f s s' a :
  deferred m f s = (s', Ok a) -> exists s1, m s = (s1, Ok a).
Proof.
  unfold deferred. destruct (m s) as [s1 r1]. destruct (f s1) as [s2 []]; intros [= _ ->]; eauto.
Qed.

(** C9: An upload, against any peer whatsoever: it never panics, keeps the session,
    writes at most 2 + 3 * 4096 frames (so it ends), rejects a block number outside
    0..65535 before anything is sent, and when it succeeds there are data and the
    block is the requested one. *)
Theorem UploadBlock_outcome ctx bt num s s' r :
  client_on_heap s -> UploadBlock ctx bt num s = (s', r) ->
  r <> Panic /\ same_session s s' /\
  (exists ws, writes (hist (wld s')) = ws ++ writes (hist (wld s)) /\ len ws <= 12290) /\
  (num < 0 \/ 65535 < num -> s' = s /\ exists msg, r = Err (EValidation msg)) /\
  (forall b, r = Ok b -> BD_Data b <> [] /\ BD_Info b = block_info bt num 0 0).
Proof.
  intros Hs H. split; [by eapply UploadBlock_safe|]. split; [by eapply UploadBlock_session|].
  split; [by eapply UploadBlock_at_most|]. split.
  - intros Hn. unfold UploadBlock, validate_block_number in H.
    replace ((num <? 0) || (0xFFFF <? num)) with true in H
      by (symmetry; apply orb_true_iff; rewrite !Z.ltb_lt; lia).
    injection H as <- <-. by eauto.
  - intros b ->. unfold UploadBlock in H. do 2 apply bind_Ok in H as (? & ? & _ & H).
    apply bind_Ok in H as (? & [param data] & _ & H). apply bind_Ok in H as (? & sid & _ & H).
    apply deferred_Ok in H as [s1 H]. by apply upload_body_Ok in H.
Qed.
End Outcome.

(** ** An upload from a conforming peer *)

(** A frame on [c] that continues the session [id]. *)
Definition continuation `{C : Cotp} (c : cid) (id : bytes) (w : cid * bytes) : Prop :=
  fst w = c /\ exists pdu ref, carries (snd w) pdu /\ bytes_ok pdu /\
    decode_session_request pdu = Some (ref, FuncUpload, id).

(** A frame on [c] that starts an upload of the block [num] of the type [ty]. *)
Definition starts `{C : Cotp} (c : cid) (ty num : Z) (w : cid * bytes) : Prop :=
  fst w = c /\ exists pdu ref, carries (snd w) pdu /\ bytes_ok pdu /\
    decode_start_upload pdu = Some (ref, ty, num).

(** A peer that hands out the block in the chunks [chunks] under the session
    identifier [id]: it answers the start job with the identifier, and the
    continuation that follows the start and [k] other continuations with chunk [k], the
    last of them marked by a zero status. *)
Record serves_upload `{E : Env} `{C : Cotp} (c : cid) (ty num : Z) (id : bytes)
    (chunks : list bytes) : Prop := {
  serves_start h dt ws pdu ref :
    writes h = (c, dt) :: ws -> carries dt pdu -> bytes_ok pdu ->
    decode_start_upload pdu = Some (ref, ty, num) ->
    exists resp junk rest, env_ReadFrame h c = inr resp /\ len junk = 7 /\
      answers_job ref ([FuncUploadStart] ++ junk ++ [len id] ++ id ++ rest) [] resp;
  serves_chunk h dt conts start ws pdu ref chunk :
    writes h = (c, dt) :: conts ++ start :: ws -> carries dt pdu -> bytes_ok pdu ->
    decode_session_request pdu = Some (ref, FuncUpload, id) ->
    Forall (continuation c id) conts -> starts c ty num start ->
    chunks !! length conts = Some chunk ->
    exists resp status rest tr, env_ReadFrame h c = inr resp /\
      (status = 0 <-> S (length conts) = length chunks) /\
      answers_job ref (FuncUpload :: status :: rest) (upload_chunk_data chunk ++ tr) resp }.

Section Serves.
Context `{E : Env} `{EL : !EnvLaws} `{C : Cotp} `{HL : !CotpLaws}.
Context (ctx : Ctx) (c : cid) (Hlive : live ctx c) (Hmarsh : marshals).
Context (bt num : Z) (Hnum : 0 <= num <= 65535).
Context (id : bytes) (Hid : Forall (fun b => 32 < b < 127) id) (Hidlen : 0 < len id <= 255).
Context (chunks : list bytes) (Hsmall : Forall (fun chunk => len chunk < 8192) chunks).
Context (Hsrv : serves_upload c (upload_type bt) num id chunks).

#[local] Notation session := (TrimSpace (string_of_bytes id)).

(** The client's side of the invariant of the loop. *)
Definition upload_ready (s : Sys) : Prop :=
  conn (cl s) = Some c /\ open_at c (wld s) /\
  (pduSize (cl s) <= 0 \/ 28 <= pduSize (cl s) /\ 19 + len id <= pduSize (cl s)).

Lemma upload_ready_session s s' : same_session s s' -> upload_ready s -> upload_ready s'.
Proof.
  intros Hs (Hc & Ho & Hp). split; [by rewrite (same_session_conn _ _ Hs)|].
  split; [by eapply same_session_open|]. by rewrite (same_session_pduSize _ _ Hs).
Qed.

Lemma upload_attempts_serves i m e s conts start ws chunk :
  upload_ready s -> writes (hist (wld s)) = conts ++ start :: ws ->
  Forall (continuation c id) conts -> starts c (upload_type bt) num start ->
  chunks !! length conts = Some chunk ->
  exists s' dt,
    upload_attempts ctx session i (S m) e s =
      (s', Ok (inl {| Chunk_Done := bool_decide (S (length conts) = length chunks);
                      Chunk_Data := chunk |})) /\
    same_session s s' /\ writes (hist (wld s')) = ((c, dt) :: conts) ++ start :: ws /\
    continuation c id (c, dt).
Proof.
  intros Hrdy Hw Hconts Hstart Hchunk.
  destruct (upload_attempts ctx session i (S m) e s) as [s' r] eqn:H.
  pose proof (upload_attempts_session _ _ _ _ _ _ _ _ H) as Hsame.
  cbn [upload_attempts] in H.
  destruct (on_net_ctx_check_live c ctx Hlive s) as (w1 & H1 & Hc1 & Hw1).
  rewrite (bind_step _ _ _ _ _ H1), (bind_step _ _ _ _ _ (nextPDURef_run _)) in H.
  cbn [cl wld] in H. set (ref := u16 (pduRef (cl s) + 1)) in *.
  match type of H with catch _ _ _ ?s1 = _ => set (s1' := s1) in * end.
  destruct (Hmarsh (EncodeUploadRequest ref session)) as [dt Hdt].
  assert (0 <= ref < 65536) as Href by apply u16_range.
  destruct Hrdy as (Hc & Hop & Hpdu).
  pose proof (EncodeCOTPDT_carries _ _ Hdt) as Hcar.
  pose proof (decode_encode_session_request FuncUpload ref id Href ltac:(lia) Hid) as Hdec.
  pose proof (bytes_ok_encode_session_request FuncUpload ref session ltac:(done)) as Hok.
  destruct (sendReceive_live (fun param data => ParseUploadResponse param data =
      Ok {| Chunk_Done := bool_decide (S (length conts) = length chunks); Chunk_Data := chunk |})
    ctx c (EncodeUploadRequest ref session) dt ref s1')
    as (w' & param & data & Hsr & [_ Hw'] & Hp); try done.
  - unfold open_at in *. cbn. by rewrite Hc1.
  - destruct Hpdu as [?|[? ?]]; [by left|right].
    unfold EncodeUploadRequest. rewrite len_encode_session_request by (done || lia). done.
  - intros h Hh. cbn [wld s1'] in Hh. rewrite Hw1, Hw in Hh. cbn [app] in Hh.
    edestruct (serves_chunk c _ _ _ _ Hsrv) as (resp & st & rest & tr & Hrf & Hst & Hans);
      try eassumption.
    destruct (env_ReadFrame_ok _ _ _ Hrf) as [Hok' Hlen].
    eexists _, _, _. split; [exact Hrf|]. split; [by apply job_response_complete|].
    rewrite ParseUploadResponse_complete by (by eapply Forall_lookup_1 in Hsmall).
    do 2 f_equal. apply eq_true_iff_eq. by rewrite Z.eqb_eq, bool_decide_eq_true.
  - rewrite (catch_Ok _ _ _ _ _ _ Hsr), Hp, catch_lift_Ok in H. injection H as <- <-.
    eexists _, dt. split; [done|]. split; [done|]. split.
    + unfold s1' in Hw'. cbn [wld app] in *. by rewrite Hw', Hw1, Hw.
    + split; [done|]. by eexists _, _.
Qed.

Lemma upload_chunks_serves todo n i p k s conts start ws :
  upload_ready s -> writes (hist (wld s)) = conts ++ start :: ws ->
  Forall (continuation c id) conts -> starts c (upload_type bt) num start ->
  drop (length conts) chunks = todo -> todo <> [] -> (length todo <= n)%nat ->
  exists s' k' conts',
    upload_chunks ctx session n i p k s = (s', Ok (p ++ concat todo, k', true)) /\
    writes (hist (wld s')) = conts' ++ start :: ws /\ Forall (continuation c id) conts' /\
    length conts' = length chunks.
Proof.
  revert n i p k s conts. induction todo as [|chunk todo IH]; [done|].
  intros n i p k s conts Hrdy Hw Hconts Hstart Hdrop _ Hn.
  destruct n as [|n]; [cbn in Hn; lia|]. cbn [upload_chunks].
  assert (chunks !! length conts = Some chunk) as Hck.
  { rewrite <- (Nat.add_0_r (length conts)), <- lookup_drop, Hdrop. done. }
  assert (drop (S (length conts)) chunks = todo) as Hdrop'.
  { rewrite <- Nat.add_1_r, <- drop_drop, Hdrop. done. }
  destruct (upload_attempts_serves i 2 None s conts start ws chunk)
    as (s1 & dt & H1 & Hs1 & Hw1 & Hcont); try done.
  rewrite (bind_step _ _ _ _ _ H1). cbn [Chunk_Data Chunk_Done].
  assert (forall p2 k2 (b : bool), b = (0 <? len chunk) ->
    (if b then (p ++ chunk, k + 1) else (p, k)) = (p2, k2) -> p2 = p ++ chunk) as Hp2.
  { intros p2 k2 [] Hb [= <- _]; [done|]. symmetry in Hb. apply Z.ltb_ge in Hb.
    by rewrite (len_0_nil chunk), app_nil_r by (pose proof (len_nonneg chunk); lia). }
  destruct (if 0 <? len chunk then _ else _) as [p2 k2] eqn:Hpk.
  rewrite (Hp2 p2 k2 (0 <? len chunk) eq_refl Hpk). cbn [concat]. rewrite app_assoc.
  assert (length chunks = S (length conts + length todo)) as Hlen.
  { rewrite <- (take_drop (length conts) chunks), length_app, Hdrop.
    rewrite length_take_le by (apply lookup_lt_Some in Hck; lia). cbn. lia. }
  case_bool_decide as Hlast.
  - destruct todo; [|cbn in Hlen; lia]. rewrite app_nil_r. eexists _, _, ((c, dt) :: conts).
    split; [done|]. split; [done|]. split; [by constructor|]. done.
  - destruct (IH n (i + 1) (p ++ chunk) k2 s1 ((c, dt) :: conts))
      as (s2 & k' & conts' & H2 & Hrest); try done.
    + by eapply upload_ready_session.
    + by constructor.
    + intros ->. cbn in Hlen. lia.
    + cbn in Hn. lia.
    + by exists s2, k', conts'.
Qed.
Lemma deferred_run {A} (m : M Sys A) f s s1 a s2 r :
  m s = (s1, Ok a) -> f s1 = (s2, r) -> r <> Panic -> deferred m f s = (s2, Ok a).
Proof. intros H1 H2 Hr. unfold deferred. rewrite H1, H2. by destruct r. Qed.

Lemma upload_body_serves s start ws :
  upload_ready s -> writes (hist (wld s)) = start :: ws -> starts c (upload_type bt) num start ->
  concat chunks <> [] -> len chunks <= maxUploadChunks ->
  exists s' conts,
    upload_body ctx bt num session s
      = (s', Ok {| BD_Info := block_info bt num 0 0; BD_Data := concat chunks |}) /\
    writes (hist (wld s')) = conts ++ start :: ws /\ Forall (continuation c id) conts /\
    length conts = length chunks.
Proof.
  intros Hrdy Hw Hst Hne Hmax. unfold upload_body.
  assert (length chunks <= Z.to_nat maxUploadChunks)%nat as Hn by (unfold len in Hmax; lia).
  revert Hn. generalize (Z.to_nat maxUploadChunks) as n. intros n Hn.
  destruct (upload_chunks_serves chunks n 0 [] 0 s [] start ws)
    as (s1 & k & conts & H1 & Hw1 & Hc1 & Hl1); try done.
  { by intros ->. }
  exists s1, conts. split; [|done]. rewrite (bind_step _ _ _ _ _ H1). cbn [app negb].
  case_if; [|done]. exfalso. apply Hne, len_0_nil. lia.
Qed.

Lemma start_upload_serves s :
  upload_ready s ->
  exists s' dt param data,
    (let* ref := nextPDURef in sendReceive ctx (EncodeStartUploadRequest ref bt num) ref) s
      = (s', Ok (param, data)) /\
    ParseStartUploadResponse param = Ok session /\
    upload_ready s' /\ writes (hist (wld s')) = (c, dt) :: writes (hist (wld s)) /\
    starts c (upload_type bt) num (c, dt).
Proof.
  intros Hrdy. pose proof Hrdy as (Hc & Hop & Hpdu).
  rewrite (bind_step _ _ _ _ _ (nextPDURef_run _)). set (ref := u16 (pduRef (cl s) + 1)).
  match goal with |- context [sendReceive _ _ _ ?s1] => set (s1' := s1) end.
  destruct (Hmarsh (EncodeStartUploadRequest ref bt num)) as [dt Hdt].
  assert (0 <= ref < 65536) as Href by apply u16_range.
  pose proof (EncodeCOTPDT_carries _ _ Hdt) as Hcar.
  pose proof (decode_EncodeStartUploadRequest ref bt num Href ltac:(lia)) as Hdec.
  pose proof (bytes_ok_EncodeStartUploadRequest ref bt num) as Hok.
  destruct (sendReceive_live (fun param _ => ParseStartUploadResponse param = Ok session)
    ctx c (EncodeStartUploadRequest ref bt num) dt ref s1')
    as (w' & param & data & Hsr & [Hcs Hw'] & Hp); try done.
  - destruct Hpdu as [?|[? ?]]; [by left|right]. by rewrite len_EncodeStartUploadRequest.
  - intros h Hh. edestruct (serves_start c _ _ _ _ Hsrv) as (resp & junk & rest & Hrf & Hj & Ha);
      try eassumption.
    destruct (env_ReadFrame_ok _ _ _ Hrf) as [Hok' Hlen].
    eexists _, _, _. split; [exact Hrf|]. split; [by apply job_response_complete|].
    by apply ParseStartUploadResponse_complete.
  - eexists _, dt, param, data. split; [exact Hsr|]. split; [done|]. split; [|split].
    + split; [done|]. split; [|done]. unfold open_at in *. cbn [wld] in *. by rewrite Hcs.
    + exact Hw'.
    + split; [done|]. by eexists _, _.
Qed.

(** C8: Against a peer that hands the block out in chunks of whole bytes, an upload
    returns the concatenation of the chunks in their order, as the block asked for,
    having sent one start job that names the block, then one continuation of the peer's
    session per chunk, then at most the end job; the session is kept, whatever becomes
    of the end job. *)
Theorem UploadBlock_serves s :
  upload_ready s -> concat chunks <> [] -> len chunks <= maxUploadChunks ->
  exists s' start conts ends,
    UploadBlock ctx bt num s
      = (s', Ok {| BD_Info := block_info bt num 0 0; BD_Data := concat chunks |}) /\
    same_session s s' /\
    writes (hist (wld s')) = ends ++ conts ++ start :: writes (hist (wld s)) /\
    starts c (upload_type bt) num start /\
    Forall (continuation c id) conts /\ length conts = length chunks /\ len ends <= 1.
Proof.
  intros Hrdy Hne Hmax. destruct (UploadBlock ctx bt num s) as [s' r] eqn:H.
  pose proof (UploadBlock_session _ _ _ _ _ _ H) as Hsame. unfold UploadBlock in H.
  assert (validate_block_number num = Ok tt) as Hv
    by (unfold validate_block_number; case_if; [lia|done]).
  rewrite Hv, bind_lift_Ok in H.
  destruct (start_upload_serves s Hrdy) as (s1 & dt & param & data & H1 & Hp & Hr1 & Hw1 & Hst).
  rewrite (bind_step _ _ _ _ _ (nextPDURef_run _)) in H1.
  rewrite (bind_step _ _ _ _ _ (nextPDURef_run _)) in H.
  rewrite (bind_step _ _ _ _ _ H1) in H.
  rewrite Hp in H. cbn [map_err] in H. rewrite bind_lift_Ok in H.
  destruct (upload_body_serves s1 (c, dt) _ Hr1 Hw1 Hst Hne Hmax)
    as (s2 & conts & H2 & Hw2 & Hc2 & Hl2).
  destruct (upload_cleanup session s2) as [s3 r3] eqn:H3.
  assert (r3 <> Panic) as Hr3.
  { eapply upload_cleanup_safe; [|exact H3]. intros c' Hc'.
    destruct (upload_ready_session s1 s2) as (Hc & Ho & _); [by eapply upload_body_session|done|].
    rewrite Hc in Hc'. injection Hc' as <-. destruct Ho as (x & Hx & _). by exists x. }
  destruct (upload_cleanup_at_most _ _ _ _ H3) as (ends & Hends & Hle).
  rewrite (deferred_run _ _ _ _ _ _ _ H2 H3 Hr3) in H. injection H as <- <-.
  exists s3, (c, dt), conts, ends. split; [done|]. split; [done|].
  split; [by rewrite Hends, Hw2|]. done.
Qed.
End Serves.

(** ** Witnesses *)

#[local] Existing Instance sample_cotp.

(** The telegram in a frame. *)
Definition frame_pdu (w : cid * bytes) : bytes :=
  match sample_Decode (snd w) with
  | inr {| Decoded_DT := Some dt |} => DT_UserData dt
  | _ => []
  end.

(** The continuations since the last start. *)
Fixpoint chunk_index (ws : list (cid * bytes)) : nat :=
  match ws with
  | w :: ws => match decode_start_upload (frame_pdu w) with
               | Some _ => 0
               | None => S (chunk_index ws)
               end
  | [] => 0
  end.

Definition upload_answer (id : bytes) (chunks : list bytes) (ws : list (cid * bytes))
    (pdu : bytes) : bytes :=
  match decode_start_upload pdu, decode_session_request pdu with
  | Some (ref, _, _), _ =>
      ack_data ref ([FuncUploadStart] ++ replicate 7 0 ++ [len id] ++ id ++ []) []
  | None, Some (ref, func, _) =>
      if func =? FuncUpload then
        match chunks !! chunk_index ws with
        | Some chunk =>
            let status := if decide (S (chunk_index ws) = length chunks) then 0 else 1 in
            ack_data ref [FuncUpload; status] (upload_chunk_data chunk)
        | None => []
        end
      else ack_data ref [FuncUploadEnd] []
  | None, None => []
  end.

Lemma decode_start_upload_inv pdu ref ty n :
  bytes_ok pdu -> decode_start_upload pdu = Some (ref, ty, n) ->
  0 <= ref < 65536 /\ exists h l, ParseS7Header pdu = Ok (h, FuncUploadStart :: l).
Proof.
  intros Hok H. unfold decode_start_upload in H.
  destruct (ParseS7Header pdu) as [[h l]| |] eqn:Hp; try done.
  apply ParseS7Header_sound in Hp as (-> & Hwf & _); [|done].
  repeat match type of H with match ?x with _ => _ end = _ =>
    is_var x; destruct x; try discriminate H end.
  destruct (forallb _ _) in H; [|done]. injection H as <- _ _.
  split; [by destruct Hwf|eauto].
Qed.

Lemma decode_session_request_inv pdu ref f id :
  bytes_ok pdu -> decode_session_request pdu = Some (ref, f, id) ->
  0 <= ref < 65536 /\ exists h l, ParseS7Header pdu = Ok (h, f :: l).
Proof.
  intros Hok H. unfold decode_session_request in H.
  destruct (ParseS7Header pdu) as [[h l]| |] eqn:Hp; try done.
  apply ParseS7Header_sound in Hp as (-> & Hwf & _); [|done].
  do 9 (destruct l as [|? l]; [done|]). destruct (_ =? _) in H; [|done]. injection H as <- <- _.
  split; [by destruct Hwf|eauto].
Qed.

Lemma session_not_start pdu ref id : bytes_ok pdu ->
  decode_session_request pdu = Some (ref, FuncUpload, id) -> decode_start_upload pdu = None.
Proof.
  intros Hok (_ & h & l & Hp)%decode_session_request_inv; [|done].
  destruct (decode_start_upload pdu) as [[[ref' ty] n]|] eqn:Hd; [|done].
  apply decode_start_upload_inv in Hd as (_ & h' & l' & Hp'); [|done].
  rewrite Hp in Hp'. discriminate Hp'.
Qed.

Lemma frame_pdu_carries c dt pdu : carries dt pdu -> frame_pdu (c, dt) = pdu.
Proof. intros (ty & eot & H). unfold frame_pdu. cbn in *. by rewrite H. Qed.

Lemma chunk_index_conts c id ty num conts start ws :
  Forall (continuation c id) conts -> starts c ty num start ->
  chunk_index (conts ++ start :: ws) = length conts.
Proof.
  intros Hc (_ & spdu & sref & Hscar & Hsok & Hsd). induction Hc as [|[c' dt] conts Hw Hc IH].
  - destruct start as [c' sdt]. cbn. by rewrite (frame_pdu_carries _ _ _ Hscar), Hsd.
  - destruct Hw as (_ & pdu & ref & Hcar & Hok & Hd). cbn.
    by rewrite (frame_pdu_carries _ _ _ Hcar), (session_not_start _ _ _ Hok Hd), IH.
Qed.

Lemma sample_serves_upload c ty num id chunks :
  bytes_ok id -> len id <= 255 -> Forall (fun chunk => bytes_ok chunk /\ len chunk < 8192) chunks ->
  serves_upload (E := peer_env (upload_answer id chunks)) c ty num id chunks.
Proof.
  intros Hid Hidl Hchunks. split.
  - intros h dt ws pdu ref Hw Hcar Hok Hd.
    destruct (decode_start_upload_inv _ _ _ _ Hok Hd) as [Href _].
    edestruct (peer_answers (upload_answer id chunks) h c dt ws pdu ref
      ([FuncUploadStart] ++ replicate 7 0 ++ [len id] ++ id ++ []) [])
      as (resp & Hrf & Ha); [done|done| |done|..].
    + unfold upload_answer. by rewrite Hd.
    + pose proof (len_nonneg id).
      repeat (constructor; [first [done|unfold is_byte; lia]|]). by rewrite app_nil_r.
    + constructor.
    + len.
    + done.
    + by exists resp, (replicate 7 0), [].
  - intros h dt conts start ws pdu ref chunk Hw Hcar Hok Hd Hconts Hst Hck.
    destruct (decode_session_request_inv _ _ _ _ Hok Hd) as [Href _].
    eapply Forall_lookup_1 in Hchunks as [Hco Hcl]; [|exact Hck].
    set (status := if decide (S (length conts) = length chunks) then 0 else 1).
    edestruct (peer_answers (upload_answer id chunks) h c dt (conts ++ start :: ws) pdu ref
      [FuncUpload; status] (upload_chunk_data chunk)) as (resp & Hrf & Ha); [done|done| |done|..].
    + unfold upload_answer.
      rewrite (session_not_start _ _ _ Hok Hd), Hd, (chunk_index_conts c id ty num) by done.
      by rewrite Z.eqb_refl, Hck.
    + subst status. case_decide; by repeat constructor.
    + unfold upload_chunk_data. auto 20 with bytes.
    + len.
    + unfold upload_chunk_data. len.
    + exists resp, status, [], []. rewrite app_nil_r. split; [done|]. split; [|done].
      subst status. case_decide; split; try done; lia.
Qed.

Lemma UploadBlock_outcome_witness :
  let E := peer_env (upload_answer [0x30; 0x37] [[1; 2]; [3]]) in
  let '(s', r) := @UploadBlock E sample_cotp Background BlockDB 70000 (sample_client 240) in
  r <> Panic /\ same_session (sample_client 240) s' /\
  (exists ws, writes (hist (wld s')) = ws ++ [] /\ len ws <= 12290) /\
  (70000 < 0 \/ 65535 < 70000 -> s' = sample_client 240 /\ exists msg, r = Err (EValidation msg)) /\
  (forall b, r = Ok b -> BD_Data b <> [] /\ BD_Info b = block_info BlockDB 70000 0 0).
Proof.
  set (E := peer_env (upload_answer [0x30; 0x37] [[1; 2]; [3]])). cbv zeta.
  destruct (@UploadBlock E sample_cotp Background BlockDB 70000 (sample_client 240))
    as [s' r] eqn:H.
  apply (UploadBlock_outcome (E := E)
    (EL := peer_env_laws (upload_answer [0x30; 0x37] [[1; 2]; [3]]))
    Background BlockDB 70000 (sample_client 240) s' r); [apply sample_on_heap|exact H].
Defined.

Lemma UploadBlock_serves_witness :
  let E := peer_env (upload_answer [0x30; 0x37] [[1; 2]; []; [3]]) in
  exists s' start conts ends,
    @UploadBlock E sample_cotp Background BlockDB 300 (sample_client 240)
      = (s', Ok {| BD_Info := block_info BlockDB 300 0 0; BD_Data := [1; 2; 3] |}) /\
    same_session (sample_client 240) s' /\
    writes (hist (wld s')) = ends ++ conts ++ [start] /\
    starts 0 0x41 300 start /\
    Forall (continuation 0 [0x30; 0x37]) conts /\ length conts = 3%nat /\ len ends <= 1.
Proof.
  apply (UploadBlock_serves (E := peer_env (upload_answer [0x30; 0x37] [[1; 2]; []; [3]]))
    (EL := peer_env_laws (upload_answer [0x30; 0x37] [[1; 2]; []; [3]]))
    Background 0 ltac:(by split) sample_marshals BlockDB 300 ltac:(lia) [0x30; 0x37]
    ltac:(repeat constructor; lia) ltac:(split; done) [[1; 2]; []; [3]]
    ltac:(repeat constructor; done)); try done.
  - apply sample_serves_upload; [repeat constructor; done|done|].
    repeat (constructor; [split; [repeat constructor; done|done]|]). constructor.
  - split; [done|]. split; [apply sample_open|]. by right.
Defined.

(** One DB in the lists, and the same sizes for every block. *)
Definition sample_db : BlockListEntry :=
  {| BLE_BlockType := 0x41; BLE_BlockNumber := 300; BLE_Language := 5; BLE_Flags := 1 |}.

Definition sample_blocks (bt : BlockType) : list BlockListEntry :=
  if bt =? BlockDB then [sample_db] else [].

Definition block_records (id idx : Z) : option bytes :=
  if id =? SZLBlockList then
    Some (concat (map encode_block_entry (if idx =? 2 then [sample_db] else [])))
  else if id =? SZLBlockInfo then Some [1; 0; 0; 20; 0; 64] else None.

Lemma sample_serves_blocks : serves_szl (E := peer_env (szl_answer block_records)) block_records 0.
Proof.
  apply sample_serves_szl. intros id idx p. unfold block_records.
  repeat case_if; intros [= <-]; (split; [|done]); apply (bool_decide_unpack _);
    vm_compute; exact I.
Qed.

Lemma sample_szl_ready : szl_ready 0 (sample_client 240).
Proof. split; [done|]. split; [apply sample_open|by right]. Qed.

Lemma ListAllBlocks_best_effort_witness :
  let E := peer_env (szl_answer block_records) in
  exists s' rs err,
    @ListAllBlocks E sample_cotp Background (sample_client 240)
      = (s', Ok (concat (map found rs), err)) /\
    @lists_run E sample_cotp Background (sample_client 240) all_block_types rs s' /\
    same_session (sample_client 240) s' /\
    err = (if decide (concat (map failure rs) = []) then None
           else Some (EJoin (concat (map failure rs)))).
Proof.
  apply (ListAllBlocks_best_effort (E := peer_env (szl_answer block_records))
    (EL := peer_env_laws (szl_answer block_records)) Background (sample_client 240)).
  apply sample_on_heap.
Defined.

Lemma ListAllBlocks_serves_witness :
  let E := peer_env (szl_answer block_records) in
  exists s', same_session (sample_client 240) s' /\
    @ListAllBlocks E sample_cotp Background (sample_client 240)
    = (s', Ok ([block_info BlockDB 300 5 1], None)).
Proof.
  apply (ListAllBlocks_serves (E := peer_env (szl_answer block_records))
    (EL := peer_env_laws (szl_answer block_records)) Background 0 ltac:(by split)
    sample_marshals block_records sample_serves_blocks sample_blocks (sample_client 240)).
  - apply sample_szl_ready.
  - intros bt Hbt. split.
    + repeat (destruct Hbt as [<-|Hbt]; [reflexivity|]). destruct Hbt.
    + unfold sample_blocks. case_if; repeat constructor; done.
Defined.

Lemma GetBlockInfo_serves_witness :
  let E := peer_env (szl_answer block_records) in
  exists s' info err,
    @GetBlockInfo E sample_cotp Background BlockDB 10 (sample_client 240)
      = (s', Ok (Some info, err)) /\
    same_session (sample_client 240) s' /\ BI_Type info = BlockDB /\ BI_Number info = 10 /\
    err = None /\ BI_LoadMemory info = 256 /\ BI_LocalData info = 20 /\ BI_MC7Size info = 64.
Proof.
  apply (GetBlockInfo_serves (E := peer_env (szl_answer block_records))
    (EL := peer_env_laws (szl_answer block_records)) Background 0 ltac:(by split)
    sample_marshals block_records sample_serves_blocks BlockDB 10 [1; 0; 0; 20; 0; 64]
    (sample_client 240)); try done.
  apply sample_szl_ready.
Defined.

Lemma block_info_index_ambiguous_witness :
  block_info_index BlockDB 512 = block_info_index BlockFC 0 /\
  (block_info_index BlockDB 7 = block_info_index BlockDB 7 -> BlockDB = BlockDB /\ 7 = 7).
Proof.
  split.
  - apply (proj2 block_info_index_ambiguous 0). done.
  - apply (proj1 block_info_index_ambiguous BlockDB 7 BlockDB 7); done.
Defined.
