(* ===== verification/RangeScan.v ===== *)
(** * client/rangescan.go

    The scan of an area for readable ranges, and the consolidation of its
    observations into spans; with the validator of its request. *)

From Stdlib Require Import Sorted.
From S2P Require Import Prelude GoError GoMonad WireHeader WireCotp WireReadWrite WireSpec ModelTypes Transport ClientTypes ClientCore ClientReadWrite Sample.

Record RangeProbeRequest := {
  RP_Area : Area;
  RP_DBNumber : Z;
  RP_Start : Z;
  RP_End : Z;
  RP_Step : Z;
  RP_ProbeSize : Z;
  RP_Retries : Z;
  RP_RetryDelay : Z;
  RP_Repeat : Z;
  RP_Interval : Z;
  RP_Parallelism : Z }.

Record ReadProbeObservation := {
  Obs_Offset : Z;
  Obs_Request : Address;
  Obs_Result : ReadResult;
  Obs_Stable : option bool;
  Obs_AllZero : option bool }.

Record ReadableSpan := {
  Span_Start : Z;
  Span_End : Z;
  Span_Status : ReadStatus;
  Span_Stable : option bool;
  Span_AllZero : option bool;
  Span_Notes : list string }.

Record RangeProbeSummary := {
  ReadableSpans : list ReadableSpan;
  EmptySpans : list ReadableSpan;
  FailedSpans : list ReadableSpan;
  InconclusiveSpans : list ReadableSpan }.

Record RangeProbeResult := {
  RR_Area : Area;
  RR_DBNumber : Z;
  RR_Spans : list ReadableSpan;
  RR_Probes : list ReadProbeObservation;
  RR_Summary : RangeProbeSummary }.

(** ** validation.go *)

Definition validateRangeProbeRequest (req : RangeProbeRequest) : res unit :=
  if RP_End req <? RP_Start req
  then Err (EValidation ("start must be <= end, got start=" +:+ dec (RP_Start req)
              +:+ " end=" +:+ dec (RP_End req)))
  else if (RP_Area req =? AreaDB) && (RP_DBNumber req <? 0)
  then Err (EValidation ("DB number must be >= 0, got " +:+ dec (RP_DBNumber req)))
  else if RP_ProbeSize req <? 0
  then Err (EValidation ("probe size must be >= 0, got " +:+ dec (RP_ProbeSize req)))
  else if RP_Retries req <? 0
  then Err (EValidation ("retries must be >= 0, got " +:+ dec (RP_Retries req)))
  else if RP_Repeat req <? 0
  then Err (EValidation ("repeat must be >= 0, got " +:+ dec (RP_Repeat req)))
  else if RP_Parallelism req <? 0
  then Err (EValidation ("parallelism must be >= 0, got " +:+ dec (RP_Parallelism req)))
  else Ok tt.

(** ** Consolidation *)

Definition obs_status (o : ReadProbeObservation) : ReadStatus := Status (Obs_Result o).

(** The inner loop: the observations that continue the run of [status] whose last offset
    is [prev], with the end they extend the run to, and what is left. *)
Fixpoint run_extend (status : ReadStatus) (step probeSize prev end_ : Z)
    (obs : list ReadProbeObservation)
    : Z * list ReadProbeObservation * list ReadProbeObservation :=
  match obs with
  | o :: obs' =>
      if bool_decide (obs_status o = status) && (Obs_Offset o =? int (prev + step))
      then let '(e, run, rest) :=
             run_extend status step probeSize (Obs_Offset o) (int (Obs_Offset o + probeSize))
               obs' in
           (e, o :: run, rest)
      else (end_, [], obs)
  | [] => (end_, [], [])
  end.

(** The value the observations of a run agree on, [None] when there is none, and whether
    two of them differ. *)
Fixpoint merge_meta (get : ReadProbeObservation -> option bool) (val : option bool)
    (run : list ReadProbeObservation) : option bool * bool :=
  match run with
  | [] => (val, false)
  | o :: run =>
      match get o, val with
      | None, _ => merge_meta get val run
      | Some b, None => merge_meta get (Some b) run
      | Some b, Some v => if Bool.eqb v b then merge_meta get val run else (None, true)
      end
  end.

Definition span_of (start end_ : Z) (status : ReadStatus) (run : list ReadProbeObservation)
    : ReadableSpan :=
  let '(stable, stableDiffers) := merge_meta Obs_Stable None run in
  let '(allZero, allZeroDiffers) := merge_meta Obs_AllZero None run in
  {| Span_Start := start; Span_End := end_; Span_Status := status;
     Span_Stable := stable; Span_AllZero := allZero;
     Span_Notes :=
       (if stableDiffers then ["stable metadata differs across probes"] else []) ++
       (if allZeroDiffers then ["allZero metadata differs across probes"] else []) |}.

(** The outer loop; a round takes at least one observation. *)
Fixpoint span_loop (fuel : nat) (step probeSize : Z) (obs : list ReadProbeObservation)
    : list ReadableSpan :=
  match fuel, obs with
  | S fuel, o :: obs =>
      let status := obs_status o in
      let start := Obs_Offset o in
      let '(end_, run, rest) :=
        run_extend status step probeSize start (int (start + probeSize)) obs in
      span_of start end_ status (o :: run) :: span_loop fuel step probeSize rest
  | _, _ => []
  end.

(** [byStatus[status]] *)
Definition byStatus (spans : list ReadableSpan) (status : ReadStatus) : list ReadableSpan :=
  filter (fun s => Span_Status s = status) spans.

Definition failed_statuses : list ReadStatus :=
  [ReadStatusRejected; ReadStatusTimeout; ReadStatusTransportErr; ReadStatusProtocolErr;
   ReadStatusShortRead].

Definition ConsolidateSpans (observations : list ReadProbeObservation) (step probeSize : Z)
    : list ReadableSpan * RangeProbeSummary :=
  let step := if step <=? 0 then probeSize else step in
  let spans := span_loop (length observations) step probeSize observations in
  (spans,
   {| ReadableSpans := byStatus spans ReadStatusSuccess;
      EmptySpans := byStatus spans ReadStatusEmptyRead;
      InconclusiveSpans := byStatus spans ReadStatusInconclusive;
      FailedSpans := concat (map (byStatus spans) failed_statuses) |}).

(** ** Probing *)

(** Whether two reads differ in status or data. *)
Definition same_read (r r0 : ReadResult) : bool :=
  bool_decide (Status r = Status r0) && bool_decide (Data r = Data r0).

(** The loops that compare the reads [j >= 1] with the first. *)
Definition all_same (rs : list ReadResult) : bool :=
  match rs with [] => true | r0 :: rs => forallb (fun r => same_read r r0) rs end.

Definition read_all_zero (r : ReadResult) : bool :=
  bool_decide (Status r = ReadStatusSuccess) && (0 <? len (Data r))
  && forallb (fun b => b =? 0) (Data r).

(** [obs.Result.Status = ReadStatusInconclusive; obs.Result.Message = msg] *)
Definition inconclusive (r : ReadResult) (msg : string) : ReadResult :=
  {| Status := ReadStatusInconclusive; RequestedLength := RequestedLength r;
     ReturnedLength := ReturnedLength r; Data := Data r; Warnings := Warnings r;
     Message := msg; Cause := Cause r; ItemStatus := ItemStatus r; ReturnCode := ReturnCode r |}.

Section RangeScan.
Context `{E : Env} `{C : Cotp}.

(** [res, err := c.ReadArea(ctx, addr)] with an error turned into a failed result. *)
Definition read_or_failed (ctx : Ctx) (addr : Address) (probeSize : Z) : M Sys ReadResult :=
  catch (ReadArea ctx addr) (fun err => ret (newFailedReadResult probeSize (Some err))) ret.

(** [n] reads, the first of which has the index [i], with the delay before every read
    but the one with index 0.  The result is the reads, or the error of the context that
    ended them. *)
Fixpoint repeat_reads (ctx : Ctx) (addr : Address) (probeSize delay : Z) (n : nat) (i : Z)
    (acc : list ReadResult) : M Sys (list ReadResult + error) :=
  match n with
  | O => ret (inl acc)
  | S n =>
      catch (on_net (ctx_check ctx)) (fun err => ret (inr err)) (fun _ =>
      catch (if (0 <? i) && (0 <? delay) then on_net (ctx_wait ctx delay) else ret tt)
        (fun err => ret (inr err)) (fun _ =>
      let* res := read_or_failed ctx addr probeSize in
      repeat_reads ctx addr probeSize delay n (i + 1) (acc ++ [res])))
  end.

(** The result of the repeated reads: the last, or inconclusive when they differ. *)
Definition repeat_result (repeat probeSize : Z) (repeated : list ReadResult) : ReadResult :=
  match repeated !! (length repeated - 1)%nat with
  | None => {| Status := ReadStatusTransportErr; RequestedLength := probeSize;
               ReturnedLength := 0; Data := []; Warnings := []; Message := "no reads";
               Cause := None; ItemStatus := ""; ReturnCode := 0 |}
  | Some result =>
      if (1 <? repeat) && (1 <? len repeated) && negb (all_same repeated)
      then inconclusive result "repeat reads produced mixed results" else result
  end.

Definition probeOneOffset (ctx : Ctx) (req : RangeProbeRequest) (offset probeSize : Z)
    : M Sys ReadProbeObservation :=
  let addr := {| Address_Area := RP_Area req; Address_DBNumber := RP_DBNumber req;
                 Address_Start := offset; Address_Size := probeSize |} in
  let repeat := if RP_Repeat req <? 1 then 1 else RP_Repeat req in
  let obs result stable allZero :=
    {| Obs_Offset := offset; Obs_Request := addr; Obs_Result := result;
       Obs_Stable := stable; Obs_AllZero := allZero |} in
  let* repeated := repeat_reads ctx addr probeSize (RP_Interval req) (Z.to_nat repeat) 0 [] in
  match repeated with
  | inr err => ret (obs (newFailedReadResult probeSize (Some err)) None None)
  | inl repeated =>
      let result := repeat_result repeat probeSize repeated in
      let finish result :=
        if 1 <? repeat
        then ret (obs result (Some (all_same repeated)) (Some (forallb read_all_zero repeated)))
        else ret (obs result None None) in
      if 0 <? RP_Retries req then
        let* attempts := repeat_reads ctx addr probeSize (RP_RetryDelay req)
                           (Z.to_nat (RP_Retries req + 1)) 0 [] in
        match attempts with
        | inr err => ret (obs (newFailedReadResult probeSize (Some err)) None None)
        | inl attempts =>
            if (1 <? len attempts) && negb (all_same attempts)
            then finish (inconclusive result "retries produced mixed results")
            else finish result
        end
      else finish result
  end.

(** [for o := req.Start; o < req.End; o += step]; [None]: more than [fuel] rounds. *)
Fixpoint probe_offsets (fuel : nat) (o end_ step : Z) : option (list Z) :=
  if o <? end_ then
    match fuel with
    | O => None
    | S fuel =>
        match probe_offsets fuel (int (o + step)) end_ step with
        | Some offsets => Some (o :: offsets)
        | None => None
        end
    end
  else Some [].

(** The probes of the offsets, or the error of the context that ended them. *)
Fixpoint probe_all (ctx : Ctx) (req : RangeProbeRequest) (probeSize : Z) (offsets : list Z)
    (acc : list ReadProbeObservation) : M Sys (list ReadProbeObservation + error) :=
  match offsets with
  | [] => ret (inl acc)
  | offset :: offsets =>
      catch (on_net (ctx_check ctx)) (fun err => ret (inr err)) (fun _ =>
      let* obs := probeOneOffset ctx req offset probeSize in
      probe_all ctx req probeSize offsets (acc ++ [obs]))
  end.

Definition probe_step (req : RangeProbeRequest) : Z :=
  let step := if RP_Step req <=? 0 then RP_ProbeSize req else RP_Step req in
  if step <=? 0 then 1 else step.

Definition probe_size (req : RangeProbeRequest) : Z :=
  if RP_ProbeSize req <=? 0 then 8 else RP_ProbeSize req.

Definition empty_summary : RangeProbeSummary :=
  {| ReadableSpans := []; EmptySpans := []; FailedSpans := []; InconclusiveSpans := [] |}.

(** The result comes beside an error when the context ends the scan.  The rounds of the
    loop over the offsets are at most [End - Start], unless an offset overflows: then
    the loop appends offsets until memory is exhausted. *)
Definition ProbeReadableRanges (ctx : Ctx) (req : RangeProbeRequest)
    : M Sys (option RangeProbeResult * option error) :=
  catch (lift (validateRangeProbeRequest req)) (fun err => ret (None, Some err)) (fun _ =>
  let step := probe_step req in
  let probeSize := probe_size req in
  let out spans probes summary :=
    {| RR_Area := RP_Area req; RR_DBNumber := RP_DBNumber req; RR_Spans := spans;
       RR_Probes := probes; RR_Summary := summary |} in
  match probe_offsets (Z.to_nat (RP_End req - RP_Start req)) (RP_Start req) (RP_End req) step with
  | None => lift Panic
  | Some offsets =>
      let* x := gets cl in
      if (0 <? len offsets) && negb (bool_decide (is_Some (conn x)))
      then ret (None, Some (ESentinel ErrNotConnected))
      else
        let* r := probe_all ctx req probeSize offsets [] in
        match r with
        | inr err => ret (Some (out [] [] empty_summary), Some err)
        | inl observations =>
            let '(spans, summary) := ConsolidateSpans observations step probeSize in
            ret (Some (out spans observations summary), None)
        end
  end).
End RangeScan.

(** ** Consolidation: a partition into maximal runs *)

(** [b] continues a run that ends with [a]. *)
Definition joins (step : Z) (a b : ReadProbeObservation) : Prop :=
  obs_status b = obs_status a /\ Obs_Offset b = int (Obs_Offset a + step).

(** The value that all observations that have one agree on. *)
Definition agreed (get : ReadProbeObservation -> option bool) (run : list ReadProbeObservation)
    (v : option bool) : Prop :=
  forall b, v = Some b <->
    Exists (fun o => get o = Some b) run /\ Forall (fun o => get o = None \/ get o = Some b) run.

(** A span is made of a run. *)
Definition span_covers (step probeSize : Z) (run : list ReadProbeObservation)
    (s : ReadableSpan) : Prop :=
  exists o tl, run = o :: tl /\ Sorted (joins step) run /\
    Forall (fun o => obs_status o = Span_Status s) run /\
    Span_Start s = Obs_Offset o /\ Span_End s = int (Obs_Offset (last run o) + probeSize) /\
    agreed Obs_Stable run (Span_Stable s) /\ agreed Obs_AllZero run (Span_AllZero s).

(** The next run does not continue this one. *)
Definition separate (step : Z) (r1 r2 : list ReadProbeObservation) : Prop :=
  forall o tl b, r1 = o :: tl -> hd_error r2 = Some b -> ~ joins step (last tl o) b.

Lemma merge_meta_spec get run val b :
  fst (merge_meta get val run) = Some b <->
  (val = Some b \/ val = None /\ Exists (fun o => get o = Some b) run) /\
  Forall (fun o => get o = None \/ get o = Some b) run.
Proof.
  revert val. induction run as [|o run IH]; intros val; cbn [merge_meta].
  { cbn. rewrite Exists_nil. split; [auto|]. by intros [[->|[_ []]] _]. }
  rewrite Exists_cons, Forall_cons_iff. destruct (get o) as [b0|] eqn:Ho.
  - destruct val as [v|].
    + destruct (Bool.eqb v b0) eqn:Hv.
      * apply Bool.eqb_prop in Hv as ->. rewrite IH. naive_solver.
      * apply Bool.eqb_false_iff in Hv. cbn. naive_solver.
    + rewrite IH. naive_solver.
  - rewrite IH. naive_solver.
Qed.

Lemma merge_meta_agreed get run : agreed get run (fst (merge_meta get None run)).
Proof. intros b. rewrite merge_meta_spec. naive_solver. Qed.

Lemma last_cons_default {A} (a d : A) l : last (a :: l) d = last l a.
Proof.
  destruct l as [|b l]; [done|]. change (last (b :: l) d = last (b :: l) a). revert b.
  induction l as [|c l IH]; intros b; [done|]. exact (IH c).
Qed.

Lemma run_extend_spec status step ps obs o0 e run rest :
  obs_status o0 = status ->
  run_extend status step ps (Obs_Offset o0) (int (Obs_Offset o0 + ps)) obs = (e, run, rest) ->
  obs = run ++ rest /\ Forall (fun o => obs_status o = status) run /\
  Sorted (joins step) (o0 :: run) /\ e = int (Obs_Offset (last run o0) + ps) /\
  (forall b, hd_error rest = Some b -> ~ joins step (last run o0) b).
Proof.
  revert o0 e run. induction obs as [|o obs IH]; intros o0 e run Hs H; cbn [run_extend] in H.
  { injection H as <- <- <-. repeat split; try done. repeat constructor. }
  destruct (bool_decide _ && _) eqn:Hj.
  - destruct (run_extend status step ps (Obs_Offset o) _ obs) as [[e' run'] rest'] eqn:Hr.
    injection H as <- <- <-. apply andb_true_iff in Hj as [Hst%bool_decide_eq_true Hof].
    destruct (IH o _ _ Hst Hr) as (-> & Hall & Hsorted & -> & Hmax).
    split; [done|]. split; [by constructor|]. split.
    + constructor; [done|]. constructor. split; [congruence|lia].
    + by rewrite last_cons_default.
  - injection H as <- <- <-. repeat split; try done; [repeat constructor|].
    cbn. intros b [= <-] [H1 H2]. apply andb_false_iff in Hj as [Hj|Hj].
    + apply bool_decide_eq_false in Hj. congruence.
    + lia.
Qed.

Lemma span_of_covers start end_ status run o tl step ps :
  run = o :: tl -> Sorted (joins step) run -> Forall (fun o => obs_status o = status) run ->
  start = Obs_Offset o -> end_ = int (Obs_Offset (last tl o) + ps) ->
  span_covers step ps run (span_of start end_ status run).
Proof.
  intros -> Hs Hst -> ->. exists o, tl. unfold span_of.
  pose proof (merge_meta_agreed Obs_Stable (o :: tl)) as H1.
  pose proof (merge_meta_agreed Obs_AllZero (o :: tl)) as H2.
  destruct (merge_meta Obs_Stable _ _) as [v1 d1], (merge_meta Obs_AllZero _ _) as [v2 d2].
  split; [done|]. split; [done|]. split; [done|]. split; [done|]. split; [|done].
  by rewrite last_cons_default.
Qed.

Lemma span_loop_spec step ps fuel obs :
  (length obs <= fuel)%nat ->
  exists runs, obs = concat runs /\ Forall2 (span_covers step ps) runs (span_loop fuel step ps obs)
    /\ Sorted (separate step) runs.
Proof.
  revert obs. induction fuel as [|fuel IH]; intros [|o obs] Hf; try (cbn in Hf; lia);
    [exists []; by repeat constructor..|]. cbn [span_loop].
  destruct (run_extend _ step ps _ _ obs) as [[e run] rest] eqn:Hr.
  apply run_extend_spec in Hr as (-> & Hst & Hso & -> & Hmax); [|done].
  destruct (IH rest) as (runs & -> & Hc & Hsep).
  { cbn in Hf. rewrite length_app in Hf. lia. }
  exists ((o :: run) :: runs). split; [done|]. split.
  - constructor; [|done]. eapply span_of_covers; [done..| |done|done]. by constructor.
  - constructor; [done|]. destruct runs as [|r2 runs]; constructor.
    intros o' tl' b [= <- <-] Hb.
    apply Forall2_cons_inv_l in Hc as (s & ss & (o2 & tl & -> & _) & _).
    apply Hmax. cbn in *. congruence.
Qed.

(** The statuses that the constants name. *)
Definition standard_status (s : ReadStatus) : bool :=
  match s with ReadStatusOther _ _ => false | _ => true end.

Lemma byStatus_partition spans :
  byStatus spans ReadStatusSuccess ++ byStatus spans ReadStatusEmptyRead
  ++ byStatus spans ReadStatusInconclusive ++ concat (map (byStatus spans) failed_statuses)
  ≡ₚ filter (fun s => standard_status (Span_Status s) = true) spans.
Proof.
  induction spans as [|s spans IH]; [done|]. rewrite (filter_cons _ s). case_decide as Hs.
  - etransitivity; [|apply perm_skip, IH]. clear IH. unfold byStatus.
    cbn [failed_statuses map concat]. destruct s as [a b st]. rewrite !filter_cons.
    cbn [Span_Status] in *.
    destruct st; try done; repeat (case_decide; try done); cbn [app];
      by rewrite <- ?Permutation_middle.
  - rewrite <- IH. unfold byStatus. cbn [failed_statuses map concat].
    assert (forall st, standard_status st = true -> Span_Status s <> st) as Hne
      by (intros st Hst <-; done).
    by rewrite !filter_cons, !decide_False by by apply Hne.
Qed.

(** C29: The consolidation partitions the observations, in order, into maximal runs of
    adjacent probes with one status: every span reaches from the first offset of its run
    to the end of its last probe and has the status of all of it, and the [Stable] and
    [AllZero] values that its probes agree on; two neighbouring runs could not be
    joined.  The summary lists every span whose status is one of the constants exactly
    once, by status; a span of any other status is in none of its lists. *)
Theorem ConsolidateSpans_partition obs step probeSize :
  let step' := if step <=? 0 then probeSize else step in
  let '(spans, summary) := ConsolidateSpans obs step probeSize in
  (exists runs, obs = concat runs /\ Forall2 (span_covers step' probeSize) runs spans /\
    Sorted (separate step') runs) /\
  ReadableSpans summary ++ EmptySpans summary ++ InconclusiveSpans summary ++ FailedSpans summary
    ≡ₚ filter (fun s => standard_status (Span_Status s) = true) spans /\
  (forall s, s ∈ ReadableSpans summary <-> s ∈ spans /\ Span_Status s = ReadStatusSuccess) /\
  (forall s, s ∈ EmptySpans summary <-> s ∈ spans /\ Span_Status s = ReadStatusEmptyRead) /\
  (forall s, s ∈ InconclusiveSpans summary
     <-> s ∈ spans /\ Span_Status s = ReadStatusInconclusive).
Proof.
  cbv zeta. unfold ConsolidateSpans. set (step' := if step <=? 0 then _ else _).
  split; [by apply span_loop_spec|]. split; [apply byStatus_partition|].
  cbn [ReadableSpans EmptySpans InconclusiveSpans]. unfold byStatus.
  setoid_rewrite list_elem_of_filter. naive_solver.
Qed.

(** ** The offsets *)

(** The number of offsets from [start] to below [end_]. *)
Definition offset_count (start end_ step : Z) : Z := (end_ - start + step - 1) / step.

Definition offsets_of (start end_ step : Z) : list Z :=
  map (fun k => start + k * step) (seqZ 0 (offset_count start end_ step)).

Lemma probe_offsets_eq fuel o end_ step :
  0 < step -> - 2 ^ 63 <= o <= end_ -> end_ + step < 2 ^ 63 -> end_ - o <= Z.of_nat fuel ->
  probe_offsets fuel o end_ step = Some (offsets_of o end_ step).
Proof.
  intros Hs. revert o. induction fuel as [|fuel IH]; intros o Ho He Hf.
  { replace end_ with o by lia. unfold offsets_of, offset_count. cbn. rewrite Z.ltb_irrefl.
    by rewrite (Z.div_small (o - o + step - 1)) by lia. }
  cbn [probe_offsets]. destruct (Z.ltb_spec o end_) as [Hlt|Hge].
  - rewrite int_small by lia. destruct (Z.le_gt_cases (o + step) end_) as [Hle|Hgt].
    + rewrite IH by lia. unfold offsets_of, offset_count.
      replace (end_ - o + step - 1) with (end_ - (o + step) + step - 1 + 1 * step) by lia.
      rewrite Z.div_add by lia. set (n := (_ / step)).
      assert (0 <= n) by (apply Z.div_pos; lia).
      rewrite (seqZ_cons 0 (n + 1)) by lia. cbn [map]. f_equal. f_equal; [lia|].
      replace (Z.pred (n + 1)) with n by lia. rewrite map_seqZ_succ. apply map_ext. lia.
    + assert (probe_offsets fuel (o + step) end_ step = Some []) as ->.
      { destruct fuel; cbn [probe_offsets]; by rewrite (proj2 (Z.ltb_ge (o + step) end_)) by lia. }
      unfold offsets_of, offset_count.
      replace (end_ - o + step - 1) with (end_ - o - 1 + 1 * step) by lia.
      rewrite Z.div_add, (Z.div_small (end_ - o - 1)) by lia.
      change (seqZ 0 (0 + 1)) with [0]. cbn [map]. by rewrite Z.add_0_r.
  - replace end_ with o by lia. unfold offsets_of, offset_count.
    by rewrite (Z.div_small (o - o + step - 1)) by lia.
Qed.

Lemma probe_step_pos req : 0 < probe_step req.
Proof. unfold probe_step. repeat case_if; lia. Qed.
Lemma probe_size_pos req : 0 < probe_size req.
Proof. unfold probe_size. case_if; lia. Qed.

(** ** What a scan can do *)

Section Outcome.
Context `{E : Env} `{EL : !EnvLaws} `{C : Cotp} `{HL : !CotpLaws}.

Lemma read_or_failed_session ctx addr n : preserves same_session (read_or_failed ctx addr n).
Proof. unfold read_or_failed. preserve. Qed.
#[local] Hint Resolve read_or_failed_session : go.

Lemma repeat_reads_session ctx addr ps d n i acc :
  preserves same_session (repeat_reads ctx addr ps d n i acc).
Proof.
  revert i acc. induction n as [|n IH]; intros i acc; cbn [repeat_reads]; preserve.
Qed.
#[local] Hint Resolve repeat_reads_session : go.

Lemma probeOneOffset_session ctx req o ps : preserves same_session (probeOneOffset ctx req o ps).
Proof. unfold probeOneOffset. preserve. Qed.
#[local] Hint Resolve probeOneOffset_session : go.

Lemma probe_all_session ctx req ps offsets acc :
  preserves same_session (probe_all ctx req ps offsets acc).
Proof.
  revert acc. induction offsets as [|o offsets IH]; intros acc; cbn [probe_all]; preserve.
Qed.

(** A computation that always has a value. *)
Definition total {A} (m : M Sys A) (Q : A -> Prop) : Prop :=
  forall s s' r, client_on_heap s -> m s = (s', r) -> exists a, r = Ok a /\ Q a.

Lemma total_bind {A B} (m : M Sys A) (k : A -> M Sys B) (P : A -> Prop) Q :
  preserves same_session m -> total m P -> (forall a, P a -> total (k a) Q) -> total (bind m k) Q.
Proof.
  intros Hses Hm Hk s s' r Hs H. unfold bind in H. destruct (m s) as [s1 r1] eqn:H1.
  destruct (Hm _ _ _ Hs H1) as (a & -> & Ha). eapply Hk; [exact Ha| |exact H].
  eapply same_session_heap; [by eapply Hses|done].
Qed.

Lemma total_catch {A B} (m : M Sys A) h (k : A -> M Sys B) Q :
  preserves same_session m -> (forall s s' r, client_on_heap s -> m s = (s', r) -> r <> Panic) ->
  (forall e, total (h e) Q) -> (forall a, total (k a) Q) -> total (catch m h k) Q.
Proof.
  intros Hses Hm Hh Hk s s' r Hs [(s1 & a & H1 & H)|[(s1 & e & H1 & H)|[H1 ->]]]%catch_inv.
  - eapply Hk; [|exact H]. eapply same_session_heap; [by eapply Hses|done].
  - eapply Hh; [|exact H]. eapply same_session_heap; [by eapply Hses|done].
  - by apply Hm in H1.
Qed.

Lemma total_ret {A} (a : A) (Q : A -> Prop) : Q a -> total (ret a) Q.
Proof. intros Ha s s' r _ [= _ <-]. by eexists. Qed.

Lemma read_or_failed_total ctx addr n : total (read_or_failed ctx addr n) (fun _ => True).
Proof.
  apply total_catch; [eauto with go| |intros; by apply total_ret..].
  intros s s' r Hs H. apply ReadArea_ends in H as [_ H]; [|done]. by destruct r.
Qed.

Lemma repeat_reads_total ctx addr ps d n i acc :
  total (repeat_reads ctx addr ps d n i acc)
    (fun r => match r with inl rs => length rs = (length acc + n)%nat | inr _ => True end).
Proof.
  revert i acc. induction n as [|n IH]; intros i acc; cbn [repeat_reads].
  { apply total_ret. lia. }
  apply total_catch; [eauto with go| |intros; by apply total_ret|intros _].
  { intros s s' r Hs H. by eapply on_net_ctx_check_safe. }
  apply total_catch; [preserve| |intros; by apply total_ret|intros _].
  { intros s s' r Hs H ->. case_if; [|done].
    apply on_net_inv in H as [H _]. unfold ctx_wait in H. rewrite bind_outside in H.
    by destruct (ctx_Wait _ _ _) in H. }
  eapply total_bind; [eauto with go|apply read_or_failed_total|intros res _].
  intros s s' r Hs H. destruct (IH (i + 1) (acc ++ [res]) s s' r Hs H) as (x & -> & Hx).
  exists x. split; [done|]. destruct x; [|done]. rewrite Hx, length_app. cbn. lia.
Qed.

(** What an observation says about its probe. *)
Definition obs_for (req : RangeProbeRequest) (ps offset : Z) (o : ReadProbeObservation) : Prop :=
  Obs_Offset o = offset /\
  Obs_Request o = {| Address_Area := RP_Area req; Address_DBNumber := RP_DBNumber req;
                     Address_Start := offset; Address_Size := ps |} /\
  (RP_Repeat req <= 1 -> Obs_Stable o = None /\ Obs_AllZero o = None).

Lemma probeOneOffset_total ctx req offset ps :
  total (probeOneOffset ctx req offset ps) (obs_for req ps offset).
Proof.
  unfold probeOneOffset. cbv zeta.
  set (rep := if RP_Repeat req <? 1 then 1 else RP_Repeat req).
  set (addr := {| Address_Area := RP_Area req |}).
  assert (RP_Repeat req <= 1 -> rep = 1) as Hrep by (unfold rep; case_if; lia).
  eapply total_bind; [eauto with go|apply repeat_reads_total|].
  intros [repeated|err] _; [|by apply total_ret].
  assert (forall result, total
    (if 1 <? rep
     then ret {| Obs_Offset := offset; Obs_Request := addr; Obs_Result := result;
        Obs_Stable := Some (all_same repeated);
        Obs_AllZero := Some (forallb read_all_zero repeated) |}
     else ret {| Obs_Offset := offset; Obs_Request := addr; Obs_Result := result;
        Obs_Stable := None; Obs_AllZero := None |}) (obs_for req ps offset)) as Hfin.
  { intros result. destruct (Z.ltb_spec 1 rep); apply total_ret; [|done].
    split; [done|]. split; [done|]. intros Hle. specialize (Hrep Hle). lia. }
  destruct (0 <? RP_Retries req); [|apply Hfin].
  eapply total_bind; [eauto with go|apply repeat_reads_total|].
  intros [attempts|err] _; [|by apply total_ret]. case_if; apply Hfin.
Qed.

Lemma probe_all_total ctx req ps offsets acc done :
  Forall2 (obs_for req ps) done acc ->
  total (probe_all ctx req ps offsets acc)
    (fun r => match r with
              | inl obs => Forall2 (obs_for req ps) (done ++ offsets) obs
              | inr _ => True
              end).
Proof.
  revert done acc. induction offsets as [|o offsets IH]; intros done acc Hacc; cbn [probe_all].
  { apply total_ret. by rewrite app_nil_r. }
  apply total_catch; [eauto with go| |intros; by apply total_ret|intros _].
  { intros s s' r Hs H. by eapply on_net_ctx_check_safe. }
  eapply total_bind; [eauto with go|apply probeOneOffset_total|intros obs Hobs].
  replace (done ++ o :: offsets) with ((done ++ [o]) ++ offsets) by (by rewrite <- app_assoc).
  apply IH. apply Forall2_app; [done|]. by constructor.
Qed.

(** C31: What a scan returns, whatever the peer and the context do: it never panics and
    keeps the session; an invalid request, or a scan of a non-empty range without a
    connection, is an error and sends nothing; otherwise there is one observation for
    each offset [Start + k * step] below [End], in order, made with the request for that
    offset, and the spans and the summary are the consolidation of these; a context that
    ends leaves an empty result beside its error. *)
Theorem ProbeReadableRanges_outcome ctx req s s' r :
  client_on_heap s -> - 2 ^ 63 <= RP_Start req -> RP_End req + probe_step req < 2 ^ 63 ->
  ProbeReadableRanges ctx req s = (s', r) ->
  let offsets := offsets_of (RP_Start req) (RP_End req) (probe_step req) in
  same_session s s' /\
  exists out err, r = Ok (out, err) /\
  match out, err with
  | None, Some e => s' = s /\
      (validateRangeProbeRequest req = Err e \/
       validateRangeProbeRequest req = Ok tt /\ offsets <> [] /\ conn (cl s) = None
         /\ e = ESentinel ErrNotConnected)
  | None, None => False
  | Some x, Some _ => RR_Probes x = [] /\ RR_Spans x = []
  | Some x, None =>
      validateRangeProbeRequest req = Ok tt /\
      RR_Area x = RP_Area req /\ RR_DBNumber x = RP_DBNumber req /\
      Forall2 (obs_for req (probe_size req)) offsets (RR_Probes x) /\
      (RR_Spans x, RR_Summary x)
        = ConsolidateSpans (RR_Probes x) (probe_step req) (probe_size req)
  end.
Proof.
  intros Hs Hst Hend H. cbv zeta. set (offsets := offsets_of _ _ _).
  unfold ProbeReadableRanges in H.
  destruct (validateRangeProbeRequest req) as [[]|e|] eqn:Hv.
  - rewrite catch_lift_Ok in H.
    assert (RP_Start req <= RP_End req) as Hle.
    { unfold validateRangeProbeRequest in Hv. case_if; [done|lia]. }
    rewrite probe_offsets_eq in H by (try apply probe_step_pos; lia). fold offsets in H.
    cbn [bind gets] in H. destruct (_ && _) eqn:Hc in H.
    { injection H as <- <-. split; [done|]. eexists _, _. split; [done|]. split; [done|]. right.
      apply andb_true_iff in Hc as [Ho Hc]. split; [done|]. split; [by intros ->|].
      destruct (conn (cl s)) eqn:Hconn; [|done].
      by rewrite bool_decide_true in Hc by eauto. }
    unfold bind in H. destruct (probe_all _ _ _ _ _ s) as [s1 r1] eqn:H1.
    pose proof (probe_all_session _ _ _ _ _ _ _ _ H1) as Hss.
    apply (probe_all_total _ _ _ _ [] []) in H1 as (x & -> & Hx); [|by constructor|done].
    destruct x as [obs|err].
    + destruct (ConsolidateSpans obs _ _) as [spans summary] eqn:Hcs. injection H as <- <-.
      split; [done|]. eexists _, _. split; [done|]. cbn. by rewrite Hcs.
    + injection H as <- <-. split; [done|]. eexists _, _. by split.
  - injection H as <- <-. split; [done|]. eexists _, _. split; [done|]. split; [done|]. by left.
  - unfold validateRangeProbeRequest in Hv. repeat case_if; done.
Qed.
End Outcome.

(** ** A scan of a peer that serves its memory *)

Section Serves.
Context `{E : Env} `{EL : !EnvLaws} `{C : Cotp} `{HL : !CotpLaws}.
Context (mem : Z -> Z -> Z -> Z) (c : cid) (ctx : Ctx).
Context (Hlive : live ctx c) (Hmarsh : marshals).

(** A client whose connection can carry the reads. *)
Definition read_ready (s : Sys) : Prop :=
  conn (cl s) = Some c /\ open_at c (wld s) /\
  (pduSize (cl s) <= 0 \/ ReadVarRequestOverhead <= pduSize (cl s)) /\ pduSize (cl s) < 2 ^ 16 /\
  serves_reads mem (read_chunk_size (pduSize (cl s))) c.

Lemma read_ready_session s s' : same_session s s' -> read_ready s -> read_ready s'.
Proof.
  intros Hs (Hc & Ho & Hp & Hp16 & Hsrv). unfold read_ready.
  rewrite (same_session_conn _ _ Hs), (same_session_pduSize _ _ Hs).
  split; [done|]. split; [by eapply same_session_open|done].
Qed.

Definition read_as (d : bytes) (r : ReadResult) : Prop :=
  Status r = ReadStatusSuccess /\ Data r = d.

Lemma all_same_read_as d rs : Forall (read_as d) rs -> all_same rs = true.
Proof.
  intros H. destruct H as [|r0 rs' [Hs0 Hd0] Hrs]; [done|]. cbn. apply forallb_forall. intros r Hr.
  rewrite List.Forall_forall in Hrs. destruct (Hrs r Hr) as [Hs Hd]. unfold same_read.
  by rewrite Hs, Hs0, Hd, Hd0, !bool_decide_true.
Qed.

Lemma repeat_reads_live addr ps d n i acc s :
  read_ready s -> address_in_range addr ->
  Forall (read_as (mem_slice mem (Address_Area addr) (Address_DBNumber addr)
    (Address_Start addr) (Address_Size addr))) acc ->
  exists s' rs, repeat_reads ctx addr ps d n i acc s = (s', Ok (inl rs)) /\
    same_session s s' /\ length rs = (length acc + n)%nat /\
    Forall (read_as (mem_slice mem (Address_Area addr) (Address_DBNumber addr)
      (Address_Start addr) (Address_Size addr))) rs.
Proof.
  intros Hrdy Ha. revert i acc s Hrdy. induction n as [|n IH]; intros i acc s Hrdy Hacc;
    cbn [repeat_reads].
  { exists s, acc. split; [done|]. split; [done|]. split; [lia|done]. }
  destruct (on_net_ctx_check_live c ctx Hlive s) as (w1 & H1 & Hc1 & _).
  rewrite (catch_Ok _ _ _ _ _ _ H1).
  assert (same_session s {| wld := w1; cl := cl s |}) as Hs1 by done.
  assert (exists s2, (if (0 <? i) && (0 <? d) then on_net (ctx_wait ctx d) else ret tt)
    {| wld := w1; cl := cl s |} = (s2, Ok tt) /\ same_session s s2) as (s2 & H2 & Hs2).
  { case_if; [|by eexists].
    destruct (ctx_wait_live ctx c d w1 Hlive) as (w2 & H2 & Hc2 & _).
    eexists. split; [by apply on_net_run|]. split; [|done]. cbn. congruence. }
  rewrite (catch_Ok _ _ _ _ _ _ H2).
  destruct (read_ready_session _ _ Hs2 Hrdy) as (Hc & Ho & Hp & Hp16 & Hsrv).
  destruct (ReadArea_live mem c ctx Hlive Hmarsh addr s2)
    as (s3 & x & ws & H3 & Hx & _ & Hd & _); try done.
  pose proof (ReadArea_session _ _ _ _ _ H3) as Hs3.
  rewrite (bind_step _ _ _ s3 x) by (unfold read_or_failed; by rewrite (catch_Ok _ _ _ _ _ _ H3)).
  destruct (IH (i + 1) (acc ++ [x]) s3) as (s4 & rs & H4 & Hs4 & Hl & Hrs).
  { eapply read_ready_session; [|exact Hrdy]. by transitivity s2. }
  { apply Forall_app. by repeat constructor. }
  exists s4, rs. split; [done|]. split; [by transitivity s2; [|transitivity s3]|].
  split; [|done]. rewrite Hl, length_app. cbn. lia.
Qed.

(** An observation of the bytes the memory holds. *)
Definition obs_reads (req : RangeProbeRequest) (ps offset : Z) (o : ReadProbeObservation) : Prop :=
  Obs_Offset o = offset /\
  read_as (mem_slice mem (RP_Area req) (RP_DBNumber req) offset ps) (Obs_Result o).

Definition probe_in_range (req : RangeProbeRequest) (ps offset : Z) : Prop :=
  is_byte (RP_Area req) /\ 0 <= RP_DBNumber req < 2 ^ 16 /\ 0 <= offset /\ 0 <= ps /\
  offset + ps <= 2 ^ 21.

Lemma repeat_result_read_as rep ps d rs :
  rs <> [] -> Forall (read_as d) rs -> read_as d (repeat_result rep ps rs).
Proof.
  intros Hne Hrs. unfold repeat_result. rewrite (all_same_read_as d) by done.
  rewrite andb_false_r.
  destruct (lookup_lt_is_Some_2 rs (length rs - 1)) as [r Hr].
  { destruct rs; [done|]. cbn. lia. }
  rewrite Hr. by eapply Forall_lookup_1 in Hrs.
Qed.

Lemma probeOneOffset_live req offset ps s :
  read_ready s -> probe_in_range req ps offset ->
  exists s' o, probeOneOffset ctx req offset ps s = (s', Ok o) /\ same_session s s' /\
    obs_reads req ps offset o.
Proof.
  intros Hrdy (Har & Hdb & Hof & Hps & Hend). unfold probeOneOffset. cbv zeta.
  set (addr := {| Address_Area := RP_Area req |}).
  set (rep := if RP_Repeat req <? 1 then 1 else RP_Repeat req).
  assert (0 < rep) as Hrep by (unfold rep; case_if; lia).
  assert (address_in_range addr) as Ha by done.
  destruct (repeat_reads_live addr ps (RP_Interval req) (Z.to_nat rep) 0 [] s)
    as (s1 & rs & H1 & Hs1 & Hl & Hrs); [done|done|constructor|].
  rewrite (bind_step _ _ _ _ _ H1). cbv iota.
  assert (read_as (mem_slice mem (RP_Area req) (RP_DBNumber req) offset ps)
    (repeat_result rep ps rs)) as Hres.
  { apply repeat_result_read_as; [|done]. intros ->. cbn in Hl. lia. }
  destruct (0 <? RP_Retries req).
  - destruct (repeat_reads_live addr ps (RP_RetryDelay req) (Z.to_nat (RP_Retries req + 1)) 0 [] s1)
      as (s2 & rs2 & H2 & Hs2 & _ & Hrs2);
      [by eapply read_ready_session|done|constructor|].
    rewrite (bind_step _ _ _ _ _ H2). cbv iota. rewrite (all_same_read_as _ _ Hrs2).
    rewrite andb_false_r. destruct (1 <? rep); eexists s2, _; (split; [done|]);
      (split; [by transitivity s1|by split]).
  - destruct (1 <? rep); eexists s1, _; (split; [done|]); (split; [done|by split]).
Qed.

Lemma probe_all_live req ps offsets acc done s :
  read_ready s -> Forall (probe_in_range req ps) offsets ->
  Forall2 (obs_reads req ps) done acc ->
  exists s' obs, probe_all ctx req ps offsets acc s = (s', Ok (inl obs)) /\ same_session s s' /\
    Forall2 (obs_reads req ps) (done ++ offsets) obs.
Proof.
  revert acc done s. induction offsets as [|o offsets IH]; intros acc dn s Hrdy Hr Hacc;
    cbn [probe_all].
  { exists s, acc. rewrite app_nil_r. by split. }
  apply Forall_cons_iff in Hr as [Ho Hr].
  destruct (on_net_ctx_check_live c ctx Hlive s) as (w1 & H1 & Hc1 & _).
  rewrite (catch_Ok _ _ _ _ _ _ H1).
  assert (same_session s {| wld := w1; cl := cl s |}) as Hs1 by done.
  destruct (probeOneOffset_live req o ps {| wld := w1; cl := cl s |})
    as (s2 & x & H2 & Hs2 & Hx); [by eapply read_ready_session|done|].
  rewrite (bind_step _ _ _ _ _ H2).
  destruct (IH (acc ++ [x]) (dn ++ [o]) s2) as (s3 & obs & H3 & Hs3 & Hobs).
  { eapply read_ready_session; [|exact Hrdy]. etransitivity; [exact Hs1|exact Hs2]. }
  { done. }
  { apply Forall2_app; [done|]. by constructor. }
  exists s3, obs. split; [done|]. split.
  - etransitivity; [exact Hs1|]. by transitivity s2.
  - by rewrite <- app_assoc in Hobs.
Qed.

Lemma run_extend_all status step ps o0 obs :
  obs_status o0 = status -> Sorted (joins step) (o0 :: obs) ->
  run_extend status step ps (Obs_Offset o0) (int (Obs_Offset o0 + ps)) obs
  = (int (Obs_Offset (last obs o0) + ps), obs, []).
Proof.
  revert o0. induction obs as [|o obs IH]; intros o0 Hs Hsort; cbn [run_extend]; [done|].
  apply Sorted_inv in Hsort as [Hsort Hhd]. apply HdRel_inv in Hhd as [Hst Hof].
  rewrite bool_decide_true by congruence. rewrite Hof, Z.eqb_refl, <- Hof. cbn [andb].
  by rewrite IH, last_cons_default by congruence.
Qed.

Lemma offsets_joins req ps start step n obs :
  - 2 ^ 63 <= start -> 0 < step -> start + n * step < 2 ^ 63 ->
  Forall2 (obs_reads req ps) (map (fun k => start + k * step) (seqZ 0 n)) obs ->
  Sorted (joins step) obs.
Proof.
  intros Hst Hstep Hn H. apply Sorted_LocallySorted_iff.
  revert start n Hst Hn H. induction obs as [|o obs IH]; intros start n Hst Hn H; [constructor|].
  destruct (Z.le_gt_cases n 0) as [|Hpos]; [rewrite seqZ_nil in H by lia; inversion H|].
  rewrite seqZ_cons in H by done. cbn [map] in H. apply Forall2_cons_iff in H as [[Ho [Hs _]] H].
  rewrite map_seqZ_succ in H.
  assert (Forall2 (obs_reads req ps) (map (fun k => start + step + k * step) (seqZ 0 (Z.pred n))) obs)
    as H'.
  { erewrite map_ext; [exact H|]. cbn. lia. }
  destruct obs as [|o2 obs]; [constructor|].
  constructor.
  - apply (IH (start + step) (Z.pred n)); [lia|lia|done].
  - destruct (Z.le_gt_cases (Z.pred n) 0) as [|Hpos2]; [rewrite seqZ_nil in H' by lia; inversion H'|].
    rewrite seqZ_cons in H' by done. apply Forall2_cons_iff in H' as [[Ho2 [Hs2 _]] _].
    split; [unfold obs_status; congruence|]. assert (1 * step <= n * step) by nia.
    rewrite Ho, Ho2, int_small by lia. lia.
Qed.
End Serves.

Lemma offset_count_bound start end_ step :
  0 < step -> offset_count start end_ step * step <= end_ - start + step - 1.
Proof. intros. unfold offset_count. rewrite Z.mul_comm. by apply Z.mul_div_le. Qed.

Lemma offsets_of_bounds start end_ step :
  0 < step -> Forall (fun o => start <= o < end_) (offsets_of start end_ step).
Proof.
  intros Hs. pose proof (offset_count_bound start end_ step Hs) as Hn. unfold offsets_of.
  apply Forall_map, Forall_seqZ. intros k Hk. cbn.
  assert ((k + 1) * step <= offset_count start end_ step * step)
    by (apply Z.mul_le_mono_nonneg_r; lia).
  assert (0 <= k * step) by (apply Z.mul_nonneg_nonneg; lia). lia.
Qed.

Section ScanServes.
Context `{E : Env} `{EL : !EnvLaws} `{C : Cotp} `{HL : !CotpLaws}.
Context (mem : Z -> Z -> Z -> Z) (c : cid) (ctx : Ctx).
Context (Hlive : live ctx c) (Hmarsh : marshals).

(** C30: The scan of a peer that serves its memory finds all of it readable: every
    observation, however often it is repeated or retried, is a success with exactly the
    bytes stored at its offset, and there is one span, from the first offset to the end
    of the last probe. *)
Theorem ProbeReadableRanges_serves req s :
  read_ready mem c s -> validateRangeProbeRequest req = Ok tt ->
  is_byte (RP_Area req) -> 0 <= RP_DBNumber req < 2 ^ 16 -> 0 <= RP_Start req ->
  RP_End req + probe_size req <= 2 ^ 21 -> probe_step req < 2 ^ 62 ->
  exists s' x, ProbeReadableRanges ctx req s = (s', Ok (Some x, None)) /\ same_session s s' /\
    Forall2 (obs_reads mem req (probe_size req))
      (offsets_of (RP_Start req) (RP_End req) (probe_step req)) (RR_Probes x) /\
    match offsets_of (RP_Start req) (RP_End req) (probe_step req) with
    | [] => RR_Spans x = []
    | o :: tl => exists sp, RR_Spans x = [sp] /\ ReadableSpans (RR_Summary x) = [sp] /\
        Span_Start sp = o /\ Span_End sp = last tl o + probe_size req /\
        Span_Status sp = ReadStatusSuccess
    end.
Proof.
  intros Hrdy Hv Har Hdb Hst Hend Hstep. unfold ProbeReadableRanges.
  pose proof (probe_step_pos req) as Hsp. pose proof (probe_size_pos req) as Hps.
  set (step := probe_step req) in *. set (ps := probe_size req) in *.
  assert (RP_Start req <= RP_End req) as Hle.
  { unfold validateRangeProbeRequest in Hv. case_if; [done|lia]. }
  rewrite Hv, catch_lift_Ok. cbv zeta. rewrite probe_offsets_eq by lia.
  pose proof (offsets_of_bounds (RP_Start req) (RP_End req) step Hsp) as Hb.
  pose proof (offset_count_bound (RP_Start req) (RP_End req) step Hsp) as Hn.
  destruct (probe_all_live mem c ctx Hlive Hmarsh req ps
    (offsets_of (RP_Start req) (RP_End req) step) [] [] s) as (s1 & obs & H1 & Hs1 & Hobs);
    [done| |constructor|].
  { eapply Forall_impl; [|exact Hb]. cbn. intros o Ho. split; [done|]. lia. }
  cbn [app] in Hobs.
  pose proof Hrdy as (Hconn & _). cbn [bind gets]. rewrite Hconn.
  rewrite bool_decide_true, andb_false_r by eauto. rewrite (bind_step _ _ _ _ _ H1). cbv iota.
  assert (Sorted (joins step) obs) as Hsort.
  { eapply (offsets_joins mem req ps (RP_Start req) step); [| | |exact Hobs]; lia. }
  destruct (ConsolidateSpans obs step ps) as [spans summary] eqn:Hcs.
  eexists s1, _. split; [done|]. split; [done|]. split; [done|]. cbn [RR_Spans RR_Summary].
  unfold ConsolidateSpans in Hcs. rewrite (proj2 (Z.leb_gt step 0)) in Hcs by done.
  inversion Hobs as [Ho Hnil|o x tl xs Hx Hxs Ho Hx2]; subst obs.
  { by injection Hcs as <- _. }
  destruct Hx as [Hof [Hxst _]]. cbn [length span_loop] in Hcs.
  rewrite (run_extend_all (obs_status x) step ps x xs) in Hcs by done.
  replace (span_loop (length xs) step ps []) with (@nil ReadableSpan) in Hcs
    by (by destruct (length xs)).
  injection Hcs as <- <-.
  assert (Obs_Offset (last xs x) = last tl o) as Hlast.
  { clear -Hxs Hof. revert x o Hof. induction Hxs as [|o' x' tl xs [Hx' _] Hxs IH]; intros x o Hof;
      [done|]. rewrite !last_cons_default. by apply IH. }
  assert (last tl o < RP_End req /\ RP_Start req <= last tl o) as [Hl1 Hl2].
  { rewrite <- Ho in Hb. clear -Hb. apply Forall_cons_iff in Hb as [Hb Htl]. revert o Hb.
    induction Htl as [|o' tl Ho' Htl IH]; intros o Hb; [cbn; lia|].
    rewrite last_cons_default. by apply IH. }
  unfold span_of. destruct (merge_meta Obs_Stable None _), (merge_meta Obs_AllZero None _).
  eexists. split; [done|]. cbn [ReadableSpans]. unfold obs_status, byStatus. rewrite Hxst.
  rewrite filter_cons_True by done. split; [done|]. cbn. split; [done|].
  rewrite Hlast, int_small by lia. done.
Qed.
End ScanServes.

(** ** Witnesses *)

#[local] Existing Instance sample_cotp.
#[local] Instance sample : Env := sample_env sample_mem.
#[local] Instance sample_laws : EnvLaws := sample_env_laws sample_mem.

Definition sample_range (step size : Z) : RangeProbeRequest :=
  {| RP_Area := AreaDB; RP_DBNumber := 1; RP_Start := 0; RP_End := 20; RP_Step := step;
     RP_ProbeSize := size; RP_Retries := 1; RP_RetryDelay := 5; RP_Repeat := 2;
     RP_Interval := 3; RP_Parallelism := 0 |}.

Lemma sample_read_ready : read_ready sample_mem 0 (sample_client 240).
Proof.
  split; [done|]. split; [apply sample_open|]. split; [by right|]. split; [done|].
  intros h dt ws pdu ref a Hw Hc Hok Hd Hl. eapply sample_serves_reads; try eassumption.
  etransitivity; [exact Hl|]. vm_compute. discriminate.
Qed.

Lemma ProbeReadableRanges_outcome_witness :
  let '(s', r) := ProbeReadableRanges Background (sample_range 0 8) (sample_client 240) in
  same_session (sample_client 240) s' /\ exists out err, r = Ok (out, err) /\
  match out, err with
  | None, Some e => s' = sample_client 240 /\
      (validateRangeProbeRequest (sample_range 0 8) = Err e \/
       validateRangeProbeRequest (sample_range 0 8) = Ok tt /\ offsets_of 0 20 8 <> [] /\
       conn (cl (sample_client 240)) = None /\ e = ESentinel ErrNotConnected)
  | None, None => False
  | Some x, Some _ => RR_Probes x = [] /\ RR_Spans x = []
  | Some x, None =>
      validateRangeProbeRequest (sample_range 0 8) = Ok tt /\
      RR_Area x = AreaDB /\ RR_DBNumber x = 1 /\
      Forall2 (obs_for (sample_range 0 8) 8) (offsets_of 0 20 8) (RR_Probes x) /\
      (RR_Spans x, RR_Summary x) = ConsolidateSpans (RR_Probes x) 8 8
  end.
Proof.
  destruct (ProbeReadableRanges Background (sample_range 0 8) (sample_client 240))
    as [s' r] eqn:H.
  apply (ProbeReadableRanges_outcome Background (sample_range 0 8) (sample_client 240) s' r);
    [apply sample_on_heap|done|done|exact H].
Defined.

Lemma ProbeReadableRanges_serves_witness :
  exists s' x,
    ProbeReadableRanges Background (sample_range 10 4) (sample_client 240)
      = (s', Ok (Some x, None)) /\ same_session (sample_client 240) s' /\
    Forall2 (obs_reads sample_mem (sample_range 10 4) 4) [0; 10] (RR_Probes x) /\
    exists sp, RR_Spans x = [sp] /\ ReadableSpans (RR_Summary x) = [sp] /\
      Span_Start sp = 0 /\ Span_End sp = 14 /\ Span_Status sp = ReadStatusSuccess.
Proof.
  apply (ProbeReadableRanges_serves sample_mem 0 Background (sample_live 0) sample_marshals
    (sample_range 10 4) (sample_client 240)); try done.
  apply sample_read_ready.
Defined.
