(* ===== verification/Traffic.v ===== *)
(** * What a session sends

    Every operation of a connected client, in any sequence, writes well-formed telegrams
    of the negotiated size on the connection of the session, and nothing else. *)

From S2P Require Import Prelude GoError GoMonad WireErrors WireHeader WireCotp WireReadWrite WireSpec WireSetup WireSzl WireBlocks ModelTypes Transport ClientTypes ClientCore ClientReadWrite ClientSzl Identify ClientBlocks RangeScan Sample.

(** ** Telegrams *)

(** A request that an S7 peer can take apart: a header that the parser accepts, of a job or
    a userdata message, whose section lengths are those of what follows. *)
Definition is_telegram (pdu : bytes) : bool :=
  match ParseS7Header pdu with
  | Ok (h, payload) =>
      (IsJob (Header_ROSCTR h) || IsUserdata (Header_ROSCTR h))
      && (len payload =? ParamLength h + DataLength h)
  | _ => false
  end.

Definition telegram (pdu : bytes) : Prop := bytes_ok pdu /\ is_telegram pdu = true.

Lemma EncodeS7Header_u16_ref r ref p d :
  EncodeS7Header r ref p d = EncodeS7Header r (u16 ref) p d.
Proof.
  unfold EncodeS7Header. assert (put_u16 (u16 ref) = put_u16 ref) as ->; [|done].
  rewrite !put_u16_eq. unfold u16. f_equal; [|f_equal]; lia.
Qed.

(** Two sections behind a header with their lengths. *)
Lemma telegram_frame r ref param data :
  r = ROSCTRJob \/ r = ROSCTRUserdata -> len param < 65536 -> len data < 65536 ->
  bytes_ok (EncodeS7Header r ref (len param) (len data) ++ param ++ data) ->
  telegram (EncodeS7Header r ref (len param) (len data) ++ param ++ data).
Proof.
  intros Hr Hp Hd Hok. split; [done|]. unfold is_telegram. rewrite EncodeS7Header_u16_ref.
  pose proof (u16_range ref).
  rewrite ParseS7Header_frame; [|destruct Hr as [-> | ->]; done || (unfold is_byte; cbn; lia)..|done|done].
  cbn [Header_ROSCTR ParamLength DataLength]. rewrite len_app, Z.eqb_refl.
  by destruct Hr as [-> | ->].
Qed.

Lemma telegram_job ref param : len param < 65536 ->
  bytes_ok (EncodeS7Header ROSCTRJob ref (len param) 0 ++ param) ->
  telegram (EncodeS7Header ROSCTRJob ref (len param) 0 ++ param).
Proof.
  pose proof (telegram_frame ROSCTRJob ref param [] (or_introl eq_refl)) as H.
  rewrite app_nil_r in H. intros Hp. by apply H.
Qed.

(** The requests of the client. *)
Section Requests.
Context (ref : Z).

Lemma telegram_EncodeReadVarRequest a : is_byte (Any_Area a) ->
  telegram (EncodeReadVarRequest ref [a]).
Proof.
  intros Ha. apply telegram_job; [|by apply bytes_ok_EncodeReadVarRequest, Forall_singleton].
  cbn [map concat]. len.
Qed.

(** The largest chunk of a write has 28 bytes less than the largest PDU. *)
Lemma telegram_EncodeWriteVarRequest a v : is_byte (Any_Area a) -> bytes_ok v -> len v <= 65507 ->
  telegram (EncodeWriteVarRequest ref a v).
Proof.
  intros Ha Hv Hl. pose proof (bytes_ok_EncodeWriteVarRequest ref a v Ha Hv) as Hok.
  pose proof (len_EncodeWriteVarRequest ref a v) as Hlen.
  revert Hok Hlen. unfold EncodeWriteVarRequest. rewrite <- (app_assoc (EncodeS7Header _ _ _ _)).
  set (data := if _ : bool then _ else _). intros Hok Hlen.
  apply telegram_frame; [by left|by len| |done]. revert Hlen. rewrite !len_app. len.
Qed.

Lemma telegram_EncodeSZLRequest id idx : telegram (EncodeSZLRequest ref id idx).
Proof.
  pose proof (bytes_ok_EncodeSZLRequest ref id idx) as Hok.
  revert Hok. unfold EncodeSZLRequest. rewrite <- (app_assoc (EncodeS7Header _ _ _ _)).
  apply telegram_frame; [by right|done..].
Qed.

Lemma telegram_EncodeStartUploadRequest bt n : telegram (EncodeStartUploadRequest ref bt n).
Proof. apply telegram_job; [len|by apply bytes_ok_EncodeStartUploadRequest]. Qed.

Lemma telegram_session_request f id : is_byte f -> telegram (encode_session_request f ref id).
Proof.
  intros Hf. apply telegram_job; [|by apply bytes_ok_encode_session_request].
  rewrite len_app. assert (forall l : bytes, len (if 255 <? len l then take 255 l else l) <= 255)
    as Hid by (intros l; case_if; len).
  specialize (Hid (bytes_of_string id)). revert Hid. cbn [len]. len.
Qed.

Lemma telegram_EncodeSetupCommRequest calling called size :
  telegram (EncodeSetupCommRequest ref calling called size).
Proof. apply telegram_job; [len|auto 40 with bytes]. Qed.
End Requests.

(** ** Frames of a session *)

Section Session.
Context `{E : Env} `{C : Cotp}.

(** A frame on the connection of [x] that carries a telegram of the negotiated size; a
    peer that negotiates the size 0 sets no limit. *)
Definition sent_in (x : Client) (w : cid * bytes) : Prop :=
  conn x = Some (fst w) /\
  exists pdu, EncodeCOTPDT pdu = Ok (snd w) /\ telegram pdu /\
    (pduSize x <= 0 \/ len pdu <= pduSize x).

(** The session is kept, and what is written is typed. *)
Definition typed (s s' : Sys) : Prop :=
  same_session s s' /\
  (pduSize (cl s) < 65536 ->
   exists ws, writes (hist (wld s')) = ws ++ writes (hist (wld s)) /\ Forall (sent_in (cl s)) ws).

#[export] Instance typed_preorder : PreOrder typed.
Proof.
  split.
  - intros s. split; [done|]. intros _. by exists [].
  - intros s1 s2 s3 [H12 W12] [H23 W23]. split; [by transitivity s2|]. intros Hp.
    destruct (W12 Hp) as (ws1 & Hw1 & Hok1).
    destruct W23 as (ws2 & Hw2 & Hok2); [by rewrite (same_session_pduSize _ _ H12)|].
    exists (ws2 ++ ws1). split; [by rewrite Hw2, Hw1, app_assoc|]. apply Forall_app. split; [|done].
    revert Hok2. apply Forall_impl. intros w. unfold sent_in.
    by rewrite (same_session_conn _ _ H12), (same_session_pduSize _ _ H12).
Qed.

Lemma quiet_typed {A} (m : M Sys A) :
  preserves same_session m -> preserves same_writes m -> preserves typed m.
Proof.
  intros Hs Hw s s' r H. split; [by eapply Hs|]. intros _. exists []. split; [|done].
  by apply Hw in H.
Qed.

Lemma on_net_typed {A} (m : M World A) : preserves silent m -> preserves typed (on_net m).
Proof.
  intros Hm. apply quiet_typed; [|by apply on_net_same_writes].
  by apply on_net_same_session, silent_same_heap.
Qed.

Lemma sendReceive_typed ctx req ref : telegram req ->
  preserves typed (sendReceive ctx req ref).
Proof.
  intros Hreq s s' r H. split; [by eapply sendReceive_session|]. intros Hp.
  apply sendReceive_writes in H as [[Hw _]|(c & dt & Hc & Hdt & Hfit & Hw)].
  - by exists [].
  - exists [(c, dt)]. split; [done|]. constructor; [|done]. split; [done|].
    by exists req.
Qed.

Lemma nextPDURef_typed : preserves typed nextPDURef.
Proof.
  apply quiet_typed; [auto with go|]. intros s s' r. rewrite nextPDURef_run. by intros [= <- _].
Qed.

Lemma ctx_check_typed ctx : preserves typed (on_net (ctx_check ctx)).
Proof. apply on_net_typed, ctx_check_silent. Qed.
Lemma ctx_wait_typed ctx d : preserves typed (on_net (ctx_wait ctx d)).
Proof. apply on_net_typed, ctx_wait_silent. Qed.
#[local] Hint Resolve nextPDURef_typed ctx_check_typed ctx_wait_typed : go.

(** *** Reads and writes *)

Lemma rate_limit_typed ctx d b : preserves typed (rate_limit ctx d b).
Proof. unfold rate_limit. preserve. Qed.
#[local] Hint Resolve rate_limit_typed : go.

Lemma read_chunks_typed ctx addr size d chunks result off b :
  is_byte (Address_Area addr) -> preserves typed (read_chunks ctx addr size d chunks result off b).
Proof.
  intros Ha. revert result off b. induction chunks as [|n l IH]; intros; cbn [read_chunks];
    [eauto with go typeclass_instances|].
  assert (forall ref, let a := {| Any_Area := Address_Area addr;
    Any_DBNumber := Address_DBNumber addr; Any_Start := off; Any_Size := n |} in
    preserves typed (sendReceive ctx (EncodeReadVarRequest ref [a]) ref))
    by (intros; by apply sendReceive_typed, telegram_EncodeReadVarRequest).
  preserve.
Qed.

Lemma ReadArea_typed ctx addr : is_byte (Address_Area addr) -> preserves typed (ReadArea ctx addr).
Proof. intros Ha. unfold ReadArea. preserve; by apply read_chunks_typed. Qed.

Lemma write_chunks_typed ctx addr data d chunks off b :
  is_byte (Address_Area addr) -> bytes_ok data -> Forall (fun n => n <= 65507) chunks ->
  preserves typed (write_chunks ctx addr data d chunks off b).
Proof.
  intros Ha Hd Hn. revert off b. induction Hn as [|n l Hn Hl IH]; intros off b; cbn [write_chunks];
    [eauto with go typeclass_instances|].
  apply (preserves_bind typed); [auto with go|intros _].
  apply (preserves_bind typed); [auto with go|intros _].
  apply (preserves_bind_post typed (fun chunk => bytes_ok chunk /\ len chunk <= 65507));
    [eauto with go typeclass_instances| |intros chunk [Hok Hlen]].
  { intros s s' chunk [= _ Hchunk]. unfold checked in Hchunk.
    destruct (go_slice data off (off + n)) eqn:Hs; [|done].
    injection Hchunk as <-. split; [by eapply bytes_ok_slice|].
    apply go_slice_Some in Hs as (_ & _ & _ & Hs). lia. }
  apply (preserves_bind typed); [auto with go|intros ref].
  apply (preserves_bind typed); [by apply sendReceive_typed, telegram_EncodeWriteVarRequest|].
  intros [param resp]. preserve.
Qed.

Lemma WriteArea_typed ctx addr data : is_byte (Address_Area addr) -> bytes_ok data ->
  preserves typed (WriteArea ctx addr data).
Proof.
  intros Ha Hd. unfold WriteArea. apply (preserves_bind typed); [eauto with go typeclass_instances|intros _].
  apply (preserves_bind typed); [eauto with go typeclass_instances|intros _].
  intros s s' r H. split.
  { revert H. assert (forall x, preserves same_session (write_chunks ctx addr data (rateLimit (opts x))
      (planReadChunks (len data) (if pduSize x - WriteVarRequestOverhead <? 1 then 200
         else pduSize x - WriteVarRequestOverhead)) 0 true)) as Hw
      by (intros; apply write_chunks_session).
    apply (preserves_bind same_session); [eauto with go typeclass_instances|exact Hw]. }
  intros Hp. cbn [bind gets] in H. eapply write_chunks_typed in H as [_ H]; [|done..|].
  { by apply H. }
  unfold WriteVarRequestOverhead, S7HeaderSize.
  eapply Forall_impl; [|apply planReadChunks_bounds; by case_if; lia].
  intros n [_ Hn]. revert Hn. case_if; lia.
Qed.

(** *** Status lists *)

Lemma query_szl_typed ctx id idx : preserves typed (query_szl ctx id idx).
Proof.
  unfold query_szl. apply (preserves_bind typed); [auto with go|intros ref].
  apply (preserves_bind typed); [|intros []; preserve].
  apply sendReceive_typed, telegram_EncodeSZLRequest.
Qed.
#[local] Hint Resolve query_szl_typed : go.

Lemma Identify_typed `{U : Unicode} `{B : Buffer} ctx : preserves typed (Identify ctx).
Proof. unfold Identify, readModuleIDSZL, readComponentIDSZL. preserve. Qed.

(** *** Blocks *)

Lemma ListBlocks_typed ctx bt : preserves typed (ListBlocks ctx bt).
Proof.
  unfold ListBlocks, EncodeBlockListRequest.
  assert (forall ref idx, preserves typed (sendReceive ctx (EncodeSZLRequest ref SZLBlockList idx) ref))
    by (intros; apply sendReceive_typed, telegram_EncodeSZLRequest).
  preserve.
Qed.
#[local] Hint Resolve ListBlocks_typed : go.

Lemma ListAllBlocks_typed ctx : preserves typed (ListAllBlocks ctx).
Proof.
  assert (forall types all errs, preserves typed (list_types ctx types all errs)).
  { induction types as [|bt types IH]; intros all errs; cbn [list_types]; preserve. }
  unfold ListAllBlocks. preserve.
Qed.

Lemma GetBlockInfo_typed ctx bt n : preserves typed (GetBlockInfo ctx bt n).
Proof.
  unfold GetBlockInfo.
  assert (forall ref idx, preserves typed (sendReceive ctx (EncodeSZLRequest ref SZLBlockInfo idx) ref))
    by (intros; apply sendReceive_typed, telegram_EncodeSZLRequest).
  preserve.
Qed.

Lemma session_request_typed ctx f ref id : is_byte f ->
  preserves typed (sendReceive ctx (encode_session_request f ref id) ref).
Proof. intros Hf. by apply sendReceive_typed, telegram_session_request. Qed.

Lemma upload_body_typed ctx bt n id : preserves typed (upload_body ctx bt n id).
Proof.
  assert (forall ref, preserves typed (sendReceive ctx (EncodeUploadRequest ref id) ref))
    by (intros; by apply session_request_typed).
  assert (forall i k e, preserves typed (upload_attempts ctx id i k e)).
  { intros i k. induction k as [|k IH]; intros e; cbn [upload_attempts]; preserve. }
  assert (forall k i p cnt, preserves typed (upload_chunks ctx id k i p cnt)).
  { induction k as [|k IH]; intros i p cnt; cbn [upload_chunks]; preserve. }
  unfold upload_body. preserve.
Qed.

Lemma upload_cleanup_typed id : preserves typed (upload_cleanup id).
Proof.
  assert (forall ctx ref, preserves typed (sendReceive ctx (EncodeEndUploadRequest ref id) ref))
    by (intros; by apply session_request_typed).
  assert (forall ev, is_write ev = false -> preserves typed (on_net (emit ev)))
    by (intros; by apply on_net_typed, emit_silent).
  assert (preserves typed (on_net (context_WithTimeout Background 500000000)))
    by apply on_net_typed, context_WithTimeout_silent.
  unfold upload_cleanup. preserve; auto.
Qed.

Lemma UploadBlock_typed ctx bt n : preserves typed (UploadBlock ctx bt n).
Proof.
  assert (forall ref, preserves typed (sendReceive ctx (EncodeStartUploadRequest ref bt n) ref))
    by (intros; apply sendReceive_typed, telegram_EncodeStartUploadRequest).
  assert (forall id, preserves typed (deferred (upload_body ctx bt n id) (upload_cleanup id)))
    by (intros; apply preserves_deferred;
        [apply _|apply upload_body_typed|apply upload_cleanup_typed]).
  unfold UploadBlock. preserve.
Qed.

(** *** Range scans *)

Lemma ProbeReadableRanges_typed ctx req : is_byte (RP_Area req) ->
  preserves typed (ProbeReadableRanges ctx req).
Proof.
  intros Ha.
  assert (forall off size n, preserves typed (read_or_failed ctx {| Address_Area := RP_Area req;
    Address_DBNumber := RP_DBNumber req; Address_Start := off; Address_Size := size |} n)) as Hread
    by (intros; unfold read_or_failed; preserve; by apply ReadArea_typed).
  assert (forall off size n d k i acc, preserves typed (repeat_reads ctx {| Address_Area := RP_Area req;
    Address_DBNumber := RP_DBNumber req; Address_Start := off; Address_Size := size |} n d k i acc)).
  { intros off size n d k. induction k as [|k IH]; intros i acc; cbn [repeat_reads]; preserve. }
  assert (forall off size, preserves typed (probeOneOffset ctx req off size))
    by (intros; unfold probeOneOffset; preserve).
  assert (forall size offsets acc, preserves typed (probe_all ctx req size offsets acc)).
  { intros size offsets. induction offsets as [|o offsets IH]; intros acc; cbn [probe_all]; preserve. }
  unfold ProbeReadableRanges. preserve.
Qed.

(** *** Operations *)

(** The methods of a connected client that talk to the peer; the other reads and writes
    are [ReadArea] and [WriteArea] with some fields filled in. *)
Inductive operation :=
  | OpReadArea (addr : Address)
  | OpWriteArea (addr : Address) (data : bytes)
  | OpIdentify
  | OpGetCPUState
  | OpGetProtectionLevel
  | OpReadDiagBufferRaw
  | OpReadDiagBuffer
  | OpListBlocks (bt : BlockType)
  | OpListAllBlocks
  | OpGetBlockInfo (bt : BlockType) (num : Z)
  | OpUploadBlock (bt : BlockType) (num : Z)
  | OpProbeReadableRanges (req : RangeProbeRequest).

(** The arguments have their Go types. *)
Definition operation_ok (op : operation) : Prop :=
  match op with
  | OpReadArea addr => is_byte (Address_Area addr)
  | OpWriteArea addr data => is_byte (Address_Area addr) /\ bytes_ok data
  | OpProbeReadableRanges req => is_byte (RP_Area req)
  | _ => True
  end.

Context `{U : Unicode} `{B : Buffer}.

(** The state after an operation, whatever it returns. *)
Definition perform (ctx : Ctx) (op : operation) (s : Sys) : Sys :=
  match op with
  | OpReadArea addr => fst (ReadArea ctx addr s)
  | OpWriteArea addr data => fst (WriteArea ctx addr data s)
  | OpIdentify => fst (Identify ctx s)
  | OpGetCPUState => fst (GetCPUState ctx s)
  | OpGetProtectionLevel => fst (GetProtectionLevel ctx s)
  | OpReadDiagBufferRaw => fst (ReadDiagBufferRaw ctx s)
  | OpReadDiagBuffer => fst (ReadDiagBuffer ctx s)
  | OpListBlocks bt => fst (ListBlocks ctx bt s)
  | OpListAllBlocks => fst (ListAllBlocks ctx s)
  | OpGetBlockInfo bt num => fst (GetBlockInfo ctx bt num s)
  | OpUploadBlock bt num => fst (UploadBlock ctx bt num s)
  | OpProbeReadableRanges req => fst (ProbeReadableRanges ctx req s)
  end.

Definition perform_all (ops : list (Ctx * operation)) (s : Sys) : Sys :=
  fold_left (fun s op => perform (fst op) (snd op) s) ops s.

Lemma preserves_fst {A} R (m : M Sys A) s : preserves R m -> R s (fst (m s)).
Proof. intros Hm. destruct (m s) as [s' r] eqn:H. by eapply Hm. Qed.

Lemma perform_typed ctx op s : operation_ok op -> typed s (perform ctx op s).
Proof.
  intros Hop. destruct op; cbn [perform]; apply (preserves_fst typed).
  - by apply ReadArea_typed.
  - by apply WriteArea_typed; destruct Hop.
  - apply Identify_typed.
  - unfold GetCPUState. preserve.
  - unfold GetProtectionLevel. preserve.
  - unfold ReadDiagBufferRaw. preserve.
  - unfold ReadDiagBuffer, ReadDiagBufferRaw. preserve.
  - apply ListBlocks_typed.
  - apply ListAllBlocks_typed.
  - apply GetBlockInfo_typed.
  - apply UploadBlock_typed.
  - by apply ProbeReadableRanges_typed.
Qed.

(** C5: What a session sends: however its operations follow one another, whatever they
    return and whatever the peer answers, every frame they write is on the connection of
    the session and is the DT of a telegram that an S7 peer can take apart, a job or a
    userdata request whose section lengths are the real ones, no longer than the
    PDU size that was negotiated; and the session is the same at the end. *)
Theorem session_traffic ops s :
  pduSize (cl s) < 65536 -> Forall (fun op => operation_ok (snd op)) ops ->
  same_session s (perform_all ops s) /\
  exists ws, writes (hist (wld (perform_all ops s))) = ws ++ writes (hist (wld s)) /\
    Forall (sent_in (cl s)) ws.
Proof.
  intros Hp Hops. assert (typed s (perform_all ops s)) as [Hs Hw]; [|by split; [|apply Hw; lia]].
  clear Hp. revert s. induction Hops as [|[ctx op] ops Hop Hops IH]; intros s; [done|].
  transitivity (perform ctx op s); [by apply perform_typed|apply IH].
Qed.
End Session.

(** ** The frames of a client, from the first to the last *)

(** A frame is the connection request of a pair of TSAPs, or it carries a telegram. *)
Definition frame_ok `{C : Cotp} (w : cid * bytes) : Prop :=
  (exists local remote, EncodeCOTPCR local remote = Ok (snd w)) \/
  (exists pdu, EncodeCOTPDT pdu = Ok (snd w) /\ telegram pdu).

(** What is written is in order. *)
Definition framed `{C : Cotp} (w w' : World) : Prop :=
  exists ws, writes (hist w') = ws ++ writes (hist w) /\ Forall frame_ok ws.

(** The same for a client whose negotiated size has 16 bits, and stays so. *)
Definition orderly `{C : Cotp} (s s' : Sys) : Prop :=
  pduSize (cl s) < 65536 -> pduSize (cl s') < 65536 /\ framed (wld s) (wld s').

Section Life.
Context `{E : Env} `{EL : !EnvLaws} `{C : Cotp} `{HL : !CotpLaws}.

#[export] Instance framed_preorder : PreOrder framed.
Proof.
  split; [by intros w; exists []|]. intros w1 w2 w3 (ws1 & H1 & F1) (ws2 & H2 & F2).
  exists (ws2 ++ ws1). split; [by rewrite H2, H1, app_assoc|by apply Forall_app].
Qed.

#[export] Instance orderly_preorder : PreOrder orderly.
Proof.
  split; [by intros s|]. intros s1 s2 s3 H1 H2 Hp. destruct (H1 Hp) as [Hp2 F1].
  destruct (H2 Hp2) as [Hp3 F2]. split; [done|by etransitivity].
Qed.

Lemma typed_orderly s s' : typed s s' -> orderly s s'.
Proof.
  intros [Hs Hw] Hp. split; [by rewrite (same_session_pduSize _ _ Hs)|].
  destruct (Hw Hp) as (ws & Hws & Hok). exists ws. split; [done|]. revert Hok.
  apply Forall_impl. intros w (_ & pdu & Hdt & Ht & _). right. by exists pdu.
Qed.

Lemma same_writes_framed w w' : writes (hist w') = writes (hist w) -> framed w w'.
Proof. intros H. by exists []. Qed.

Lemma silent_framed {A} (m : M World A) : preserves silent m -> preserves framed m.
Proof. intros Hm w w' r H. by apply same_writes_framed, (Hm _ _ _ H). Qed.

Lemma on_net_orderly {A} (m : M World A) : preserves framed m -> preserves orderly (on_net m).
Proof.
  intros Hm s s' r [H Hcl]%on_net_inv Hp. rewrite Hcl. split; [done|by eapply Hm].
Qed.

Lemma set_cl_orderly f : (forall x, pduSize x < 65536 -> pduSize (f x) < 65536) ->
  preserves orderly (set_cl f).
Proof. intros Hf s s' r [= <- _] Hp. split; [by apply Hf|reflexivity]. Qed.

Lemma SendContext_framed c ctx data : frame_ok (c, data) ->
  preserves framed (SendContext c ctx data).
Proof.
  intros Hok w w' r [_ [[Hw _]|Hw]]%SendContext_writes; [by apply same_writes_framed|].
  exists [(c, data)]. by split; [|constructor].
Qed.

Lemma emit_framed ev : is_write ev = false -> preserves framed (emit ev).
Proof. intros Hev. by apply silent_framed, emit_silent. Qed.

Lemma Close_framed c : preserves framed (Close c).
Proof.
  assert (forall x, preserves framed (set_conn c x))
    by (intros x w w' r [= <- _]; by apply same_writes_framed).
  assert (preserves framed (get_conn c)) by apply silent_framed, get_conn_silent.
  assert (forall e, preserves framed (err_of e)) by (intros; apply silent_framed, err_of_silent).
  assert (preserves framed (outside (fun h => env_Close h c) (EvClose c)))
    by by apply silent_framed, outside_silent.
  unfold Close. preserve; auto.
Qed.

Lemma ctx_check_framed ctx : preserves framed (ctx_check ctx).
Proof. apply silent_framed, ctx_check_silent. Qed.
Lemma ReceiveContext_framed c ctx : preserves framed (ReceiveContext c ctx).
Proof. apply silent_framed, ReceiveContext_silent. Qed.
#[local] Hint Resolve ctx_check_framed ReceiveContext_framed Close_framed on_net_orderly : go.

Lemma dialTransport_framed ctx addr t : preserves framed (dialTransport ctx addr t).
Proof.
  intros w w' r. unfold dialTransport, bind, gets. cbn.
  destruct env_Dial; intros [= <- _]; by apply same_writes_framed.
Qed.

Lemma performCOTPConnect_framed ctx c l r : preserves framed (performCOTPConnect ctx c l r).
Proof.
  unfold performCOTPConnect. apply (preserves_bind framed); [auto with go|intros _].
  apply (preserves_bind_post framed (fun cr => EncodeCOTPCR l r = Ok cr));
    [eauto with go typeclass_instances|by intros w w' cr [= _ ?%map_err_Ok]|intros cr Hcr].
  apply (preserves_bind framed); [|intros _; preserve].
  apply SendContext_framed. left. by exists l, r.
Qed.

Lemma performS7Setup_framed ctx c ref a b m : preserves framed (performS7Setup ctx c ref a b m).
Proof.
  unfold performS7Setup. apply (preserves_bind framed); [auto with go|intros _].
  apply (preserves_bind_post framed (fun dt => EncodeCOTPDT (EncodeSetupCommRequest ref a b m) = Ok dt));
    [eauto with go typeclass_instances|by intros w w' dt [= _ ?%map_err_Ok]|intros dt Hdt].
  apply (preserves_bind framed); [|intros _; preserve].
  apply SendContext_framed. right. eexists. split; [exact Hdt|].
  apply telegram_EncodeSetupCommRequest.
Qed.
#[local] Hint Resolve dialTransport_framed performCOTPConnect_framed performS7Setup_framed : go.

(** The size that the peer answers has 16 bits. *)
Lemma setup_response_wf ref resp setup : bytes_ok resp -> len resp < 65536 ->
  setup_response ref resp = Ok setup -> setup_wf setup.
Proof.
  intros Hok Hl H. unfold setup_response in H. apply res_bind_Ok in H as ([hd rest] & Hd & H).
  apply decode_dt_sound in Hd as (ty & eot & _ & _ & _ & Hr & _); [|done..].
  case_if; [done|]. case_if; [by apply res_bind_Ok in H as (? & _ & H)|].
  apply res_bind_Ok in H as (f & _ & H). case_if; [done|]. apply map_err_Ok in H.
  by eapply ParseSetupCommResponse_wf.
Qed.

Lemma connect_handshake_wf ctx o rack slot c w w' l r setup :
  connect_handshake ctx o rack slot c w = (w', Ok (l, r, setup)) -> setup_wf setup.
Proof.
  unfold connect_handshake. intros (w1 & [l1 r1] & _ & H)%bind_Ok.
  apply bind_Ok in H as (w2 & [] & _ & H). apply bind_Ok in H as (w3 & st & H3 & H).
  injection H as _ _ _ <-. unfold wrap_err in H3.
  destruct (performS7Setup ctx c 1 _ _ _ w2) as [w4 r4] eqn:H4. injection H3 as _ H3.
  apply map_err_Ok in H3 as ->. unfold performS7Setup in H4.
  do 3 apply bind_Ok in H4 as (? & ? & _ & H4). apply bind_Ok in H4 as (w5 & resp & H5 & H4).
  apply ReceiveContext_frame in H5 as [h Hf]. apply env_ReadFrame_ok in Hf as [Hok Hlen].
  injection H4 as _ H4. by eapply setup_response_wf.
Qed.

Lemma connect_handshake_framed ctx o rack slot c :
  preserves framed (connect_handshake ctx o rack slot c).
Proof. unfold connect_handshake. preserve. Qed.
#[local] Hint Resolve connect_handshake_framed : go.

Lemma connectOnce_orderly ctx rack slot : preserves orderly (connectOnce ctx rack slot).
Proof.
  unfold connectOnce, close_and_fail. apply (preserves_bind orderly); [preserve|intros x].
  apply (preserves_bind orderly); [auto with go|intros c].
  apply (preserves_bind_post orderly
    (fun r => match r with inl (_, _, setup) => setup_wf setup | inr _ => True end)).
  - preserve.
  - intros s s' r [([[l rm] st] & H & [= ->])|[(e & H & [= ->])|[_ [=]]]]%attempt_inv; [|done].
    apply on_net_inv in H as [H _]. by eapply connect_handshake_wf.
  - intros [[[l rm] st]|e]; [|intros _; preserve]. intros (_ & _ & Hst).
    apply (preserves_bind orderly); [preserve|intros old].
    apply (preserves_bind orderly); [|intros _; destruct old; preserve].
    apply set_cl_orderly. intros x' _. cbn. lia.
Qed.
#[local] Hint Resolve connectOnce_orderly : go.

Lemma Connect_orderly ctx : preserves orderly (Connect ctx).
Proof.
  assert (forall ps e, preserves orderly (try_pairs ctx ps e)).
  { intros ps e. induction ps as [|[rk sl] ps IH]; cbn [try_pairs]; preserve. }
  assert (preserves orderly (autoConnect ctx)) by (unfold autoConnect; preserve).
  assert (forall ev, is_write ev = false -> preserves orderly (on_net (emit ev)))
    by (intros; by apply on_net_orderly, emit_framed).
  assert (forall o m, preserves orderly m -> preserves orderly (log_failure o m))
    by (intros; unfold log_failure; preserve; auto).
  unfold Connect. preserve; auto with go.
Qed.

Lemma ClientClose_orderly : preserves orderly ClientClose.
Proof.
  assert (preserves orderly (set_cl disconnect)) by (apply set_cl_orderly; cbn; lia).
  unfold ClientClose, closeConnLocked. preserve.
Qed.

Context `{U : Unicode} `{B : Buffer}.

(** What a program does with a client. *)
Inductive call :=
  | CallConnect
  | CallClose
  | CallOperation (op : operation).

Definition call_ok (c : call) : Prop :=
  match c with CallOperation op => operation_ok op | _ => True end.

(** The state after a call, whatever it returns. *)
Definition make_call (ctx : Ctx) (c : call) (s : Sys) : Sys :=
  match c with
  | CallConnect => fst (Connect ctx s)
  | CallClose => fst (ClientClose s)
  | CallOperation op => perform ctx op s
  end.

Definition make_calls (calls : list (Ctx * call)) (s : Sys) : Sys :=
  fold_left (fun s c => make_call (fst c) (snd c) s) calls s.

(** C6: What a client sends in its life: from its creation on, whatever a program calls and in
    whatever order, connecting and closing included, whatever the calls return and the
    peers answer, every frame on the network is either the COTP connection request of a
    pair of TSAPs or the DT of a well-formed job or userdata telegram; and the size that is
    negotiated has 16 bits. *)
Theorem client_traffic calls host os :
  Forall (fun c => call_ok (snd c)) calls ->
  let s := make_calls calls (client_init host os []) in
  Forall frame_ok (writes (hist (wld s))) /\ pduSize (cl s) < 65536.
Proof.
  intros Hok. cbv zeta. set (s0 := client_init host os []).
  assert (orderly s0 (make_calls calls s0)) as Ho.
  { generalize s0. induction Hok as [|[ctx c] calls Hc Hok IH]; intros s; [done|].
    transitivity (make_call ctx c s); [|apply IH].
    destruct c; cbn [make_call].
    - apply (preserves_fst orderly), Connect_orderly.
    - apply (preserves_fst orderly), ClientClose_orderly.
    - by apply typed_orderly, perform_typed. }
  destruct (Ho eq_refl) as (Hp & ws & Hws & Hf). split; [|done]. rewrite Hws.
  cbn. by rewrite app_nil_r.
Qed.
End Life.

(** ** Witness *)

#[local] Existing Instance sample_cotp.

(** A session of 64 bytes in which two bytes are written, a block of 100 bytes is read and
    an upload is tried, against a peer that has a memory and nothing else. *)
Definition sample_operations : list (Ctx * operation) :=
  [(Background, OpWriteArea (db1 4 2) [7; 8]); (Background, OpReadArea (db1 0 100));
   (Background, OpUploadBlock BlockDB 1)].

#[local] Instance ascii_only : Unicode :=
  {| uni_IsPrint := fun _ => true; uni_IsLetter := fun _ => false; uni_IsDigit := fun _ => false;
     uni_ToUpper := fun r => r |}.
#[local] Instance exact_buffer : Buffer := fun _ _ => [].
#[local] Instance memory_env : Env := sample_env sample_mem.

Lemma session_traffic_witness :
  let s := sample_client 64 in
  let s' := perform_all sample_operations s in
  same_session s s' /\
  exists ws, writes (hist (wld s')) = ws ++ [] /\ len ws = 5 /\ Forall (sent_in (cl s)) ws.
Proof.
  cbv zeta. destruct (session_traffic sample_operations (sample_client 64))
    as (Hs & ws & Hw & Hok).
  - by vm_compute.
  - constructor; [|constructor; [|constructor; [exact I|constructor]]].
    + split; [done|]. apply (bool_decide_unpack _). vm_compute. exact I.
    + done.
  - split; [exact Hs|]. exists ws. split; [exact Hw|]. split; [|exact Hok].
    rewrite app_nil_r in Hw. rewrite <- Hw. vm_compute. reflexivity.
Defined.

(** A client connects, writes, connects again, reads 500 bytes in three chunks and closes. *)
Definition sample_calls : list (Ctx * call) :=
  [(Background, CallConnect); (Background, CallOperation (OpWriteArea (db1 4 2) [7; 8]));
   (Background, CallConnect); (Background, CallOperation (OpReadArea (db1 0 500)));
   (Background, CallClose)].

Lemma client_traffic_witness :
  let s := make_calls sample_calls (client_init "plc" [] []) in
  Forall frame_ok (writes (hist (wld s))) /\ pduSize (cl s) < 65536 /\
  len (writes (hist (wld s))) = 8.
Proof.
  cbv zeta. assert (Forall (fun c => call_ok (snd c)) sample_calls) as Hok.
  { constructor; [exact I|constructor; [|repeat (constructor; [done|]); constructor]].
    split; [done|]. apply (bool_decide_unpack _). vm_compute. exact I. }
  pose proof (sample_env_laws sample_mem) as HL.
  destruct (client_traffic sample_calls "plc" [] Hok) as [H1 H2].
  split; [exact H1|]. split; [exact H2|]. vm_compute. reflexivity.
Defined.
