(* ===== verification/Pool.v ===== *)
(** * Bounded pools of goroutines

    The scheduling pattern of [CompareRead] and [ProbeRackSlots]: a loop over the jobs
    acquires a semaphore of [cap] slots and starts one goroutine per job, which stores
    its result at the job's index and releases its slot; the loop is left early when
    the context is done, and some results end the context themselves.  An execution is
    a sequence of steps of the loop, the goroutines and the caller's context in any
    order. *)

From stdpp Require Import relations.
From S2P Require Import Prelude.

Section Pool.
Context {A : Type}.
(** The jobs, the slots, whether the loop looks at the context before it acquires a
    slot, whether the caller's context can end, the values a job can have, and the
    values that end the context. *)
Context (jobs cap : nat) (precheck : bool) (can_end : Prop).
Context (yields : nat -> A -> Prop) (stops : A -> bool).

Record pool := {
  next : nat;                    (* the index of the loop *)
  ready : bool;                  (* it is about to acquire a slot *)
  closed_loop : bool;            (* it has been left *)
  running : list nat;            (* the goroutines, by the index of their jobs *)
  results : list (option A);
  cancelled : bool;              (* the context is done *)
  late : nat }.                  (* how many jobs were started after it was done *)

(** [n] is the length of the slice of results. *)
Definition pool_init (n : nat) : pool :=
  {| next := 0; ready := false; closed_loop := false; running := [];
     results := replicate n None; cancelled := false; late := 0 |}.

Inductive pool_step (p : pool) : pool -> Prop :=
  | pool_cancel :
      cancelled p = false -> can_end ->
      pool_step p {| next := next p; ready := ready p; closed_loop := closed_loop p;
                     running := running p; results := results p; cancelled := true;
                     late := late p |}
  | pool_check :
      closed_loop p = false -> ready p = false -> (next p < jobs)%nat ->
      (precheck = true -> cancelled p = false) ->
      pool_step p {| next := next p; ready := true; closed_loop := false;
                     running := running p; results := results p; cancelled := cancelled p;
                     late := late p |}
  | pool_start :
      closed_loop p = false -> ready p = true -> (next p < jobs)%nat ->
      (length (running p) < cap)%nat ->
      pool_step p {| next := S (next p); ready := false; closed_loop := false;
                     running := next p :: running p; results := results p;
                     cancelled := cancelled p;
                     late := if cancelled p then S (late p) else late p |}
  | pool_leave :
      closed_loop p = false -> cancelled p = true \/ next p = jobs ->
      pool_step p {| next := next p; ready := ready p; closed_loop := true;
                     running := running p; results := results p; cancelled := cancelled p;
                     late := late p |}
  | pool_finish i a :
      i ∈ running p -> yields i a ->
      pool_step p {| next := next p; ready := ready p; closed_loop := closed_loop p;
                     running := filter (fun j => j <> i) (running p);
                     results := <[i := Some a]> (results p);
                     cancelled := cancelled p || stops a; late := late p |}.

(** [wg.Wait()] has returned. *)
Definition pool_done (p : pool) : Prop := closed_loop p = true /\ running p = [].

(** ** The invariant *)

Record pool_inv (n : nat) (p : pool) : Prop := {
  inv_next : (next p <= jobs)%nat;
  inv_len : length (results p) = n;
  inv_nodup : NoDup (running p);
  inv_cap : (length (running p) <= cap)%nat;
  inv_running i : i ∈ running p -> (i < next p)%nat /\ results p !! i = Some None;
  inv_waiting i : (next p <= i < n)%nat -> results p !! i = Some None;
  inv_result i : (i < next p)%nat -> i ∉ running p ->
    exists a, results p !! i = Some (Some a) /\ yields i a;
  inv_closed : closed_loop p = true -> cancelled p = true \/ next p = jobs;
  inv_ready : ready p = true -> (next p < jobs)%nat;
  inv_late : precheck = true ->
    (late p + (if ready p then 1 else 0) <= 1)%nat \/ cancelled p = false /\ late p = 0%nat;
  inv_late0 : cancelled p = false -> late p = 0%nat;
  inv_stop i a : results p !! i = Some (Some a) -> stops a = true -> cancelled p = true;
  inv_cancel : cancelled p = true ->
    can_end \/ exists i a, results p !! i = Some (Some a) /\ stops a = true }.

Lemma pool_init_inv n : (jobs <= n)%nat -> pool_inv n (pool_init n).
Proof.
  intros Hn. split; cbn; try done; try lia.
  - by rewrite length_replicate.
  - constructor.
  - intros i Hi. by apply elem_of_nil in Hi.
  - intros i Hi. apply lookup_replicate_2. lia.
  - intros i a Hi. by apply lookup_replicate in Hi as [[=] _].
Qed.

Lemma length_filter_out (i : nat) l :
  i ∈ l -> (length (filter (fun j => j <> i) l) < length l)%nat.
Proof.
  intros Hi. induction l as [|j l IH]; [by apply elem_of_nil in Hi|].
  assert (length (filter (fun j => j <> i) l) <= length l)%nat as Hle by apply length_filter.
  rewrite filter_cons. case_decide as Hj; cbn.
  - apply elem_of_cons in Hi as [->|Hi]; [done|]. specialize (IH Hi). lia.
  - lia.
Qed.

Lemma pool_step_inv n p p' : (jobs <= n)%nat -> pool_step p p' -> pool_inv n p -> pool_inv n p'.
Proof.
  intros Hn Hstep [Hne Hle Hnd Hcap Hru Hwa Hre Hcl Hrd Hla Hla0 Hst Hca].
  destruct Hstep as [Hc Hend|Ho Hr Hlt Hpre|Ho Hr Hlt Hsl|Ho Hl|i a Hi Hy]; split; cbn; try done;
    auto with lia.
  - intros Hp. destruct (Hla Hp) as [|[_ ->]]; [by left|]. left. destruct (ready p); lia.
  - constructor; [|done]. intros Hin. apply Hru in Hin. lia.
  - intros i [->|Hi]%elem_of_cons; [split; [lia|apply Hwa; lia]|].
    apply Hru in Hi as [? ?]. split; [lia|done].
  - intros i Hi Hnin. apply not_elem_of_cons in Hnin as [? ?]. apply Hre; [lia|done].
  - intros Hp. destruct (Hla Hp) as [Hle1|[Hc ->]].
    + rewrite Hr in Hle1. left. destruct (cancelled p); lia.
    + rewrite Hc. by right.
  - intros Hc. rewrite Hc. auto.
  - by rewrite length_insert.
  - by apply list.NoDup_filter.
  - pose proof (length_filter_out i (running p) Hi). lia.
  - intros j [Hne' Hj]%list_elem_of_filter. apply Hru in Hj as [? ?].
    by rewrite list_lookup_insert_ne.
  - intros j Hj. apply Hru in Hi as [? _]. rewrite list_lookup_insert_ne by lia. by apply Hwa.
  - intros j Hj Hnin. destruct (decide (j = i)) as [->|Hne'].
    + exists a. apply Hru in Hi as [_ Hi]. split; [|done].
      apply list_lookup_insert_eq. by eapply lookup_lt_Some.
    + rewrite list_lookup_insert_ne by done. apply Hre; [done|]. intros Hjr. apply Hnin.
      by apply list_elem_of_filter.
  - intros Hcl1. destruct (Hcl Hcl1) as [->|]; auto.
  - intros Hp. destruct (Hla Hp) as [|[Hc Hl0]]; [by left|].
    destruct (cancelled p || stops a); [|by right]. left. rewrite Hl0. destruct (ready p); lia.
  - intros [Hc _]%orb_false_iff. auto.
  - intros j b Hj Hb. destruct (decide (j = i)) as [->|Hne'].
    + apply Hru in Hi as [_ Hi]. rewrite list_lookup_insert_eq in Hj by (by eapply lookup_lt_Some).
      injection Hj as ->. by rewrite Hb, orb_true_r.
    + rewrite list_lookup_insert_ne in Hj by done. by rewrite (Hst j b Hj Hb).
  - apply Hru in Hi as [_ Hi]. apply lookup_lt_Some in Hi as Hlt.
    intros [Hc|Hs]%orb_true_iff; [|right; exists i, a; by rewrite list_lookup_insert_eq].
    destruct (Hca Hc) as [|(j & b & Hj & Hb)]; [by left|right]. exists j, b. split; [|done].
    rewrite list_lookup_insert_ne; [done|]. intros ->. congruence.
Qed.

Lemma pool_steps_inv n p : (jobs <= n)%nat -> rtc pool_step (pool_init n) p -> pool_inv n p.
Proof.
  intros Hn H. pose proof (pool_init_inv n Hn) as H0. revert H0. generalize (pool_init n) as q, H.
  clear H. intros q H. induction H; eauto using pool_step_inv.
Qed.

(** ** Every execution ends, and it ends with all goroutines done *)

Definition pool_measure (p : pool) : nat :=
  3 * (jobs - next p) - (if ready p then 1 else 0) + length (running p)
  + (if cancelled p then 0 else 1) + (if closed_loop p then 0 else 1).

Lemma pool_step_measure n p p' :
  pool_inv n p -> pool_step p p' -> (pool_measure p' < pool_measure p)%nat.
Proof.
  intros Hinv Hstep. pose proof (inv_next _ _ Hinv). pose proof (inv_ready _ _ Hinv) as Hr'.
  destruct Hstep as [Hc Hend|Ho Hr Hlt Hpre|Ho Hr Hlt Hsl|Ho Hl|i a Hi Hy]; unfold pool_measure; cbn.
  - rewrite Hc. lia.
  - rewrite Ho, Hr. lia.
  - rewrite Ho, Hr. destruct (cancelled p); lia.
  - rewrite Ho. lia.
  - pose proof (length_filter_out i (running p) Hi).
    destruct (cancelled p); cbn; [lia|]. destruct (stops a); lia.
Qed.

Lemma pool_bounded n p k :
  (jobs <= n)%nat -> nsteps pool_step k (pool_init n) p -> (k <= 3 * jobs + 2)%nat.
Proof.
  intros Hn H. enough (forall q, nsteps pool_step k q p -> pool_inv n q -> k <= pool_measure q)%nat
    as Hk.
  { apply Hk in H; [|by apply pool_init_inv]. unfold pool_measure in H. cbn in H. lia. }
  clear H. induction k as [|k IH]; intros q H Hq; inversion H; subst; [lia|].
  pose proof (pool_step_measure _ _ _ Hq ltac:(eassumption)).
  assert (k <= pool_measure y)%nat; [|lia]. eapply IH; [done|by eapply pool_step_inv].
Qed.

Lemma pool_progress n p :
  (0 < cap)%nat -> (forall i, (i < jobs)%nat -> exists a, yields i a) ->
  pool_inv n p -> pool_done p \/ exists p', pool_step p p'.
Proof.
  intros Hcap Hy Hinv. destruct (running p) as [|i l] eqn:Hr.
  - destruct (closed_loop p) eqn:Hc; [by left|]. right.
    destruct (decide (next p = jobs)) as [Hj|Hj].
    { eexists. apply pool_leave; auto. }
    pose proof (inv_next _ _ Hinv).
    destruct (cancelled p) eqn:Hca; [eexists; apply pool_leave; auto|].
    destruct (ready p) eqn:Hrd; eexists;
      [apply pool_start; rewrite ?Hr; cbn; auto; lia|apply pool_check; auto; lia].
  - right. assert (i ∈ running p) as Hi by (rewrite Hr; by left).
    destruct (inv_running _ _ Hinv i Hi) as [Hlt _]. pose proof (inv_next _ _ Hinv).
    destruct (Hy i) as [a Ha]; [lia|]. eexists. by eapply pool_finish.
Qed.

(** What is left when all is done: a prefix of the jobs has its values, in the order of
    the jobs; the others were never started, and there are others only when the context
    was done. *)
Lemma pool_outcome n p :
  (jobs <= n)%nat -> rtc pool_step (pool_init n) p -> pool_done p ->
  (next p <= jobs)%nat /\ length (results p) = n /\
  (forall i, (i < next p)%nat -> exists a, results p !! i = Some (Some a) /\ yields i a) /\
  (forall i, (next p <= i < n)%nat -> results p !! i = Some None) /\
  (next p = jobs \/ cancelled p = true /\
    (can_end \/ exists i a, results p !! i = Some (Some a) /\ stops a = true)).
Proof.
  intros Hn H [Hc Hr]. apply pool_steps_inv in H as Hinv; [|done].
  destruct Hinv. repeat split; auto.
  - intros i Hi. apply inv_result0; [done|]. rewrite Hr. apply not_elem_of_nil.
  - destruct (inv_closed0 Hc) as [Hca|]; auto.
Qed.
End Pool.

Arguments pool : clear implicits.
