(* ===== verification/Compare.v ===== *)
(** * client/compare.go

    The same read through several rack/slot candidates, each on a client of its own,
    and the verdict whether the target tells them apart. *)

From stdpp Require Import relations.
From S2P Require Import Prelude GoError GoMonad GoStrings WireCotp ModelTypes Transport ClientTypes ClientCore ClientReadWrite Pool Sample.

Record RackSlot := { RS_Rack : Z; RS_Slot : Z }.

Record CompareReadRequest := {
  CR_Address : string;
  CR_Port : Z;
  CR_Candidates : list RackSlot;
  CR_Area : Area;
  CR_DBNumber : Z;
  CR_Offset : Z;
  CR_Size : Z;
  CR_Timeout : Z;
  CR_Parallelism : Z }.

Record CompareReadCandidate := {
  CC_Rack : Z;
  CC_Slot : Z;
  CC_Result : ReadResult }.

Record CompareReadResult := {
  CmpRequest : CompareReadRequest;
  ByCandidate : list CompareReadCandidate;
  RackSlotInsensitive : bool }.

(** ** validation.go *)

(** The loop over the candidates, the first of which has the index [i]. *)
Fixpoint validate_candidates (i : Z) (candidates : list RackSlot) : res unit :=
  match candidates with
  | [] => Ok tt
  | cand :: candidates =>
      match ValidateRackSlot (RS_Rack cand) (RS_Slot cand) with
      | Ok _ => validate_candidates (i + 1) candidates
      | Err err => Err (EValidation ("candidate " +:+ dec i +:+ ": " +:+ error_text err))
      | Panic => Panic
      end
  end.

Definition validateCompareReadRequest (req : CompareReadRequest) : res unit :=
  if String.eqb (TrimSpace (CR_Address req)) ""
  then Err (EValidation "address must be non-empty")
  else if CR_Port req <? 0
  then Err (EValidation ("port must be >= 0, got " +:+ dec (CR_Port req)))
  else if CR_Timeout req <? 0
  then Err (EValidation ("timeout must be >= 0, got " +:+ Duration_String (CR_Timeout req)))
  else if CR_Size req <? 0
  then Err (EValidation ("size must be >= 0, got " +:+ dec (CR_Size req)))
  else if CR_Offset req <? 0
  then Err (EValidation ("offset must be >= 0, got " +:+ dec (CR_Offset req)))
  else if (CR_Area req =? AreaDB) && (CR_DBNumber req <? 0)
  then Err (EValidation ("DB number must be >= 0, got " +:+ dec (CR_DBNumber req)))
  else validate_candidates 0 (CR_Candidates req).

(** ** One candidate *)

Definition compareCandidateFailure (c : RackSlot) (size : Z) (err : option error)
    : CompareReadCandidate :=
  {| CC_Rack := RS_Rack c; CC_Slot := RS_Slot c; CC_Result := newFailedReadResult size err |}.

(** Run the operations of a client that nothing else refers to. *)
Definition with_client {A} (x : Client) (m : M Sys A) : M World A := fun w =>
  let (s, r) := m {| wld := w; cl := x |} in (wld s, r).

Section Compare.
Context `{E : Env} `{C : Cotp}.

(** The body of the goroutine of a candidate. *)
Definition compare_one (ctx : Ctx) (req : CompareReadRequest) (cand : RackSlot)
    : M World CompareReadCandidate :=
  let port := if CR_Port req =? 0 then 102 else CR_Port req in
  let timeout := if CR_Timeout req =? 0 then 5 * time_Second else CR_Timeout req in
  let c := NewClient (CR_Address req)
             [WithPort port; WithRackSlot (RS_Rack cand) (RS_Slot cand); WithTimeout timeout] in
  with_client c (
    catch (Connect ctx)
      (fun err =>
         let* _ := attempt ClientClose in
         ret (compareCandidateFailure cand (CR_Size req) (Some err)))
      (fun _ =>
    let* r := attempt (ReadArea ctx {| Address_Area := CR_Area req;
                Address_DBNumber := CR_DBNumber req; Address_Start := CR_Offset req;
                Address_Size := CR_Size req |}) in
    let* _ := attempt ClientClose in
    match r with
    | inr err => ret (compareCandidateFailure cand (CR_Size req) (Some err))
    | inl res => ret {| CC_Rack := RS_Rack cand; CC_Slot := RS_Slot cand; CC_Result := res |}
    end)).
End Compare.

(** ** The verdict *)

(** The first candidate that succeeded. *)
Definition first_ok (cs : list CompareReadCandidate) : option CompareReadCandidate :=
  List.find (fun c => bool_decide (Status (CC_Result c) = ReadStatusSuccess)) cs.

Definition insensitive (cs : list CompareReadCandidate) : bool :=
  if len cs <? 2 then false else
  match first_ok cs with
  | None => false
  | Some c0 =>
      let ref := Data (CC_Result c0) in
      forallb (fun c => bool_decide (Status (CC_Result c) = ReadStatusSuccess)
                        && bool_decide (Data (CC_Result c) = ref)) cs
  end.

(** ** The comparison

    Its goroutines run as a pool.  What a candidate's goroutine can give is what
    [compare_one] gives in some environment: what the other goroutines do between its
    steps is part of that environment, and its client and connection are its own. *)

Definition can_give `{C : Cotp} (ctx : Ctx) (req : CompareReadRequest) (i : nat)
    (a : CompareReadCandidate) : Prop :=
  exists cand (E : Env) w w', CR_Candidates req !! i = Some cand /\ EnvLaws /\
    all_closed (conns w) /\ compare_one ctx req cand w = (w', Ok a).

Definition ctx_can_end (ctx : Ctx) : Prop := exists h e, ctx_Err ctx h = Some e.

Definition compare_slots (req : CompareReadRequest) : nat :=
  Z.to_nat (if CR_Parallelism req <=? 0 then 1 else CR_Parallelism req).

(** The candidates from the index on that the loop was at when the context was done get
    the context's error. *)
Definition compare_results (req : CompareReadRequest) (ctxErr : error)
    (results : list (option CompareReadCandidate)) : list CompareReadCandidate :=
  zip_with (fun cand r => default (compareCandidateFailure cand (CR_Size req) (Some ctxErr)) r)
    (CR_Candidates req) results.

(** The possible outcomes of [CompareRead]. *)
Inductive CompareRead `{C : Cotp} (ctx : Ctx) (req : CompareReadRequest) :
    option CompareReadResult * option error -> Prop :=
  | CompareRead_invalid e :
      validateCompareReadRequest req = Err e -> CompareRead ctx req (None, Some e)
  | CompareRead_empty :
      validateCompareReadRequest req = Ok tt -> CR_Candidates req = [] ->
      CompareRead ctx req
        (Some {| CmpRequest := req; ByCandidate := []; RackSlotInsensitive := false |}, None)
  | CompareRead_run p ctxErr :
      validateCompareReadRequest req = Ok tt -> CR_Candidates req <> [] ->
      let n := length (CR_Candidates req) in
      rtc (pool_step n (compare_slots req) false (ctx_can_end ctx) (can_give ctx req)
             (fun _ => false)) (pool_init n) p ->
      pool_done p ->
      (cancelled p = true -> exists h, ctx_Err ctx h = Some ctxErr) ->
      let cs := compare_results req ctxErr (results p) in
      CompareRead ctx req
        (Some {| CmpRequest := req; ByCandidate := cs; RackSlotInsensitive := insensitive cs |},
         None).

(** ** Properties *)

Lemma first_ok_some cs c : first_ok cs = Some c ->
  List.In c cs /\ Status (CC_Result c) = ReadStatusSuccess.
Proof. intros [Hin Hs]%find_some. by apply bool_decide_eq_true in Hs. Qed.

Lemma insensitive_iff cs :
  insensitive cs = true <->
  2 <= len cs /\ exists d, Forall (fun c => Status (CC_Result c) = ReadStatusSuccess
                                    /\ Data (CC_Result c) = d) cs.
Proof.
  unfold insensitive. destruct (Z.ltb_spec (len cs) 2) as [Hl|Hl].
  { split; [done|]. intros [? _]. lia. }
  destruct (first_ok cs) as [c0|] eqn:Hf.
  - rewrite forallb_forall. setoid_rewrite andb_true_iff. setoid_rewrite bool_decide_eq_true.
    split.
    + intros H. split; [done|]. exists (Data (CC_Result c0)). by apply List.Forall_forall.
    + intros [_ [d Hd]]. rewrite List.Forall_forall in Hd. intros c Hc.
      apply first_ok_some in Hf as [Hin _]. destruct (Hd _ Hc) as [Hs ->].
      by destruct (Hd _ Hin) as [_ ->].
  - split; [done|]. intros [_ [d Hd]]. destruct cs as [|c cs]; [done|]. exfalso.
    apply Forall_cons_iff in Hd as [[Hs _] _]. unfold first_ok in Hf. cbn in Hf.
    by rewrite bool_decide_true in Hf.
Qed.

Section Outcome.
Context `{C : Cotp} `{HL : !CotpLaws}.

Lemma with_client_inv {A} x (m : M Sys A) w w' r :
  with_client x m w = (w', r) ->
  exists s', m {| wld := w; cl := x |} = (s', r) /\ w' = wld s'.
Proof. unfold with_client. destruct (m _) as [s' r']. intros [= <- <-]. by exists s'. Qed.

Lemma new_client_inv host os w : all_closed (conns w) ->
  session_inv {| wld := w; cl := NewClient host os |}.
Proof.
  intros Hw. split; [done|]. intros c x Hx Ho. cbn in Hx.
  eapply Forall_lookup_1 in Hw; [|exact Hx]. cbn in Hw. congruence.
Qed.

(** Closing a client, whose error is ignored. *)
Lemma close_attempt `{E : Env} {A} (a : A) s s' r :
  session_inv s -> (let* _ := attempt ClientClose in ret a) s = (s', r) ->
  r = Ok a /\ all_closed (conns (wld s')).
Proof.
  intros Hs [(s1 & z & H1 & H)|[(e & H1 & ->)|[H1 ->]]]%bind_inv;
    apply attempt_inv in H1 as [(b & H1 & Hz)|[(e2 & H1 & Hz)|[H1 Hz]]]; try done;
    apply ClientClose_inv in H1 as (Hp & _ & Hc); try done; by injection H as <- <-.
Qed.

Lemma compare_one_ends `{E : Env} `{EL : !EnvLaws} ctx req cand w w' r :
  all_closed (conns w) -> compare_one ctx req cand w = (w', r) ->
  exists a, r = Ok a /\ CC_Rack a = RS_Rack cand /\ CC_Slot a = RS_Slot cand /\
    all_closed (conns w') /\
    (read_result_ok (CR_Size req) (CC_Result a)
     \/ exists e, CC_Result a = newFailedReadResult (CR_Size req) (Some e)).
Proof.
  intros Hw (s' & H & ->)%with_client_inv.
  match type of H with _ ?s = _ => assert (session_inv s) as Hs by (by apply new_client_inv) end.
  apply catch_inv in H as [(s1 & [] & H1 & H)|[(s1 & e & H1 & H)|[H1 ->]]];
    apply Connect_outcome in H1; try (by apply session_inv_on_heap); [| |done];
    apply connect_outcome_inv in H1 as Hs1; try done.
  - apply bind_inv in H as [(s2 & x & H2 & H)|[(e & H2 & ->)|[H2 ->]]];
      apply attempt_inv in H2 as [(b & H2 & Hz)|[(e2 & H2 & Hz)|[H2 Hz]]]; try done;
      apply ReadArea_ends in H2 as [Hss H2]; try (by apply session_inv_on_heap); try done;
      injection Hz as ->; apply (same_session_inv _ _ Hss) in Hs1;
      apply close_attempt in H as [-> Hc]; try done; eexists; (split; [done|]); cbn;
      repeat (split; [done|]).
    + left. by destruct H2.
    + right. by eexists.
  - apply close_attempt in H as [-> Hc]; [|done]. eexists. split; [done|]. cbn.
    repeat (split; [done|]). right. by eexists.
Qed.

(** The goroutine of a candidate, whatever the network, the peer and the context do:
    it never panics, it gives a result for its own rack and slot, which is either the
    result of the read or the failure of the connection attempt, and it leaves no
    connection open. *)
Theorem compare_one_outcome `{E : Env} `{EL : !EnvLaws} ctx req cand w w' r :
  all_closed (conns w) -> compare_one ctx req cand w = (w', r) ->
  exists a, r = Ok a /\ CC_Rack a = RS_Rack cand /\ CC_Slot a = RS_Slot cand /\
    all_closed (conns w') /\
    (read_result_ok (CR_Size req) (CC_Result a)
     \/ exists e, CC_Result a = newFailedReadResult (CR_Size req) (Some e)).
Proof. apply compare_one_ends. Qed.

Lemma can_give_candidate ctx req i a : can_give ctx req i a ->
  exists cand, CR_Candidates req !! i = Some cand /\
    CC_Rack a = RS_Rack cand /\ CC_Slot a = RS_Slot cand.
Proof.
  intros (cand & E & w & w' & Hc & HE & Hw & H). exists cand. split; [done|].
  apply (compare_one_ends (EL := HE)) in H as (a' & [= <-] & ? & ? & _); done.
Qed.

Lemma can_give_some ctx req i : (i < length (CR_Candidates req))%nat ->
  exists a, can_give ctx req i a.
Proof.
  intros [cand Hc]%lookup_lt_is_Some_2.
  pose proof (sample_env_laws sample_mem) as HE. set (E := sample_env sample_mem) in *.
  set (w := {| hist := []; conns := [] |}).
  destruct (compare_one (E := E) ctx req cand w) as [w' r] eqn:H.
  assert (all_closed (conns w)) as Hw by constructor.
  destruct (compare_one_ends (EL := HE) _ _ _ _ _ _ Hw H) as (a & -> & _).
  exists a, cand, E, w, w'. done.
Qed.

Lemma compare_results_candidates ctx req ctxErr results :
  length results = length (CR_Candidates req) ->
  (forall i a, results !! i = Some (Some a) -> can_give ctx req i a) ->
  Forall2 (fun cand a => CC_Rack a = RS_Rack cand /\ CC_Slot a = RS_Slot cand)
    (CR_Candidates req) (compare_results req ctxErr results).
Proof.
  intros Hlen Hr. unfold compare_results. apply Forall2_same_length_lookup.
  split; [rewrite length_zip_with; lia|]. intros i cand a Hc Ha.
  apply lookup_zip_with_Some in Ha as (cand' & r & -> & Hc' & Hr').
  rewrite Hc in Hc'. injection Hc' as <-. destruct r as [a|]; [|done]. cbn.
  apply Hr, can_give_candidate in Hr' as (cand' & Hc' & ?).
  rewrite Hc in Hc'. by injection Hc' as <-.
Qed.

(** C36: What a comparison returns, for every interleaving of its goroutines and every
    behaviour of the network and the context: an invalid request is an error and nothing
    else is; otherwise there is one result per candidate, in the order of the request
    and with its rack and slot, each one given by its goroutine or, only after the end
    of the caller's context, the context's error; and the target is called insensitive
    to rack and slot exactly when there are two candidates or more, all of them
    succeeded and all returned the same data. *)
Theorem CompareRead_outcome ctx req out err :
  CompareRead ctx req (out, err) ->
  match out, err with
  | None, Some e => validateCompareReadRequest req = Err e
  | Some x, None =>
      validateCompareReadRequest req = Ok tt /\ CmpRequest x = req /\
      Forall2 (fun cand a => CC_Rack a = RS_Rack cand /\ CC_Slot a = RS_Slot cand)
        (CR_Candidates req) (ByCandidate x) /\
      (forall i a, ByCandidate x !! i = Some a -> can_give ctx req i a \/
         exists cand h e, CR_Candidates req !! i = Some cand /\ ctx_Err ctx h = Some e /\
           a = compareCandidateFailure cand (CR_Size req) (Some e)) /\
      (RackSlotInsensitive x = true <->
         2 <= len (ByCandidate x) /\
         exists d, Forall (fun c => Status (CC_Result c) = ReadStatusSuccess
                            /\ Data (CC_Result c) = d) (ByCandidate x))
  | _, _ => False
  end.
Proof.
  remember (out, err) as o eqn:Ho. intros H. revert Ho.
  destruct H as [e Hv|Hv Hc|p ctxErr Hv Hc n Hrun Hdone Hce cs]; intros [= <- <-].
  - done.
  - split; [done|]. split; [done|]. cbn. rewrite Hc. split; [constructor|]. split; [done|].
    split; [done|]. intros [Hl _]. by vm_compute in Hl.
  - destruct (pool_outcome _ _ _ _ _ _ n p (le_n n) Hrun Hdone)
      as (Hnext & Hlen & Hres & Hnone & Hend).
    assert (forall i a, results p !! i = Some (Some a) -> can_give ctx req i a) as Hgive.
    { intros i a Ha. destruct (decide (i < next p)%nat) as [Hi|Hi].
      - destruct (Hres i Hi) as (a' & Ha' & Hy). congruence.
      - rewrite Hnone in Ha; [done|]. apply lookup_lt_Some in Ha. lia. }
    split; [done|]. split; [done|]. split; [by apply compare_results_candidates with ctx|].
    split; [|apply insensitive_iff].
    intros i a Ha. subst cs. apply lookup_zip_with_Some in Ha as (cand & r & -> & Hc' & Hr).
    destruct r as [a|]; [left; by apply Hgive|]. right.
    assert (cancelled p = true) as Hca.
    { destruct Hend as [Hn|[Hca _]]; [|done]. destruct (decide (i < next p)%nat) as [Hi|Hi].
      - destruct (Hres i Hi) as (a' & Ha' & _). congruence.
      - apply lookup_lt_Some in Hr. lia. }
    destruct (Hce Hca) as [h Hh]. by exists cand, h, ctxErr.
Qed.

(** The comparison ends: every execution of its goroutines takes at most 3 n + 2
    steps of the pool for n candidates, as long as it is not done some step is possible,
    at no time are more connections in use than the parallelism asked for, and as
    long as the caller's context does not end every candidate is tried. *)
Theorem CompareRead_ends ctx req p k :
  let n := length (CR_Candidates req) in
  let step := pool_step n (compare_slots req) false (ctx_can_end ctx) (can_give ctx req)
                (fun _ => false) in
  nsteps step k (pool_init n) p ->
  (k <= 3 * n + 2)%nat /\ (pool_done p \/ exists p', step p p') /\
  (length (running p) <= compare_slots req)%nat /\
  (pool_done p -> ~ ctx_can_end ctx -> next p = n).
Proof.
  intros n step H.
  assert (rtc step (pool_init n) p) as Hrtc by (apply rtc_nsteps; by exists k).
  assert (pool_inv n (compare_slots req) false (ctx_can_end ctx) (can_give ctx req)
            (fun _ => false) n p) as Hinv by (by apply pool_steps_inv).
  split; [eapply pool_bounded; [|exact H]; lia|]. split; [|split].
  - eapply pool_progress; [| |exact Hinv].
    + unfold compare_slots. case_if; lia.
    + intros i Hi. by apply can_give_some.
  - by destruct Hinv.
  - intros Hdone Hctx. destruct (pool_outcome _ _ _ _ _ _ n p (le_n n) Hrtc Hdone)
      as (_ & _ & _ & _ & [?|[_ [?|(i & a & _ & ?)]]]); done.
Qed.
End Outcome.

(** ** Witnesses *)

#[local] Existing Instance sample_cotp.
#[local] Instance sample : Env := sample_env sample_mem.
#[local] Instance sample_laws : EnvLaws := sample_env_laws sample_mem.

Definition sample_compare : CompareReadRequest :=
  {| CR_Address := "plc"; CR_Port := 0;
     CR_Candidates := [ {| RS_Rack := 0; RS_Slot := 1 |}; {| RS_Rack := 0; RS_Slot := 2 |} ];
     CR_Area := AreaDB; CR_DBNumber := 1; CR_Offset := 4; CR_Size := 3; CR_Timeout := 0;
     CR_Parallelism := 0 |}.

Definition no_world : World := {| hist := []; conns := [] |}.

Definition sample_candidate (slot : Z) : CompareReadCandidate :=
  {| CC_Rack := 0; CC_Slot := slot; CC_Result := read_done 3 (mem_slice sample_mem AreaDB 1 4 3) |}.

Lemma sample_compare_one slot : slot = 1 \/ slot = 2 ->
  snd (compare_one Background sample_compare {| RS_Rack := 0; RS_Slot := slot |} no_world)
  = Ok (sample_candidate slot).
Proof. intros [-> | ->]; vm_compute; reflexivity. Qed.

Lemma sample_can_give i slot : (i = 0%nat /\ slot = 1) \/ (i = 1%nat /\ slot = 2) ->
  can_give Background sample_compare i (sample_candidate slot).
Proof.
  intros H. exists {| RS_Rack := 0; RS_Slot := slot |}, sample, no_world.
  destruct (compare_one Background sample_compare {| RS_Rack := 0; RS_Slot := slot |} no_world)
    as [w' r] eqn:Hr.
  exists w'. split; [by destruct H as [[-> ->]|[-> ->]]|].
  split; [apply sample_laws|]. split; [constructor|].
  pose proof (sample_compare_one slot) as Hs. rewrite Hr in Hs. cbn in Hs.
  rewrite Hs; [done|]. destruct H as [[_ ->]|[_ ->]]; auto.
Qed.

(** Both goroutines, one after the other. *)
Definition sample_pool_end : pool CompareReadCandidate :=
  {| next := 2; ready := false; closed_loop := true; running := [];
     results := [Some (sample_candidate 1); Some (sample_candidate 2)];
     cancelled := false; late := 0 |}.

Lemma sample_pool_run :
  nsteps (pool_step 2 1 false (ctx_can_end Background) (can_give Background sample_compare)
            (fun _ => false)) 7 (pool_init 2) sample_pool_end.
Proof.
  eapply nsteps_l; [apply pool_check; cbn; auto with lia|].
  eapply nsteps_l; [apply pool_start; cbn; auto with lia|].
  eapply nsteps_l.
  { apply (pool_finish _ _ _ _ _ _ _ 0%nat (sample_candidate 1)); [by left|].
    apply sample_can_give. auto. }
  eapply nsteps_l; [apply pool_check; cbn; auto with lia|].
  eapply nsteps_l; [apply pool_start; cbn; auto with lia|].
  eapply nsteps_l.
  { apply (pool_finish _ _ _ _ _ _ _ 1%nat (sample_candidate 2)); [by left|].
    apply sample_can_give. auto. }
  eapply nsteps_l; [apply pool_leave; cbn; auto|]. apply nsteps_O.
Qed.

Lemma compare_one_outcome_witness :
  exists a, snd (compare_one Background sample_compare {| RS_Rack := 0; RS_Slot := 1 |} no_world)
      = Ok a /\ CC_Rack a = 0 /\ CC_Slot a = 1 /\
    all_closed (conns (fst (compare_one Background sample_compare
                              {| RS_Rack := 0; RS_Slot := 1 |} no_world))) /\
    (read_result_ok 3 (CC_Result a) \/ exists e, CC_Result a = newFailedReadResult 3 (Some e)).
Proof.
  apply (compare_one_outcome Background sample_compare {| RS_Rack := 0; RS_Slot := 1 |} no_world);
    [constructor|apply surjective_pairing].
Defined.

Lemma CompareRead_outcome_witness :
  insensitive [sample_candidate 1; sample_candidate 2] = true <->
    2 <= 2 /\ exists d, Forall (fun c => Status (CC_Result c) = ReadStatusSuccess
      /\ Data (CC_Result c) = d) [sample_candidate 1; sample_candidate 2].
Proof.
  apply (CompareRead_outcome Background sample_compare
    (Some {| CmpRequest := sample_compare;
             ByCandidate := [sample_candidate 1; sample_candidate 2];
             RackSlotInsensitive := insensitive [sample_candidate 1; sample_candidate 2] |}) None).
  apply (CompareRead_run Background sample_compare sample_pool_end (ESentinel Canceled)).
  - reflexivity.
  - done.
  - apply rtc_nsteps. exists 7%nat. exact sample_pool_run.
  - done.
  - done.
Defined.

Lemma CompareRead_ends_witness :
  (7 <= 3 * 2 + 2)%nat /\ (pool_done sample_pool_end \/ exists p',
    pool_step 2 1 false (ctx_can_end Background) (can_give Background sample_compare)
      (fun _ => false) sample_pool_end p') /\
  (length (running sample_pool_end) <= 1)%nat /\
  (pool_done sample_pool_end -> ~ ctx_can_end Background -> next sample_pool_end = 2%nat).
Proof. exact (CompareRead_ends Background sample_compare sample_pool_end 7 sample_pool_run). Defined.
