(* ===== verification/Probe.v ===== *)
(** * client/probe.go

    The probe of the rack/slot combinations of one target: its defaults and validator,
    a single attempt with its classification and follow-up, and the pool of attempts
    with the summary of their results. *)

From stdpp Require Import relations.
From S2P Require Import Prelude GoError GoMonad GoStrings WireErrors WireHeader WireCotp WireReadWrite WireSpec WireSetup WireSzl WireBlocks ModelTypes Transport ClientTypes ClientCore ClientReadWrite ClientSzl Pool Compare Sample.

Definition SafetyMode := string.
Definition SafetyConservative : SafetyMode := "conservative".
Definition SafetyNormal : SafetyMode := "normal".
Definition SafetyAggressive : SafetyMode := "aggressive".

Definition ProbeStage := string.
Definition ProbeStageTCP : ProbeStage := "tcp".
Definition ProbeStageCOTP : ProbeStage := "cotp".
Definition ProbeStageSetup : ProbeStage := "setup".
Definition ProbeStageQuery : ProbeStage := "query".

Definition ProbeStatus := string.
Definition StatusUnreachable : ProbeStatus := "unreachable".
Definition StatusTCPOnly : ProbeStatus := "tcp-only".
Definition StatusCOTPOnly : ProbeStatus := "cotp-only".
Definition StatusSetupOnly : ProbeStatus := "setup-only".
Definition StatusValidConnect : ProbeStatus := "valid-connect".
Definition StatusValidQuery : ProbeStatus := "valid-query".
Definition StatusRejected : ProbeStatus := "rejected".
Definition StatusTimeout : ProbeStatus := "timeout".
Definition StatusFlaky : ProbeStatus := "flaky".

Definition ConfirmationKind := string.
Definition ConfirmNone : ConfirmationKind := "none".
Definition ConfirmSZL : ConfirmationKind := "szl".
Definition ConfirmCPUState : ConfirmationKind := "cpu-state".
Definition ConfirmAny : ConfirmationKind := "any".

Definition Confidence := string.
Definition ConfidenceNone : Confidence := "none".
Definition ConfidenceLow : Confidence := "low".
Definition ConfidenceHigh : Confidence := "high".

Record RackSlotProbeRequest := {
  PR_Address : string;
  PR_Port : Z;
  PR_RackMin : Z;
  PR_RackMax : Z;
  PR_SlotMin : Z;
  PR_SlotMax : Z;
  PR_Timeout : Z;
  PR_Parallelism : Z;
  PR_DelayMS : Z;
  PR_StopOnFirst : bool;
  PR_LocalTSAP : option Z;
  PR_RemoteTSAP : option Z;
  PR_SafetyMode : SafetyMode;
  PR_JitterMS : Z;
  PR_MaxAttemptsPerHost : Z;
  PR_Strict : bool;
  PR_Confirm : ConfirmationKind;
  PR_Retries : Z;
  PR_RetryDelay : Z;
  PR_StopOnFirstConfirmed : bool }.

Record RackSlotCandidate := {
  RC_Rack : Z;
  RC_Slot : Z;
  RC_LocalTSAP : Z;
  RC_RemoteTSAP : Z;
  RC_Stage : ProbeStage;
  RC_Status : ProbeStatus;
  RC_PDUSize : Z;
  RC_ConfirmedBy : ConfirmationKind;
  RC_Confidence : Confidence;
  RC_Error : string }.

Record RackSlotProbeResult := {
  PRes_Address : string;
  Candidates : list RackSlotCandidate;
  Valid : list RackSlotCandidate;
  SetupAccepted : Z;
  ConfirmedByQuery : Z;
  Flaky : Z;
  TCPOnly : Z;
  StoppedEarly : bool;
  StoppedReason : string }.

(** ** Defaults and validation *)

Definition DefaultRackSlotProbeRequest (address : string) : RackSlotProbeRequest :=
  {| PR_Address := address; PR_Port := 102; PR_RackMin := 0; PR_RackMax := 7;
     PR_SlotMin := 0; PR_SlotMax := 31; PR_Timeout := 2 * time_Second; PR_Parallelism := 4;
     PR_DelayMS := 0; PR_StopOnFirst := false; PR_LocalTSAP := None; PR_RemoteTSAP := None;
     PR_SafetyMode := ""; PR_JitterMS := 0; PR_MaxAttemptsPerHost := 0; PR_Strict := false;
     PR_Confirm := ""; PR_Retries := 0; PR_RetryDelay := 0; PR_StopOnFirstConfirmed := false |}.

Definition applyProbeDefaults (req : RackSlotProbeRequest) : RackSlotProbeRequest :=
  let mode := if String.eqb (PR_SafetyMode req) "" then SafetyNormal else PR_SafetyMode req in
  {| PR_Address := PR_Address req;
     PR_Port := if PR_Port req =? 0 then 102 else PR_Port req;
     PR_RackMin := PR_RackMin req; PR_RackMax := PR_RackMax req;
     PR_SlotMin := PR_SlotMin req; PR_SlotMax := PR_SlotMax req;
     PR_Timeout :=
       if PR_Timeout req =? 0 then
         if String.eqb mode SafetyConservative then 5 * time_Second
         else if String.eqb mode SafetyAggressive then time_Second
         else 2 * time_Second
       else PR_Timeout req;
     PR_Parallelism :=
       if PR_Parallelism req <? 1 then
         if String.eqb mode SafetyConservative then 2
         else if String.eqb mode SafetyAggressive then 8
         else 4
       else PR_Parallelism req;
     PR_DelayMS :=
       if (PR_DelayMS req =? 0) && String.eqb mode SafetyConservative then 50
       else PR_DelayMS req;
     PR_StopOnFirst := PR_StopOnFirst req;
     PR_LocalTSAP := PR_LocalTSAP req; PR_RemoteTSAP := PR_RemoteTSAP req;
     PR_SafetyMode := PR_SafetyMode req; PR_JitterMS := PR_JitterMS req;
     PR_MaxAttemptsPerHost := PR_MaxAttemptsPerHost req; PR_Strict := PR_Strict req;
     PR_Confirm :=
       if PR_Strict req && String.eqb (PR_Confirm req) ConfirmNone then ConfirmAny
       else PR_Confirm req;
     PR_Retries := PR_Retries req; PR_RetryDelay := PR_RetryDelay req;
     PR_StopOnFirstConfirmed := PR_StopOnFirstConfirmed req |}.

Definition validateRackSlotProbeRequest (req : RackSlotProbeRequest) : res unit :=
  let bad msg := Err (EValidation msg) in
  if String.eqb (TrimSpace (PR_Address req)) "" then bad "address must be non-empty"
  else if (PR_Port req <? 0) || (65535 <? PR_Port req)
  then bad ("port must be 0..65535, got " +:+ dec (PR_Port req))
  else if (PR_RackMin req <? 0) || (7 <? PR_RackMin req)
  then bad ("rack min must be 0..7, got " +:+ dec (PR_RackMin req))
  else if (PR_RackMax req <? 0) || (7 <? PR_RackMax req)
  then bad ("rack max must be 0..7, got " +:+ dec (PR_RackMax req))
  else if (PR_SlotMin req <? 0) || (31 <? PR_SlotMin req)
  then bad ("slot min must be 0..31, got " +:+ dec (PR_SlotMin req))
  else if (PR_SlotMax req <? 0) || (31 <? PR_SlotMax req)
  then bad ("slot max must be 0..31, got " +:+ dec (PR_SlotMax req))
  else if PR_RackMax req <? PR_RackMin req
  then bad ("rack min must be <= rack max, got min=" +:+ dec (PR_RackMin req)
         +:+ " max=" +:+ dec (PR_RackMax req))
  else if PR_SlotMax req <? PR_SlotMin req
  then bad ("slot min must be <= slot max, got min=" +:+ dec (PR_SlotMin req)
         +:+ " max=" +:+ dec (PR_SlotMax req))
  else if PR_Timeout req <? 0
  then bad ("timeout must be >= 0, got " +:+ Duration_String (PR_Timeout req))
  else if PR_Retries req <? 0
  then bad ("retries must be >= 0, got " +:+ dec (PR_Retries req))
  else if PR_DelayMS req <? 0
  then bad ("delay ms must be >= 0, got " +:+ dec (PR_DelayMS req))
  else if PR_Parallelism req <? 0
  then bad ("parallelism must be >= 0, got " +:+ dec (PR_Parallelism req))
  else if PR_JitterMS req <? 0
  then bad ("jitter ms must be >= 0, got " +:+ dec (PR_JitterMS req))
  else if PR_MaxAttemptsPerHost req <? 0
  then bad ("max attempts per host must be >= 0, got " +:+ dec (PR_MaxAttemptsPerHost req))
  else Ok tt.

(** ** One attempt *)

Definition isProbeTimeout (err : option error) : bool :=
  match err with
  | None => false
  | Some err => errors_Is err DeadlineExceeded || default false (errors_As_net err)
  end.

(** The response of a follow-up query, from the frame on: [None], or why it failed. *)
Definition follow_up_response `{C : Cotp} (pduRef : Z) (resp : bytes) : res (option string) :=
  match cotp_Decode resp with
  | inl err => Ok (Some (error_text err))
  | inr decoded =>
      match Decoded_DT decoded with
      | None => Ok (Some "expected COTP DT")
      | Some dt =>
          match ParseS7Header (DT_UserData dt) with
          | Panic => Panic
          | Err err => Ok (Some (error_text err))
          | Ok (hdr, rest) =>
              if negb (PDURef hdr =? pduRef)
              then Ok (Some ("PDU ref mismatch: expected " +:+ dec pduRef +:+ " got "
                         +:+ dec (PDURef hdr)))
              else if negb (ErrorClass hdr =? 0) || negb (ErrorCode hdr =? 0)
              then Ok (Some ("S7 error 0x" +:+ hex02 (ErrorClass hdr) +:+ "/0x"
                         +:+ hex02 (ErrorCode hdr)))
              else
                let need := ParamLength hdr + DataLength hdr in
                if len rest <? need then Ok (Some "short S7 payload")
                else
                  let! dataSlice := go_slice rest (ParamLength hdr)
                                      (u16 (ParamLength hdr + DataLength hdr)) in
                  match ParseSZLResponse dataSlice with
                  | Panic => Panic
                  | Err err => Ok (Some (error_text err))
                  | Ok _ => Ok None
                  end
          end
      end
  end.

Section Probe.
Context `{E : Env} `{C : Cotp}.

(** [trySZL]: [None] on success, or the error message. *)
Definition trySZL (ctx : Ctx) (conn : cid) (pduRef szlID : Z) : M World (option string) :=
  let failed e := ret (Some (error_text e)) in
  let req := EncodeSZLRequest pduRef szlID 0 in
  catch (lift (EncodeCOTPDT req)) failed (fun dtBytes =>
  catch (SendContext conn ctx dtBytes) failed (fun _ =>
  catch (ReceiveContext conn ctx) failed (fun resp =>
  lift (follow_up_response pduRef resp)))).

Definition runFollowUp (ctx : Ctx) (conn : cid) (pduRef : Z) (strategy : ConfirmationKind)
    : M World (bool * ConfirmationKind * string) :=
  if String.eqb strategy ConfirmSZL then
    let* r := trySZL ctx conn pduRef SZLModuleID in
    match r with
    | None => ret (true, ConfirmSZL, "")
    | Some errMsg => ret (false, ConfirmNone, errMsg)
    end
  else if String.eqb strategy ConfirmCPUState then
    let* r := trySZL ctx conn pduRef SZLCPUState in
    match r with
    | None => ret (true, ConfirmCPUState, "")
    | Some errMsg => ret (false, ConfirmNone, errMsg)
    end
  else if String.eqb strategy ConfirmAny then
    let* r := trySZL ctx conn pduRef SZLModuleID in
    match r with
    | None => ret (true, ConfirmSZL, "")
    | Some _ =>
        let* r := trySZL ctx conn pduRef SZLCPUState in
        match r with
        | None => ret (true, ConfirmCPUState, "")
        | Some _ =>
            let* r := trySZL ctx conn pduRef SZLProtectionInfo in
            match r with
            | None => ret (true, ConfirmAny, "")
            | Some errMsg => ret (false, ConfirmNone, errMsg)
            end
        end
    end
  else ret (false, ConfirmNone, "no confirmation strategy").

(** [wire.BuildTSAP] unless the request overrides the TSAP. *)
Definition probe_tsap (override : option Z) (connType rack slot : Z) : res Z :=
  match override with Some tsap => Ok tsap | None => BuildTSAP connType rack slot end.

(** What follows the dial, up to the deferred close. *)
Definition probe_on (ctx : Ctx) (req : RackSlotProbeRequest) (rack slot : Z) (conn : cid)
    : M World RackSlotCandidate :=
  let c localTSAP remoteTSAP stage status pdu by_ conf err :=
    {| RC_Rack := rack; RC_Slot := slot; RC_LocalTSAP := localTSAP; RC_RemoteTSAP := remoteTSAP;
       RC_Stage := stage; RC_Status := status; RC_PDUSize := pdu; RC_ConfirmedBy := by_;
       RC_Confidence := conf; RC_Error := err |} in
  catch (lift (probe_tsap (PR_LocalTSAP req) 1 0 0))
    (fun err => ret (c 0 0 "" StatusRejected 0 "" ConfidenceNone (error_text err)))
    (fun localTSAP =>
  catch (lift (probe_tsap (PR_RemoteTSAP req) 3 rack slot))
    (fun err => ret (c 0 0 "" StatusRejected 0 "" ConfidenceNone (error_text err)))
    (fun remoteTSAP =>
  let c := c localTSAP remoteTSAP in
  catch (performCOTPConnect ctx conn localTSAP remoteTSAP)
    (fun err =>
       ret (c ProbeStageCOTP (if isProbeTimeout (Some err) then StatusTimeout else StatusTCPOnly)
              0 "" ConfidenceNone (error_text err)))
    (fun _ =>
  let setupRef := 1 in
  catch (performS7Setup ctx conn setupRef 1 1 480)
    (fun err =>
       let status :=
         if isProbeTimeout (Some err) then StatusTimeout
         else match errors_As_S7 err with Some _ => StatusRejected | None => StatusCOTPOnly end in
       ret (c ProbeStageSetup status 0 "" ConfidenceNone (error_text err)))
    (fun setup =>
  let pdu := Setup_PDUSize setup in
  if negb (PR_Strict req)
  then ret (c ProbeStageSetup StatusSetupOnly pdu "" ConfidenceLow "")
  else
    let followUpRef := u16 (setupRef + 1) in
    let* ' (ok, confirmedBy, errStr) := runFollowUp ctx conn followUpRef (PR_Confirm req) in
    if ok : bool then ret (c ProbeStageQuery StatusValidQuery pdu confirmedBy ConfidenceHigh "")
    else ret (c ProbeStageQuery StatusValidConnect pdu "" ConfidenceLow
                (if String.eqb errStr "" then "" else "follow-up failed: " +:+ errStr)))))).

(** [defer func() { _ = conn.Close() }()] *)
Definition with_conn {A} (conn : cid) (m : M World A) : M World A := fun w =>
  let (w1, r) := m w in
  match Close conn w1 with
  | (w2, Panic) => (w2, Panic)
  | (w2, _) => (w2, r)
  end.

Definition probeOne (ctx : Ctx) (req : RackSlotProbeRequest) (rack slot : Z)
    : M World RackSlotCandidate :=
  let addr := JoinHostPort (PR_Address req) (dec (PR_Port req)) in
  catch (dialTransport ctx addr (PR_Timeout req))
    (fun err =>
       ret {| RC_Rack := rack; RC_Slot := slot; RC_LocalTSAP := 0; RC_RemoteTSAP := 0;
              RC_Stage := ProbeStageTCP;
              RC_Status := if isProbeTimeout (Some err) then StatusTimeout
                           else StatusUnreachable;
              RC_PDUSize := 0; RC_ConfirmedBy := ""; RC_Confidence := ConfidenceNone;
              RC_Error := error_text err |})
    (fun conn => with_conn conn (probe_on ctx req rack slot conn)).
End Probe.

(** ** The attempts *)

(** The zero value of a candidate that was never tried. *)
Definition zero_candidate : RackSlotCandidate :=
  {| RC_Rack := 0; RC_Slot := 0; RC_LocalTSAP := 0; RC_RemoteTSAP := 0; RC_Stage := "";
     RC_Status := ""; RC_PDUSize := 0; RC_ConfirmedBy := ""; RC_Confidence := "";
     RC_Error := "" |}.

(** [for rack := rackMin; rack <= rackMax; rack++ { for slot := slotMin; ... } }] *)
Definition rack_slots (rackMin rackMax slotMin slotMax : Z) : list (Z * Z) :=
  concat (map (fun rack => map (fun slot => (rack, slot)) (seqZ slotMin (slotMax - slotMin + 1)))
    (seqZ rackMin (rackMax - rackMin + 1))).

Definition probe_jobs (req : RackSlotProbeRequest) : list (Z * Z) :=
  rack_slots (PR_RackMin req) (PR_RackMax req) (PR_SlotMin req) (PR_SlotMax req).

Definition max_jobs (req : RackSlotProbeRequest) : Z :=
  let maxJobs := len (probe_jobs req) in
  if (0 <? PR_MaxAttemptsPerHost req) && (PR_MaxAttemptsPerHost req <? maxJobs)
  then PR_MaxAttemptsPerHost req else maxJobs.

(** The setup was accepted. *)
Definition setup_accepted (c : RackSlotCandidate) : bool :=
  String.eqb (RC_Status c) StatusSetupOnly || String.eqb (RC_Status c) StatusValidConnect
  || String.eqb (RC_Status c) StatusValidQuery.

(** [validForStop], and the condition of the [Valid] list. *)
Definition valid_candidate (strict : bool) (c : RackSlotCandidate) : bool :=
  if strict then String.eqb (RC_Status c) StatusValidQuery else setup_accepted c.

(** The attempt's result ends the probe. *)
Definition stops_probe (req : RackSlotProbeRequest) (c : RackSlotCandidate) : bool :=
  valid_candidate (PR_Strict req) c && (PR_StopOnFirst req || PR_StopOnFirstConfirmed req).

Definition count (f : RackSlotCandidate -> bool) (cs : list RackSlotCandidate) : Z :=
  len (List.filter f cs).

Definition probe_result (req : RackSlotProbeRequest) (candidates : list RackSlotCandidate)
    : RackSlotProbeResult :=
  let early := max_jobs req <? len (probe_jobs req) in
  {| PRes_Address := PR_Address req;
     Candidates := candidates;
     Valid := List.filter (valid_candidate (PR_Strict req)) candidates;
     SetupAccepted := count setup_accepted candidates;
     ConfirmedByQuery := count (fun c => String.eqb (RC_Status c) StatusValidQuery) candidates;
     Flaky := count (fun c => String.eqb (RC_Status c) StatusFlaky) candidates;
     TCPOnly := count (fun c => String.eqb (RC_Status c) StatusTCPOnly) candidates;
     StoppedEarly := early;
     StoppedReason := if early then "max_attempts_reached" else "" |}.

(** What the attempt of a job can give: what [probeOne] gives in some environment and
    under some context, since the other attempts are part of its environment and can end
    the context that all of them share. *)
Definition attempt_gives `{C : Cotp} (req : RackSlotProbeRequest) (i : nat)
    (a : RackSlotCandidate) : Prop :=
  exists rack slot (E : Env) ctx w w', probe_jobs req !! i = Some (rack, slot) /\ EnvLaws /\
    all_closed (conns w) /\ probeOne ctx req rack slot w = (w', Ok a).

(** [jitterRng.Intn(req.JitterMS+1)] panics: its argument has wrapped. *)
Definition jitter_panics (req : RackSlotProbeRequest) : bool :=
  (0 <? PR_JitterMS req) && (int (PR_JitterMS req + 1) <=? 0).

(** The possible outcomes of [ProbeRackSlots].  The loop looks at the context before each
    attempt and while it waits for the delays, which take time only; but the length of the
    jitter is drawn first, and a draw that panics ends the program.  Then the probe
    returns only if it finds the context done before its first draw. *)
Inductive ProbeRackSlots `{C : Cotp} (ctx : Ctx) (req0 : RackSlotProbeRequest) :
    res (option RackSlotProbeResult * option error) -> Prop :=
  | ProbeRackSlots_invalid e :
      validateRackSlotProbeRequest (applyProbeDefaults req0) = Err e ->
      ProbeRackSlots ctx req0 (Ok (None, Some e))
  | ProbeRackSlots_panic :
      let req := applyProbeDefaults req0 in
      validateRackSlotProbeRequest req = Ok tt -> 0 < max_jobs req ->
      jitter_panics req = true ->
      ProbeRackSlots ctx req0 Panic
  | ProbeRackSlots_run p h :
      let req := applyProbeDefaults req0 in
      validateRackSlotProbeRequest req = Ok tt ->
      let n := length (probe_jobs req) in
      rtc (pool_step (Z.to_nat (max_jobs req)) (Z.to_nat (PR_Parallelism req)) true
             (ctx_can_end ctx) (attempt_gives req) (stops_probe req)) (pool_init n) p ->
      pool_done p ->
      (jitter_panics req = true -> next p = 0%nat /\ ready p = false) ->
      ProbeRackSlots ctx req0
        (Ok (Some (probe_result req (map (default zero_candidate) (results p))), ctx_Err ctx h)).

(** ** An attempt *)

Lemma follow_up_job `{C : Cotp} `{HL : !CotpLaws} ref resp :
  bytes_ok resp -> len resp < 65536 -> ref <> 0 ->
  follow_up_response ref resp = Ok None <->
  exists param data r, job_response ref resp = Ok (param, data) /\ ParseSZLResponse data = Ok r.
Proof.
  intros Hok Hlen Href. unfold follow_up_response, job_response.
  destruct (decode_dt resp) as [[h rest]|e|] eqn:Hd.
  - pose proof (decode_dt_sound _ _ _ Hok Hlen Hd) as (ty & eot & Hdec & Hwf & Hl & _ & Hlr).
    rewrite Hdec. cbn [Decoded_DT DT_UserData res_bind]. rewrite ParseS7Header_ref by done.
    rewrite (proj2 (Z.eqb_neq ref 0)) by done. cbn [negb andb].
    destruct (negb (PDURef h =? ref)); [naive_solver|].
    destruct (negb (ErrorClass h =? 0) || negb (ErrorCode h =? 0)).
    { split; [done|]. intros (p & d & r & H & _). by inv_ok. }
    destruct (len rest <? _); [naive_solver|].
    destruct (job_sections h rest) as (p & d & tl & _ & _ & _ & -> & ->);
      try (destruct Hwf; lia). cbn [checked res_bind].
    pose proof (ParseSZLResponse_no_panic d). destruct (ParseSZLResponse d) eqn:Hp; try done.
    + split; [|done]. intros _. by eexists _, _, _.
    + split; [done|]. intros (p' & d' & r' & [= <- <-] & H'). congruence.
  - split; [|by intros (p & d & r & [=] & _)]. unfold decode_dt in Hd.
    destruct (cotp_Decode resp) as [e'|dec]; [done|]. cbn in Hd.
    destruct (Decoded_DT dec) as [dt|]; [|done].
    by destruct (ParseS7Header (DT_UserData dt)) as [[]| |].
  - pose proof (decode_dt_no_panic resp). by rewrite Hd in *.
Qed.

Lemma follow_up_no_panic `{C : Cotp} `{HL : !CotpLaws} ref resp :
  bytes_ok resp -> len resp < 65536 -> no_panic (follow_up_response ref resp) = true.
Proof.
  intros Hok Hlen.
  unfold follow_up_response. destruct (cotp_Decode resp) as [e|dec] eqn:Hd; [done|].
  destruct dec as [ty [dt|]]; [|done]. cbn [Decoded_DT].
  destruct (cotp_Decode_ok _ _ _ Hok Hlen Hd) as [Hu Hul].
  pose proof (ParseS7Header_no_panic (DT_UserData dt)).
  destruct (ParseS7Header (DT_UserData dt)) as [[h rest]|e|] eqn:Hp; try done.
  apply ParseS7Header_sound in Hp as (Hdata & Hwf & _); [|done].
  assert (len rest < 65536) by (rewrite Hdata in Hul; len).
  case_if; [done|]. case_if; [done|]. case_if; [done|].
  destruct (job_sections h rest) as (p & d & tl & _ & _ & _ & _ & ->);
    try (destruct Hwf; lia). cbn [checked res_bind].
  pose proof (ParseSZLResponse_no_panic d). by destruct (ParseSZLResponse d).
Qed.


(** C35: The follow-up check of a probe accepts exactly the responses that the client's
    own request path accepts and whose data section is a status list: the same reference,
    no error, both sections complete. *)
Theorem follow_up_response_iff `{C : Cotp} `{HL : !CotpLaws} ref resp :
  bytes_ok resp -> len resp < 65536 -> ref <> 0 ->
  no_panic (follow_up_response ref resp) = true /\
  (follow_up_response ref resp = Ok None <->
   exists param data r, answers_job ref param data resp /\ ParseSZLResponse data = Ok r).
Proof.
  intros Hok Hlen Href. split; [by apply follow_up_no_panic|]. rewrite follow_up_job by done.
  by setoid_rewrite job_response_answers.
Qed.

(** What stage, status, confirmation and confidence fit together. *)
Inductive attempt_shape (strict : bool) : RackSlotCandidate -> Prop :=
  | shape_tcp c :
      RC_Stage c = ProbeStageTCP -> In (RC_Status c) [StatusTimeout; StatusUnreachable] ->
      RC_ConfirmedBy c = "" -> RC_Confidence c = ConfidenceNone -> attempt_shape strict c
  | shape_tsap c :
      RC_Stage c = "" -> RC_Status c = StatusRejected ->
      RC_ConfirmedBy c = "" -> RC_Confidence c = ConfidenceNone -> attempt_shape strict c
  | shape_cotp c :
      RC_Stage c = ProbeStageCOTP -> In (RC_Status c) [StatusTimeout; StatusTCPOnly] ->
      RC_ConfirmedBy c = "" -> RC_Confidence c = ConfidenceNone -> attempt_shape strict c
  | shape_setup c :
      RC_Stage c = ProbeStageSetup ->
      In (RC_Status c) [StatusTimeout; StatusRejected; StatusCOTPOnly] ->
      RC_ConfirmedBy c = "" -> RC_Confidence c = ConfidenceNone -> attempt_shape strict c
  | shape_accepted c :
      strict = false -> RC_Stage c = ProbeStageSetup -> RC_Status c = StatusSetupOnly ->
      RC_ConfirmedBy c = "" -> RC_Confidence c = ConfidenceLow -> attempt_shape strict c
  | shape_confirmed c :
      strict = true -> RC_Stage c = ProbeStageQuery -> RC_Status c = StatusValidQuery ->
      In (RC_ConfirmedBy c) [ConfirmSZL; ConfirmCPUState; ConfirmAny] ->
      RC_Confidence c = ConfidenceHigh -> attempt_shape strict c
  | shape_unconfirmed c :
      strict = true -> RC_Stage c = ProbeStageQuery -> RC_Status c = StatusValidConnect ->
      RC_ConfirmedBy c = "" -> RC_Confidence c = ConfidenceLow -> attempt_shape strict c.

(** A frame of a connection request, of the setup or of a status list query. *)
Definition benign `{C : Cotp} (w : cid * bytes) : Prop :=
  (exists l r, EncodeCOTPCR l r = Ok (snd w)) \/
  EncodeCOTPDT (EncodeSetupCommRequest 1 1 1 480) = Ok (snd w) \/
  (exists id, In id [SZLModuleID; SZLCPUState; SZLProtectionInfo] /\
     EncodeCOTPDT (EncodeSZLRequest 2 id 0) = Ok (snd w)).

(** Only such frames are written. *)
Definition writes_benign `{C : Cotp} (w w' : World) : Prop :=
  exists ws, writes (hist w') = ws ++ writes (hist w) /\ Forall benign ws.

#[export] Instance writes_benign_preorder `{C : Cotp} : PreOrder writes_benign.
Proof.
  split; [intros w; by exists []|]. intros w1 w2 w3 (ws1 & H1 & B1) (ws2 & H2 & B2).
  exists (ws2 ++ ws1). split; [by rewrite H2, H1, app_assoc|by apply Forall_app].
Qed.

Section Attempt.
Context `{E : Env} `{EL : !EnvLaws} `{C : Cotp} `{HL : !CotpLaws}.

Lemma silent_benign {A} (m : M World A) : preserves silent m -> preserves writes_benign m.
Proof. intros Hm w w' r H. exists []. split; [by apply Hm in H as [H _]|constructor]. Qed.

Lemma SendContext_benign c ctx dt : benign (c, dt) -> preserves writes_benign (SendContext c ctx dt).
Proof.
  intros Hb w w' r H. apply SendContext_writes in H as [_ [[Hw _]|Hw]];
    [by exists []|exists [(c, dt)]]. split; [done|]. constructor; [done|constructor].
Qed.

(** The send of an encoded telegram, after its error check. *)
Lemma send_encoded_benign {A} c ctx (r : res bytes) (k : unit -> M World A) h :
  (forall dt, r = Ok dt -> benign (c, dt)) ->
  (forall e, preserves writes_benign (h e)) -> (forall u, preserves writes_benign (k u)) ->
  preserves writes_benign (catch (lift r) h (fun dt => catch (SendContext c ctx dt) h k)).
Proof.
  intros Hr Hh Hk. destruct r as [dt|e|].
  - intros w w' x H. rewrite catch_lift_Ok in H. revert H.
    apply preserves_catch; [apply _|apply SendContext_benign; auto|done..].
  - intros w w' x H. exact (Hh e w w' x H).
  - intros w w' x [= <- _]. reflexivity.
Qed.

Lemma send_bound_benign {A} c ctx (r : res bytes) (k : unit -> M World A) :
  (forall dt, r = Ok dt -> benign (c, dt)) -> (forall u, preserves writes_benign (k u)) ->
  preserves writes_benign
    (let* dt := lift r in let* x := SendContext c ctx dt in k x).
Proof.
  intros Hr Hk. destruct r as [dt|e|]; [|by intros w w' x [= <- _]..].
  intros w w' x H. rewrite bind_lift_Ok in H. revert H.
  apply preserves_bind; [apply _|apply SendContext_benign; auto|done].
Qed.

Lemma performCOTPConnect_benign ctx c l r :
  preserves writes_benign (performCOTPConnect ctx c l r).
Proof.
  unfold performCOTPConnect. apply preserves_bind; [apply _| |intros _].
  { apply silent_benign, ctx_check_silent. }
  apply send_bound_benign; [intros dt Hdt%map_err_Ok; left; by eexists _, _|intros _].
  apply preserves_bind; [apply _|apply silent_benign, ReceiveContext_silent|intros resp].
  preserve.
Qed.

Lemma performS7Setup_benign ctx c : preserves writes_benign (performS7Setup ctx c 1 1 1 480).
Proof.
  unfold performS7Setup. apply preserves_bind; [apply _| |intros _].
  { apply silent_benign, ctx_check_silent. }
  apply send_bound_benign; [intros dt Hdt%map_err_Ok; right; by left|intros _].
  apply preserves_bind; [apply _|apply silent_benign, ReceiveContext_silent|intros resp].
  preserve.
Qed.

Lemma trySZL_benign ctx c id :
  In id [SZLModuleID; SZLCPUState; SZLProtectionInfo] ->
  preserves writes_benign (trySZL ctx c 2 id).
Proof.
  intros Hid. unfold trySZL. apply send_encoded_benign.
  - intros dt Hdt. right. right. by eexists.
  - intros e. apply preserves_ret, _.
  - intros _. apply preserves_catch; [apply _|apply silent_benign, ReceiveContext_silent|..];
      intros; [apply preserves_ret, _|apply preserves_lift, _].
Qed.

Lemma trySZL_safe ctx c id : safe (on_heap c) (trySZL ctx c 2 id).
Proof.
  unfold trySZL. apply safe_catch; [apply safe_lift, EncodeCOTPDT_no_panic|intros; apply safe_ret|].
  intros dt. apply safe_catch; [eauto with go|intros; apply safe_ret|intros _].
  apply (safe_catch_post _ (fun resp => bytes_ok resp /\ len resp < 65536)).
  - eauto with go.
  - intros w w' resp _ [h Hf]%ReceiveContext_frame. by eapply env_ReadFrame_ok.
  - intros; apply safe_ret.
  - intros resp [Hok Hlen]. apply safe_lift.
    pose proof (decode_dt_no_panic resp) as Hn. by apply follow_up_no_panic.
Qed.

Lemma runFollowUp_benign ctx c strategy : preserves writes_benign (runFollowUp ctx c 2 strategy).
Proof.
  unfold runFollowUp.
  pose proof (trySZL_benign ctx c SZLModuleID ltac:(cbn; auto)).
  pose proof (trySZL_benign ctx c SZLCPUState ltac:(cbn; auto)).
  pose proof (trySZL_benign ctx c SZLProtectionInfo ltac:(cbn; auto)).
  preserve.
Qed.

Lemma runFollowUp_safe ctx c strategy : safe (on_heap c) (runFollowUp ctx c 2 strategy).
Proof. unfold runFollowUp. pose proof (trySZL_safe ctx c). safely. Qed.

Lemma trySZL_heap ctx c ref id : preserves same_heap (trySZL ctx c ref id).
Proof. unfold trySZL. preserve. Qed.
#[local] Hint Resolve trySZL_heap : go.
Lemma runFollowUp_heap ctx c ref strategy : preserves same_heap (runFollowUp ctx c ref strategy).
Proof. unfold runFollowUp. preserve. Qed.

(** A confirmation has a kind. *)
Lemma runFollowUp_kind ctx c ref strategy w w' ok by_ msg :
  runFollowUp ctx c ref strategy w = (w', Ok (ok, by_, msg)) -> ok = true ->
  In by_ [ConfirmSZL; ConfirmCPUState; ConfirmAny].
Proof.
  unfold runFollowUp. intros H ->.
  repeat match type of H with
  | (if ?b then _ else _) _ = _ => destruct b
  | bind _ _ _ = _ => apply bind_Ok in H as (? & ? & _ & H)
  | (match ?x with _ => _ end) _ = _ => destruct x
  | ret _ _ = _ => discriminate H
  | ret _ _ = _ => injection H as _ <- _; cbn; auto
  end.
Qed.
End Attempt.

Section ProbeOne.
Context `{E : Env} `{EL : !EnvLaws} `{C : Cotp} `{HL : !CotpLaws}.

Lemma probe_on_safe ctx req rack slot c : safe (on_heap c) (probe_on ctx req rack slot c).
Proof.
  unfold probe_on, probe_tsap. pose proof (runFollowUp_safe ctx c).
  pose proof (performCOTPConnect_safe ctx c). pose proof (performS7Setup_safe ctx c).
  safely; apply safe_lift; case_match; done || apply BuildTSAP_no_panic.
Qed.

Lemma probe_on_heap ctx req rack slot c : preserves same_heap (probe_on ctx req rack slot c).
Proof. unfold probe_on. pose proof (runFollowUp_heap ctx c). preserve. Qed.

Lemma probe_on_benign ctx req rack slot c :
  preserves writes_benign (probe_on ctx req rack slot c).
Proof.
  unfold probe_on. pose proof (runFollowUp_benign ctx c).
  pose proof (performCOTPConnect_benign ctx c). pose proof (performS7Setup_benign ctx c).
  preserve.
Qed.

Lemma probe_on_shape ctx req rack slot c w w' a :
  probe_on ctx req rack slot c w = (w', Ok a) ->
  RC_Rack a = rack /\ RC_Slot a = slot /\ attempt_shape (PR_Strict req) a.
Proof.
  intros H. unfold probe_on in H.
  apply catch_inv in H as [(w1 & l & H1 & H)|[(w1 & e & H1 & H)|[_ [=]]]].
  2:{ injection H as _ <-. repeat (split; [done|]). by apply shape_tsap. }
  apply catch_inv in H as [(w2 & rm & H2 & H)|[(w2 & e & H2 & H)|[_ [=]]]].
  2:{ injection H as _ <-. repeat (split; [done|]). by apply shape_tsap. }
  apply catch_inv in H as [(w3 & [] & H3 & H)|[(w3 & e & H3 & H)|[_ [=]]]].
  2:{ injection H as _ <-. repeat (split; [done|]). apply shape_cotp; try done.
      cbn [RC_Status]. case_if; cbn; auto. }
  apply catch_inv in H as [(w4 & st & H4 & H)|[(w4 & e & H4 & H)|[_ [=]]]].
  2:{ injection H as _ <-. repeat (split; [done|]). apply shape_setup; try done.
      cbn [RC_Status]. case_if; [cbn; auto|]. case_match; cbn; auto. }
  destruct (PR_Strict req) eqn:Hstrict; cbn [negb] in H.
  - apply bind_Ok in H as (w5 & [[ok by_] msg] & H5 & H). destruct ok.
    + injection H as _ <-. repeat (split; [done|]). apply shape_confirmed; try done.
      by eapply runFollowUp_kind.
    + injection H as _ <-. repeat (split; [done|]). by apply shape_unconfirmed.
  - injection H as _ <-. repeat (split; [done|]). by apply shape_accepted.
Qed.

Lemma dialTransport_benign ctx addr t : preserves writes_benign (dialTransport ctx addr t).
Proof.
  intros w w' r. unfold dialTransport, bind, gets. cbn.
  destruct env_Dial as [e|]; cbn; intros [= <- <-]; by exists [].
Qed.

Lemma Close_benign c : preserves writes_benign (Close c).
Proof.
  intros w w' r H. unfold Close, bind, get_conn in H.
  destruct (conns w !! c) as [x|]; cbn in H; [|injection H as <- _; by exists []].
  destruct (conn_open x); cbn in H; [|injection H as <- _; by exists []].
  destruct env_Close; cbn in H; injection H as <- _; by exists [].
Qed.

(** A computation that does not end in an error. *)
Definition errorless {A} (m : M World A) : Prop := forall w w' e, m w <> (w', Err e).

Lemma errorless_bind {A B} (m : M World A) (k : A -> M World B) :
  errorless m -> (forall a, errorless (k a)) -> errorless (bind m k).
Proof.
  intros Hm Hk w w' e [(w1 & a & _ & H)|[(e' & H & _)|[_ [=]]]]%bind_inv.
  - by eapply Hk.
  - by eapply Hm.
Qed.
Lemma errorless_catch {A B} (m : M World A) h (k : A -> M World B) :
  (forall e, errorless (h e)) -> (forall a, errorless (k a)) -> errorless (catch m h k).
Proof.
  intros Hh Hk w w' e [(w1 & a & _ & H)|[(w1 & e' & _ & H)|[_ [=]]]]%catch_inv.
  - by eapply Hk.
  - by eapply Hh.
Qed.
Lemma errorless_ret {A} (a : A) : errorless (ret a).
Proof. by intros w w' e. Qed.

Lemma trySZL_errorless ctx c ref id : errorless (trySZL ctx c ref id).
Proof.
  unfold trySZL. do 3 (apply errorless_catch; [intros; apply errorless_ret|intros ?]).
  intros w w' e [= _ H]. revert H. unfold follow_up_response.
  repeat (case_match; try done). by destruct (go_slice _ _ _); cbn; [case_match|].
Qed.

Lemma runFollowUp_errorless ctx c ref strategy : errorless (runFollowUp ctx c ref strategy).
Proof.
  unfold runFollowUp. pose proof (trySZL_errorless ctx c ref).
  repeat first [apply errorless_ret | case_match; subst
    | apply errorless_bind; [done|intros [?|]]].
Qed.

Lemma probe_on_errorless ctx req rack slot c : errorless (probe_on ctx req rack slot c).
Proof.
  unfold probe_on. do 4 (apply errorless_catch; [intros; apply errorless_ret|intros ?]).
  case_if; [apply errorless_ret|]. apply errorless_bind; [apply runFollowUp_errorless|].
  intros [[ok by_] msg]. case_if; apply errorless_ret.
Qed.

Lemma probeOne_ends ctx req rack slot w w' r :
  all_closed (conns w) -> probeOne ctx req rack slot w = (w', r) ->
  (exists a, r = Ok a /\ RC_Rack a = rack /\ RC_Slot a = slot /\
     attempt_shape (PR_Strict req) a) /\
  all_closed (conns w') /\ writes_benign w w'.
Proof.
  intros Hw H. unfold probeOne in H.
  apply catch_inv in H as [(w1 & c & H1 & H)|[(w1 & e & H1 & H)|[H1 ->]]];
    pose proof (dialTransport_benign _ _ _ _ _ _ H1) as Hb1;
    apply dialTransport_inv in H1 as [(e' & Hr & Hh1)|[Hr Hh1]]; try done.
  - injection Hr as ->. set (c := length (conns w)) in *.
    assert (on_heap c w1) as Hc.
    { eexists. rewrite Hh1. apply lookup_new. }
    unfold with_conn in H. destruct (probe_on ctx req rack slot c w1) as [w2 r2] eqn:H2.
    destruct (probe_on_safe _ _ _ _ _ _ _ _ Hc H2) as [_ Hp2].
    pose proof (probe_on_heap _ _ _ _ _ _ _ _ H2) as Hh2.
    pose proof (probe_on_benign _ _ _ _ _ _ _ _ H2) as Hb2.
    destruct (Close c w2) as [w3 r3] eqn:H3. pose proof H3 as H3'.
    assert (conns w2 !! c = Some (fresh_conn (PR_Timeout req))) as Hx
      by (rewrite Hh2, Hh1; apply lookup_new).
    apply (Close_heap _ _ _ _ _ Hx) in H3 as [Hh3 Hp3].
    assert (w3 = w' /\ r2 = r) as [<- <-] by (destruct r3; try done; by injection H).
    split; [|split].
    + destruct r2 as [a|e|]; [|exfalso|done].
      * exists a. split; [done|]. by eapply probe_on_shape.
      * by eapply probe_on_errorless.
    + rewrite Hh3, Hh2, Hh1. unfold c. rewrite insert_app_r_alt, Nat.sub_diag by done.
      apply Forall_app. split; [done|]. by repeat constructor.
    + etransitivity; [exact Hb1|]. etransitivity; [exact Hb2|]. by eapply Close_benign.
  - injection H as <- <-. split; [|split; [by rewrite Hh1|done]].
    eexists. split; [done|]. repeat (split; [done|]). apply shape_tcp; try done.
    cbn [RC_Status]. case_if; cbn; auto.
Qed.

(** C33: A probe of one rack and slot, whatever the network, the peer and the context do:
    it never panics, its stage, status, confirmation and confidence fit together, it
    leaves no connection open, and every frame it sends is a connection request, the
    setup or a status list query, so that it changes nothing in the target. *)
Theorem probeOne_outcome ctx req rack slot w w' r :
  all_closed (conns w) -> probeOne ctx req rack slot w = (w', r) ->
  (exists a, r = Ok a /\ RC_Rack a = rack /\ RC_Slot a = slot /\
     attempt_shape (PR_Strict req) a) /\
  all_closed (conns w') /\ writes_benign w w'.
Proof. apply probeOne_ends. Qed.
End ProbeOne.

(** ** The whole probe *)

Lemma rack_slots_elem rackMin rackMax slotMin slotMax rack slot :
  (rack, slot) ∈ rack_slots rackMin rackMax slotMin slotMax <->
  rackMin <= rack <= rackMax /\ slotMin <= slot <= slotMax.
Proof.
  unfold rack_slots. rewrite list_elem_of_In, in_concat. split.
  - intros (l & Hl & Hin). apply in_map_iff in Hl as (r & <- & Hr).
    apply in_map_iff in Hin as (s & [= <- <-] & Hs).
    apply list_elem_of_In, elem_of_seqZ in Hr, Hs. lia.
  - intros [Hr Hs]. eexists. split.
    + apply in_map_iff. exists rack. split; [done|]. apply list_elem_of_In, elem_of_seqZ. lia.
    + apply in_map_iff. exists slot. split; [done|]. apply list_elem_of_In, elem_of_seqZ. lia.
Qed.

Lemma NoDup_pairs (racks slots : list Z) : NoDup racks -> NoDup slots ->
  NoDup (concat (map (fun rack => map (fun slot => (rack, slot)) slots) racks)).
Proof.
  intros Hr Hs. induction Hr as [|r racks Hnin Hr IH]; [constructor|]. cbn.
  apply list.NoDup_app. split; [|split; [|done]].
  - apply NoDup_fmap_2; [|done]. by intros ? ? [= ->].
  - intros [r' s'] H1 H2. apply list_elem_of_In, in_map_iff in H1 as (s1 & [= <- <-] & _).
    apply list_elem_of_In, in_concat in H2 as (l & Hl & Hin).
    apply in_map_iff in Hl as (r2 & <- & Hr2). apply in_map_iff in Hin as (s2 & [= <- _] & _).
    by apply Hnin, list_elem_of_In.
Qed.

Lemma probe_jobs_elem req rack slot :
  (rack, slot) ∈ probe_jobs req <->
  PR_RackMin req <= rack <= PR_RackMax req /\ PR_SlotMin req <= slot <= PR_SlotMax req.
Proof. apply rack_slots_elem. Qed.

Lemma probe_jobs_NoDup req : NoDup (probe_jobs req).
Proof. apply NoDup_pairs; apply NoDup_seqZ. Qed.

Lemma max_jobs_le req : 0 <= max_jobs req <= len (probe_jobs req).
Proof. unfold max_jobs. pose proof (len_nonneg (probe_jobs req)). case_if; lia. Qed.

(** The attempt of a job. *)
Definition attempted (req : RackSlotProbeRequest) (job : Z * Z) (a : RackSlotCandidate) : Prop :=
  RC_Rack a = fst job /\ RC_Slot a = snd job /\ attempt_shape (PR_Strict req) a.

Section WholeProbe.
Context `{C : Cotp} `{HL : !CotpLaws}.

Lemma attempt_gives_attempted req i a job :
  attempt_gives req i a -> probe_jobs req !! i = Some job -> attempted req job a.
Proof.
  intros (rack & slot & E & ctx & w & w' & Hj & HE & Hw & H) Hj'. rewrite Hj in Hj'.
  injection Hj' as <-. apply (probeOne_ends (EL := HE)) in H as [(a' & [= <-] & H) _]; done.
Qed.

Lemma attempt_gives_some req i : (i < length (probe_jobs req))%nat ->
  exists a, attempt_gives req i a.
Proof.
  intros [[rack slot] Hj]%lookup_lt_is_Some_2.
  pose proof (sample_env_laws sample_mem) as HE. set (E := sample_env sample_mem) in *.
  destruct (probeOne (E := E) Background req rack slot no_world) as [w' r] eqn:H.
  assert (all_closed (conns no_world)) as Hw by constructor.
  destruct (probeOne_ends (EL := HE) _ _ _ _ _ _ _ Hw H) as [(a & -> & _) _].
  by exists a, rack, slot, E, Background, no_world, w'.
Qed.

Lemma setup_accepted_shape strict a : attempt_shape strict a ->
  setup_accepted a = true ->
  RC_Confidence a = (if valid_candidate true a then ConfidenceHigh else ConfidenceLow) /\
  (strict = true <-> RC_Stage a = ProbeStageQuery).
Proof.
  unfold setup_accepted, valid_candidate.
  destruct 1; cbn [In] in *;
    repeat match goal with
    | H : _ \/ _ |- _ => destruct H
    | H : False |- _ => destruct H
    end;
    repeat match goal with
    | H : _ = RC_Status _ |- _ => rewrite <- H
    | H : RC_Status _ = _ |- _ => rewrite H
    end; intros Hacc; try discriminate Hacc;
    match goal with H : RC_Stage _ = _, H' : RC_Confidence _ = _ |- _ => rewrite H, H' end;
    by subst.
Qed.

Lemma unconfirmed_shape a : attempt_shape false a -> RC_Status a <> StatusValidQuery.
Proof.
  intros H Hq. destruct H; cbn [In] in *; try discriminate;
    repeat match goal with
    | H : _ \/ _ |- _ => destruct H
    | H : False |- _ => destruct H
    | H : _ = RC_Status _ |- _ => rewrite Hq in H; discriminate H
    | H : RC_Status _ = StatusRejected |- _ => rewrite Hq in H; discriminate H
    | H : RC_Status _ = StatusSetupOnly |- _ => rewrite Hq in H; discriminate H
    end.
Qed.

Lemma jitter_panics_large req : jitter_panics req = true -> 2 ^ 63 - 1 <= PR_JitterMS req.
Proof.
  unfold jitter_panics. intros [Hp%Z.ltb_lt Hn%Z.leb_le]%andb_true_iff.
  destruct (Z.lt_ge_cases (PR_JitterMS req) (2 ^ 63 - 1)); [|done].
  rewrite int_small in Hn by lia. lia.
Qed.

(** C32: What a probe returns, for every interleaving of its attempts and every behaviour
    of the network and the context.  An invalid request is an error, and only a request
    for the largest jitter can panic.  Otherwise the jobs are exactly the pairs of the two
    ranges, once each; the attempts that were made are those of a prefix of the jobs, no
    more than the maximum asked for, each with the rack and slot of its job, and every
    other candidate is the zero value; the prefix is shorter than the maximum only if the
    context could end or a result ended the probe.  A strict probe calls valid only what a
    query has confirmed.  [StoppedEarly] is decided before the first attempt, from the
    request alone: it is set exactly when the maximum is below the number of jobs, even if
    a hit or the context ended the probe before the maximum was reached, although the
    comment on the field says that probing stopped because of the maximum. *)
Theorem ProbeRackSlots_outcome ctx req0 r :
  ProbeRackSlots ctx req0 r ->
  let req := applyProbeDefaults req0 in
  let jobs := probe_jobs req in
  match r with
  | Ok (None, err) => exists e, err = Some e /\ validateRackSlotProbeRequest req = Err e
  | Ok (Some x, _) =>
      validateRackSlotProbeRequest req = Ok tt /\
      (NoDup jobs /\ forall rack slot, (rack, slot) ∈ jobs <->
         PR_RackMin req <= rack <= PR_RackMax req /\ PR_SlotMin req <= slot <= PR_SlotMax req) /\
      (exists k, 0 <= k <= max_jobs req /\ length (Candidates x) = length jobs /\
         (forall i job a, jobs !! i = Some job -> Candidates x !! i = Some a ->
            if decide (Z.of_nat i < k) then attempted req job a else a = zero_candidate) /\
         (k = max_jobs req \/ ctx_can_end ctx \/
          exists a, a ∈ Candidates x /\ stops_probe req a = true)) /\
      (StoppedEarly x = true <-> 0 < PR_MaxAttemptsPerHost req < len jobs) /\
      (forall a, a ∈ Valid x -> a ∈ Candidates x /\ setup_accepted a = true /\
         RC_Confidence a = (if PR_Strict req then ConfidenceHigh else ConfidenceLow))
  | Err _ => False
  | Panic => 2 ^ 63 - 1 <= PR_JitterMS req
  end.
Proof.
  destruct 1 as [e Hv|req Hv Hpos Hj|p h req Hv n Hrun Hdone _]; cbv zeta.
  { by exists e. }
  { by apply jitter_panics_large. }
  fold req. pose proof (max_jobs_le req) as Hmax.
  assert (Z.to_nat (max_jobs req) <= n)%nat as Hn by (unfold n; unfold len in Hmax; lia).
  destruct (pool_outcome _ _ _ _ _ _ n p Hn Hrun Hdone)
    as (Hnext & Hlen & Hres & Hnone & Hend).
  assert (forall i job a, probe_jobs req !! i = Some job ->
    map (default zero_candidate) (results p) !! i = Some a ->
    if decide (Z.of_nat i < Z.of_nat (next p)) then attempted req job a else a = zero_candidate)
    as Hcand.
  { intros i job a Hj Ha. apply list_lookup_fmap_Some in Ha as (r & -> & Hr). case_decide as Hi.
    - destruct (Hres i) as (a & Ha & Hy); [lia|]. rewrite Hr in Ha. injection Ha as ->. cbn.
      by eapply attempt_gives_attempted.
    - rewrite Hnone in Hr; [by injection Hr as <-|]. apply lookup_lt_Some in Hj.
      unfold n. lia. }
  split; [done|]. split; [split; [apply probe_jobs_NoDup|apply probe_jobs_elem]|].
  split; [|split].
  - exists (Z.of_nat (next p)). split; [lia|]. split; [cbn [Candidates probe_result]; by rewrite length_map|].
    split; [exact Hcand|].
    destruct Hend as [->|[_ [Hc|(i & a & Ha & Hs)]]]; [left; lia|by right; left|].
    right. right. exists a. split; [|done].
    cbn [Candidates probe_result]. apply list_elem_of_lookup_2 with i.
    change (map ?f) with (fmap (M:=list) f). by rewrite list_lookup_fmap, Ha.
  - cbn [StoppedEarly probe_result]. unfold max_jobs. pose proof (len_nonneg (probe_jobs req)).
    destruct (Z.ltb_spec 0 (PR_MaxAttemptsPerHost req)); cbn [andb].
    + destruct (Z.ltb_spec (PR_MaxAttemptsPerHost req) (len (probe_jobs req)));
        rewrite Z.ltb_lt; lia.
    + rewrite Z.ltb_lt. lia.
  - intros a. cbn [Valid probe_result Candidates]. rewrite list_elem_of_In, filter_In.
    intros [Hin Hvalid]. apply list_elem_of_In in Hin. split; [done|].
    apply list_elem_of_lookup in Hin as [i Hi].
    destruct (lookup_lt_is_Some_2 (probe_jobs req) i) as [job Hj].
    { apply lookup_lt_Some in Hi. rewrite length_map in Hi. unfold n in Hlen. lia. }
    specialize (Hcand i job a Hj Hi). case_decide.
    2:{ subst a. unfold valid_candidate in Hvalid. by destruct (PR_Strict req). }
    destruct Hcand as (_ & _ & Hsh).
    assert (setup_accepted a = true) as Hacc.
    { unfold valid_candidate in Hvalid. destruct (PR_Strict req); [|done].
      unfold setup_accepted. by rewrite Hvalid, orb_true_r. }
    split; [done|]. destruct (setup_accepted_shape _ _ Hsh Hacc) as [Hconf Hstage].
    rewrite Hconf. unfold valid_candidate in *. destruct (PR_Strict req); [by rewrite Hvalid|].
    destruct (String.eqb _ _) eqn:Hq; [|done]. exfalso. apply String.eqb_eq in Hq.
    by apply unconfirmed_shape in Hsh.
Qed.
End WholeProbe.

Lemma default_parallelism req : 1 <= PR_Parallelism (applyProbeDefaults req).
Proof. cbn [PR_Parallelism applyProbeDefaults]. repeat case_if; lia. Qed.

Section ProbeEnds.
Context `{C : Cotp} `{HL : !CotpLaws}.

(** C34: A probe ends: every execution takes at most 3 n + 2 steps of the pool for at most
    n attempts, and as long as it is not done some step is possible; at no time are more
    attempts under way than the parallelism in force, and once the context is done, or a
    result has ended the probe, at most one more attempt is started. *)
Theorem ProbeRackSlots_ends ctx req0 p k :
  let req := applyProbeDefaults req0 in
  let n := length (probe_jobs req) in
  let step := pool_step (Z.to_nat (max_jobs req)) (Z.to_nat (PR_Parallelism req)) true
                (ctx_can_end ctx) (attempt_gives req) (stops_probe req) in
  nsteps step k (pool_init n) p ->
  Z.of_nat k <= 3 * max_jobs req + 2 /\ (pool_done p \/ exists p', step p p') /\
  len (running p) <= PR_Parallelism req /\ (late p <= 1)%nat.
Proof.
  intros req n step H. pose proof (max_jobs_le req) as Hmax.
  pose proof (default_parallelism req0) as Hpar. fold req in Hpar.
  assert (Z.to_nat (max_jobs req) <= n)%nat as Hn by (unfold n; unfold len in Hmax; lia).
  assert (rtc step (pool_init n) p) as Hrtc by (apply rtc_nsteps; by exists k).
  pose proof (pool_steps_inv _ _ _ _ _ _ n p Hn Hrtc) as Hinv.
  pose proof (pool_bounded _ _ _ _ _ _ n p k Hn H).
  split; [lia|]. split; [|split].
  - eapply pool_progress; [| |exact Hinv]; [lia|].
    intros i Hi. apply attempt_gives_some. unfold n in Hn. lia.
  - destruct Hinv. unfold len. lia.
  - destruct Hinv as [_ _ _ _ _ _ _ _ _ Hlate _ _ _].
    destruct (Hlate eq_refl) as [|[_ ->]]; lia.
Qed.
End ProbeEnds.

(** ** Witnesses *)

#[local] Existing Instance sample_cotp.
#[local] Instance sample : Env := sample_env sample_mem.
#[local] Instance sample_laws : EnvLaws := sample_env_laws sample_mem.

(** Two slots, and the first that accepts the setup ends the probe. *)
Definition sample_probe : RackSlotProbeRequest :=
  {| PR_Address := "plc"; PR_Port := 0; PR_RackMin := 0; PR_RackMax := 0; PR_SlotMin := 1;
     PR_SlotMax := 2; PR_Timeout := 0; PR_Parallelism := 1; PR_DelayMS := 0;
     PR_StopOnFirst := true; PR_LocalTSAP := None; PR_RemoteTSAP := None;
     PR_SafetyMode := ""; PR_JitterMS := 0; PR_MaxAttemptsPerHost := 0; PR_Strict := false;
     PR_Confirm := ""; PR_Retries := 0; PR_RetryDelay := 0; PR_StopOnFirstConfirmed := false |}.

Definition sample_attempt : RackSlotCandidate :=
  {| RC_Rack := 0; RC_Slot := 1; RC_LocalTSAP := 0x100; RC_RemoteTSAP := 0x301;
     RC_Stage := ProbeStageSetup; RC_Status := StatusSetupOnly; RC_PDUSize := 240;
     RC_ConfirmedBy := ""; RC_Confidence := ConfidenceLow; RC_Error := "" |}.

Lemma sample_attempt_gives :
  attempt_gives (applyProbeDefaults sample_probe) 0 sample_attempt.
Proof.
  destruct (probeOne Background (applyProbeDefaults sample_probe) 0 1 no_world) as [w' r] eqn:H.
  exists 0, 1, sample, Background, no_world, w'. split; [done|].
  split; [apply sample_laws|]. split; [constructor|]. rewrite H. f_equal.
  change r with (snd (w', r)). rewrite <- H. vm_compute. reflexivity.
Qed.

Definition sample_probe_end : pool RackSlotCandidate :=
  {| next := 1; ready := false; closed_loop := true; running := [];
     results := [Some sample_attempt; None]; cancelled := true; late := 0 |}.

Lemma sample_probe_run :
  nsteps (pool_step 2 1 true (ctx_can_end Background)
            (attempt_gives (applyProbeDefaults sample_probe))
            (stops_probe (applyProbeDefaults sample_probe))) 4 (pool_init 2) sample_probe_end.
Proof.
  eapply nsteps_l; [apply pool_check; cbn; auto with lia|].
  eapply nsteps_l; [apply pool_start; cbn; auto with lia|].
  eapply nsteps_l.
  { apply (pool_finish _ _ _ _ _ _ _ 0%nat sample_attempt); [by left|].
    apply sample_attempt_gives. }
  eapply nsteps_l; [apply pool_leave; cbn; auto|]. apply nsteps_O.
Qed.

Lemma follow_up_response_iff_witness :
  let resp := sample_DT {| DT_EOT := true; DT_UserData :=
    ack_data 2 [0; 1] (encode_szl_response 9 SZLModuleID 0 [1; 2; 3]) |} in
  no_panic (follow_up_response 2 resp) = true /\
  (follow_up_response 2 resp = Ok None <->
   exists param data r, answers_job 2 param data resp /\ ParseSZLResponse data = Ok r).
Proof.
  apply follow_up_response_iff; [|vm_compute; reflexivity|done].
  apply (bool_decide_unpack _). vm_compute. exact I.
Defined.

Lemma probeOne_outcome_witness :
  (exists a, snd (probeOne Background sample_probe 0 1 no_world) = Ok a /\ RC_Rack a = 0 /\
     RC_Slot a = 1 /\ attempt_shape false a) /\
  all_closed (conns (fst (probeOne Background sample_probe 0 1 no_world))) /\
  writes_benign no_world (fst (probeOne Background sample_probe 0 1 no_world)).
Proof.
  apply (probeOne_outcome Background sample_probe 0 1 no_world);
    [constructor|apply surjective_pairing].
Defined.

Lemma ProbeRackSlots_outcome_witness :
  let x := probe_result (applyProbeDefaults sample_probe) [sample_attempt; zero_candidate] in
  (StoppedEarly x = true <-> 0 < 0 < 2) /\
  (forall a, a ∈ Valid x -> a ∈ Candidates x /\ setup_accepted a = true /\
    RC_Confidence a = ConfidenceLow).
Proof.
  refine (proj2 (proj2 (proj2 (ProbeRackSlots_outcome Background sample_probe
    (Ok (Some (probe_result (applyProbeDefaults sample_probe)
                 [sample_attempt; zero_candidate]), None)) _)))).
  apply (ProbeRackSlots_run Background sample_probe sample_probe_end []).
  - reflexivity.
  - apply rtc_nsteps. exists 4%nat. exact sample_probe_run.
  - done.
  - discriminate.
Defined.

Lemma ProbeRackSlots_ends_witness :
  4 <= 3 * 2 + 2 /\ (pool_done sample_probe_end \/ exists p',
    pool_step 2 1 true (ctx_can_end Background)
      (attempt_gives (applyProbeDefaults sample_probe))
      (stops_probe (applyProbeDefaults sample_probe)) sample_probe_end p') /\
  len (running sample_probe_end) <= 1 /\ (late sample_probe_end <= 1)%nat.
Proof. exact (ProbeRackSlots_ends Background sample_probe sample_probe_end 4 sample_probe_run). Defined.
