(* ===== verification/Workers.v ===== *)
(** * Worker goroutines fed by a channel

    The scheduling pattern of [Discover]: a producer sends the jobs in order on a
    bounded channel and closes it, a fixed number of workers receive from it until it is
    closed, each does a job and sends the result, tagged with the job's index, on a
    channel that the caller drains into a slice.  When the context is done the producer
    stops and a worker that has a result may leave with it.  An execution is a sequence
    of steps of all of them in any order. *)

From stdpp Require Import relations.
From S2P Require Import Prelude.

Section Workers.
Context {A : Type}.
(** The jobs, the capacity of their channel, whether the context can end, and the values
    a job can have. *)
Context (jobs qcap : nat) (can_end : Prop) (yields : nat -> A -> Prop).

Inductive worker :=
  | Idle                    (* receiving from the channel of jobs *)
  | Working (i : nat)
  | Holding (i : nat) (a : A)  (* about to send its result *)
  | Gone.

Record workers := {
  produced : nat;              (* jobs sent *)
  jobs_closed : bool;
  queue : list nat;            (* the channel of jobs *)
  crew : list worker;
  out : list (nat * A);        (* the channel of results *)
  slice : list (option A);     (* [None] is the zero value *)
  ended : bool }.              (* the context is done *)

Definition workers_init (parallel : nat) : workers :=
  {| produced := 0; jobs_closed := false; queue := []; crew := replicate parallel Idle;
     out := []; slice := replicate jobs None; ended := false |}.

Inductive workers_step (p : workers) : workers -> Prop :=
  | w_cancel :
      ended p = false -> can_end ->
      workers_step p {| produced := produced p; jobs_closed := jobs_closed p;
        queue := queue p; crew := crew p; out := out p; slice := slice p; ended := true |}
  | w_produce :
      jobs_closed p = false -> (produced p < jobs)%nat -> (length (queue p) < qcap)%nat ->
      workers_step p {| produced := S (produced p); jobs_closed := false;
        queue := queue p ++ [produced p]; crew := crew p; out := out p; slice := slice p;
        ended := ended p |}
  | w_close :
      jobs_closed p = false -> produced p = jobs \/ ended p = true ->
      workers_step p {| produced := produced p; jobs_closed := true;
        queue := queue p; crew := crew p; out := out p; slice := slice p; ended := ended p |}
  | w_take i q l1 l2 :
      queue p = i :: q -> crew p = l1 ++ Idle :: l2 ->
      workers_step p {| produced := produced p; jobs_closed := jobs_closed p;
        queue := q; crew := l1 ++ Working i :: l2; out := out p; slice := slice p;
        ended := ended p |}
  | w_finish i a l1 l2 :
      crew p = l1 ++ Working i :: l2 -> yields i a ->
      workers_step p {| produced := produced p; jobs_closed := jobs_closed p;
        queue := queue p; crew := l1 ++ Holding i a :: l2; out := out p; slice := slice p;
        ended := ended p |}
  | w_send i a l1 l2 :
      crew p = l1 ++ Holding i a :: l2 -> (length (out p) < jobs)%nat ->
      workers_step p {| produced := produced p; jobs_closed := jobs_closed p;
        queue := queue p; crew := l1 ++ Idle :: l2; out := out p ++ [(i, a)];
        slice := slice p; ended := ended p |}
  | w_drop i a l1 l2 :
      crew p = l1 ++ Holding i a :: l2 -> ended p = true ->
      workers_step p {| produced := produced p; jobs_closed := jobs_closed p;
        queue := queue p; crew := l1 ++ Gone :: l2; out := out p; slice := slice p;
        ended := ended p |}
  | w_exit l1 l2 :
      crew p = l1 ++ Idle :: l2 -> jobs_closed p = true -> queue p = [] ->
      workers_step p {| produced := produced p; jobs_closed := true;
        queue := []; crew := l1 ++ Gone :: l2; out := out p; slice := slice p;
        ended := ended p |}
  | w_collect i a o :
      out p = (i, a) :: o ->
      workers_step p {| produced := produced p; jobs_closed := jobs_closed p;
        queue := queue p; crew := crew p; out := o; slice := <[i := Some a]> (slice p);
        ended := ended p |}.

(** The caller has left its loop: the workers are gone, which closes the channel of
    results, and it is drained. *)
Definition workers_done (p : workers) : Prop := Forall (eq Gone) (crew p) /\ out p = [].

(** ** The invariant *)

Definition job_of (w : worker) : option nat :=
  match w with Working i | Holding i _ => Some i | Idle | Gone => None end.

(** The jobs that are between the producer and the slice. *)
Definition in_flight (p : workers) : list nat :=
  queue p ++ omap job_of (crew p) ++ map fst (out p).

Record workers_inv (n : nat) (p : workers) : Prop := {
  winv_crew : length (crew p) = n;
  winv_produced : (produced p <= jobs)%nat;
  winv_slice : length (slice p) = jobs;
  winv_nodup : NoDup (in_flight p);
  winv_flight i : i ∈ in_flight p -> (i < produced p)%nat;
  winv_holding i a : Holding i a ∈ crew p \/ (i, a) ∈ out p -> yields i a;
  winv_result i a : slice p !! i = Some (Some a) -> yields i a /\ (i < produced p)%nat;
  winv_kept i : ended p = false -> (i < produced p)%nat ->
    i ∈ in_flight p \/ exists a, slice p !! i = Some (Some a);
  winv_closed : jobs_closed p = true -> ended p = true \/ produced p = jobs;
  winv_gone : ended p = false -> Gone ∈ crew p -> jobs_closed p = true /\ queue p = [];
  winv_ended : ended p = true -> can_end }.

Lemma workers_init_inv n : workers_inv n (workers_init n).
Proof.
  assert (omap job_of (replicate n Idle) = []) as Hnil by (induction n; cbn; auto).
  split; cbn; try done; try lia; try (by rewrite length_replicate);
    unfold in_flight; cbn; rewrite ?Hnil; cbn.
  - constructor.
  - intros i Hi. by apply elem_of_nil in Hi.
  - intros i a [Hi|Hi]; [|by apply elem_of_nil in Hi].
    apply list_elem_of_lookup in Hi as [k [[=] _]%lookup_replicate].
  - intros i a [[=] _]%lookup_replicate.
  - intros _ Hi. apply list_elem_of_lookup in Hi as [k [[=] _]%lookup_replicate].
Qed.

(** What each step does to the jobs in flight. *)
Lemma in_flight_step p p' : workers_step p p' ->
  in_flight p' ≡ₚ in_flight p /\ produced p' = produced p /\ slice p' = slice p \/
  in_flight p' ≡ₚ produced p :: in_flight p /\ produced p' = S (produced p) /\ slice p' = slice p \/
  (exists i, in_flight p ≡ₚ i :: in_flight p' /\ produced p' = produced p /\
     slice p' = slice p /\ ended p = true) \/
  (exists i a, in_flight p ≡ₚ i :: in_flight p' /\ produced p' = produced p /\
     slice p' = <[i := Some a]> (slice p) /\ (i, a) ∈ out p).
Proof.
  intros H. destruct H as [Hc He|Hc Hlt Hq|Hc Hd|i q l1 l2 Hq Hw|i a l1 l2 Hw Hy|i a l1 l2 Hw Ho
    |i a l1 l2 Hw He|l1 l2 Hw Hc Hq|i a o Ho]; unfold in_flight; cbn;
    rewrite ?Hq, ?Hw, ?Ho, ?omap_app; cbn.
  - by left.
  - right. left. split; [|done]. by rewrite <- app_assoc, Permutation_middle.
  - by left.
  - left. split; [|done]. rewrite <- Permutation_middle. cbn. by rewrite <- Permutation_middle.
  - by left.
  - left. split; [|done]. rewrite map_app. cbn.
    rewrite <- (Permutation_middle (omap job_of l1)), <- Permutation_cons_append.
    by rewrite <- (Permutation_middle (omap job_of l1 ++ omap job_of l2)).
  - right. right. left. exists i. split; [|done].
    rewrite <- (Permutation_middle (omap job_of l1)). cbn. by rewrite <- Permutation_middle.
  - by left.
  - right. right. right. exists i, a. split; [|by repeat split; left].
    by rewrite <- !Permutation_middle.
Qed.

(** A step moves one worker at most. *)
Lemma crew_step p p' : workers_step p p' -> length (crew p') = length (crew p).
Proof.
  intros H. destruct H; cbn; try done;
    match goal with H : crew p = _ |- _ => by rewrite H, !length_app end.
Qed.

(** Where a value that is held or sent comes from. *)
Lemma holding_step p p' i a : workers_step p p' ->
  Holding i a ∈ crew p' \/ (i, a) ∈ out p' ->
  (Holding i a ∈ crew p \/ (i, a) ∈ out p) \/ yields i a.
Proof.
  intros H [Hi|Hi]; destruct H; cbn in Hi; try (by auto);
    repeat match goal with
    | H : crew p = _ |- _ => rewrite H; clear H
    | H : out p = _ |- _ => rewrite H; clear H
    end; rewrite ?elem_of_app, ?elem_of_cons, ?elem_of_nil in *;
    repeat match goal with H : _ \/ _ |- _ => destruct H | H : _ = _ |- _ => progress simplify_eq end;
    tauto.
Qed.

(** When a worker leaves and the context is not done, all jobs have been taken. *)
Lemma gone_step p p' : workers_step p p' -> ended p' = false -> Gone ∈ crew p' ->
  ended p = false /\ Gone ∈ crew p \/ jobs_closed p' = true /\ queue p' = [].
Proof.
  intros H He Hg. destruct H; cbn in *; try (by auto); try congruence;
    repeat match goal with H : crew p = _ |- _ => rewrite H; clear H end;
    rewrite ?elem_of_app, ?elem_of_cons, ?elem_of_nil in *;
    repeat match goal with H : _ \/ _ |- _ => destruct H | H : _ = _ |- _ => progress simplify_eq end;
    tauto.
Qed.

Lemma workers_step_inv n p p' : workers_step p p' -> workers_inv n p -> workers_inv n p'.
Proof.
  intros Hstep Hinv. pose proof (crew_step _ _ Hstep) as Hcrew.
  pose proof (in_flight_step _ _ Hstep) as Hfl.
  destruct Hinv as [Hn Hpr Hsl Hnd Hfi Hho Hre Hke Hcl Hgo Hen]. split.
  - congruence.
  - destruct Hstep; cbn in *; lia.
  - destruct Hstep; cbn; rewrite ?length_insert; done.
  - destruct Hfl as [[-> _]|[[-> _]|[(i & Hi & _)|(i & a & Hi & _)]]]; try done.
    + constructor; [|done]. intros Hin%Hfi. lia.
    + rewrite Hi in Hnd. by apply list.NoDup_cons in Hnd as [_ Hnd].
    + rewrite Hi in Hnd. by apply list.NoDup_cons in Hnd as [_ Hnd].
  - intros j Hj. destruct Hfl as [(Hp & -> & _)|[(Hp & -> & _)|[(i & Hi & -> & _)|(i & a & Hi & -> & _)]]].
    + apply Hfi. by rewrite <- Hp.
    + rewrite Hp in Hj. apply elem_of_cons in Hj as [->|Hj]; [lia|]. apply Hfi in Hj. lia.
    + apply Hfi. rewrite Hi. by right.
    + apply Hfi. rewrite Hi. by right.
  - intros j b Hj. by destruct (holding_step _ _ _ _ Hstep Hj) as [Hj'|]; [apply Hho|].
  - intros j b Hj.
    assert (produced p <= produced p')%nat as Hle by (destruct Hstep; cbn; lia).
    destruct Hfl as [(_ & _ & Hs)|[(_ & _ & Hs)|[(i & _ & _ & Hs & _)|(i & a & Hi & _ & Hs & Ho)]]];
      rewrite Hs in Hj; try (apply Hre in Hj as [? ?]; split; [done|lia]).
    destruct (decide (j = i)) as [->|Hne].
    + assert (i < produced p)%nat as Hlt by (apply Hfi; rewrite Hi; by left).
      rewrite list_lookup_insert_eq in Hj by lia. injection Hj as <-. split; [|lia].
      apply Hho. by right.
    + rewrite list_lookup_insert_ne in Hj by done. apply Hre in Hj as [? ?]. split; [done|lia].
  - intros j He Hj. assert (ended p = false) as He0 by (destruct Hstep; cbn in He; congruence).
    destruct Hfl as [(Hp & Hj' & ->)|[(Hp & Hj' & ->)|[(i & _ & _ & _ & Hend)|(i & a & Hi & Hj' & -> & _)]]];
      rewrite ?Hj' in Hj.
    + rewrite Hp. by apply Hke.
    + rewrite Hp. destruct (decide (j = produced p)) as [->|]; [left; by left|].
      destruct (Hke j He0) as [|]; [lia|left; by right|by right].
    + congruence.
    + destruct (decide (j = i)) as [->|Hne].
      * right. exists a. apply list_lookup_insert_eq. lia.
      * rewrite list_lookup_insert_ne by done. destruct (Hke j He0 Hj) as [Hin|]; [|by right].
        left. rewrite Hi in Hin. by apply elem_of_cons in Hin as [|].
  - destruct Hstep; cbn; try done; naive_solver.
  - intros He Hg. destruct (gone_step _ _ Hstep He Hg) as [[He0 Hg0]|]; [|done].
    destruct (Hgo He0 Hg0) as [Hc Hq]. destruct Hstep; cbn in *; split; congruence.
  - destruct Hstep; cbn; auto.
Qed.

Lemma workers_steps_inv n p : rtc workers_step (workers_init n) p -> workers_inv n p.
Proof.
  intros H. pose proof (workers_init_inv n) as H0. revert H0.
  generalize (workers_init n) as q, H. clear H. intros q H.
  induction H; eauto using workers_step_inv.
Qed.

(** A worker that has a result never blocks: the channel of results has room for it. *)
Lemma workers_out_room n p i a : workers_inv n p -> Holding i a ∈ crew p ->
  (length (out p) < jobs)%nat.
Proof.
  intros Hinv (l1 & l2 & Hw)%list_elem_of_split.
  pose proof (winv_nodup _ _ Hinv) as Hnd. pose proof (winv_produced _ _ Hinv) as Hp.
  assert (in_flight p ≡ₚ (i :: map fst (out p)) ++ queue p ++ omap job_of (l1 ++ l2)) as Hperm.
  { unfold in_flight. rewrite Hw, !omap_app. cbn. rewrite <- Permutation_middle. cbn.
    rewrite <- Permutation_middle. f_equiv. rewrite app_assoc. by rewrite Permutation_app_comm. }
  rewrite Hperm in Hnd. apply list.NoDup_app in Hnd as [Hnd _].
  assert (forall j, j ∈ i :: map fst (out p) -> j ∈ seq 0 jobs) as Hsub.
  { intros j Hj. apply elem_of_seq. assert (j < produced p)%nat; [|lia].
    apply (winv_flight _ _ Hinv). rewrite Hperm. apply elem_of_app. by left. }
  pose proof (submseteq_length _ _ (NoDup_submseteq _ (seq 0 jobs) Hnd Hsub)) as Hl.
  rewrite length_seq in Hl. cbn in Hl. rewrite length_map in Hl. lia.
Qed.

(** ** Every execution ends *)

Definition worker_weight (w : worker) : nat :=
  match w with Idle => 1 | Working _ => 4 | Holding _ _ => 3 | Gone => 0 end.

Definition workers_measure (p : workers) : nat :=
  5 * (jobs - produced p) + 4 * length (queue p) + sum_list_with worker_weight (crew p)
  + length (out p) + (if ended p then 0 else 1) + (if jobs_closed p then 0 else 1).

Lemma workers_step_measure p p' :
  workers_step p p' -> (workers_measure p' < workers_measure p)%nat.
Proof.
  intros H. destruct H; unfold workers_measure; cbn;
    repeat match goal with
    | H : crew p = _ |- _ => rewrite H; clear H
    | H : queue p = _ |- _ => rewrite H; clear H
    | H : out p = _ |- _ => rewrite H; clear H
    | H : ended p = _ |- _ => rewrite H; clear H
    | H : jobs_closed p = _ |- _ => rewrite H; clear H
    end; rewrite ?sum_list_with_app, ?length_app; cbn; try lia;
    destruct (ended p), (jobs_closed p); lia.
Qed.

Lemma workers_bounded n p k : nsteps workers_step k (workers_init n) p ->
  (k <= 5 * jobs + n + 2)%nat.
Proof.
  intros H. enough (forall q, nsteps workers_step k q p -> k <= workers_measure q)%nat as Hk.
  { apply Hk in H. unfold workers_measure in H. cbn in H.
    assert (sum_list_with worker_weight (replicate n Idle) = n) as Hs
      by (clear; induction n as [|n IH]; [done|cbn; by rewrite IH]). lia. }
  clear H. induction k as [|k IH]; intros q H; inversion H; subst; [lia|].
  pose proof (workers_step_measure _ _ ltac:(eassumption)).
  assert (k <= workers_measure y)%nat; [by apply IH|lia].
Qed.

Lemma crew_cases (ws : list worker) :
  Forall (eq Gone) ws \/ exists l1 w l2, ws = l1 ++ w :: l2 /\ w <> Gone.
Proof.
  induction ws as [|w ws [IH|(l1 & w' & l2 & -> & Hw)]]; [by left| |].
  - destruct w as [|i|i a|]; [..|by left; constructor]; right; by eexists [], _, ws.
  - right. by exists (w :: l1), w', l2.
Qed.

(** It does not get stuck before the caller has left its loop. *)
Lemma workers_progress n p :
  (0 < qcap)%nat -> (forall i, (i < jobs)%nat -> exists a, yields i a) ->
  workers_inv n p -> workers_done p \/ exists p', workers_step p p'.
Proof.
  intros Hcap Hy Hinv. destruct (out p) as [|[i a] o] eqn:Ho.
  2:{ right. eexists. by eapply w_collect. }
  destruct (crew_cases (crew p)) as [Hall|(l1 & w & l2 & Hw & Hne)]; [by left|right].
  pose proof (winv_produced _ _ Hinv) as Hp.
  destruct w as [|i|i a|]; [..|done].
  - destruct (queue p) as [|i q] eqn:Hq; [|eexists; by eapply w_take].
    destruct (jobs_closed p) eqn:Hc; [eexists; by eapply w_exit|].
    destruct (decide (produced p = jobs)) as [He|Hne']; [eexists; by apply w_close; auto|].
    eexists. apply w_produce; [done|lia|]. by rewrite Hq.
  - destruct (Hy i) as [a Ha].
    { cut (i < produced p)%nat; [lia|]. apply (winv_flight _ _ Hinv). unfold in_flight.
      rewrite Hw, omap_app, !elem_of_app. cbn. rewrite elem_of_cons. auto. }
    eexists. by eapply w_finish.
  - eexists. eapply w_send; [done|]. eapply workers_out_room; [done|]. rewrite Hw.
    apply elem_of_app. right. by left.
Qed.

(** What the caller has when it leaves its loop: the value of a job or nothing at the
    job's index, and nothing only when the context is done. *)
Lemma workers_outcome n p :
  (0 < n)%nat -> rtc workers_step (workers_init n) p -> workers_done p ->
  length (slice p) = jobs /\
  (forall i a, slice p !! i = Some (Some a) -> yields i a) /\
  (ended p = true -> can_end) /\
  (ended p = false -> forall i, (i < jobs)%nat ->
     exists a, slice p !! i = Some (Some a) /\ yields i a).
Proof.
  intros Hn Hrun [Hgone Hout]. apply workers_steps_inv in Hrun as Hinv.
  destruct Hinv as [Hc Hpr Hsl Hnd Hfi Hho Hre Hke Hcl Hgo Hen].
  split; [done|]. split; [by intros i a [? _]%Hre|]. split; [done|]. intros He i Hi.
  assert (Gone ∈ crew p) as Hg.
  { destruct (crew p) as [|w ws]; [cbn in Hc; lia|]. apply Forall_cons_iff in Hgone as [<- _]. by left. }
  destruct (Hgo He Hg) as [Hcl1 Hq]. destruct (Hcl Hcl1) as [|Hall]; [congruence|].
  destruct (Hke i He) as [Hin|(a & Ha)]; [lia| |exists a; split; [done|]; by apply Hre in Ha as [? _]].
  exfalso. unfold in_flight in Hin. rewrite Hq, Hout in Hin. cbn in Hin. rewrite app_nil_r in Hin.
  assert (omap job_of (crew p) = []) as Hnil
    by (clear -Hgone; induction Hgone as [|w ws <- _ IH]; cbn; done).
  rewrite Hnil in Hin. by apply elem_of_nil in Hin.
Qed.

(** Workers are never more than were started, so neither are the jobs under way. *)
Lemma workers_under_way n p : workers_inv n p ->
  (length (omap job_of (crew p)) <= n)%nat.
Proof.
  intros Hinv. rewrite <- (winv_crew _ _ Hinv). generalize (crew p). clear. intros l.
  induction l as [|w l IH]; cbn; [done|]. destruct (job_of w); cbn; lia.
Qed.
End Workers.

Arguments worker : clear implicits.
Arguments workers : clear implicits.
