(* ===== verification/Discover.v ===== *)
(** * client/discover.go

    The discovery of devices in an IPv4 network: the options and their presets, the
    enumeration of the addresses, the attempts on one address, and the workers that
    share the addresses out. *)

From stdpp Require Import relations.
From S2P Require Import Prelude GoError GoMonad GoStrings GoNet WireErrors WireHeader WireCotp WireReadWrite WireSpec WireSetup ModelTypes Transport ClientTypes ClientCore Compare Probe Workers Sample.

Record DiscoverResult := {
  DR_IP : string;
  DR_Port : Z;
  IsS7 : bool;
  DR_Rack : Z;
  DR_Slot : Z;
  DR_PDUSize : Z;
  DR_TSAP : string;
  DR_Error : string;
  AbandonedReason : string }.

(** ** Options *)

Record discoverOpts := {
  d_timeout : Z;
  d_parallel : Z;
  d_rackMin : Z;
  d_rackMax : Z;
  d_slotMin : Z;
  d_slotMax : Z;
  d_rateMS : Z;
  d_safetyMode : SafetyMode;
  d_jitterMS : Z;
  d_maxAttemptsPerHost : Z }.

(** [type DiscoverOption func( *discoverOpts)] *)
Definition DiscoverOption : Type := discoverOpts -> discoverOpts.

Definition WithDiscoverTimeout (ms : Z) : DiscoverOption := fun o =>
  {| d_timeout := ms; d_parallel := d_parallel o; d_rackMin := d_rackMin o;
     d_rackMax := d_rackMax o; d_slotMin := d_slotMin o; d_slotMax := d_slotMax o;
     d_rateMS := d_rateMS o; d_safetyMode := d_safetyMode o; d_jitterMS := d_jitterMS o;
     d_maxAttemptsPerHost := d_maxAttemptsPerHost o |}.

Definition WithDiscoverParallel (n : Z) : DiscoverOption := fun o =>
  {| d_timeout := d_timeout o; d_parallel := n; d_rackMin := d_rackMin o;
     d_rackMax := d_rackMax o; d_slotMin := d_slotMin o; d_slotMax := d_slotMax o;
     d_rateMS := d_rateMS o; d_safetyMode := d_safetyMode o; d_jitterMS := d_jitterMS o;
     d_maxAttemptsPerHost := d_maxAttemptsPerHost o |}.

Definition WithDiscoverRackSlotRange (rackMin rackMax slotMin slotMax : Z) : DiscoverOption := fun o =>
  {| d_timeout := d_timeout o; d_parallel := d_parallel o; d_rackMin := rackMin;
     d_rackMax := rackMax; d_slotMin := slotMin; d_slotMax := slotMax;
     d_rateMS := d_rateMS o; d_safetyMode := d_safetyMode o; d_jitterMS := d_jitterMS o;
     d_maxAttemptsPerHost := d_maxAttemptsPerHost o |}.

Definition WithDiscoverRateLimit (ms : Z) : DiscoverOption := fun o =>
  {| d_timeout := d_timeout o; d_parallel := d_parallel o; d_rackMin := d_rackMin o;
     d_rackMax := d_rackMax o; d_slotMin := d_slotMin o; d_slotMax := d_slotMax o;
     d_rateMS := ms; d_safetyMode := d_safetyMode o; d_jitterMS := d_jitterMS o;
     d_maxAttemptsPerHost := d_maxAttemptsPerHost o |}.

Definition WithDiscoverSafetyMode (mode : SafetyMode) : DiscoverOption := fun o =>
  {| d_timeout := d_timeout o; d_parallel := d_parallel o; d_rackMin := d_rackMin o;
     d_rackMax := d_rackMax o; d_slotMin := d_slotMin o; d_slotMax := d_slotMax o;
     d_rateMS := d_rateMS o; d_safetyMode := mode; d_jitterMS := d_jitterMS o;
     d_maxAttemptsPerHost := d_maxAttemptsPerHost o |}.

Definition WithDiscoverJitter (ms : Z) : DiscoverOption := fun o =>
  {| d_timeout := d_timeout o; d_parallel := d_parallel o; d_rackMin := d_rackMin o;
     d_rackMax := d_rackMax o; d_slotMin := d_slotMin o; d_slotMax := d_slotMax o;
     d_rateMS := d_rateMS o; d_safetyMode := d_safetyMode o; d_jitterMS := ms;
     d_maxAttemptsPerHost := d_maxAttemptsPerHost o |}.

Definition WithDiscoverMaxAttemptsPerHost (n : Z) : DiscoverOption := fun o =>
  {| d_timeout := d_timeout o; d_parallel := d_parallel o; d_rackMin := d_rackMin o;
     d_rackMax := d_rackMax o; d_slotMin := d_slotMin o; d_slotMax := d_slotMax o;
     d_rateMS := d_rateMS o; d_safetyMode := d_safetyMode o; d_jitterMS := d_jitterMS o;
     d_maxAttemptsPerHost := n |}.

(** The first part of [Discover]: the defaults, the options, the presets. *)
Definition default_discoverOpts : discoverOpts :=
  {| d_timeout := 2000; d_parallel := 10; d_rackMin := 0; d_rackMax := 3; d_slotMin := 0;
     d_slotMax := 5; d_rateMS := 0; d_safetyMode := ""; d_jitterMS := 0;
     d_maxAttemptsPerHost := 0 |}.

Definition apply_presets (o : discoverOpts) : discoverOpts :=
  let mode := if String.eqb (d_safetyMode o) "" then SafetyNormal else d_safetyMode o in
  let conservative := String.eqb mode SafetyConservative in
  let aggressive := negb conservative && String.eqb mode SafetyAggressive in
  {| d_timeout :=
       if conservative then if d_timeout o =? 2000 then 5000 else d_timeout o
       else if aggressive then if d_timeout o =? 2000 then 1000 else d_timeout o
       else d_timeout o;
     d_parallel :=
       if conservative then if d_parallel o =? 10 then 3 else d_parallel o
       else if aggressive then if d_parallel o =? 10 then 15 else d_parallel o
       else d_parallel o;
     d_rackMin := d_rackMin o; d_rackMax := d_rackMax o;
     d_slotMin := d_slotMin o; d_slotMax := d_slotMax o;
     d_rateMS := if conservative then if d_rateMS o =? 0 then 50 else d_rateMS o
                 else d_rateMS o;
     d_safetyMode := mode; d_jitterMS := d_jitterMS o;
     d_maxAttemptsPerHost := d_maxAttemptsPerHost o |}.

Definition discover_opts (opts : list DiscoverOption) : discoverOpts :=
  apply_presets (fold_left (fun o f => f o) opts default_discoverOpts).

Definition validate_discover (o : discoverOpts) : res unit :=
  if d_rackMax o <? d_rackMin o
  then Err (EValidation ("discover: rack min (" +:+ dec (d_rackMin o)
              +:+ ") must be <= rack max (" +:+ dec (d_rackMax o) +:+ ")"))
  else if d_slotMax o <? d_slotMin o
  then Err (EValidation ("discover: slot min (" +:+ dec (d_slotMin o)
              +:+ ") must be <= slot max (" +:+ dec (d_slotMax o) +:+ ")"))
  else if d_jitterMS o <? 0
  then Err (EValidation ("discover: jitter ms must be >= 0, got " +:+ dec (d_jitterMS o)))
  else if d_maxAttemptsPerHost o <? 0
  then Err (EValidation ("discover: max attempts per host must be >= 0, got "
              +:+ dec (d_maxAttemptsPerHost o)))
  else Ok tt.

(** ** The addresses *)

(** [incIP], from the last byte on. *)
Fixpoint inc_rev (ip : bytes) : bytes :=
  match ip with
  | [] => []
  | b :: ip =>
      let b := u8 (b + 1) in
      if 0 <? b then b :: ip else b :: inc_rev ip
  end.

Definition incIP (ip : bytes) : bytes := reverse (inc_rev (reverse ip)).

Definition maxDiscoveryHostBits : Z := 20.

(** [copy(dst, src)] *)
Definition go_copy (dst src : bytes) : bytes :=
  take (length dst) src ++ drop (length src) dst.

Section Stream.
Context {S : Type}.

(** The loop of [streamCIDR] from [idx] on, with [todo] addresses left of [total]. *)
Fixpoint stream_loop (ctx_err : M S (option error)) (send : string -> M S bool)
    (total : Z) (todo : nat) (idx : Z) (ip : bytes) : M S unit :=
  match todo with
  | O => ret tt
  | Datatypes.S todo =>
      let skipEnds := 2 <? total in
      if skipEnds && ((idx =? 0) || (idx =? total - 1))
      then stream_loop ctx_err send total todo (idx + 1) (if idx =? 0 then incIP ip else ip)
      else
        let* ok := send (dotted ip) in
        if negb ok then
          let* e := ctx_err in
          match e with Some e => fail e | None => ret tt end
        else stream_loop ctx_err send total todo (idx + 1) (incIP ip)
  end.

(** [streamCIDR], with what [ctx.Err()] does as [ctx_err]. *)
Definition streamCIDR (ctx_err : M S (option error)) (cidr : string)
    (send : string -> M S bool) : M S unit :=
  match ParseCIDR cidr with
  | None => fail (EValidation (ParseError cidr))
  | Some ipnet =>
      match To4 (Net_IP ipnet) with
      | None => fail (EValidation ("discovery is IPv4-only; got IPv6 CIDR " +:+ cidr))
      | Some _ =>
          let (ones, bits) := Mask_Size (Net_Mask ipnet) in
          if negb (bits =? 32)
          then fail (EValidation ("expected IPv4 mask, got " +:+ dec bits +:+ " bits"))
          else
          let hostBits := bits - ones in
          if maxDiscoveryHostBits <? hostBits
          then fail (EValidation ("CIDR too large for discovery (max /"
                       +:+ dec (32 - maxDiscoveryHostBits) +:+ "): " +:+ cidr))
          else
          let total := Z.shiftl 1 hostBits in
          let ip := go_copy (go_make 4)
                      (default [] (IP_Mask (Net_IP ipnet) (Net_Mask ipnet))) in
          stream_loop ctx_err send total (Z.to_nat total) 0 ip
      end
  end.
End Stream.

(** The loop of [expandCIDR]; [None] when the fuel does not reach its end. *)
Fixpoint expand_loop (fuel : nat) (n : IPNet) (ip : bytes) (ips : list string)
    : option (list string) :=
  if Contains n ip then
    match fuel with
    | O => None
    | S fuel =>
        expand_loop fuel n (incIP ip)
          (ips ++ [dotted (match To4 ip with Some ip4 => ip4 | None => ip end)])
    end
  else Some ips.

Definition expandCIDR (fuel : nat) (cidr : string) : res (option (list string)) :=
  match ParseCIDR cidr with
  | None => Err (EValidation (ParseError cidr))
  | Some ipnet =>
      match To4 (Net_IP ipnet) with
      | None => Err (EValidation ("discovery is IPv4-only; got IPv6 CIDR " +:+ cidr))
      | Some _ =>
          match expand_loop fuel ipnet
                  (default [] (IP_Mask (Net_IP ipnet) (Net_Mask ipnet))) [] with
          | None => Ok None
          | Some ips =>
              if 2 <? len ips then
                let? ips := checked (go_slice ips 1 (len ips - 1)) in Ok (Some ips)
              else Ok (Some ips)
          end
      end
  end.

(** The addresses [streamCIDR] sends when no call of [send] stops it. *)
Definition cidr_addresses (cidr : string) : res (list string) :=
  let (ips, r) := streamCIDR (ret None) cidr
                    (fun ip => let* _ := modify (fun ips => ips ++ [ip]) in ret true) [] in
  match r with Ok _ => Ok ips | Err e => Err e | Panic => Panic end.

Example cidr_ex1 : cidr_addresses "10.0.0.253/30" = Ok ["10.0.0.253"; "10.0.0.254"].
Proof. vm_compute. reflexivity. Qed.
Example cidr_ex2 : cidr_addresses "10.0.255.255/31" = Ok ["10.0.255.254"; "10.0.255.255"].
Proof. vm_compute. reflexivity. Qed.
Example cidr_ex3 : cidr_addresses "::ffff:10.0.0.0/120"
  = Err (EValidation "expected IPv4 mask, got 128 bits").
Proof. vm_compute. reflexivity. Qed.

(** ** The enumeration *)

Lemma inc_rev_ok l : bytes_ok l -> bytes_ok (inc_rev l) /\ len (inc_rev l) = len l.
Proof.
  induction 1 as [|b l Hb Hl [IH1 IH2]]; cbn; [done|].
  destruct (0 <? u8 (b + 1)); split; try (constructor; [apply u8_range|done]);
    rewrite !len_cons; [done|lia].
Qed.

Lemma inc_rev_num l : bytes_ok l ->
  ip_num (reverse (inc_rev l)) = (ip_num (reverse l) + 1) mod 2 ^ (8 * len l).
Proof.
  induction 1 as [|b l Hb Hl IH]; [done|]. cbn [inc_rev]. unfold is_byte in Hb.
  assert (bytes_ok (reverse l)) as Hrl by (by apply Forall_reverse).
  pose proof (ip_num_bound _ Hrl) as Hbd. rewrite len_reverse in Hbd. pose proof (len_nonneg l).
  rewrite len_cons. replace (8 * (1 + len l)) with (8 + 8 * len l) by lia.
  rewrite Z.pow_add_r by lia. set (P := 2 ^ (8 * len l)) in *.
  rewrite (reverse_cons l b), ip_num_app. change (ip_num [b]) with (b * 1 + 0).
  change (2 ^ (8 * len [b])) with 256. change (2 ^ 8) with 256.
  unfold u8. destruct (Z.ltb_spec 0 ((b + 1) mod 2 ^ 8)) as [H0|H0]; change (2 ^ 8) with 256 in *.
  - rewrite reverse_cons, ip_num_app. change (ip_num [?x]) with (x * 1 + 0).
    change (2 ^ (8 * len [_])) with 256. assert (b <> 255) by (intros ->; by vm_compute in H0).
    rewrite (Z.mod_small (b + 1)) by lia. rewrite Z.mod_small by nia. lia.
  - assert (b = 255) as -> by lia. rewrite reverse_cons, ip_num_app, IH.
    change (ip_num [_]) with 0. change (2 ^ (8 * len [_])) with 256.
    replace (ip_num (reverse l) * 256 + (255 * 1 + 0) + 1) with (256 * (ip_num (reverse l) + 1)) by lia.
    rewrite Z.mul_mod_distr_l by lia. lia.
Qed.

(** [incIP] adds one, and wraps round after the last address. *)
Lemma incIP_spec ip : bytes_ok ip ->
  bytes_ok (incIP ip) /\ len (incIP ip) = len ip /\
  ip_num (incIP ip) = (ip_num ip + 1) mod 2 ^ (8 * len ip).
Proof.
  intros Hok. assert (bytes_ok (reverse ip)) as Hr by (by apply Forall_reverse).
  destruct (inc_rev_ok _ Hr) as [H1 H2]. unfold incIP.
  split; [by apply Forall_reverse|]. rewrite !len_reverse in *. split; [done|].
  rewrite inc_rev_num by done. by rewrite reverse_involutive, len_reverse.
Qed.

Lemma incIP_put_u32 x : incIP (put_u32 x) = put_u32 (x + 1).
Proof.
  destruct (incIP_spec (put_u32 x) (bytes_ok_put_u32 x)) as (Hok & Hl & Hn).
  apply ip_num_inj; [done|apply bytes_ok_put_u32|done|]. rewrite Hn, !ip_num_put_u32.
  change (8 * len (put_u32 x)) with 32. unfold u32. apply Zplus_mod_idemp_l.
Qed.

(** The host addresses of the network of [2 ^ h] addresses from [base] on: without the
    first and the last when there are more than two. *)
Definition host_numbers (base h : Z) : list Z :=
  if 2 <? 2 ^ h then seqZ (base + 1) (2 ^ h - 2) else seqZ base (2 ^ h).
Definition host_text (x : Z) : string := dotted (put_u32 x).
Definition hosts (base h : Z) : list string := map host_text (host_numbers base h).

(** Send each of a list, stopping when the callback says so. *)
Fixpoint send_each {S} (ctx_err : M S (option error)) (send : string -> M S bool)
    (ips : list string) : M S unit :=
  match ips with
  | [] => ret tt
  | ip :: ips =>
      let* ok := send ip in
      if negb ok then
        let* e := ctx_err in
        match e with Some e => fail e | None => ret tt end
      else send_each ctx_err send ips
  end.

Lemma bind_ext {S A B} (m : M S A) (k1 k2 : A -> M S B) s :
  (forall a s, k1 a s = k2 a s) -> bind m k1 s = bind m k2 s.
Proof. intros H. unfold bind. destruct (m s) as [s1 [a|e|]]; auto. Qed.

Section StreamLoop.
Context {S : Type} (ctx_err : M S (option error)) (send : string -> M S bool).

Lemma stream_loop_all total base todo idx s :
  total <= 2 -> idx = total - Z.of_nat todo ->
  stream_loop ctx_err send total todo idx (put_u32 (base + idx)) s
  = send_each ctx_err send (map host_text (seqZ (base + idx) (Z.of_nat todo))) s.
Proof.
  intros Ht. revert idx s. induction todo as [|todo IH]; intros idx s Hi; cbn [stream_loop]; [done|].
  rewrite (proj2 (Z.ltb_ge 2 total)) by lia. cbn [andb].
  rewrite seqZ_cons by lia. cbn [map send_each]. apply bind_ext. intros ok s1.
  destruct (negb ok); [done|]. rewrite incIP_put_u32.
  replace (base + idx + 1) with (base + (idx + 1)) by lia. rewrite IH by lia.
  do 3 f_equal; lia.
Qed.

Lemma stream_loop_inner total base todo idx s :
  2 < total -> 0 < idx -> idx = total - Z.of_nat todo ->
  stream_loop ctx_err send total todo idx (put_u32 (base + idx)) s
  = send_each ctx_err send (map host_text (seqZ (base + idx) (Z.of_nat todo - 1))) s.
Proof.
  intros Ht. revert idx s. induction todo as [|todo IH]; intros idx s H0 Hi; cbn [stream_loop].
  { by rewrite seqZ_nil by lia. }
  rewrite (proj2 (Z.ltb_lt 2 total)), (proj2 (Z.eqb_neq idx 0)) by lia. cbn [andb orb].
  destruct (Z.eqb_spec idx (total - 1)) as [He|He].
  - replace todo with 0%nat by lia. cbn [stream_loop]. by rewrite seqZ_nil by lia.
  - rewrite seqZ_cons by lia. cbn [map send_each]. apply bind_ext. intros ok s1.
    destruct (negb ok); [done|]. rewrite incIP_put_u32.
    replace (base + idx + 1) with (base + (idx + 1)) by lia. rewrite IH by lia.
    do 3 f_equal; lia.
Qed.

Lemma stream_loop_hosts base h s : 0 <= h ->
  stream_loop ctx_err send (2 ^ h) (Z.to_nat (2 ^ h)) 0 (put_u32 base) s
  = send_each ctx_err send (hosts base h) s.
Proof.
  intros Hh. assert (0 < 2 ^ h) as Hp by (apply Z.pow_pos_nonneg; lia).
  unfold hosts, host_numbers. destruct (Z.ltb_spec 2 (2 ^ h)) as [H2|H2].
  - destruct (Z.to_nat (2 ^ h)) as [|todo] eqn:Htodo; [lia|]. cbn [stream_loop].
    rewrite (proj2 (Z.ltb_lt 2 (2 ^ h))) by lia. cbn [andb orb Z.eqb].
    rewrite incIP_put_u32. change (0 + 1) with 1. rewrite stream_loop_inner by lia.
    do 3 f_equal; lia.
  - replace base with (base + 0) at 1 by lia. rewrite stream_loop_all by lia.
    do 3 f_equal; lia.
Qed.
End StreamLoop.

Lemma go_copy_same dst src : len src = len dst -> go_copy dst src = src.
Proof.
  unfold go_copy, len. intros Hl. rewrite take_ge by lia. rewrite drop_ge by lia.
  apply app_nil_r.
Qed.

(** The network of an IPv4 text. *)
Lemma streamCIDR_net4 {S} (ctx_err : M S (option error)) send cidr ip n s :
  ParseCIDR cidr = Some (net_of ip n) -> bytes_ok ip -> len ip = 4 -> 0 <= n <= 32 ->
  streamCIDR ctx_err cidr send s =
    if n <? 12 then (s, Err (EValidation ("CIDR too large for discovery (max /12): " +:+ cidr)))
    else send_each ctx_err send (hosts (ip_num (Net_IP (net_of ip n))) (32 - n)) s.
Proof.
  intros Hp Hok Hl Hn. unfold streamCIDR. rewrite Hp, To4_4 by (by apply net4_len).
  cbn [Net_Mask net_of]. rewrite Mask_Size_CIDR by (unfold len in Hl; lia).
  replace (8 * Z.of_nat (length ip)) with 32 by (unfold len in Hl; lia). cbn [Z.eqb Pos.eqb negb].
  unfold maxDiscoveryHostBits. replace (20 <? 32 - n) with (n <? 12) by lia.
  destruct (Z.ltb_spec n 12); [done|].
  rewrite (net4_mask_again ip n Hok Hl Hn : IP_Mask (Net_IP _) (CIDRMask _ _) = _). cbn [from_option id].
  rewrite go_copy_same by (by apply (net4_len ip n)).
  rewrite Z.shiftl_mul_pow2, Z.mul_1_l by lia.
  rewrite <- (put_u32_ip_num (Net_IP (net_of ip n))) at 1 by (by apply net4_ok || by apply net4_len).
  apply stream_loop_hosts. lia.
Qed.

(** Any other text is an error before the first call of [send]. *)
Lemma streamCIDR_other cidr :
  (exists ip n, ParseCIDR cidr = Some (net_of ip n) /\ bytes_ok ip /\ len ip = 4 /\ 0 <= n <= 32) \/
  exists msg, forall S (ctx_err : M S (option error)) send s,
    streamCIDR ctx_err cidr send s = (s, Err (EValidation msg)).
Proof.
  destruct (ParseCIDR cidr) as [net|] eqn:Hp.
  - apply ParseCIDR_inv in Hp as Hnet. destruct Hnet as (ip & n & -> & Hok & [Hl|Hl] & Hn).
    { left. exists ip, n. rewrite Hl in Hn. done. }
    right. unfold streamCIDR. rewrite Hp. destruct (To4 (Net_IP _)); [|by eexists].
    cbn [Net_Mask net_of]. rewrite Mask_Size_CIDR by (unfold len in *; lia).
    replace (8 * Z.of_nat (length ip)) with 128 by (unfold len in Hl; lia). by eexists.
  - right. unfold streamCIDR. rewrite Hp. by eexists.
Qed.

Lemma collect_each ips acc :
  send_each (ret None) (fun ip => let* _ := modify (fun ips => ips ++ [ip]) in ret true) ips acc
  = (acc ++ ips, Ok tt).
Proof.
  revert acc. induction ips as [|ip ips IH]; intros acc; cbn [send_each]; [by rewrite app_nil_r|].
  unfold bind at 1 2, modify, ret at 1. cbn [negb]. rewrite IH. by rewrite <- app_assoc.
Qed.

(** What [streamCIDR] does, by the addresses it would send. *)
Lemma streamCIDR_each {S} cidr (ctx_err : M S (option error)) send s :
  streamCIDR ctx_err cidr send s =
    match cidr_addresses cidr with
    | Ok ips => send_each ctx_err send ips s
    | Err e => (s, Err e)
    | Panic => (s, Panic)
    end.
Proof.
  unfold cidr_addresses. destruct (streamCIDR_other cidr) as [(ip & n & Hp & Hok & Hl & Hn)|[msg H]].
  - rewrite !(streamCIDR_net4 _ _ _ _ _ _ Hp) by done. destruct (n <? 12); [done|].
    by rewrite collect_each.
  - by rewrite !H.
Qed.

(** C23: Discovery of an IPv4 network visits its host addresses in ascending order: all of
    them when the network has one or two, and otherwise all but the first and the last;
    networks of more than 2^20 addresses are refused before anything is sent. *)
Theorem streamCIDR_hosts {S} (ctx_err : M S (option error)) send ip n s :
  bytes_ok ip -> len ip = 4 -> 0 <= n <= 32 ->
  let cidr := dotted ip +:+ "/" +:+ dec n in
  let base := ip_num ip / 2 ^ (32 - n) * 2 ^ (32 - n) in
  streamCIDR ctx_err cidr send s =
    if n <? 12 then (s, Err (EValidation ("CIDR too large for discovery (max /12): " +:+ cidr)))
    else send_each ctx_err send
           (map host_text
              (if n <? 31 then seqZ (base + 1) (2 ^ (32 - n) - 2) else seqZ base (2 ^ (32 - n)))) s.
Proof.
  intros Hok Hl Hn cidr base. pose proof (ParseCIDR_dotted ip n Hok Hl Hn) as Hp.
  unfold cidr. rewrite (streamCIDR_net4 _ _ _ _ _ _ Hp) by done.
  destruct (n <? 12); [done|]. rewrite net4_num by done. fold base. unfold hosts, host_numbers.
  replace (2 <? 2 ^ (32 - n)) with (n <? 31); [done|].
  apply eq_bool_prop_intro. rewrite !Is_true_true, !Z.ltb_lt. split; intros Hlt.
  - apply (Z.lt_le_trans _ (2 ^ 2)); [done|]. apply Z.pow_le_mono_r; lia.
  - destruct (Z.lt_ge_cases n 31) as [|Hge]; [done|].
    assert (2 ^ (32 - n) <= 2 ^ 1) by (apply Z.pow_le_mono_r; lia). lia.
Qed.

(** ** The list of all addresses *)

Section Expand.
Context (ip : bytes) (n : Z).
Context (Hok : bytes_ok ip) (Hlen : len ip = 4) (Hn : 0 <= n <= 32).

Let base := ip_num (Net_IP (net_of ip n)).

Lemma Contains_offset k : 0 <= k < 2 ^ (32 - n) ->
  Contains (net_of ip n) (put_u32 (base + k)) = true.
Proof.
  intros Hk. rewrite Contains_net4 by (done || apply bytes_ok_put_u32).
  apply bool_decide_true. rewrite ip_num_put_u32. unfold base.
  pose proof (net4_fits ip n Hok Hlen Hn). pose proof (ip_num_bound _ (net4_ok ip n Hok)).
  unfold u32. rewrite Z.mod_small by lia. rewrite net4_num by done.
  rewrite Z.div_add_l by lia. rewrite (Z.div_small k) by lia. lia.
Qed.

Lemma Contains_end : 0 < n -> Contains (net_of ip n) (put_u32 (base + 2 ^ (32 - n))) = false.
Proof.
  intros H0. rewrite Contains_net4 by (done || apply bytes_ok_put_u32).
  apply bool_decide_false. rewrite ip_num_put_u32. unfold base, u32.
  pose proof (net4_fits ip n Hok Hlen Hn) as Hfit. pose proof (ip_num_bound _ (net4_ok ip n Hok)).
  pose proof (net4_num ip n Hok Hlen Hn) as Hnum.
  assert (0 < 2 ^ (32 - n)) by (apply Z.pow_pos_nonneg; lia).
  assert (2 ^ (32 - n) < 2 ^ 32) by (apply Z.pow_lt_mono_r; lia).
  destruct (Z.eq_dec (ip_num (Net_IP (net_of ip n)) + 2 ^ (32 - n)) (2 ^ 32)) as [He|Hne].
  - rewrite He, Z.mod_same, Z.div_0_l by lia. nia.
  - rewrite Z.mod_small by lia. rewrite Hnum.
    replace (ip_num ip / 2 ^ (32 - n) * 2 ^ (32 - n) + 2 ^ (32 - n))
      with ((ip_num ip / 2 ^ (32 - n) + 1) * 2 ^ (32 - n)) by lia.
    rewrite Z.div_mul by lia. lia.
Qed.

Lemma expand_loop_all fuel k acc : 0 < n -> 0 <= k <= 2 ^ (32 - n) ->
  2 ^ (32 - n) - k <= Z.of_nat fuel ->
  expand_loop fuel (net_of ip n) (put_u32 (base + k)) acc
  = Some (acc ++ map host_text (seqZ (base + k) (2 ^ (32 - n) - k))).
Proof.
  intros H0. revert k acc. induction fuel as [|fuel IH]; intros k acc Hk Hf.
  - cbn [expand_loop]. replace k with (2 ^ (32 - n)) by lia. rewrite Contains_end by done.
    by rewrite seqZ_nil, app_nil_r by lia.
  - cbn [expand_loop]. destruct (Z.eq_dec k (2 ^ (32 - n))) as [->|Hne].
    + rewrite Contains_end by done. by rewrite seqZ_nil, app_nil_r by lia.
    + rewrite Contains_offset by lia. rewrite To4_4, incIP_put_u32 by done.
      rewrite (seqZ_cons (base + k)) by lia. replace (base + k + 1) with (base + (k + 1)) by lia.
      rewrite IH by lia. rewrite <- app_assoc. cbn [map app]. do 5 f_equal; lia.
Qed.
End Expand.

Lemma trim_hosts base h : 0 <= h ->
  (let ips := map host_text (seqZ base (2 ^ h)) in
   if 2 <? len ips then
     let? ips := checked (go_slice ips 1 (len ips - 1)) in Ok (Some ips)
   else Ok (Some ips)) = Ok (Some (hosts base h)).
Proof.
  intros Hh. assert (0 < 2 ^ h) as Hp by (apply Z.pow_pos_nonneg; lia).
  cbv zeta. rewrite len_map. unfold hosts, host_numbers.
  assert (len (seqZ base (2 ^ h)) = 2 ^ h) as -> by (unfold len; rewrite length_seqZ; lia).
  destruct (Z.ltb_spec 2 (2 ^ h)) as [H2|H2]; [|done].
  replace (seqZ base (2 ^ h)) with ([base] ++ seqZ (base + 1) (2 ^ h - 2) ++ [base + 2 ^ h - 1]).
  2:{ replace (2 ^ h) with (1 + (2 ^ h - 2) + 1) at 3 by lia. rewrite !seqZ_app by lia.
      rewrite <- app_assoc. f_equal. f_equal. by rewrite (seqZ_cons _ 1), seqZ_nil; [f_equal|..]; lia. }
  rewrite !map_app, (go_slice_mid _ _ _ 1 (2 ^ h - 1)); [done|done|].
  rewrite !len_map. unfold len. rewrite length_seqZ. cbn. lia.
Qed.

Lemma expandCIDR_net4 fuel cidr ip n :
  ParseCIDR cidr = Some (net_of ip n) -> bytes_ok ip -> len ip = 4 -> 0 < n <= 32 ->
  2 ^ (32 - n) <= Z.of_nat fuel ->
  expandCIDR fuel cidr = Ok (Some (hosts (ip_num (Net_IP (net_of ip n))) (32 - n))).
Proof.
  intros Hp Hok Hl Hn Hf. unfold expandCIDR.
  rewrite Hp, To4_4, net4_mask_again by (done || lia || by apply net4_len). cbn [from_option id].
  rewrite <- (put_u32_ip_num (Net_IP (net_of ip n))) at 1 by (by apply net4_ok || by apply net4_len).
  rewrite <- (Z.add_0_r (ip_num (Net_IP _))) at 1.
  assert (0 < 2 ^ (32 - n)) by (apply Z.pow_pos_nonneg; lia).
  rewrite expand_loop_all by (done || lia). cbn [app]. rewrite Z.add_0_r, Z.sub_0_r.
  apply trim_hosts. lia.
Qed.

(** [expandCIDR] refuses nothing that it has parsed as IPv4. *)
Lemma expandCIDR_accepts fuel cidr net ip4 e :
  ParseCIDR cidr = Some net -> To4 (Net_IP net) = Some ip4 -> expandCIDR fuel cidr <> Err e.
Proof.
  intros Hp Ht. unfold expandCIDR. rewrite Hp, Ht.
  destruct (expand_loop _ _ _ _) as [ips|]; [|done]. case_if; [|done].
  unfold go_slice. by repeat case_if.
Qed.

(** C26: [streamCIDR] and [expandCIDR] for every text of a network.  A text that does not
    parse, or that is IPv6, is refused by both with the same error.  [streamCIDR] alone
    refuses IPv4 addresses in IPv6 notation and IPv4 networks with a prefix shorter than
    12.  All others, the networks of at most 2^20 addresses, are accepted by both, and
    [streamCIDR] sends what [expandCIDR] lists, in the same order. *)
Theorem streamCIDR_expandCIDR {S} (ctx_err : M S (option error)) send cidr s fuel :
  2 ^ 20 <= Z.of_nat fuel ->
  let refuses msg := streamCIDR ctx_err cidr send s = (s, Err (EValidation msg)) in
  let too msg := expandCIDR fuel cidr = Err (EValidation msg) in
  let alone := forall e, expandCIDR fuel cidr <> Err e in
  match ParseCIDR cidr with
  | None => refuses (ParseError cidr) /\ too (ParseError cidr)
  | Some net =>
      match To4 (Net_IP net), Mask_Size (Net_Mask net) with
      | None, _ =>
          let msg := "discovery is IPv4-only; got IPv6 CIDR " +:+ cidr in
          refuses msg /\ too msg
      | Some _, (ones, bits) =>
          if negb (bits =? 32)
          then refuses ("expected IPv4 mask, got " +:+ dec bits +:+ " bits") /\ alone
          else if ones <? 12
          then refuses ("CIDR too large for discovery (max /12): " +:+ cidr) /\ alone
          else exists ips, expandCIDR fuel cidr = Ok (Some ips) /\
                 streamCIDR ctx_err cidr send s = send_each ctx_err send ips s
      end
  end.
Proof.
  intros Hf. cbv zeta. destruct (ParseCIDR cidr) as [net|] eqn:Hp.
  2:{ unfold streamCIDR, expandCIDR. by rewrite Hp. }
  destruct (To4 (Net_IP net)) as [ip4|] eqn:Ht.
  2:{ unfold streamCIDR, expandCIDR. by rewrite Hp, Ht. }
  apply ParseCIDR_inv in Hp as Hnet. destruct Hnet as (ip & n & -> & Hok & Hl & Hn).
  cbn [Net_Mask net_of]. rewrite Mask_Size_CIDR by (unfold len in *; lia).
  destruct Hl as [Hl|Hl].
  - rewrite (streamCIDR_net4 _ _ _ _ _ _ Hp) by (done || lia).
    replace (8 * Z.of_nat (length ip)) with 32 by (unfold len in Hl; lia). cbn [Z.eqb Pos.eqb negb].
    destruct (Z.ltb_spec n 12) as [Hlt|Hge].
    + split; [done|]. intros e. by eapply expandCIDR_accepts.
    + eexists. split; [|done]. apply expandCIDR_net4; [done..|lia|].
      assert (2 ^ (32 - n) <= 2 ^ 20) by (apply Z.pow_le_mono_r; lia). lia.
  - replace (8 * Z.of_nat (length ip)) with 128 by (unfold len in Hl; lia). cbn [Z.eqb Pos.eqb negb].
    split; [|intros e; by eapply expandCIDR_accepts].
    unfold streamCIDR. rewrite Hp, Ht. cbn [Net_Mask net_of].
    rewrite Mask_Size_CIDR by (unfold len in *; lia).
    by replace (8 * Z.of_nat (length ip)) with 128 by (unfold len in Hl; lia).
Qed.

(** The loop of [expandCIDR] has no end when every address is in the network. *)
Lemma expandCIDR_zero fuel ip : bytes_ok ip -> len ip = 4 ->
  expandCIDR fuel (dotted ip +:+ "/" +:+ dec 0) = Ok None.
Proof.
  intros Hok Hl. unfold expandCIDR. rewrite ParseCIDR_dotted, To4_4 by (done || by apply net4_len).
  rewrite net4_mask_again by done. cbn [from_option id].
  assert (forall x, bytes_ok x -> len x = 4 -> Contains (net_of ip 0) x = true) as Hall.
  { intros x Hx Hxl. rewrite Contains_net4 by done. apply bool_decide_true.
    pose proof (ip_num_bound x Hx) as Hb. pose proof (ip_num_bound ip Hok) as Hb'.
    rewrite Hxl in Hb. rewrite Hl in Hb'. by rewrite !Z.div_small. }
  generalize (Net_IP (net_of ip 0)) as x, (net4_len ip 0 Hl), (net4_ok ip 0 Hok), (@nil string).
  induction fuel as [|fuel IH]; intros x Hx Hxok acc; cbn [expand_loop]; rewrite Hall by done; [done|].
  destruct (incIP_spec x Hxok) as (? & ? & _). apply IH; [congruence|done].
Qed.

(** ** The attempts on one address *)

(** [math/rand]: the [k]-th [Intn(n)] of a generator with a seed. *)
Class Rng := rng_Intn : Z -> nat -> Z -> Z.

Definition time_Millisecond : Z := 1000000.

Section ProbeS7.
Context `{E : Env} `{C : Cotp} `{R : Rng}.

(** The random delay before an attempt. *)
Definition jitter_wait (ctx : Ctx) (o : discoverOpts) (seed : Z) (k : nat) : M World unit :=
  if 0 <? d_jitterMS o then
    let n := int (d_jitterMS o + 1) in
    if n <=? 0 then lift Panic else
    let jitter := int (rng_Intn seed k n * time_Millisecond) in
    if 0 <? jitter then ctx_wait ctx jitter else ret tt
  else ret tt.

(** [New], [Connect] and, when that succeeds, [ConnectionInfo] and [Close]. *)
Definition discover_connect (ctx : Ctx) (ip : string) (port : Z) (o : discoverOpts)
    (rack slot : Z) : M World (option ConnectionInfo) :=
  let c := NewClient ip [WithPort port; WithRackSlot rack slot;
                         WithTimeout (int (d_timeout o * time_Millisecond))] in
  with_client c (
    catch (Connect ctx)
      (fun _ => ret None)
      (fun _ =>
         let* info := gets (fun s => ConnectionInfo_of (cl s)) in
         let* _ := attempt ClientClose in
         ret (Some info))).

Definition not_found (ip : string) (port : Z) (err reason : string) : DiscoverResult :=
  {| DR_IP := ip; DR_Port := port; IsS7 := false; DR_Rack := 0; DR_Slot := 0;
     DR_PDUSize := 0; DR_TSAP := ""; DR_Error := err; AbandonedReason := reason |}.

Definition found (ip : string) (port : Z) (info : ConnectionInfo) : DiscoverResult :=
  {| DR_IP := ip; DR_Port := port; IsS7 := true; DR_Rack := CI_Rack info;
     DR_Slot := CI_Slot info; DR_PDUSize := CI_PDUSize info;
     DR_TSAP := "0x" +:+ hex04 (CI_RemoteTSAP info); DR_Error := ""; AbandonedReason := "" |}.

(** The two loops from a rack and a slot on, after [attempts] attempts and [k] draws.
    [rack++] and [slot++] wrap; a round of either loop takes one unit of fuel, and [None]
    is a search that has not ended when the fuel has. *)
Fixpoint probeS7_loop (fuel : nat) (ctx : Ctx) (ip : string) (port : Z) (o : discoverOpts)
    (seed rack slot attempts : Z) (k : nat) : M World (option DiscoverResult) :=
  if negb (rack <=? d_rackMax o)
  then ret (Some (not_found ip port "no valid COTP+S7 setup for tested rack/slot range" ""))
  else
  match fuel with
  | O => ret None
  | S fuel =>
      if negb (slot <=? d_slotMax o)
      then probeS7_loop fuel ctx ip port o seed (int (rack + 1)) (d_slotMin o) attempts k
      else if (0 <? d_maxAttemptsPerHost o) && (d_maxAttemptsPerHost o <=? attempts)
      then ret (Some (not_found ip port "max attempts per host reached" "max_attempts"))
      else
      let canceled e := ret (Some (not_found ip port (error_text e) "context_canceled")) in
      catch (ctx_check ctx) canceled (fun _ =>
      catch (jitter_wait ctx o seed k) canceled (fun _ =>
      catch (if 0 <? d_rateMS o then ctx_wait ctx (int (d_rateMS o * time_Millisecond))
             else ret tt) canceled (fun _ =>
      let* info := discover_connect ctx ip port o rack slot in
      match info with
      | None => probeS7_loop fuel ctx ip port o seed rack (int (slot + 1)) (int (attempts + 1)) (S k)
      | Some info => ret (Some (found ip port info))
      end)))
  end.

Definition probeS7 (fuel : nat) (ctx : Ctx) (ip : string) (port : Z) (o : discoverOpts)
    : M World (option DiscoverResult) :=
  let* seed := if 0 <? d_jitterMS o then outside env_Now EvNow else ret 0 in
  probeS7_loop fuel ctx ip port o seed (d_rackMin o) (d_slotMin o) 0 0.
End ProbeS7.

(** ** The pairs of a search

    The options for which the loops visit every pair of the ranges once and end: the
    largest rack and slot are below the largest [int], where [rack++] and [slot++] wrap,
    the pairs can be counted, and [jitter + 1] does not wrap. *)
Definition discover_pairs (o : discoverOpts) : list (Z * Z) :=
  rack_slots (d_rackMin o) (d_rackMax o) (d_slotMin o) (d_slotMax o).

Definition discover_in_range (o : discoverOpts) : Prop :=
  - 2 ^ 63 <= d_rackMin o /\ d_rackMax o < 2 ^ 63 - 1 /\
  - 2 ^ 63 <= d_slotMin o /\ d_slotMax o < 2 ^ 63 - 1 /\
  d_jitterMS o < 2 ^ 63 - 1 /\ len (discover_pairs o) < 2 ^ 63.

(** The rounds of the two loops. *)
Definition probe_rounds (o : discoverOpts) : Z :=
  Z.max 0 (d_rackMax o - d_rackMin o + 1) * (Z.max 0 (d_slotMax o - d_slotMin o + 1) + 1).

(** The pairs from a rack and a slot on. *)
Definition pairs_from (o : discoverOpts) (rack slot : Z) : list (Z * Z) :=
  if rack <=? d_rackMax o
  then map (rack,.) (seqZ slot (d_slotMax o - slot + 1))
       ++ rack_slots (rack + 1) (d_rackMax o) (d_slotMin o) (d_slotMax o)
  else [].

Lemma rack_slots_cons rack rackMax slotMin slotMax : rack <= rackMax ->
  rack_slots rack rackMax slotMin slotMax =
  map (rack,.) (seqZ slotMin (slotMax - slotMin + 1))
    ++ rack_slots (rack + 1) rackMax slotMin slotMax.
Proof.
  intros H. unfold rack_slots. rewrite (seqZ_cons rack) by lia. cbn [map concat].
  by replace (Z.pred (rackMax - rack + 1)) with (rackMax - (rack + 1) + 1) by lia.
Qed.

Lemma pairs_from_rack o rack : pairs_from o rack (d_slotMin o) =
  rack_slots rack (d_rackMax o) (d_slotMin o) (d_slotMax o).
Proof.
  unfold pairs_from. destruct (Z.leb_spec rack (d_rackMax o)); [by rewrite (rack_slots_cons rack)|].
  unfold rack_slots. by rewrite (seqZ_nil rack) by lia.
Qed.

Lemma pairs_from_slot o rack slot : rack <= d_rackMax o -> slot <= d_slotMax o ->
  pairs_from o rack slot = (rack, slot) :: pairs_from o rack (slot + 1).
Proof.
  intros Hr Hs. unfold pairs_from. rewrite (proj2 (Z.leb_le _ _)) by done.
  rewrite (seqZ_cons slot) by lia. cbn [map app]. do 4 f_equal; lia.
Qed.

Section Pairs.
Context `{E : Env} `{C : Cotp} `{R : Rng}.

(** The search over a list of pairs. *)
Fixpoint search_pairs (ctx : Ctx) (ip : string) (port : Z) (o : discoverOpts) (seed : Z)
    (pairs : list (Z * Z)) (attempts : Z) (k : nat) : M World DiscoverResult :=
  match pairs with
  | [] => ret (not_found ip port "no valid COTP+S7 setup for tested rack/slot range" "")
  | (rack, slot) :: pairs =>
      if (0 <? d_maxAttemptsPerHost o) && (d_maxAttemptsPerHost o <=? attempts)
      then ret (not_found ip port "max attempts per host reached" "max_attempts")
      else
      let canceled e := ret (not_found ip port (error_text e) "context_canceled") in
      catch (ctx_check ctx) canceled (fun _ =>
      catch (jitter_wait ctx o seed k) canceled (fun _ =>
      catch (if 0 <? d_rateMS o then ctx_wait ctx (int (d_rateMS o * time_Millisecond))
             else ret tt) canceled (fun _ =>
      let* info := discover_connect ctx ip port o rack slot in
      match info with
      | None => search_pairs ctx ip port o seed pairs (int (attempts + 1)) (S k)
      | Some info => ret (found ip port info)
      end)))
  end.

(** [m] gives what [n] gives, or stops for want of fuel, which it does not when [enough]. *)
Definition follows (m : M World (option DiscoverResult)) (n : M World DiscoverResult)
    (enough : Prop) : Prop := forall w w' r, m w = (w', r) ->
  (exists r', n w = (w', r') /\ r = (let? a := r' in Ok (Some a))) \/ ~ enough /\ r = Ok None.

Lemma follows_ret a P : follows (ret (Some a)) (ret a) P.
Proof. intros w w' r [= <- <-]. left. by exists (Ok a). Qed.

Lemma follows_bind {A} (m : M World A) k1 k2 P :
  (forall a, follows (k1 a) (k2 a) P) -> follows (bind m k1) (bind m k2) P.
Proof.
  intros Hk w w' r H. unfold bind in H |- *. destruct (m w) as [w1 [a|e|]]; [by apply Hk| |];
    injection H as <- <-; left; [by exists (Err e)|by exists Panic].
Qed.

Lemma follows_catch {A} (m : M World A) (h : error -> DiscoverResult) k1 k2 P :
  (forall a, follows (k1 a) (k2 a) P) ->
  follows (catch m (fun e => ret (Some (h e))) k1) (catch m (fun e => ret (h e)) k2) P.
Proof. intros Hk. apply follows_bind. intros [a|e]; [apply Hk|apply follows_ret]. Qed.

Lemma follows_weaken m n P Q : follows m n P -> (Q -> P) -> follows m n Q.
Proof. intros H HQ w w' r [?|[? ?]]%H; [by left|right; auto]. Qed.

(** The rounds of the two loops from a rack and a slot on. *)
Definition rounds_from (o : discoverOpts) (rack slot : Z) : Z :=
  if rack <=? d_rackMax o
  then (d_rackMax o - rack) * (Z.max 0 (d_slotMax o - d_slotMin o + 1) + 1)
       + Z.max 0 (d_slotMax o - slot + 1) + 1
  else 0.

(** Every round of the loops takes one off. *)
Lemma rounds_next_slot o rack slot : rack <= d_rackMax o -> slot <= d_slotMax o ->
  rounds_from o rack slot = rounds_from o rack (slot + 1) + 1.
Proof. intros. unfold rounds_from. rewrite (proj2 (Z.leb_le _ _)) by done. lia. Qed.
Lemma rounds_next_rack o rack slot : rack <= d_rackMax o -> d_slotMax o < slot ->
  rounds_from o rack slot = rounds_from o (rack + 1) (d_slotMin o) + 1.
Proof.
  intros. unfold rounds_from. rewrite (proj2 (Z.leb_le _ _)) by done.
  destruct (Z.leb_spec (rack + 1) (d_rackMax o)); [nia|].
  replace rack with (d_rackMax o) by lia. lia.
Qed.

(** The loop visits the pairs of the ranges, and ends with enough fuel. *)
Lemma probeS7_loop_pairs fuel ctx ip port o seed rack slot attempts k :
  discover_in_range o -> - 2 ^ 63 <= rack -> - 2 ^ 63 <= slot ->
  follows (probeS7_loop fuel ctx ip port o seed rack slot attempts k)
    (search_pairs ctx ip port o seed (pairs_from o rack slot) attempts k)
    (rounds_from o rack slot <= Z.of_nat fuel).
Proof.
  intros (H1 & H2 & H3 & H4 & _). revert rack slot attempts k.
  induction fuel as [|fuel IH]; intros rack slot attempts k Hr Hs; cbn [probeS7_loop];
    (destruct (Z.leb_spec rack (d_rackMax o)) as [Hrm|Hrm]; cbn [negb];
     [|unfold pairs_from; rewrite (proj2 (Z.leb_gt _ _)) by done; apply follows_ret]).
  { intros w w' r [= <- <-]. right. split; [|done]. unfold rounds_from.
    rewrite (proj2 (Z.leb_le _ _)) by done. nia. }
  destruct (Z.leb_spec slot (d_slotMax o)) as [Hsm|Hsm]; cbn [negb].
  - rewrite pairs_from_slot, rounds_next_slot by done. cbn [search_pairs].
    case_if; [apply follows_ret|].
    do 3 (apply follows_catch; intros _). apply follows_bind. intros [info|]; [apply follows_ret|].
    rewrite (int_small (slot + 1)) by lia.
    eapply follows_weaken; [apply IH; lia|lia].
  - rewrite (int_small (rack + 1)), rounds_next_rack by lia.
    assert (pairs_from o rack slot = pairs_from o (rack + 1) (d_slotMin o)) as ->.
    { rewrite pairs_from_rack. unfold pairs_from. rewrite (proj2 (Z.leb_le _ _)) by done.
      by rewrite seqZ_nil by lia. }
    eapply follows_weaken; [apply IH; lia|lia].
Qed.

Lemma probe_rounds_from o : rounds_from o (d_rackMin o) (d_slotMin o) <= probe_rounds o.
Proof. unfold rounds_from, probe_rounds. case_if; nia. Qed.
End Pairs.

(** ** Counting connection attempts *)

Definition dials (w : World) : list (string * Z) :=
  omap (fun ev => match ev with EvDial addr t _ => Some (addr, t) | _ => None end) (hist w).

Definition undialled (w w' : World) : Prop := dials w' = dials w.

#[export] Instance undialled_preorder : PreOrder undialled.
Proof. split; [by intros w|]. intros w1 w2 w3 H1 H2. unfold undialled in *. congruence. Qed.

Definition is_dial (ev : event) : bool := match ev with EvDial _ _ _ => true | _ => false end.

Lemma emit_undialled ev : is_dial ev = false -> preserves undialled (emit ev).
Proof. intros Hev w w' r [= <- _]. by destruct ev. Qed.

Lemma outside_undialled {A} (f : list event -> A) ev :
  (forall a, is_dial (ev a) = false) -> preserves undialled (outside f ev).
Proof. intros Hev. unfold outside. preserve. by apply emit_undialled. Qed.

Lemma get_conn_undialled c : preserves undialled (get_conn c).
Proof. by intros w w' r [= <- _]. Qed.
Lemma set_conn_undialled c x : preserves undialled (set_conn c x).
Proof. by intros w w' r [= <- _]. Qed.
Lemma err_of_undialled e : preserves undialled (err_of e).
Proof. destruct e; cbn; eauto with go typeclass_instances. Qed.

#[export] Hint Resolve get_conn_undialled set_conn_undialled err_of_undialled : go.
#[export] Hint Extern 1 (preserves undialled (emit _)) => (apply emit_undialled; done) : go.
#[export] Hint Extern 1 (preserves undialled (outside _ _)) => (apply outside_undialled; done) : go.

(** What a client's log of connection attempts is. *)
Definition sys_dials (s : Sys) : list (string * Z) := dials (wld s).

Section Dials.
Context `{E : Env} `{C : Cotp}.

Lemma SendContext_undialled c ctx data : preserves undialled (SendContext c ctx data).
Proof. unfold SendContext, setWriteDeadline, io_deadline, ctx_check. preserve. Qed.
Lemma ReceiveContext_undialled c ctx : preserves undialled (ReceiveContext c ctx).
Proof. unfold ReceiveContext, setReadDeadline, io_deadline, ctx_check. preserve. Qed.
Lemma Close_undialled c : preserves undialled (Close c).
Proof. unfold Close. preserve. Qed.
Lemma ctx_check_undialled ctx : preserves undialled (ctx_check ctx).
Proof. unfold ctx_check. preserve. Qed.
Lemma ctx_wait_undialled ctx d : preserves undialled (ctx_wait ctx d).
Proof. unfold ctx_wait. preserve. Qed.
#[local] Hint Resolve SendContext_undialled ReceiveContext_undialled Close_undialled
  ctx_check_undialled ctx_wait_undialled : go.

Lemma connect_handshake_undialled ctx o rack slot c :
  preserves undialled (connect_handshake ctx o rack slot c).
Proof. unfold connect_handshake, performCOTPConnect, performS7Setup. preserve. Qed.

Lemma on_net_dials n {A} (m : M World A) : grows dials n m -> grows sys_dials n (on_net m).
Proof. intros Hm s s' r [H _]%on_net_inv. by apply Hm in H. Qed.

Lemma undialled_dials {A} (m : M World A) : preserves undialled m -> grows sys_dials 0 (on_net m).
Proof. intros Hm. by apply on_net_dials, grows_same. Qed.

Lemma dialTransport_dials ctx addr t : grows dials 1 (dialTransport ctx addr t).
Proof.
  intros w w' r. unfold dialTransport, bind, gets. cbn.
  destruct env_Dial as [e|]; cbn; intros [= <- _]; by exists [(addr, t)].
Qed.

(** An attempt dials once. *)
Lemma connectOnce_dials ctx rack slot : grows sys_dials 1 (connectOnce ctx rack slot).
Proof.
  unfold connectOnce. change 1 with (0 + (1 + 0)).
  apply grows_bind; [done|by apply grows_same; intros s s' r [= <- _]|intros x].
  apply grows_bind; [done|apply on_net_dials, dialTransport_dials|intros c].
  change 0 with (0 + 0).
  assert (forall A (a : A), grows sys_dials 0 (ret a)) as Hret
    by (intros A a; apply grows_same; by intros s s' r [= <- _]).
  assert (forall c, grows sys_dials 0 (attempt (on_net (Close c)))) as Hclose
    by (intros c'; apply grows_attempt, undialled_dials, Close_undialled).
  apply grows_bind; [done|apply grows_attempt, undialled_dials, connect_handshake_undialled|].
  intros [[[local remote] setup]|e].
  - change 0 with (0 + (0 + 0)).
    apply grows_bind; [done|apply grows_same; by intros s s' r [= <- _]|intros old].
    apply grows_bind; [done|apply grows_same; by intros s s' r [= <- _]|intros _].
    destruct old as [old|]; [|done].
    apply (grows_bind _ 0 0); [done|apply Hclose|done].
  - unfold close_and_fail. apply (grows_bind _ 0 0); [done|apply Hclose|].
    intros _. apply grows_same. by intros s s' r [= <- _].
Qed.

(** So does [Connect] with a given rack and slot. *)
Lemma Connect_dials ctx s s' r :
  autoRackSlot (opts (cl s)) = false -> Connect ctx s = (s', r) ->
  exists l, sys_dials s' = l ++ sys_dials s /\ len l <= 1.
Proof.
  intros Ha H. unfold Connect in H. cbn [gets bind] in H. rewrite Ha in H. cbn [andb] in H.
  revert H. apply (grows_bind _ 0 1); [done|apply grows_same; by intros ? ? ? [= <- _]|intros _].
  unfold log_failure. apply (grows_bind _ 1 0); [done|apply grows_attempt, connectOnce_dials|].
  intros [[]|e]; [apply grows_same; by intros ? ? ? [= <- _]|].
  destruct (logger _); apply grows_same; by intros ? ? ? [= <- _].
Qed.

(** Closing dials nothing. *)
Lemma closing_dials {A} (a : A) s s' r :
  (let* _ := attempt ClientClose in ret a) s = (s', r) -> sys_dials s' = sys_dials s.
Proof.
  intros H. assert (grows sys_dials 0 (let* _ := attempt ClientClose in ret a)) as Hg.
  { assert (forall B (b : B), grows sys_dials 0 (ret b)) as Hret
      by (intros B b; apply grows_same; by intros ? ? ? [= <- _]).
    apply (grows_bind _ 0 0); [done| |done]. apply grows_attempt.
    unfold ClientClose, closeConnLocked.
    apply (grows_bind _ 0 0); [done|apply grows_same; by intros ? ? ? [= <- _]|intros x].
    destruct (conn x) as [c|]; [|done].
    apply (grows_bind _ 0 0); [done|apply grows_attempt, undialled_dials, Close_undialled|intros z].
    apply (grows_bind _ 0 0); [done|apply grows_same; by intros ? ? ? [= <- _]|intros _].
    destruct z; [done|]. apply grows_same. by intros ? ? ? [= <- _]. }
  destruct (Hg _ _ _ H) as (l & Hl & Hn). destruct l; [done|]. exfalso. len.
Qed.
End Dials.

(** ** The outcome of the attempts *)

(** What a result says: a device at one of the pairs, whose TSAP is the one of the pair,
    or why there is none. *)
Inductive discover_shape (ip : string) (port : Z) (pairs : list (Z * Z)) : DiscoverResult -> Prop :=
  | shape_found rack slot remote pdu :
      (rack, slot) ∈ pairs -> BuildTSAP 3 rack slot = Ok remote ->
      discover_shape ip port pairs
        {| DR_IP := ip; DR_Port := port; IsS7 := true; DR_Rack := rack; DR_Slot := slot;
           DR_PDUSize := pdu; DR_TSAP := "0x" +:+ hex04 remote; DR_Error := "";
           AbandonedReason := "" |}
  | shape_not_found err reason :
      In reason [""; "max_attempts"; "context_canceled"] ->
      discover_shape ip port pairs (not_found ip port err reason).

Section ProbeS7Outcome.
Context `{E : Env} `{C : Cotp} `{R : Rng}.

Lemma discover_connect_ends ctx ip port o rack slot w w' r :
  all_closed (conns w) -> discover_connect ctx ip port o rack slot w = (w', r) ->
  (r = Ok None \/ exists info, r = Ok (Some info) /\ CI_Rack info = rack /\ CI_Slot info = slot /\
     BuildTSAP 3 rack slot = Ok (CI_RemoteTSAP info)) /\
  all_closed (conns w') /\
  (exists l, dials w' = l ++ dials w /\ len l <= 1).
Proof.
  intros Hw (s' & H & ->)%with_client_inv.
  match type of H with _ ?s = _ => set (s0 := s) in *;
    assert (session_inv s0) as Hs by (by apply new_client_inv) end.
  apply catch_inv in H as [(s1 & [] & H1 & H)|[(s1 & e & H1 & H)|[H1 ->]]];
    pose proof H1 as Hd; apply Connect_dials in Hd as (l & Hd & Hl); try done;
    apply Connect_outcome in H1; try (by apply session_inv_on_heap); [| |done];
    apply connect_outcome_inv in H1 as Hs1; try done.
  - cbn [bind gets] in H. pose proof H as Hcl.
    apply (close_attempt (Some (ConnectionInfo_of (cl s1)))) in H as [-> Hc]; [|done].
    split; [|split; [done|]].
    + right. eexists. split; [done|].
      destruct H1 as (f & rk & sl & lo & rm & st & Hin & _ & Ht & _ & ->).
      apply list_elem_of_singleton in Hin as [= -> ->]. cbn.
      unfold connect_tsaps in Ht. change (if useExplicit _ then _ else ?t) with t in Ht.
      apply res_bind_Ok in Ht as (t1 & _ & Ht). by apply res_bind_Ok in Ht as (t2 & Ht & [= _ <-]).
    + apply closing_dials in Hcl. exists l. split; [|done].
      change (sys_dials s' = l ++ sys_dials s0). congruence.
  - injection H as <- <-. split; [by left|]. split; [|by exists l].
    destruct H1 as (f & Hf & Hc & _). rewrite Hc. by apply Forall_app.
Qed.

(** A wait between attempts: it ends the loop or changes neither connections nor dials. *)
Definition waits (m : M World unit) : Prop := forall w w' r, m w = (w', r) ->
  r <> Panic /\ conns w' = conns w /\ dials w' = dials w.

Lemma ctx_check_waits ctx : waits (ctx_check ctx).
Proof.
  intros w w' r H. split; [|split; [by eapply ctx_check_silent|by eapply ctx_check_undialled]].
  unfold ctx_check in H. rewrite bind_outside in H. by destruct (ctx_Err _ _); injection H as _ <-.
Qed.
Lemma ctx_wait_waits ctx d : waits (ctx_wait ctx d).
Proof.
  intros w w' r H. split; [|split; [by eapply ctx_wait_silent|by eapply ctx_wait_undialled]].
  unfold ctx_wait in H. rewrite bind_outside in H. by destruct (ctx_Wait _ _ _); injection H as _ <-.
Qed.
Lemma ret_waits : waits (ret tt).
Proof. by intros w w' r [= <- <-]. Qed.

Lemma jitter_wait_waits ctx o seed k : d_jitterMS o < 2 ^ 63 - 1 -> waits (jitter_wait ctx o seed k).
Proof.
  intros Hj. unfold jitter_wait. destruct (Z.ltb_spec 0 (d_jitterMS o)); [|apply ret_waits].
  rewrite int_small by lia. rewrite (proj2 (Z.leb_gt _ 0)) by lia.
  case_if; [apply ctx_wait_waits|apply ret_waits].
Qed.

(** The state between two attempts, and what the rest of the loop may do from there. *)
Definition rest_ends (ip : string) (port : Z) (all : list (Z * Z)) (n : Z) (w w' : World)
    (r : res DiscoverResult) : Prop :=
  (exists a, r = Ok a /\ discover_shape ip port all a) /\ all_closed (conns w') /\
  exists l, dials w' = l ++ dials w /\ len l <= n.

Lemma waits_then ip port all n (m : M World unit) k w w' r :
  waits m -> 0 <= n -> all_closed (conns w) ->
  (forall w1, all_closed (conns w1) -> k tt w1 = (w', r) -> rest_ends ip port all n w1 w' r) ->
  catch m (fun e => ret (not_found ip port (error_text e) "context_canceled")) k w = (w', r) ->
  rest_ends ip port all n w w' r.
Proof.
  intros Hm Hn Hw Hk [(w1 & [] & H1 & H)|[(w1 & e & H1 & H)|[H1 ->]]]%catch_inv;
    apply Hm in H1 as (Hp & Hc & Hd); try done; rewrite <- Hc in Hw.
  - destruct (Hk w1 Hw H) as (Ha & Hc' & l & Hl & ?). split; [done|]. split; [done|].
    exists l. by rewrite Hl, Hd.
  - injection H as <- <-. split; [|split; [done|exists []; by rewrite Hd]].
    eexists. split; [done|]. apply shape_not_found. cbn. auto.
Qed.

Lemma search_pairs_ends ctx ip port o seed all pairs attempts k w w' r :
  d_jitterMS o < 2 ^ 63 - 1 -> 0 <= attempts -> attempts + len pairs < 2 ^ 63 ->
  (forall p, p ∈ pairs -> p ∈ all) -> all_closed (conns w) ->
  search_pairs ctx ip port o seed pairs attempts k w = (w', r) ->
  rest_ends ip port all
    (if 0 <? d_maxAttemptsPerHost o
     then Z.min (len pairs) (Z.max 0 (d_maxAttemptsPerHost o - attempts)) else len pairs) w w' r.
Proof.
  intros Hj. revert attempts k w. induction pairs as [|[rack slot] pairs IH];
    intros attempts k w Ha Hlen Hall Hw H; cbn [search_pairs] in H.
  { injection H as <- <-. split; [|split; [done|exists []; split; [done|case_if; len]]].
    eexists. split; [done|]. apply shape_not_found. cbn. auto. }
  rewrite len_cons in *. pose proof (len_nonneg pairs).
  destruct ((0 <? d_maxAttemptsPerHost o) && (d_maxAttemptsPerHost o <=? attempts)) eqn:Hmax.
  { injection H as <- <-. split; [|split; [done|exists []; split; [done|case_if; len]]].
    eexists. split; [done|]. apply shape_not_found. cbn. auto. }
  match goal with |- rest_ends _ _ _ ?n _ _ _ => assert (1 <= n) as Hn end.
  { apply andb_false_iff in Hmax. case_if; destruct Hmax; zify_bool; lia. }
  revert H. apply waits_then; [apply ctx_check_waits|lia|done|]. clear w Hw. intros w Hw.
  apply waits_then; [by apply jitter_wait_waits|lia|done|]. clear w Hw. intros w Hw.
  apply waits_then; [case_if; [apply ctx_wait_waits|apply ret_waits]|lia|done|].
  clear w Hw. intros w Hw H.
  apply bind_inv in H as [(w1 & info & H1 & H)|[(e & H1 & ->)|[H1 ->]]];
    apply discover_connect_ends in H1 as (Hr & Hw1 & l & Hl & Hl1); try done;
    [|destruct Hr as [Hr|(? & Hr & _)]; discriminate Hr..].
  destruct Hr as [Hr|(i & Hr & Hi1 & Hi2 & Hi3)]; injection Hr as ->.
  - rewrite int_small in H by lia. apply IH in H as (Hr & Hw' & l2 & Hl2 & Hn2); try done; [|lia..|].
    + split; [done|]. split; [done|]. exists (l2 ++ l).
      split; [by rewrite Hl2, Hl, app_assoc|]. rewrite len_app. case_if; lia.
    + intros p Hp. apply Hall. by right.
  - injection H as <- <-. split; [|split; [done|exists l; split; [done|lia]]].
    eexists. split; [done|]. unfold found. rewrite Hi1, Hi2.
    apply shape_found; [|done]. apply Hall. by left.
Qed.

(** A search with some fuel is one of the list of all pairs, or it runs out of fuel. *)
Lemma probeS7_search fuel ctx ip port o w w' r :
  discover_in_range o -> probeS7 fuel ctx ip port o w = (w', r) ->
  (exists w1 seed r', conns w1 = conns w /\ dials w1 = dials w /\
     search_pairs ctx ip port o seed (discover_pairs o) 0 0 w1 = (w', r') /\
     r = (let? a := r' in Ok (Some a))) \/
  Z.of_nat fuel < probe_rounds o /\ r = Ok None.
Proof.
  intros Ho H. assert (exists w1 seed, conns w1 = conns w /\ dials w1 = dials w /\
    probeS7_loop fuel ctx ip port o seed (d_rackMin o) (d_slotMin o) 0 0 w1 = (w', r))
    as (w1 & seed & Hw1 & Hd & H1).
  { unfold probeS7 in H. destruct (0 <? d_jitterMS o).
    - rewrite bind_outside in H. by refine (ex_intro _ _ (ex_intro _ _ (conj _ (conj _ H)))).
    - by exists w, 0. }
  pose proof (probe_rounds_from o).
  apply probeS7_loop_pairs in H1 as [(r' & H1 & ->)|[Hf ->]]; try (done || destruct Ho; lia);
    [left|right; split; [lia|done]].
  rewrite pairs_from_rack in H1. by exists w1, seed, r'.
Qed.
End ProbeS7Outcome.

(** C24: What the search of one address gives, whatever the network, the peers and the
    context do, for options inside the range of [int]: with fuel for the rounds of its
    loops it ends, and never panics; its result is a device found at one of the rack/slot
    pairs of the options, with the TSAP of that pair, or tells why none was found; no
    connection is left open, and no more connections are attempted than there are pairs
    nor than the maximum per host. *)
Theorem probeS7_outcome `{E : Env} `{C : Cotp} `{R : Rng} fuel ctx ip port o w w' r :
  discover_in_range o -> probe_rounds o <= Z.of_nat fuel -> all_closed (conns w) ->
  probeS7 fuel ctx ip port o w = (w', r) ->
  (exists a, r = Ok (Some a) /\ discover_shape ip port (discover_pairs o) a) /\
  all_closed (conns w') /\
  exists l, dials w' = l ++ dials w /\ len l <= len (discover_pairs o) /\
    (0 < d_maxAttemptsPerHost o -> len l <= d_maxAttemptsPerHost o).
Proof.
  intros Ho Hf Hw H.
  apply probeS7_search in H as [(w1 & seed & r' & Hw1 & Hd & H & ->)|[? ->]]; [|lia|done].
  destruct Ho as (_ & _ & _ & _ & Hj & Hlen).
  apply (search_pairs_ends ctx ip port o seed (discover_pairs o)) in H
    as ((a & -> & Hs) & Hc & l & Hl & Hn); [|done..|lia|done|by rewrite Hw1].
  split; [by exists a|]. split; [done|]. exists l. rewrite Hl, Hd. split; [done|].
  pose proof (len_nonneg (discover_pairs o)). case_if; lia.
Qed.

(** A result of a search with any fuel has the shape. *)
Lemma probeS7_shape `{E : Env} `{C : Cotp} `{R : Rng} fuel ctx ip port o w w' a :
  discover_in_range o -> all_closed (conns w) ->
  probeS7 fuel ctx ip port o w = (w', Ok (Some a)) ->
  discover_shape ip port (discover_pairs o) a.
Proof.
  intros Ho Hw H.
  apply probeS7_search in H as [(w1 & seed & r' & Hw1 & Hd & H & Hr)|[? [=]]]; [|done].
  destruct Ho as (_ & _ & _ & _ & Hj & Hlen).
  apply (search_pairs_ends ctx ip port o seed (discover_pairs o)) in H
    as ((a' & -> & Hs) & _); [|done..|lia|done|by rewrite Hw1].
  by injection Hr as ->.
Qed.

(** Every search ends. *)
Lemma probeS7_ends `{E : Env} `{C : Cotp} `{R : Rng} ctx ip port o w :
  discover_in_range o -> all_closed (conns w) ->
  exists w' a, probeS7 (Z.to_nat (probe_rounds o)) ctx ip port o w = (w', Ok (Some a)).
Proof.
  intros Ho Hw. destruct (probeS7 _ ctx ip port o w) as [w' r] eqn:H.
  apply probeS7_search in H as [(w1 & seed & r' & Hw1 & Hd & H & ->)|[? ->]]; [|lia|done].
  destruct Ho as (_ & _ & _ & _ & Hj & Hlen).
  apply (search_pairs_ends ctx ip port o seed (discover_pairs o)) in H
    as ((a & -> & _) & _); [|done..|lia|done|by rewrite Hw1].
  by exists w', a.
Qed.

(** With the largest [int] as the largest slot the loop over the slots has no end: where
    nothing answers and nothing stops it, no fuel is enough. *)
Lemma probeS7_endless `{E : Env} `{C : Cotp} `{R : Rng} fuel ctx ip port o seed rack slot attempts k w :
  d_slotMax o = 2 ^ 63 - 1 -> rack <= d_rackMax o -> slot < 2 ^ 63 ->
  d_maxAttemptsPerHost o = 0 -> d_jitterMS o = 0 -> d_rateMS o = 0 ->
  (forall h, ctx_Err ctx h = None) ->
  (forall rack slot w, snd (discover_connect ctx ip port o rack slot w) = Ok None) ->
  snd (probeS7_loop fuel ctx ip port o seed rack slot attempts k w) = Ok None.
Proof.
  intros Hmax Hr Hs Hm Hj Hrate Hctx Hno. revert slot attempts k w Hs.
  induction fuel as [|fuel IH]; intros slot attempts k w Hs; cbn [probeS7_loop];
    rewrite (proj2 (Z.leb_le _ _)) by done; cbn [negb]; [done|].
  rewrite (proj2 (Z.leb_le _ (d_slotMax o))), Hm by lia. cbn [negb andb Z.ltb Z.compare].
  rewrite (catch_Ok _ _ _ w {| hist := EvCtxErr None :: hist w; conns := conns w |} tt)
    by (unfold ctx_check; by rewrite bind_outside, Hctx).
  rewrite (catch_Ok (jitter_wait ctx o seed k) _ _ _ _ tt) by (unfold jitter_wait; by rewrite Hj).
  rewrite (catch_Ok _ _ _ _ _ tt) by (by rewrite Hrate).
  unfold bind at 1. match goal with |- context [discover_connect ctx ip port o rack slot ?v] =>
    specialize (Hno rack slot v); destruct (discover_connect ctx ip port o rack slot v) as [w1 r1] end.
  cbn in Hno. subst r1. apply IH. pose proof (swrap_range 64 (slot + 1) ltac:(lia)).
  unfold int. lia.
Qed.

(** ** Discover *)

Definition zero_DiscoverResult : DiscoverResult :=
  {| DR_IP := ""; DR_Port := 0; IsS7 := false; DR_Rack := 0; DR_Slot := 0; DR_PDUSize := 0;
     DR_TSAP := ""; DR_Error := ""; AbandonedReason := "" |}.

(** The first pass: [select { case <-ctx.Done(): ...; default: count++ }] per address. *)
Definition poll (ctx : Ctx) : M (World * Z) (option error) :=
  zoom fst (fun w s => (w, snd s)) (outside (ctx_Err ctx) EvCtxErr).

Definition count_send (ctx : Ctx) (_ : string) : M (World * Z) bool :=
  let* e := poll ctx in
  match e with
  | Some _ => ret false
  | None => let* _ := modify (fun s => (fst s, int (snd s + 1))) in ret true
  end.

Definition count_hosts (ctx : Ctx) (cidr : string) : M World Z := fun w =>
  let (s, r) := streamCIDR (poll ctx) cidr (count_send ctx) (w, 0) in
  (fst s, match r with Ok _ => Ok (snd s) | Err e => Err e | Panic => Panic end).

(** What a worker can give for the [i]-th address: what [probeS7] gives in some
    environment, of which the other workers are a part. *)
Definition can_probe `{C : Cotp} (ctx : Ctx) (o : discoverOpts) (addrs : list string)
    (i : nat) (a : DiscoverResult) : Prop :=
  exists ip (E : Env) (R : Rng) fuel w w', addrs !! i = Some ip /\
    all_closed (conns w) /\ probeS7 fuel ctx ip 102 o w = (w', Ok (Some a)).

Definition discover_workers (o : discoverOpts) : Z :=
  if d_parallel o <? 1 then 1 else d_parallel o.

(** [dOpts.parallel*2]; a negative capacity makes [make] panic. *)
Definition discover_capacity (o : discoverOpts) : Z := int (discover_workers o * 2).

(** The possible outcomes of [Discover].  The second pass sends the addresses as jobs; a
    pass that the context does not stop has the same addresses as the first. *)
Inductive Discover `{C : Cotp} (ctx : Ctx) (cidr : string) (opts : list DiscoverOption) :
    res (option (list DiscoverResult) * option error) -> Prop :=
  | Discover_invalid e :
      validate_discover (discover_opts opts) = Err e -> Discover ctx cidr opts (Ok (None, Some e))
  | Discover_count w w' e :
      validate_discover (discover_opts opts) = Ok tt ->
      count_hosts ctx cidr w = (w', Err e) -> Discover ctx cidr opts (Ok (None, Some e))
  | Discover_empty w w' :
      validate_discover (discover_opts opts) = Ok tt ->
      count_hosts ctx cidr w = (w', Ok 0) -> Discover ctx cidr opts (Ok (Some [], None))
  | Discover_panic w w' count :
      validate_discover (discover_opts opts) = Ok tt ->
      count_hosts ctx cidr w = (w', Ok count) -> count <> 0 ->
      discover_capacity (discover_opts opts) < 0 -> Discover ctx cidr opts Panic
  | Discover_run w w' count addrs p h :
      let o := discover_opts opts in
      validate_discover o = Ok tt ->
      count_hosts ctx cidr w = (w', Ok count) -> count <> 0 ->
      cidr_addresses cidr = Ok addrs ->
      let n := discover_workers o in
      0 <= discover_capacity o ->
      rtc (workers_step (Z.to_nat count) (Z.to_nat (discover_capacity o)) (ctx_can_end ctx)
             (can_probe ctx o addrs)) (workers_init (Z.to_nat count) (Z.to_nat n)) p ->
      workers_done p ->
      (ended p = true -> ctx_Err ctx h <> None) ->
      Discover ctx cidr opts
        (Ok (Some (map (default zero_DiscoverResult) (slice p)), ctx_Err ctx h)).

(** A context that is done stays done: what the documentation of [Context.Err] says. *)
Definition sticky (ctx : Ctx) : Prop := forall h ev,
  ctx_Err ctx h <> None -> ctx_Err ctx (ev :: h) <> None.

Lemma cidr_addresses_cases cidr :
  (exists addrs, cidr_addresses cidr = Ok addrs /\ 0 < len addrs <= 2 ^ 20) \/
  exists msg, cidr_addresses cidr = Err (EValidation msg).
Proof.
  destruct (streamCIDR_other cidr) as [(ip & n & Hp & Hok & Hl & Hn)|[msg H]];
    unfold cidr_addresses; [|right; exists msg; by rewrite H].
  rewrite (streamCIDR_net4 _ _ _ _ _ _ Hp) by done.
  destruct (Z.ltb_spec n 12); [right; by eexists|left]. rewrite collect_each.
  eexists. split; [done|]. cbn [app]. unfold hosts, host_numbers. rewrite len_map.
  assert (2 ^ (32 - n) <= 2 ^ 20) by (apply Z.pow_le_mono_r; lia).
  assert (0 < 2 ^ (32 - n)) by (apply Z.pow_pos_nonneg; lia).
  destruct (Z.ltb_spec 2 (2 ^ (32 - n))); unfold len; rewrite length_seqZ; lia.
Qed.

Lemma poll_run ctx s : poll ctx s =
  (({| hist := EvCtxErr (ctx_Err ctx (hist (fst s))) :: hist (fst s); conns := conns (fst s) |},
    snd s), Ok (ctx_Err ctx (hist (fst s)))).
Proof. done. Qed.

Lemma count_each ctx addrs s s' r : sticky ctx -> 0 <= snd s -> snd s + len addrs < 2 ^ 63 ->
  send_each (poll ctx) (count_send ctx) addrs s = (s', r) ->
  r = Ok tt /\ snd s' = snd s + len addrs \/ exists h e, ctx_Err ctx h = Some e /\ r = Err e.
Proof.
  intros Hst. revert s. induction addrs as [|a addrs IH]; intros s H0 Hl H; cbn [send_each] in H.
  { injection H as <- <-. left. split; [done|]. len. }
  rewrite len_cons in *. pose proof (len_nonneg addrs).
  unfold bind at 1 in H. unfold count_send in H at 1. unfold bind at 1 in H. rewrite poll_run in H.
  destruct (ctx_Err ctx (hist (fst s))) as [e|] eqn:He.
  - right. cbn [ret negb] in H. unfold bind in H. rewrite poll_run in H. cbn [fst hist] in H.
    assert (ctx_Err ctx (hist (fst s)) <> None) as Hne by congruence.
    apply (Hst _ (EvCtxErr (Some e))) in Hne.
    destruct (ctx_Err ctx (EvCtxErr (Some e) :: hist (fst s))) as [e'|] eqn:He'; [|done].
    injection H as _ <-. eauto.
  - unfold bind at 1, modify, ret at 1 in H. cbn [negb fst snd] in H.
    rewrite int_small in H by lia. apply IH in H; cbn [snd]; [|lia..].
    destruct H as [[-> ->]|?]; [left; split; [done|cbn; lia]|by right].
Qed.

(** The first pass counts every address, unless the context ends. *)
Lemma count_hosts_spec ctx cidr w w' r : sticky ctx -> count_hosts ctx cidr w = (w', r) ->
  match cidr_addresses cidr with
  | Ok addrs => r = Ok (len addrs) \/ exists h e, ctx_Err ctx h = Some e /\ r = Err e
  | Err e => r = Err e
  | Panic => False
  end.
Proof.
  intros Hst H. unfold count_hosts in H. rewrite streamCIDR_each in H.
  destruct (cidr_addresses_cases cidr) as [(addrs & Ha & Hl)|[msg Ha]];
    rewrite Ha in *; [|by injection H as _ <-].
  destruct (send_each _ _ _ _) as [s r1] eqn:He. injection H as _ <-.
  apply count_each in He; cbn [snd] in *; [|done|lia..].
  destruct He as [[-> ->]|(h & e & ? & ->)]; [by left|right; eauto].
Qed.

(** C22: What [Discover] returns, for every interleaving of its goroutines and every
    behaviour of the network and the context.  It fails only for options or a network
    that it refuses, or with the context's error.  Otherwise there is one result per host
    address of the network, in the order of the addresses, each the outcome of the search
    of its own address; the zero value stands for an address only when the context has
    ended, which is then reported as well.  It panics only for 2^62 workers or more, whose
    channel of jobs would have a negative capacity. *)
Theorem Discover_outcome `{C : Cotp} ctx cidr opts r :
  sticky ctx -> Discover ctx cidr opts r ->
  let o := discover_opts opts in discover_in_range o ->
  match r with
  | Ok (None, err) => exists e, err = Some e /\
      (validate_discover o = Err e \/ cidr_addresses cidr = Err e \/
       exists h, ctx_Err ctx h = Some e)
  | Ok (Some rs, err) => validate_discover o = Ok tt /\
      exists addrs, cidr_addresses cidr = Ok addrs /\
        Forall2 (fun ip a => discover_shape ip 102 (discover_pairs o) a \/
                  a = zero_DiscoverResult /\ ctx_can_end ctx /\ err <> None) addrs rs
  | Err _ => False
  | Panic => 2 ^ 62 <= d_parallel o
  end.
Proof.
  intros Hst H o Ho.
  destruct H as [e Hv|w w' e Hv Hc|w w' Hv Hc|w w' count Hv Hc Hne Hcap
    |w w' count addrs p h o' Hv Hc Hne Ha n Hcap Hrun Hdone He].
  - exists e. split; [done|]. by left.
  - exists e. split; [done|]. right. apply count_hosts_spec in Hc; [|done].
    destruct (cidr_addresses cidr) as [addrs|e'|]; [|left; congruence|done].
    destruct Hc as [|(h & e' & Hh & [= <-])]; [done|]. right. by exists h.
  - exfalso. apply count_hosts_spec in Hc; [|done].
    destruct (cidr_addresses_cases cidr) as [(addrs & Ha & Hl)|[msg Ha]]; rewrite Ha in Hc; [|done].
    destruct Hc as [[= Hc]|(? & ? & _ & [=])]. lia.
  - unfold discover_capacity, discover_workers in Hcap. fold o in Hcap.
    destruct (Z.lt_ge_cases (d_parallel o) (2 ^ 62)) as [Hlt|]; [exfalso|done].
    rewrite int_small in Hcap; revert Hcap; case_if; lia.
  - apply count_hosts_spec in Hc; [|done]. rewrite Ha in Hc.
    destruct Hc as [[= ->]|(? & ? & _ & [=])].
    assert (0 < Z.to_nat n)%nat as Hn by (unfold n, discover_workers; case_if; lia).
    destruct (workers_outcome _ _ _ _ _ _ Hn Hrun Hdone) as (Hl & Hy & Hend & Hall).
    split; [done|]. exists addrs. split; [done|]. apply Forall2_same_length_lookup.
    unfold len in Hl. rewrite Nat2Z.id in Hl. split; [by rewrite length_map, Hl|].
    intros i ip a Hi Hr. apply list_lookup_fmap_Some in Hr as (r & -> & Hr).
    destruct r as [a|].
    + left. apply Hy in Hr as (ip' & E & R & fuel & w1 & w2 & Hi' & Hw & Hp).
      rewrite Hi in Hi'. injection Hi' as <-. by apply probeS7_shape in Hp.
    + right. split; [done|]. destruct (ended p) eqn:Hep; [by auto|].
      destruct (Hall eq_refl i) as (a & Ha' & _); [|congruence].
      unfold len. rewrite Nat2Z.id. by eapply lookup_lt_Some.
Qed.

Definition discover_step `{C : Cotp} (ctx : Ctx) (o : discoverOpts) (addrs : list string) :=
  workers_step (length addrs) (Z.to_nat (discover_capacity o)) (ctx_can_end ctx)
    (can_probe ctx o addrs).

Lemma can_probe_some `{C : Cotp} ctx o addrs i :
  discover_in_range o -> (i < length addrs)%nat -> exists a, can_probe ctx o addrs i a.
Proof.
  intros Ho [ip Hi]%lookup_lt_is_Some_2.
  set (E := sample_env sample_mem). set (R := (fun _ _ _ => 0) : Rng).
  destruct (probeS7_ends (E := E) (R := R) ctx ip 102 o no_world Ho) as (w' & a & H);
    [constructor|]. exists a, ip, E, R, (Z.to_nat (probe_rounds o)), no_world, w'.
  split; [done|]. split; [constructor|exact H].
Qed.

(** C25: The workers of [Discover] end, for options inside the range of [int] and fewer
    than 2^62 workers: every search of an address ends with a result, whatever its
    environment; every execution takes at most 5 n + m + 2 steps for n addresses and m
    workers, and until the caller has left its loop some step is possible; at no time are
    more than m addresses with the workers, and a worker that has a result finds room for
    it in the channel of results. *)
Theorem Discover_ends `{C : Cotp} ctx opts addrs p k :
  let o := discover_opts opts in
  discover_in_range o -> d_parallel o < 2 ^ 62 ->
  nsteps (discover_step ctx o addrs) k
    (workers_init (length addrs) (Z.to_nat (discover_workers o))) p ->
  (forall ip (E : Env) (R : Rng) w, all_closed (conns w) ->
     exists w' a, probeS7 (Z.to_nat (probe_rounds o)) ctx ip 102 o w = (w', Ok (Some a))) /\
  Z.of_nat k <= 5 * len addrs + discover_workers o + 2 /\
  (workers_done p \/ exists p', discover_step ctx o addrs p p') /\
  len (omap job_of (crew p)) <= discover_workers o /\
  (forall i a, Holding i a ∈ crew p -> len (out p) < len addrs).
Proof.
  intros o Ho Hpar H. split; [intros; by apply probeS7_ends|].
  assert (1 <= discover_workers o < 2 ^ 62) as Hn by (unfold discover_workers; case_if; lia).
  assert (discover_capacity o = discover_workers o * 2) as Hcap
    by (unfold discover_capacity; rewrite int_small; lia).
  assert (rtc (discover_step ctx o addrs)
    (workers_init (length addrs) (Z.to_nat (discover_workers o))) p) as Hrtc
    by (apply rtc_nsteps; by exists k).
  pose proof (workers_steps_inv _ _ _ _ _ _ Hrtc) as Hinv.
  pose proof (workers_bounded _ _ _ _ _ _ _ H) as Hk. unfold len in *.
  split; [lia|]. split; [|split].
  - eapply workers_progress; [lia| |exact Hinv]. intros i Hi. by apply can_probe_some.
  - pose proof (workers_under_way _ _ _ _ _ Hinv). lia.
  - intros i a Hi. pose proof (workers_out_room _ _ _ _ _ _ _ Hinv Hi). lia.
Qed.

(** ** Witnesses *)

#[local] Existing Instance sample_cotp.
#[local] Instance sample : Env := sample_env sample_mem.
#[local] Instance sample_rng : Rng := fun _ _ n => n / 2.

Definition sample_discover : list DiscoverOption :=
  [WithDiscoverParallel 1; WithDiscoverRackSlotRange 0 0 1 2; WithDiscoverJitter 3;
   WithDiscoverMaxAttemptsPerHost 1].

Definition sample_found : DiscoverResult :=
  {| DR_IP := "10.0.0.1"; DR_Port := 102; IsS7 := true; DR_Rack := 0; DR_Slot := 1;
     DR_PDUSize := 240; DR_TSAP := "0x0301"; DR_Error := ""; AbandonedReason := "" |}.

Example sample_probeS7 :
  snd (probeS7 10 Background "10.0.0.1" 102 (discover_opts sample_discover) no_world)
  = Ok (Some sample_found).
Proof. vm_compute. reflexivity. Qed.

Lemma sample_can_probe :
  can_probe Background (discover_opts sample_discover) ["10.0.0.1"] 0 sample_found.
Proof.
  destruct (probeS7 10 Background "10.0.0.1" 102 (discover_opts sample_discover) no_world)
    as [w' r] eqn:H.
  exists "10.0.0.1", sample, sample_rng, 10%nat, no_world, w'. split; [done|]. split; [constructor|].
  pose proof sample_probeS7 as Hs. rewrite H in Hs. cbn in Hs. by rewrite Hs in H.
Qed.

Lemma sample_in_range : discover_in_range (discover_opts sample_discover).
Proof. unfold discover_in_range. vm_compute. intuition discriminate. Qed.

Definition sample_workers_end : workers DiscoverResult :=
  {| produced := 1; jobs_closed := true; queue := []; crew := [Gone]; out := [];
     slice := [Some sample_found]; ended := false |}.

Lemma sample_workers_run :
  nsteps (discover_step Background (discover_opts sample_discover) ["10.0.0.1"]) 7
    (workers_init 1 1) sample_workers_end.
Proof.
  eapply nsteps_l; [apply w_produce; vm_compute; auto with lia|].
  eapply nsteps_l; [by apply (w_take _ _ _ _ _ 0%nat [] [] [])|].
  eapply nsteps_l; [apply (w_finish _ _ _ _ _ 0%nat sample_found [] []);
    [done|apply sample_can_probe]|].
  eapply nsteps_l; [apply (w_send _ _ _ _ _ 0%nat sample_found [] []); cbn; auto with lia|].
  eapply nsteps_l; [by apply (w_collect _ _ _ _ _ 0%nat sample_found [])|].
  eapply nsteps_l; [apply w_close; cbn; auto|].
  eapply nsteps_l; [by apply (w_exit _ _ _ _ _ [] [])|]. apply nsteps_O.
Qed.

Lemma streamCIDR_hosts_witness :
  let visit := fun ip => let* _ := modify (fun ips => ips ++ [ip]) in ret (S:=list string) true in
  streamCIDR (ret None) (dotted [10; 0; 1; 255] +:+ "/" +:+ dec 30) visit [] =
  send_each (ret None) visit (map host_text (seqZ (ip_num [10; 0; 1; 252] + 1) (2 ^ 2 - 2))) [].
Proof.
  cbv zeta. apply (streamCIDR_hosts (ret None) _ [10; 0; 1; 255] 30); [|done|lia].
  apply (bool_decide_unpack _). vm_compute. exact I.
Defined.

Lemma streamCIDR_expandCIDR_witness :
  let fuel := Z.to_nat (2 ^ 20) in
  let visit := fun ip => let* _ := modify (fun ips => ips ++ [ip]) in ret (S:=list string) true in
  (exists ips, expandCIDR fuel "10.0.0.0/12" = Ok (Some ips) /\
     streamCIDR (ret None) "10.0.0.0/12" visit [] = send_each (ret None) visit ips []) /\
  streamCIDR (ret None) "10.0.0.0/11" visit []
    = ([], Err (EValidation "CIDR too large for discovery (max /12): 10.0.0.0/11")) /\
  streamCIDR (ret None) "::ffff:10.0.0.0/120" visit []
    = ([], Err (EValidation "expected IPv4 mask, got 128 bits")).
Proof.
  cbv zeta. set (visit := fun ip : string => _).
  assert (2 ^ 20 <= Z.of_nat (Z.to_nat (2 ^ 20))) as Hf by lia.
  split; [|split].
  - exact (streamCIDR_expandCIDR (ret None) visit "10.0.0.0/12" [] _ Hf).
  - exact (proj1 (streamCIDR_expandCIDR (ret None) visit "10.0.0.0/11" [] _ Hf)).
  - exact (proj1 (streamCIDR_expandCIDR (ret None) visit "::ffff:10.0.0.0/120" [] _ Hf)).
Defined.

Lemma probeS7_outcome_witness :
  let o := discover_opts sample_discover in
  let '(w', r) := probeS7 10 Background "10.0.0.1" 102 o no_world in
  (exists a, r = Ok (Some a) /\ discover_shape "10.0.0.1" 102 (discover_pairs o) a) /\
  all_closed (conns w') /\
  exists l, dials w' = l ++ dials no_world /\ len l <= len (discover_pairs o) /\
    (0 < d_maxAttemptsPerHost o -> len l <= d_maxAttemptsPerHost o).
Proof.
  cbv zeta. destruct (probeS7 10 Background "10.0.0.1" 102 (discover_opts sample_discover) no_world)
    as [w' r] eqn:H.
  apply (probeS7_outcome 10 Background "10.0.0.1" 102 (discover_opts sample_discover) no_world);
    [exact sample_in_range|by vm_compute|constructor|exact H].
Defined.

Lemma Discover_outcome_witness :
  Forall2 (fun ip a => discover_shape ip 102 (discover_pairs (discover_opts sample_discover)) a \/
      a = zero_DiscoverResult /\ ctx_can_end Background /\ None (A:=error) <> None)
    ["10.0.0.1"] [sample_found].
Proof.
  assert (Discover Background "10.0.0.1/32" sample_discover (Ok (Some [sample_found], None))) as H.
  { apply (Discover_run Background "10.0.0.1/32" sample_discover no_world
      (fst (count_hosts Background "10.0.0.1/32" no_world)) 1 ["10.0.0.1"] sample_workers_end []).
    - reflexivity.
    - vm_compute. reflexivity.
    - done.
    - vm_compute. reflexivity.
    - vm_compute. discriminate.
    - apply rtc_nsteps. exists 7%nat. exact sample_workers_run.
    - by repeat constructor.
    - done. }
  apply (Discover_outcome Background "10.0.0.1/32") in H as (_ & addrs & Ha & HF);
    [|intros ? ? []; done|exact sample_in_range].
  vm_compute in Ha. by injection Ha as <-.
Defined.

Lemma Discover_ends_witness :
  (forall ip (E : Env) (R : Rng) w, all_closed (conns w) -> exists w' a,
     probeS7 3 Background ip 102 (discover_opts sample_discover) w = (w', Ok (Some a))) /\
  7 <= 5 * 1 + 1 + 2 /\
  (workers_done sample_workers_end \/ exists p',
     discover_step Background (discover_opts sample_discover) ["10.0.0.1"] sample_workers_end p') /\
  len (omap job_of (crew sample_workers_end)) <= 1 /\
  (forall i a, Holding i a ∈ crew sample_workers_end -> len (out sample_workers_end) < 1).
Proof.
  apply (Discover_ends Background sample_discover ["10.0.0.1"] sample_workers_end 7);
    [exact sample_in_range|done|exact sample_workers_run].
Defined.
